(* ===== verification/_CoqProject ===== *)
-Q . S2P
Prelude.v
Vfs.v
Block.v
Framebuffer.v
Tmp.v
Ram.v
Dev.v
Fat.v
FatName.v
FatTable.v
FatChain.v
FatDir.v
FatFile.v
FatSpec.v
FatDriver.v
FatVolume.v
Ata.v
Root.v
Memory.v
Gdt.v
Keyboard.v
Interrupts.v
Executor.v
Wakeup.v
Shell.v
System.v
Boot.v
Runner.v
