(* ===== verification/Prelude.v ===== *)
(** * Willo kernel: a shallow embedding and its correctness theorems

    Willo is a single-CPU [no_std] kernel written in Rust (src/kernel/src) with a host-side runner
    (src/src/main.rs). After boot one asynchronous task, the shell, reads scancodes that the keyboard
    interrupt queues, edits a line, and runs commands against a virtual file system whose mounts are a
    FAT32 volume behind an ATA PIO driver (or a read-only tree when there is no data disk), a tmpfs, a
    devfs and the read-only tree again; output goes to the serial port and to a framebuffer console with
    scrollback. The runner packs the kernel and a seeded data disk for QEMU and turns the guest's verdict
    into an exit code.

    ** Files and the code they model

    - [Prelude] (this file): bytes, strings, machine integers, the outcome type [res] and the
      state-and-error monad [M], UTF-8, decimal and little-endian codecs, and the lemmas, tactics and
      hint databases ([willo], [answers]) the components share.
    - [Vfs]: fs/mod.rs — [normalize], the mount table, [Vfs::resolve], every routed operation. The
      trait [FileSystem] is a class with its default methods; [FileSystemSpec] is what backends promise.
    - [Block]: block.rs — the trait [BlockDevice] as a class, the abstract [Disk], the contract
      [BlockDeviceSpec] of a driver against it; also the record [Devices] of the drive, the serial log,
      the console and the tick counter, and the class [Console] with [ConsoleSpec].
    - [Framebuffer]: framebuffer.rs — cursor, glyphs, pixels, the scrollback ring; the font is a class.
    - [Tmp], [Ram], [Dev]: fs/tmp.rs, fs/ram.rs, fs/dev.rs.
    - [Fat]: fs/fat.rs, the whole driver over any block device. Its proofs: [FatName] (8.3 entries),
      [FatTable] (the FAT and its copies), [FatChain] (cluster chains), [FatDir] (directories), [FatFile]
      (paths and files), [FatSpec] (the operations' specifications and a concrete image), [FatDriver]
      (independence of the block device), [FatVolume] (the directory tree as a whole: its invariant [vol]
      and the namespace [fat_ns] it implements).
    - [Ata]: ata.rs, port by port. [PortIo] are the ports, [IdeSpec] the documented ATA protocol,
      [Ata.model] a controller that keeps it.
    - [Root]: [mount_root] of fs/mod.rs, dispatch over the four backends, the boot-time routing.
    - [Memory]: memory.rs and allocator.rs. [Gdt]: gdt.rs. [Interrupts]: interrupts.rs, [exit_qemu].
    - [Keyboard], [Executor]: task/keyboard.rs; task/mod.rs, executor.rs and simple_executor.rs.
    - [Wakeup]: the main loop as a step relation in which the keyboard and timer interrupts may fire
      between any two atomic steps of [Executor::run] and of the shell's [poll_next].
    - [Shell]: shell.rs, every command and the key loop. [System]: the shell on the assembled stack.
    - [Boot]: main.rs, lib.rs and serial.rs — [kernel_main] and the panic handler.
    - [Runner]: src/src/main.rs.

    ** How code is rendered

    A function that mutates state is a function in [M S E A], from a state to a result and a state.
    [Err] is a Rust error value, [Panic] a panic: overflow under the dev profile, an index out of range,
    a failed [expect]; [Diverge] is fuel that ran out. Integers are [Z] with their width's checks or
    wrap-around written out; strings and buffers are byte lists; a [BTreeMap] is a [gmap] listed in key
    order. Code that is not in the repository is a class: operations, and a second class with the laws
    its documentation gives. Every such law has an instance: [model] for the IDE controller,
    [screen.tiny_font] for the font, [map_example] for page tables, [slot_list] for the descriptor table,
    [small_host] for host tools and fatfs. The decoding of scancodes and the texts of crates'
    [Debug] output are plain arguments.

    ** Fuel

    The chain walks of the FAT driver take [chain_fuel] steps, one more than the FAT has entries: a chain
    without repetition is shorter, and the theorems of [FatSpec] show the operations return on every
    well-formed volume; on a cyclic chain the code loops and the model answers [Diverge]. The ATA polls
    use the code's own [POLL_LIMIT]. [run_ready_tasks] and [simple_run] take fuel for their polls;
    [simple_executor_completes] gives the amount that is enough. [hex] needs sixteen digits for a [u64].

    ** What the theorems show

    - FAT32: every session of operations on a well-formed volume refines a flat case-insensitive namespace
      and keeps the volume well formed, as long as the free clusters pay for it; read-your-writes, append,
      remove and create_dir in a single well-formed directory, on a volume that need not be well formed
      elsewhere, each with what it leaves alone; the outcome of [mount] on every disk; the 8.3 codec's round trip and exactly
      which names survive it.
    - ATA: the driver refines an array of blocks behind any controller that keeps the protocol; a stuck
      controller yields a timeout; the probe learns the size and is idempotent.
    - Paths and mounts: canonical paths, longest-prefix resolution whatever the order of mounts, the
      table's invariant, listings that surface mount points. tmpfs refines a flat namespace; devfs round
      trips.
    - Console: no session writes outside the pixel buffer, the scrollback is exactly the last lines
      printed, and scrolling shows exactly the recorded lines.
    - Shell: a typed and edited line runs as the reference editor computes it, no key panics, commands
      print whole lines; from the command line to the I/O ports, [write] then [cat] shows the words.
    - Tasks and interrupts: no wake-up is lost and no key reordered under any interleaving, pending keys
      are handled within a bounded number of steps, the clock [uptime] shows counts the timer interrupts,
      executors keep their tables consistent and run their tasks to completion; the fault fixup is used
      once, selectors fit SYSCALL/SYSRET.
    - Memory and boot: every usable frame is handed out once, the heap is backed page by page, and a boot either
      reaches the shell's loop, which then never panics or hangs on the fallback tree, or reports failure.
    - Runner: the guest's verdict becomes the exit code, disk images are made, reused and removed as they
      should, and the seeded data disk is readable by the kernel and agrees with its fallback tree.

    Some theorems record defects rather than virtues: [alloc_past_end], [write_failure_loses_file],
    [bottom_wrap_overdraws], [failed_build_leaves_image], and the panicking branch of
    [fat_mount_outcome].

    ** Not modelled

    - The internals of crates: paging structures, the UART, the PICs, the heap allocator's free list,
      scancode tables, glyph bitmaps. They appear as the classes and arguments above.
    - Locks. The kernel has one CPU and takes its spin locks with interrupts off or outside handlers; an
      operation under a lock is one step. So is the processing of one scancode, between interrupts.
    - Memory safety of the [unsafe] blocks, and exhaustion of the heap.
    - During boot, interrupts: the keyboard queue does not exist yet, so a key press does nothing, and a
      tick only counts.
    - The integration tests under kernel/tests, build files and documents. *)

From Stdlib Require Export ZArith.
From Stdlib Require Export Strings.Byte.
From stdpp Require Export base tactics numbers list gmap strings pretty sorting.

(** ** Bytes and strings

    A Rust [u8] is [Byte.byte]; a [&str]/[String] is its UTF-8 byte sequence and a
    [&[u8]]/[Vec<u8>] is a byte list, so both are [list byte] and [as_bytes] is the identity. *)

#[global] Instance byte_eq_dec : EqDecision Byte.byte := Byte.byte_eq_dec.
#[global] Program Instance byte_countable : Countable Byte.byte :=
  inj_countable Byte.to_N Byte.of_N _.
Next Obligation.
  intros x. apply Byte.of_to_N.
Qed.

#[global] Instance byte_inhabited : Inhabited Byte.byte := populate Byte.x00.

Abbreviation byte := Byte.byte.
Abbreviation bytes := (list Byte.byte).
Abbreviation str := (list Byte.byte).

(** String literal as a byte string. *)
Definition s_ (s : string) : str := String.list_byte_of_string s.

(** ["\n"]. *)
Definition NL : str := [Byte.x0a].

Declare Scope rust_scope.
Delimit Scope rust_scope with rust.
Open Scope rust_scope.

(** ** Outcomes and the kernel's state-and-error monad

    [Panic] is a Rust panic (failed bounds check, arithmetic overflow under the dev profile,
    [expect] on a failure value); [Diverge] is a loop that ran out of the fuel its definition
    documents. *)

Inductive res (E A : Type) : Type :=
| Ok (a : A)
| Err (e : E)
| Panic
| Diverge.
Arguments Ok {E A} _.
Arguments Err {E A} _.
Arguments Panic {E A}.
Arguments Diverge {E A}.

Definition rbind {E A B} (r : res E A) (k : A -> res E B) : res E B :=
  match r with
  | Ok a => k a
  | Err e => Err e
  | Panic => Panic
  | Diverge => Diverge
  end.

(** [map_err] of [Result], and the conversion the [?] operator applies. *)
Definition map_err {E F A} (f : E -> F) (r : res E A) : res F A :=
  match r with
  | Ok a => Ok a
  | Err e => Err (f e)
  | Panic => Panic
  | Diverge => Diverge
  end.

(** [Option::ok_or]. *)
Definition ok_or {E A} (e : E) (o : option A) : res E A :=
  match o with
  | Some a => Ok a
  | None => Err e
  end.

Definition M (S E A : Type) : Type := S -> res E A * S.

Definition ret {S E A} (a : A) : M S E A := fun s => (Ok a, s).
Definition throw {S E A} (e : E) : M S E A := fun s => (Err e, s).
Definition panic {S E A} : M S E A := fun s => (Panic, s).
Definition diverge {S E A} : M S E A := fun s => (Diverge, s).
Definition lift {S E A} (r : res E A) : M S E A := fun s => (r, s).

Definition bind {S E A B} (m : M S E A) (k : A -> M S E B) : M S E B :=
  fun s =>
    match m s with
    | (Ok a, s') => k a s'
    | (Err e, s') => (Err e, s')
    | (Panic, s') => (Panic, s')
    | (Diverge, s') => (Diverge, s')
    end.

(** [let? x := r in k] is [let x = r?; k] on pure results; [let* x := m in k] is the same for
    computations that also change the state. *)
Notation "'let?' x ':=' r 'in' k" := (rbind r (fun x => k))
  (at level 10, x pattern, r at level 200, k at level 200) : rust_scope.
Notation "'let*' x ':=' m 'in' k" := (bind m (fun x => k))
  (at level 10, x pattern, m at level 200, k at level 200) : rust_scope.
Notation "m ;;; k" := (bind m (fun _ => k))
  (at level 100, k at level 200, right associativity) : rust_scope.

(** Convert the error of a call into the caller's error type. *)
Definition mmap_err {S E F A} (f : E -> F) (m : M S E A) : M S F A :=
  fun s => let '(r, s') := m s in (map_err f r, s').

(** [let _ = m;]: run [m] and discard an error value. *)
Definition ignore {S E F A} (m : M S E A) : M S F unit :=
  fun s =>
    match m s with
    | (Ok _, s') => (Ok tt, s')
    | (Err _, s') => (Ok tt, s')
    | (Panic, s') => (Panic, s')
    | (Diverge, s') => (Diverge, s')
    end.

(** [match m { r => k r }]: continue with the [Result] itself. *)
Definition mcase {S E F A B} (m : M S E A) (kok : A -> M S F B) (kerr : E -> M S F B) : M S F B :=
  fun s =>
    match m s with
    | (Ok a, s') => kok a s'
    | (Err e, s') => kerr e s'
    | (Panic, s') => (Panic, s')
    | (Diverge, s') => (Diverge, s')
    end.

(** [for x in l { body }]. *)
Fixpoint for_each {S E A} (l : list A) (body : A -> M S E unit) : M S E unit :=
  match l with
  | [] => ret tt
  | x :: l' => body x ;;; for_each l' body
  end.

(** A [for] loop whose body may [return] early with a value. *)
Fixpoint for_ret {S E A R} (l : list A) (body : A -> M S E (option R)) : M S E (option R) :=
  match l with
  | [] => ret None
  | x :: l' =>
      let* r := body x in
      match r with
      | Some v => ret (Some v)
      | None => for_ret l' body
      end
  end.

(** A [for] loop over a mutable accumulator. *)
Fixpoint for_acc {S E A B} (l : list A) (acc : B) (body : B -> A -> M S E B) : M S E B :=
  match l with
  | [] => ret acc
  | x :: l' => let* acc' := body acc x in for_acc l' acc' body
  end.

(** [l.iter().enumerate()]. *)
Fixpoint enumerate_from {A} (i : Z) (l : list A) : list (Z * A) :=
  match l with
  | [] => []
  | x :: l' => (i, x) :: enumerate_from (i + 1) l'
  end.
Definition enumerate {A} (l : list A) : list (Z * A) := enumerate_from 0 l.

(** Run a sequence of operations, collecting their results. *)
Fixpoint run_ops {S O R : Type} (exec : O -> S -> R * S) (l : list O) (s : S) : list R * S :=
  match l with
  | [] => ([], s)
  | o :: l' =>
      let '(r, s1) := exec o s in
      let '(rs, s2) := run_ops exec l' s1 in (r :: rs, s2)
  end.

(** The half-open range [0..n] of a loop counter, as integers. *)
Definition range0 (n : Z) : list Z := seqZ 0 n.

(** ** Machine integers

    [u8]/[u16]/[u32] values are integers in range; [+], [-] and [*] on [u32] panic on overflow
    (the kernel is built with the dev profile), and [as u32] truncates. *)

Definition u8 (b : byte) : Z := Z.of_N (Byte.to_N b).
Definition of_u8 (z : Z) : byte := default Byte.x00 (Byte.of_N (Z.to_N (z mod 256))).

Definition U32_MAX : Z := 4294967295.
Definition USIZE_MAX : Z := 18446744073709551615.

Definition in_u32 (z : Z) : bool := (0 <=? z)%Z && (z <=? U32_MAX)%Z.
Definition as_u32 (z : Z) : Z := (z mod 4294967296)%Z.

Definition checked {S E} (z : Z) : M S E Z := if in_u32 z then ret z else panic.
Definition u32_add {S E} (a b : Z) : M S E Z := checked (a + b)%Z.
Definition u32_sub {S E} (a b : Z) : M S E Z := checked (a - b)%Z.
Definition u32_mul {S E} (a b : Z) : M S E Z := checked (a * b)%Z.

(** [usize] is 64 bits wide on the kernel's target. *)
Definition in_usize (z : Z) : bool := (0 <=? z)%Z && (z <=? USIZE_MAX)%Z.
Definition usize_checked {S E} (z : Z) : M S E Z := if in_usize z then ret z else panic.
Definition usize_add {S E} (a b : Z) : M S E Z := usize_checked (a + b)%Z.
Definition usize_sub {S E} (a b : Z) : M S E Z := usize_checked (a - b)%Z.
Definition usize_mul {S E} (a b : Z) : M S E Z := usize_checked (a * b)%Z.
Definition saturating_sub (a b : Z) : Z := Z.max 0 (a - b).

(** Little-endian encoding: [from_le_bytes] and [to_le_bytes]. *)
Fixpoint le_val (l : bytes) : Z :=
  match l with
  | [] => 0
  | b :: l' => u8 b + 256 * le_val l'
  end%Z.

Fixpoint le_bytes (n : nat) (z : Z) : bytes :=
  match n with
  | O => []
  | S n' => of_u8 z :: le_bytes n' (z / 256)
  end.

(** Buffers: [buf[off..off + n]], and [buf[off..off + n].copy_from_slice(data)]. Both panic when
    the range runs past the buffer. *)
Definition sub_bytes (off n : nat) (buf : bytes) : bytes := take n (drop off buf).

Definition splice (off : nat) (data buf : bytes) : bytes :=
  take off buf ++ data ++ drop (off + length data) buf.

Definition slice {S E} (off n : nat) (buf : bytes) : M S E bytes :=
  if decide (off + n <= length buf) then ret (sub_bytes off n buf) else panic.

Definition get_le {S E} (n off : nat) (buf : bytes) : M S E Z :=
  let* l := slice off n buf in ret (le_val l).

Definition put {S E} (off : nat) (data buf : bytes) : M S E bytes :=
  if decide (off + length data <= length buf) then ret (splice off data buf) else panic.

Definition zeros (n : nat) : bytes := replicate n Byte.x00.

(** [slice.chunks_exact(n)]: the whole chunks of size [n], dropping a shorter tail. The first
    argument bounds the number of chunks. *)
Fixpoint chunks_go (k n : nat) (l : bytes) : list bytes :=
  match k with
  | O => []
  | S k' => take n l :: chunks_go k' n (drop n l)
  end.

Definition chunks_exact (n : nat) (l : bytes) : list bytes := chunks_go (length l / n) n l.

(** ** The parts of Rust's [str] API the kernel uses, on byte strings *)

(** [s.split(c)]: always at least one piece. *)
Fixpoint split_on (c : byte) (s : str) : list str :=
  match s with
  | [] => [[]]
  | x :: s' =>
      if decide (x = c) then [] :: split_on c s'
      else match split_on c s' with
           | [] => [[x]]
           | w :: ws => (x :: w) :: ws
           end
  end.

(** [s.split('/').filter(|s| !s.is_empty())]. *)
Definition segments (s : str) : list str := filter (fun w => w <> []) (split_on "/" s).

(** [s.strip_prefix(p)]. *)
Fixpoint strip_prefix (p s : str) : option str :=
  match p, s with
  | [], _ => Some s
  | x :: p', y :: s' => if decide (x = y) then strip_prefix p' s' else None
  | _ :: _, [] => None
  end.

Definition starts_with (p s : str) : bool := if strip_prefix p s is Some _ then true else false.

(** [s.trim_end_matches(c)]. *)
Fixpoint trim_end (c : byte) (s : str) : str :=
  match s with
  | [] => []
  | x :: s' =>
      match trim_end c s' with
      | [] => if decide (x = c) then [] else [x]
      | t => x :: t
      end
  end.

(** [s.rfind(c)]: index of the last occurrence. *)
Fixpoint rfind (c : byte) (s : str) : option nat :=
  match s with
  | [] => None
  | x :: s' =>
      match rfind c s' with
      | Some i => Some (S i)
      | None => if decide (x = c) then Some 0 else None
      end
  end.

Definition contains (c : byte) (s : str) : bool := bool_decide (c ∈ s).

(** [s.ends_with(c)]. *)
Definition ends_with (c : byte) (s : str) : bool := bool_decide (last s = Some c).

(** [words.join(sep)]. *)
Fixpoint join (sep : str) (ws : list str) : str :=
  match ws with
  | [] => []
  | [w] => w
  | w :: ws' => w ++ sep ++ join sep ws'
  end.

(** [u8::to_ascii_uppercase] and [u8::to_ascii_lowercase]. *)
Definition to_upper (b : byte) : byte :=
  if decide (97 <= u8 b <= 122)%Z then of_u8 (u8 b - 32) else b.
Definition to_lower (b : byte) : byte :=
  if decide (65 <= u8 b <= 90)%Z then of_u8 (u8 b + 32) else b.

(** [str::eq_ignore_ascii_case]. *)
Definition eq_ignore_case (a b : str) : bool :=
  bool_decide (map to_lower a = map to_lower b).

(** ** UTF-8 and [char]

    A [char] is a Unicode scalar value. [utf8_decode] is [core::str::from_utf8] followed by
    [chars()]; it fails exactly on ill-formed input (overlong forms, surrogates and values past
    U+10FFFF included). *)

Definition is_scalar (c : Z) : bool :=
  ((0 <=? c) && (c <=? 55295) || (57344 <=? c) && (c <=? 1114111))%Z.

(** [char::encode_utf8]. *)
Definition utf8_encode (c : Z) : bytes :=
  if (c <? 128)%Z then [of_u8 c]
  else if (c <? 2048)%Z then [of_u8 (192 + c / 64); of_u8 (128 + c mod 64)]
  else if (c <? 65536)%Z then
    [of_u8 (224 + c / 4096); of_u8 (128 + c / 64 mod 64); of_u8 (128 + c mod 64)]
  else
    [of_u8 (240 + c / 262144); of_u8 (128 + c / 4096 mod 64);
     of_u8 (128 + c / 64 mod 64); of_u8 (128 + c mod 64)].

(** A continuation byte's six payload bits. *)
Definition utf8_cont (b : byte) : option Z :=
  if ((128 <=? u8 b) && (u8 b <=? 191))%Z then Some (u8 b - 128)%Z else None.

(** Decode one scalar value off the front. *)
Definition utf8_next (l : bytes) : option (Z * bytes) :=
  match l with
  | [] => None
  | b0 :: l1 =>
      let x := u8 b0 in
      if (x <? 128)%Z then Some (x, l1)
      else if ((194 <=? x) && (x <=? 223))%Z then
        match l1 with
        | b1 :: l2 => c1 ← utf8_cont b1; Some ((x - 192) * 64 + c1, l2)%Z
        | _ => None
        end
      else if ((224 <=? x) && (x <=? 239))%Z then
        match l1 with
        | b1 :: b2 :: l3 =>
            c1 ← utf8_cont b1; c2 ← utf8_cont b2;
            let c := ((x - 224) * 4096 + c1 * 64 + c2)%Z in
            if (2048 <=? c)%Z && is_scalar c then Some (c, l3) else None
        | _ => None
        end
      else if ((240 <=? x) && (x <=? 244))%Z then
        match l1 with
        | b1 :: b2 :: b3 :: l4 =>
            c1 ← utf8_cont b1; c2 ← utf8_cont b2; c3 ← utf8_cont b3;
            let c := ((x - 240) * 262144 + c1 * 4096 + c2 * 64 + c3)%Z in
            if (65536 <=? c)%Z && is_scalar c then Some (c, l4) else None
        | _ => None
        end
      else None
  end.

Fixpoint utf8_go (fuel : nat) (l : bytes) : option (list Z) :=
  match l with
  | [] => Some []
  | _ => match fuel with
         | O => None
         | S fuel' => '(c, l') ← utf8_next l; cs ← utf8_go fuel' l'; Some (c :: cs)
         end
  end.

Definition utf8_decode (l : bytes) : option (list Z) := utf8_go (length l) l.

(** [s.chars()] of a string. *)
Definition chars (s : str) : list Z := default [] (utf8_decode s).

(** A string from its characters. *)
Definition of_chars (cs : list Z) : str := concat (map utf8_encode cs).

(** [s.push(b as char)] for a [u8]. *)
Definition latin1 (b : byte) : str := utf8_encode (u8 b).

(** [format!("{}", n)] for an unsigned integer. *)
Definition dec (n : Z) : str := s_ (pretty (Z.to_N n)).

(** Iteration order of [BTreeMap<String, _>]: keys in ascending byte order. *)
Fixpoint str_leb (a b : str) : bool :=
  match a, b with
  | [], _ => true
  | _ :: _, [] => false
  | x :: a', y :: b' =>
      if (u8 x <? u8 y)%Z then true
      else if (u8 y <? u8 x)%Z then false
      else str_leb a' b'
  end.

Definition str_le (a b : str) : Prop := str_leb a b = true.
#[global] Instance str_le_dec : RelDecision str_le.
Proof.
  intros a b. unfold str_le. apply _.
Defined.

Definition sort_strs (l : list str) : list str := merge_sort str_le l.
Definition btree_keys {V} (m : gmap str V) : list str := sort_strs (map fst (map_to_list m)).

(** ** Automation *)

Create HintDb willo.

(** Split hypotheses that are conjunctions, existentials or equalities between pairs, results
    and constructors, and substitute. *)
Ltac dex :=
  repeat match goal with
  | H : _ /\ _ |- _ => destruct H
  | H : exists _, _ |- _ => destruct H
  end; simplify_eq/=.

(** Case analysis on the innermost scrutinee of a [match] or [if] in the goal or a hypothesis. *)
Ltac break :=
  match goal with
  | |- context [match ?x with _ => _ end] =>
      lazymatch x with context [match _ with _ => _ end] => fail | _ => destruct x eqn:? end
  | H : context [match ?x with _ => _ end] |- _ =>
      lazymatch x with context [match _ with _ => _ end] => fail | _ => destruct x eqn:? end
  end; simplify_eq/=.

(** ** Lemmas: the monad *)

Section monad_lemmas.
Context {S E A B : Type}.
Implicit Types (m : M S E A) (k : A -> M S E B) (s : S).

Lemma bind_ok m k s a s' : m s = (Ok a, s') -> bind m k s = k a s'.
Proof.
  intros H. unfold bind. by rewrite H.
Qed.

Lemma bind_bind {C} (m : M S E A) (f : A -> M S E B) (g : B -> M S E C) s :
  bind (bind m f) g s = bind m (fun x => bind (f x) g) s.
Proof.
  unfold bind. destruct (m s) as [[] ?]; done.
Qed.

Lemma bind_err m k s e s' : m s = (Err e, s') -> bind m k s = (Err e, s').
Proof.
  intros H. unfold bind. by rewrite H.
Qed.

Lemma bind_inv_ok m k s b s'' :
  bind m k s = (Ok b, s'') -> exists a s', m s = (Ok a, s') /\ k a s' = (Ok b, s'').
Proof.
  unfold bind. destruct (m s) as [[a|e| |] s'] eqn:H; intros; simplify_eq. eauto.
Qed.

Lemma bind_inv_err m k s e s'' :
  bind m k s = (Err e, s'') ->
  m s = (Err e, s'') \/ exists a s', m s = (Ok a, s') /\ k a s' = (Err e, s'').
Proof.
  unfold bind. destruct (m s) as [[a|e'| |] s'] eqn:H; intros; simplify_eq; eauto.
Qed.

Lemma bind_ret (a : A) k s : bind (ret a) k s = k a s.
Proof.
  done.
Qed.

Lemma mmap_err_ok {F} (f : E -> F) m s a s' :
  m s = (Ok a, s') -> mmap_err f m s = (Ok a, s').
Proof.
  intros H. unfold mmap_err. by rewrite H.
Qed.

Lemma mmap_err_inv_ok {F} (f : E -> F) m s a s' :
  mmap_err f m s = (Ok a, s') -> m s = (Ok a, s').
Proof.
  unfold mmap_err. destruct (m s) as [[]]; simpl; intros; by simplify_eq.
Qed.

(** A loop whose bodies keep an invariant keeps it. *)
Lemma for_each_inv {X} (P : S -> Prop) (l : list X) (body : X -> M S E unit) s r s' :
  (forall x s1 r1 s2, x ∈ l -> P s1 -> body x s1 = (r1, s2) -> P s2) ->
  P s -> for_each l body s = (r, s') -> P s'.
Proof.
  revert s. induction l as [|x l IH]; intros s Hb HP H; simpl in H.
  { by injection H as <- <-. }
  unfold bind in H. destruct (body x s) as [r1 s1] eqn:Hx.
  assert (P s1) by (eapply (Hb x s); eauto; set_solver).
  destruct r1; try by injection H as <- <-.
  eapply IH; eauto. intros; eapply Hb; eauto; set_solver.
Qed.

End monad_lemmas.

Lemma run_ops_app {S O R : Type} (exec : O -> S -> R * S) a b s ra s' :
  run_ops exec a s = (ra, s') ->
  run_ops exec (a ++ b) s = (ra ++ fst (run_ops exec b s'), snd (run_ops exec b s')).
Proof.
  revert s ra. induction a as [|o a IH]; intros s ra H; cbn [run_ops app] in *.
  - injection H as <- <-. by destruct (run_ops exec b s).
  - destruct (exec o s) as [r s1]. destruct (run_ops exec a s1) as [rs s2] eqn:E. injection H as <- <-.
    by rewrite (IH _ _ E).
Qed.

(** ** Normal return

    A computation answers on [P] when from every state of [P] it neither panics nor diverges, stays in
    [P], and its errors satisfy [Q]. *)
Definition good {E A} (Q : E -> Prop) (r : res E A) : Prop :=
  match r with
  | Ok _ => True
  | Err e => Q e
  | Panic | Diverge => False
  end.

Definition answers {S E A} (P : S -> Prop) (Q : E -> Prop) (m : M S E A) : Prop :=
  forall s, P s -> exists r s', m s = (r, s') /\ good Q r /\ P s'.

(** As [answers], without errors. *)
Definition total_on {S E A} (P : S -> Prop) (m : M S E A) : Prop :=
  forall s, P s -> exists a s', m s = (Ok a, s') /\ P s'.

Section answers.
Context {S E A B : Type} (P : S -> Prop) (Q : E -> Prop).

Lemma answers_lift (r : res E A) : good Q r -> answers P Q (lift r).
Proof.
  intros Hr s Hs. by exists r, s.
Qed.

Lemma answers_ret (a : A) : answers P Q (ret a).
Proof.
  by apply answers_lift.
Qed.

Lemma answers_throw (e : E) : Q e -> answers (A:=A) P Q (throw e).
Proof.
  intros He. by apply answers_lift.
Qed.

Lemma answers_bind (m : M S E A) (k : A -> M S E B) :
  answers P Q m -> (forall a, answers P Q (k a)) -> answers P Q (bind m k).
Proof.
  intros Hm Hk s Hs. destruct (Hm s Hs) as (r & s' & He & Hr & Hs'). unfold bind. rewrite He.
  destruct r as [a|e| |]; try done; [by apply Hk|]. by exists (Err e), s'.
Qed.

Lemma total_ret (a : A) : total_on (E:=E) P (ret a).
Proof.
  intros s Hs. by exists a, s.
Qed.

Lemma total_bind (m : M S E A) (k : A -> M S E B) :
  total_on P m -> (forall a, total_on P (k a)) -> total_on P (bind m k).
Proof.
  intros Hm Hk s Hs. destruct (Hm s Hs) as (a & s' & He & Hs'). rewrite (bind_ok _ _ _ _ _ He). by apply Hk.
Qed.

End answers.

Create HintDb answers.
#[export] Hint Resolve answers_ret answers_throw answers_bind answers_lift total_ret total_bind : answers.

Lemma for_each_app {S E X} (l1 l2 : list X) (body : X -> M S E unit) s s' :
  for_each l1 body s = (Ok tt, s') -> for_each (l1 ++ l2) body s = for_each l2 body s'.
Proof.
  revert s. induction l1 as [|x l1 IH]; intros s H; simpl in *.
  { by injection H as <-. }
  apply bind_inv_ok in H as ([] & s1 & H1 & H2).
  erewrite bind_ok by done. eauto.
Qed.


(** Step a monadic computation in a hypothesis that it ends in [Ok]. *)
Ltac minv H :=
  let a := fresh "a" in let s := fresh "s" in let H1 := fresh "H" in
  apply bind_inv_ok in H as (a & s & H1 & H).

(** ** Lemmas: machine integers and little-endian codec *)

Lemma u8_range b : (0 <= u8 b < 256)%Z.
Proof.
  unfold u8. pose proof (Byte.to_N_bounded b). lia.
Qed.

Lemma u8_inj a b : u8 a = u8 b -> a = b.
Proof.
  unfold u8. intros H. apply N2Z.inj in H.
  pose proof (Byte.of_to_N a). pose proof (Byte.of_to_N b). congruence.
Qed.

Lemma u8_of_u8 z : u8 (of_u8 z) = (z mod 256)%Z.
Proof.
  unfold u8, of_u8. pose proof (Z.mod_pos_bound z 256 ltac:(lia)) as Hb.
  destruct (Byte.of_N (Z.to_N (z mod 256))) as [b|] eqn:Hn; simpl.
  - apply Byte.to_of_N in Hn. rewrite Hn. lia.
  - apply Byte.of_N_None_iff in Hn. lia.
Qed.

Lemma of_u8_u8 b : of_u8 (u8 b) = b.
Proof.
  apply u8_inj. rewrite u8_of_u8. apply Z.mod_small, u8_range.
Qed.

(** Bit fields that do not overlap: no common bit, so or is addition. *)
Lemma land_shiftl_0 x y n : (0 <= n -> 0 <= x < 2 ^ n -> Z.land x (Z.shiftl y n) = 0)%Z.
Proof.
  intros Hn Hx. apply Z.bits_inj'. intros i Hi. rewrite Z.land_spec, Z.bits_0.
  destruct (Z.lt_ge_cases i n); [by rewrite Z.shiftl_spec_low, andb_false_r|].
  replace (Z.testbit x i) with false; [done|]. symmetry.
  destruct (decide (x = 0)%Z) as [->|]; [apply Z.testbit_0_l|].
  apply Z.bits_above_log2; [lia|]. assert (Z.log2 x < n)%Z by (apply Z.log2_lt_pow2; lia). lia.
Qed.

Lemma lor_shiftl_add x y n :
  (0 <= n -> 0 <= x < 2 ^ n -> Z.lor x (Z.shiftl y n) = x + y * 2 ^ n)%Z.
Proof.
  intros Hn Hx. pose proof (land_shiftl_0 x y n Hn Hx).
  rewrite <- Z.lxor_lor, <- Z.add_nocarry_lxor by done. by rewrite Z.shiftl_mul_pow2.
Qed.

Lemma length_le_bytes n z : length (le_bytes n z) = n.
Proof.
  revert z. induction n; intros; simpl; auto.
Qed.

Lemma le_val_bound l : (0 <= le_val l < 256 ^ Z.of_nat (length l))%Z.
Proof.
  induction l as [|b l IH]; cbn [le_val length]; [lia|].
  pose proof (u8_range b). rewrite Nat2Z.inj_succ, Z.pow_succ_r; lia.
Qed.

Lemma le_val_le_bytes n z : le_val (le_bytes n z) = (z mod 256 ^ Z.of_nat n)%Z.
Proof.
  revert z. induction n as [|n IH]; intros z; simpl le_bytes; simpl le_val.
  { by rewrite Z.mod_1_r. }
  rewrite u8_of_u8, IH, Nat2Z.inj_succ, Z.pow_succ_r by lia.
  rewrite (Z.rem_mul_r z 256) by lia. lia.
Qed.

Lemma le_bytes_le_val l : le_bytes (length l) (le_val l) = l.
Proof.
  induction l as [|b l IH]; [done|]. simpl.
  pose proof (u8_range b). f_equal.
  - apply u8_inj. rewrite u8_of_u8, Z.mul_comm, Z.mod_add by lia.
    apply Z.mod_small; lia.
  - rewrite Z.mul_comm, Z.div_add, Z.div_small by lia. by rewrite Z.add_0_l, IH.
Qed.

Lemma in_u32_spec z : in_u32 z = true <-> (0 <= z <= U32_MAX)%Z.
Proof.
  unfold in_u32. rewrite andb_true_iff, !Z.leb_le. lia.
Qed.

Lemma checked_ok {S E} z (s : S) : (0 <= z <= U32_MAX)%Z -> checked (E:=E) z s = (Ok z, s).
Proof.
  intros H. apply in_u32_spec in H. unfold checked. by rewrite H.
Qed.

Lemma usize_checked_ok {S E} z (s : S) :
  (0 <= z <= USIZE_MAX)%Z -> usize_checked (E:=E) z s = (Ok z, s).
Proof.
  intros H. unfold usize_checked, in_usize.
  by rewrite (proj2 (Z.leb_le _ _)), (proj2 (Z.leb_le _ _)) by apply H.
Qed.

Lemma checked_panic {S E} z (s : S) :
  (z < 0 \/ U32_MAX < z)%Z -> checked (E:=E) z s = (Panic, s).
Proof.
  intros H. unfold checked. destruct (in_u32 z) eqn:Hz; [|done].
  apply in_u32_spec in Hz. lia.
Qed.

(** ** Lemmas: buffers *)

Lemma length_splice off data buf :
  off + length data <= length buf -> length (splice off data buf) = length buf.
Proof.
  intros. unfold splice. rewrite !length_app, length_take, length_drop. lia.
Qed.

Lemma length_sub_bytes off n buf : off + n <= length buf -> length (sub_bytes off n buf) = n.
Proof.
  intros. unfold sub_bytes. rewrite length_take, length_drop. lia.
Qed.

Lemma sub_splice_same off data buf :
  off + length data <= length buf -> sub_bytes off (length data) (splice off data buf) = data.
Proof.
  intros. unfold sub_bytes, splice.
  rewrite drop_app_le by (rewrite length_take; lia).
  rewrite drop_ge by (rewrite length_take; lia). simpl.
  by rewrite take_app_length.
Qed.

Lemma sub_splice_other off data buf off' n :
  off + length data <= length buf ->
  off' + n <= off \/ off + length data <= off' ->
  sub_bytes off' n (splice off data buf) = sub_bytes off' n buf.
Proof.
  intros Hlen Hd. unfold sub_bytes. apply list_eq. intros i.
  destruct (decide (i < n)).
  2:{ rewrite !lookup_take_ge by lia. done. }
  rewrite !lookup_take_lt, !lookup_drop by lia. unfold splice.
  destruct Hd.
  - rewrite lookup_app_l by (rewrite length_take; lia). by rewrite lookup_take_lt by lia.
  - rewrite lookup_app_r by (rewrite length_take; lia). rewrite length_take.
    rewrite lookup_app_r by lia. rewrite lookup_drop. f_equal. lia.
Qed.

Lemma slice_ok {S E} off n buf (s : S) :
  off + n <= length buf -> slice (E:=E) off n buf s = (Ok (sub_bytes off n buf), s).
Proof.
  intros. unfold slice. by rewrite decide_True.
Qed.

Lemma get_le_ok {S E} n off buf (s : S) :
  off + n <= length buf -> get_le (E:=E) n off buf s = (Ok (le_val (sub_bytes off n buf)), s).
Proof.
  intros. unfold get_le. by erewrite bind_ok by (by apply slice_ok).
Qed.

Lemma put_ok {S E} off data buf (s : S) :
  off + length data <= length buf -> put (E:=E) off data buf s = (Ok (splice off data buf), s).
Proof.
  intros. unfold put. by rewrite decide_True.
Qed.

(** ** Lemmas: filters *)

Lemma filter_ext_Forall {A} (P Q : A -> Prop) `{!forall x, Decision (P x), !forall x, Decision (Q x)} l :
  Forall (fun x => P x <-> Q x) l -> filter P l = filter Q l.
Proof.
  induction 1 as [|x l Hx _ IH]; [done|]. rewrite !filter_cons, IH.
  repeat case_decide; tauto.
Qed.

Lemma filter_id {A} (P : A -> Prop) `{!forall x, Decision (P x)} l : Forall P l -> filter P l = l.
Proof.
  induction 1 as [|x l Hx _ IH]; [done|]. by rewrite filter_cons, decide_True, IH.
Qed.

(** ** Lemmas: strings and paths *)

(** A path segment: non-empty and free of ['/']. *)
Definition valid_seg (w : str) : Prop := w <> [] /\ "/"%byte ∉ w.

(** The canonical spelling of a segment list: ["/a/b"], and [""] for the empty list. *)
Definition slashed (ws : list str) : str := concat (map (cons "/"%byte) ws).

Lemma split_on_nonempty c s : split_on c s <> [].
Proof.
  destruct s as [|x s]; simpl; [done|].
  case_decide; [done|]. by destruct (split_on c s).
Qed.

Lemma split_on_free c s : Forall (fun w => c ∉ w) (split_on c s).
Proof.
  induction s as [|x s IH]; simpl; [by repeat constructor; apply not_elem_of_nil|].
  case_decide; [constructor; [apply not_elem_of_nil|done]|].
  destruct (split_on c s) as [|w ws]; [by repeat constructor; set_solver|].
  inversion_clear IH. constructor; [set_solver|done].
Qed.

Lemma split_on_none c s : c ∉ s -> split_on c s = [s].
Proof.
  induction s as [|x s IH]; intros H; simpl; [done|].
  rewrite decide_False by set_solver. by rewrite IH by set_solver.
Qed.

Lemma split_on_app c a b :
  split_on c (a ++ c :: b) = split_on c a ++ split_on c b.
Proof.
  induction a as [|x a IH]; simpl.
  { by rewrite decide_True. }
  case_decide; [by rewrite IH|].
  rewrite IH. pose proof (split_on_nonempty c a). by destruct (split_on c a).
Qed.

Lemma split_on_extend c t e l x :
  c ∉ e -> split_on c t = l ++ [x] -> split_on c (t ++ e) = l ++ [x ++ e].
Proof.
  intros He. revert l x. induction t as [|b t IH]; intros l x H; cbn [split_on app] in *.
  - destruct l as [|? [|? ?]]; simplify_eq/=. by apply split_on_none.
  - destruct (decide (b = c)).
    + destruct l as [|y l]; simplify_eq/=; [by destruct (split_on_nonempty c t)|]. by rewrite (IH l x).
    + destruct (split_on c t) as [|w ws] eqn:E; [by destruct (split_on_nonempty c t)|].
      destruct l as [|y l]; simplify_eq/=.
      * by rewrite (IH [] w).
      * by rewrite (IH (w :: l) x).
Qed.

(** The last [n] elements of a list. *)
Definition last_n {A} (n : nat) (l : list A) : list A := drop (length l - n) l.

Lemma length_last_n {A} n (l : list A) : length (last_n n l) = min n (length l).
Proof.
  unfold last_n. rewrite length_drop. lia.
Qed.

Lemma last_n_snoc {A} n (l : list A) x :
  (if decide (length (last_n (S n) l) = S n) then tail (last_n (S n) l) else last_n (S n) l) ++ [x] =
  last_n (S n) (l ++ [x]).
Proof.
  rewrite length_last_n. unfold last_n. rewrite length_app. cbn [length].
  case_decide.
  - replace (length l + 1 - S n) with (S (length l - S n)) by lia.
    rewrite drop_app_le by lia. f_equal.
    change (tail (drop (length l - S n) l)) with (drop 1 (drop (length l - S n) l)).
    by rewrite drop_drop, Nat.add_1_r.
  - replace (length l + 1 - S n) with (length l - S n) by lia. by rewrite drop_app_le by lia.
Qed.

Lemma segments_valid s : Forall valid_seg (segments s).
Proof.
  unfold segments. apply Forall_forall. intros w [Hne Hin]%list_elem_of_filter.
  split; [done|]. pose proof (split_on_free "/" s) as Hf.
  rewrite Forall_forall in Hf. auto.
Qed.

Lemma segments_nil : segments [] = [].
Proof.
  done.
Qed.

Lemma segments_slash a b : segments (a ++ "/"%byte :: b) = segments a ++ segments b.
Proof.
  unfold segments. by rewrite split_on_app, filter_app.
Qed.

Lemma segments_cons_slash b : segments ("/"%byte :: b) = segments b.
Proof.
  exact (segments_slash [] b).
Qed.

Lemma segments_seg w : valid_seg w -> segments w = [w].
Proof.
  intros [Hne Hin]. unfold segments. rewrite split_on_none by done.
  by rewrite filter_cons_True by done.
Qed.

Lemma segments_app_slashed a ws :
  Forall valid_seg ws -> segments (a ++ slashed ws) = segments a ++ ws.
Proof.
  intros H. revert a. induction H as [|w ws Hw _ IH]; intros a.
  { unfold slashed. simpl. by rewrite !app_nil_r. }
  change (slashed (w :: ws)) with ("/"%byte :: w ++ slashed ws).
  rewrite segments_slash, IH, (segments_seg w) by done. done.
Qed.

Lemma segments_slashed ws : Forall valid_seg ws -> segments (slashed ws) = ws.
Proof.
  apply (segments_app_slashed []).
Qed.

Lemma strip_prefix_Some p s t : strip_prefix p s = Some t <-> s = p ++ t.
Proof.
  revert s. induction p as [|x p IH]; intros s; simpl; [naive_solver|].
  destruct s as [|y s]; [naive_solver|]. case_decide; subst.
  - rewrite IH. naive_solver.
  - naive_solver.
Qed.

Lemma strip_prefix_app p t : strip_prefix p (p ++ t) = Some t.
Proof.
  by apply strip_prefix_Some.
Qed.

Lemma starts_with_spec p s : starts_with p s = true <-> p `prefix_of` s.
Proof.
  unfold starts_with. destruct (strip_prefix p s) as [t|] eqn:H.
  - apply strip_prefix_Some in H as ->. split; [intros _; by exists t|done].
  - split; [done|]. intros [t ->]. by rewrite strip_prefix_app in H.
Qed.

Lemma trim_end_last c s : last (trim_end c s) <> Some c.
Proof.
  induction s as [|x s IH]; [done|]. simpl.
  destruct (trim_end c s) as [|y t] eqn:Ht.
  - case_decide; simpl; congruence.
  - exact IH.
Qed.

Lemma trim_end_app c s : exists k, s = trim_end c s ++ replicate k c.
Proof.
  induction s as [|x s [k IH]]; [by exists 0|]. simpl.
  destruct (trim_end c s) as [|y t] eqn:Ht.
  - case_decide as Hx; [subst x|].
    + exists (S k). simpl. by rewrite IH at 1.
    + exists k. simpl. by rewrite IH at 1.
  - exists k. simpl. by rewrite IH at 1.
Qed.

Lemma trim_end_id c s : last s <> Some c -> trim_end c s = s.
Proof.
  intros H. destruct (trim_end_app c s) as [[|k] Hk].
  { simpl in Hk. by rewrite app_nil_r in Hk. }
  exfalso. apply H. rewrite Hk, replicate_S_end, app_assoc. apply last_snoc.
Qed.

Lemma trim_end_replicate c s k : trim_end c (s ++ replicate k c) = trim_end c s.
Proof.
  induction s as [|x s IH]; simpl.
  - induction k as [|k IH]; simpl; [done|]. rewrite IH. by rewrite decide_True.
  - by rewrite IH.
Qed.

Lemma rfind_None c s : rfind c s = None <-> c ∉ s.
Proof.
  induction s as [|x s IH]; simpl; [set_solver|].
  destruct (rfind c s) as [i|] eqn:Hr; [|case_decide; set_solver].
  split; [done|]. intros H. exfalso. destruct IH as [_ IH].
  discriminate IH. set_solver.
Qed.

Lemma rfind_Some c s i :
  rfind c s = Some i <-> exists a b, s = a ++ c :: b /\ length a = i /\ c ∉ b.
Proof.
  revert i. induction s as [|x s IH]; intros i; simpl.
  { split; [done|]. intros (a & b & H & _). by destruct a. }
  destruct (rfind c s) as [j|] eqn:Hr.
  - split.
    + intros [= <-]. destruct (proj1 (IH j) eq_refl) as (a & b & -> & <- & Hb).
      by exists (x :: a), b.
    + intros ([|y a] & b & [= -> ->] & <- & Hb).
      * exfalso. apply Hb. destruct (proj1 (IH j) eq_refl) as (a & b' & -> & _). set_solver.
      * simpl. do 2 f_equal. cut (Some j = Some (length a)); [by intros [= ->]|].
        apply IH. eauto.
  - apply rfind_None in Hr. case_decide as Hx; subst.
    + split.
      * intros [= <-]. by exists [], s.
      * intros ([|y a] & b & Heq & <- & Hb); simplify_eq/=; set_solver.
    + split; [done|]. intros ([|y a] & b & Heq & <- & Hb); simplify_eq/=; set_solver.
Qed.

(** ** Lemmas: key order of [BTreeMap] *)

Lemma str_leb_total a b : str_leb a b = true \/ str_leb b a = true.
Proof.
  revert b. induction a as [|x a IH]; intros [|y b]; simpl; auto.
  destruct (Z.ltb_spec (u8 x) (u8 y)); auto.
  destruct (Z.ltb_spec (u8 y) (u8 x)); auto.
Qed.

Lemma str_leb_trans a b c : str_leb a b = true -> str_leb b c = true -> str_leb a c = true.
Proof.
  revert b c. induction a as [|x a IH]; intros [|y b] [|z c]; simpl; try done.
  repeat case_match; rewrite ?Z.ltb_lt, ?Z.ltb_ge in *; try done; try lia. eauto.
Qed.

Lemma str_leb_antisym a b : str_leb a b = true -> str_leb b a = true -> a = b.
Proof.
  revert b. induction a as [|x a IH]; intros [|y b]; simpl; try done.
  repeat case_match; rewrite ?Z.ltb_lt, ?Z.ltb_ge in *; try done; try lia.
  intros. f_equal; [apply u8_inj; lia|auto].
Qed.

#[global] Instance str_le_total : Total str_le.
Proof.
  intros a b. apply str_leb_total.
Qed.
#[global] Instance str_le_trans : Transitive str_le.
Proof.
  intros a b c. apply str_leb_trans.
Qed.

Lemma sort_strs_sorted l : StronglySorted str_le (sort_strs l).
Proof.
  apply StronglySorted_merge_sort; apply _.
Qed.

Lemma sort_strs_perm l : sort_strs l ≡ₚ l.
Proof.
  apply merge_sort_Permutation.
Qed.

Lemma elem_of_btree_keys {V} (m : gmap str V) k : k ∈ btree_keys m <-> is_Some (m !! k).
Proof.
  unfold btree_keys. rewrite sort_strs_perm, list_elem_of_fmap. split.
  - intros ([k' v] & -> & Hin). apply elem_of_map_to_list in Hin. simpl. eauto.
  - intros [v Hv]. exists (k, v). split; [done|]. by apply elem_of_map_to_list.
Qed.

Lemma btree_keys_NoDup {V} (m : gmap str V) : NoDup (btree_keys m).
Proof.
  unfold btree_keys. rewrite sort_strs_perm. apply NoDup_fst_map_to_list.
Qed.

Lemma btree_keys_nil {V} (m : gmap str V) : btree_keys m = [] <-> m = ∅.
Proof.
  split.
  - intros H. apply map_empty. intros k. apply eq_None_not_Some.
    rewrite <- elem_of_btree_keys, H. apply not_elem_of_nil.
  - intros ->. done.
Qed.

#[global] Instance str_le_antisym : AntiSymm (=) str_le.
Proof.
  intros a b. apply str_leb_antisym.
Qed.

(** The key listing is a function of the key set alone. *)
Lemma btree_keys_ext {V1 V2 : Type} (m1 : gmap str V1) (m2 : gmap str V2) :
  (forall k, is_Some (m1 !! k) <-> is_Some (m2 !! k)) -> btree_keys m1 = btree_keys m2.
Proof.
  intros H. apply (StronglySorted_unique str_le); [apply sort_strs_sorted..|].
  apply NoDup_Permutation; [apply btree_keys_NoDup..|].
  intros k. rewrite !elem_of_btree_keys. apply H.
Qed.

(** ** Lemmas: UTF-8 *)

Lemma is_scalar_spec c :
  is_scalar c = true <-> (0 <= c <= 55295 \/ 57344 <= c <= 1114111)%Z.
Proof.
  unfold is_scalar. rewrite orb_true_iff, !andb_true_iff, !Z.leb_le. lia.
Qed.

Lemma utf8_cont_of_u8 z : (0 <= z < 64)%Z -> utf8_cont (of_u8 (128 + z)) = Some z.
Proof.
  intros Hz. unfold utf8_cont. rewrite u8_of_u8, Z.mod_small by lia.
  replace ((128 <=? 128 + z) && (128 + z <=? 191))%Z with true by (symmetry; lia).
  f_equal. lia.
Qed.

Lemma utf8_next_encode c l : is_scalar c = true -> utf8_next (utf8_encode c ++ l) = Some (c, l).
Proof.
  intros Hc. pose proof Hc as Hr. apply is_scalar_spec in Hr. unfold utf8_encode.
  pose proof (Z.mod_pos_bound c 64). pose proof (Z.mod_pos_bound (c / 64) 64).
  pose proof (Z.mod_pos_bound (c / 4096) 64).
  repeat case_match; rewrite ?Z.ltb_lt, ?Z.ltb_ge in *; cbn [app]; unfold utf8_next;
    rewrite ?utf8_cont_of_u8, u8_of_u8 by lia; cbn [mbind option_bind].
  - rewrite Z.mod_small by lia. replace (c <? 128)%Z with true by lia. done.
  - rewrite Z.mod_small by (Z.to_euclidean_division_equations; lia).
    repeat (case_match; try (Z.to_euclidean_division_equations; lia)).
    f_equal. f_equal. Z.to_euclidean_division_equations; lia.
  - rewrite Z.mod_small by (Z.to_euclidean_division_equations; lia).
    replace ((224 + c / 4096 - 224) * 4096 + c / 64 mod 64 * 64 + c mod 64)%Z with c
      by (Z.to_euclidean_division_equations; lia).
    rewrite Hc. repeat (case_match; try (Z.to_euclidean_division_equations; lia)). done.
  - rewrite Z.mod_small by (Z.to_euclidean_division_equations; lia).
    replace ((240 + c / 262144 - 240) * 262144 + c / 4096 mod 64 * 4096 + c / 64 mod 64 * 64
             + c mod 64)%Z with c by (Z.to_euclidean_division_equations; lia).
    rewrite Hc. repeat (case_match; try (Z.to_euclidean_division_equations; lia)). done.
Qed.

Lemma utf8_encode_nonempty c : utf8_encode c <> [].
Proof.
  unfold utf8_encode. by repeat case_match.
Qed.

(** Decoding inverts encoding. *)
Lemma utf8_decode_of_chars cs :
  Forall (fun c => is_scalar c = true) cs -> utf8_decode (of_chars cs) = Some cs.
Proof.
  intros H. unfold utf8_decode.
  assert (length cs <= length (of_chars cs)) as Hl.
  { unfold of_chars. induction cs as [|c cs IH]; simpl; [lia|]. inversion_clear H.
    rewrite length_app. pose proof (utf8_encode_nonempty c) as Hne.
    destruct (utf8_encode c); [done|]. simpl. specialize (IH ltac:(done)). lia. }
  revert Hl. generalize (length (of_chars cs)) as fuel.
  induction H as [|c cs Hc _ IH]; intros fuel Hl; [by destruct fuel|].
  unfold of_chars. simpl. fold (of_chars cs). simpl in Hl. destruct fuel as [|fuel]; [lia|].
  simpl. pose proof (utf8_encode_nonempty c) as Hne.
  destruct (utf8_encode c ++ of_chars cs) eqn:He; [by destruct (utf8_encode c)|].
  rewrite <- He, utf8_next_encode by done. simpl. rewrite IH by lia. done.
Qed.

Lemma utf8_cont_inv b c : utf8_cont b = Some c -> (u8 b = 128 + c /\ 0 <= c < 64)%Z.
Proof.
  unfold utf8_cont. case_match eqn:E; [|done]. rewrite andb_true_iff, !Z.leb_le in E.
  intros [= <-]. lia.
Qed.

Lemma of_u8_eq z b : z = u8 b -> of_u8 z = b.
Proof.
  intros ->. apply of_u8_u8.
Qed.

(** Encoding inverts decoding. *)
Lemma utf8_next_inv l c l' :
  utf8_next l = Some (c, l') -> is_scalar c = true /\ l = utf8_encode c ++ l'.
Proof.
  destruct l as [|b0 l1]; [done|]. unfold utf8_next. pose proof (u8_range b0) as Hr.
  destruct (Z.ltb_spec (u8 b0) 128).
  { intros [= <- <-]. split; [apply is_scalar_spec; lia|]. unfold utf8_encode.
    rewrite (proj2 (Z.ltb_lt _ _)) by lia. by rewrite of_u8_u8. }
  assert (forall z b rest rest', z = u8 b -> rest = rest' -> b :: rest = of_u8 z :: rest') as Hcons
    by (intros z b rest rest' Hz ->; by rewrite (of_u8_eq z b)).
  repeat case_match; intros Hn; try done;
    repeat match goal with
    | H : mbind _ _ = Some _ |- _ => apply bind_Some in H as (? & ?%utf8_cont_inv & H)
    | H : (if _ then _ else _) = Some _ |- _ => case_match; [|done]
    | H : _ && _ = true |- _ => apply andb_true_iff in H as [? ?]
    end; simplify_eq; rewrite ?Z.leb_le in *;
    (split; [rewrite ?is_scalar_spec in *; lia|]); unfold utf8_encode;
    rewrite !(proj2 (Z.ltb_ge _ _)) by lia; try rewrite (proj2 (Z.ltb_lt _ _)) by lia;
    try rewrite (proj2 (Z.ltb_ge _ _)) by lia; cbn [app];
    repeat (apply Hcons; [Z.to_euclidean_division_equations; lia|]); done.
Qed.

Lemma utf8_decode_inv l cs :
  utf8_decode l = Some cs -> Forall (fun c => is_scalar c = true) cs /\ of_chars cs = l.
Proof.
  unfold utf8_decode. generalize (length l) as fuel. intros fuel. revert l cs.
  induction fuel as [|fuel IH]; intros l cs H; cbn [utf8_go] in H;
    destruct l as [|b l]; simplify_eq; try (by split; [constructor|]).
  apply bind_Some in H as ([c l'] & Hn & H). apply bind_Some in H as (cs' & Hc & [= <-]).
  apply utf8_next_inv in Hn as [Hs Hl]. destruct (IH _ _ Hc) as [Hf Ho].
  split; [by constructor|]. rewrite Hl, <- Ho. done.
Qed.
