(* ===== verification/Vfs.v ===== *)
(** * The VFS layer (src/kernel/src/fs/mod.rs)

    Path normalisation, the [FileSystem] trait as a type class over a backend's own state [F] and
    the kernel's global devices [W], and the mount table with its longest-prefix resolution. *)

From S2P Require Import Prelude.

Inductive FsError : Set :=
| NotFound
| NotADir
| IsADir
| Io
| Unsupported.

#[global] Instance FsError_eq_dec : EqDecision FsError.
Proof.
  solve_decision.
Defined.

(** [{:?}] of the error. *)
Definition fs_error_debug (e : FsError) : str :=
  match e with
  | NotFound => s_ "NotFound"
  | NotADir => s_ "NotADir"
  | IsADir => s_ "IsADir"
  | Io => s_ "Io"
  | Unsupported => s_ "Unsupported"
  end.

Definition MAX_MOUNTS : nat := 8.

(** ** The [FileSystem] trait

    A [&self] method runs on the pair of the backend's interior-mutable state and the devices. *)

Class FileSystem (W F : Type) : Type := {
  fs_read_file : str -> M (F * W) FsError bytes;
  fs_list_dir : str -> M (F * W) FsError (list str);
  fs_is_dir : str -> M (F * W) FsError bool;
  fs_writable : F -> bool;
  fs_backing : F -> str;
  fs_create_file : str -> M (F * W) FsError unit;
  fs_write_file : str -> bytes -> M (F * W) FsError unit;
  fs_append_file : str -> bytes -> M (F * W) FsError unit;
  fs_create_dir : str -> M (F * W) FsError unit;
  fs_remove : str -> M (F * W) FsError unit;
  fs_read_at : str -> Z -> bytes -> M (F * W) FsError (nat * bytes);
  fs_write_at : str -> Z -> bytes -> M (F * W) FsError nat;
}.

(** The trait's default method bodies. *)
Definition default_writable : bool := false.
Definition default_create_file {S} (_ : str) : M S FsError unit := throw Unsupported.
Definition default_write_file {S} (_ : str) (_ : bytes) : M S FsError unit := throw Unsupported.
Definition default_append_file {S} (_ : str) (_ : bytes) : M S FsError unit := throw Unsupported.
Definition default_create_dir {S} (_ : str) : M S FsError unit := throw Unsupported.
Definition default_remove {S} (_ : str) : M S FsError unit := throw Unsupported.
Definition default_write_at {S} (_ : str) (_ : Z) (_ : bytes) : M S FsError nat :=
  throw Unsupported.

(** Reads the whole file and slices; returns the count and the updated buffer. *)
Definition default_read_at {S} (read_file : str -> M S FsError bytes)
    (rel : str) (off : Z) (buf : bytes) : M S FsError (nat * bytes) :=
  let* data := read_file rel in
  if (Z.of_nat (length data) <=? off)%Z then ret (0, buf)
  else
    let off := Z.to_nat off in
    let n := (length data - off) `min` length buf in
    let* src := slice off n data in
    let* buf := put 0 src buf in
    ret (n, buf).

(** ** Paths *)

(** The [.]/[..] stack machine of [normalize], stack top at the end of the list. *)
Definition norm_push (stack : list str) (s : str) : list str :=
  if decide (s = s_ ".") then stack
  else if decide (s = s_ "..") then removelast stack
  else stack ++ [s].

Definition normalize (cwd input : str) : str :=
  let stack := if starts_with (s_ "/") input then [] else segments cwd in
  let stack := fold_left norm_push (segments input) stack in
  if decide (stack = []) then s_ "/"
  else fold_left (fun out s => out ++ s_ "/" ++ s) stack [].

Definition canonical_prefix (p : str) : str :=
  if decide (p = s_ "/") then [] else trim_end "/" p.

Definition direct_child (parent child_prefix : str) : option str :=
  if decide (child_prefix = []) then None
  else
    let rest :=
      if decide (parent = []) then strip_prefix (s_ "/") child_prefix
      else match strip_prefix parent child_prefix with
           | Some after => strip_prefix (s_ "/") after
           | None => None
           end in
    match rest with
    | None => None
    | Some rest => if decide (rest = []) then None
                   else if contains "/" rest then None else Some rest
    end.

(** ** The mount table *)

Record Mount (F : Type) : Type := mkMount { prefix : str; fs : F }.
Arguments mkMount {F} _ _.
Arguments prefix {F} _.
Arguments fs {F} _.

Record Vfs (F : Type) : Type := mkVfs { mounts : list (Mount F) }.
Arguments mkVfs {F} _.
Arguments mounts {F} _.

Section vfs.
Context {W F : Type} `{FS : FileSystem W F}.
Implicit Types (vfs : Vfs F) (m : Mount F).

Definition vfs_new : Vfs F := mkVfs [].

(** [Vfs::mount]: the outcome and the table afterwards. *)
Definition vfs_mount (p : str) (f : F) : M (Vfs F) FsError unit := fun vfs =>
  if decide (MAX_MOUNTS <= length (mounts vfs)) then (Err Unsupported, vfs)
  else if negb (starts_with (s_ "/") p) then (Err Io, vfs)
  else
    let canonical := canonical_prefix p in
    if existsb (fun m => bool_decide (prefix m = canonical)) (mounts vfs) then (Err Io, vfs)
    else (Ok tt, mkVfs (mounts vfs ++ [mkMount canonical f])).

(** [iter().position(pred)]. *)
Fixpoint position (p : str) (ms : list (Mount F)) : option nat :=
  match ms with
  | [] => None
  | m :: ms' => if decide (prefix m = p) then Some 0 else S <$> position p ms'
  end.

Definition vfs_unmount (p : str) : M (Vfs F) FsError unit := fun vfs =>
  match position (canonical_prefix p) (mounts vfs) with
  | None => (Err NotFound, vfs)
  | Some i => (Ok tt, mkVfs (take i (mounts vfs) ++ drop (S i) (mounts vfs)))
  end.

(** [Vfs::mounts]: the (prefix, backing) pairs the [mount] command prints. *)
Definition vfs_mounts (vfs : Vfs F) : list (str * str) :=
  map (fun m => (if decide (prefix m = []) then s_ "/" else prefix m, fs_backing (W:=W) (fs m)))
      (mounts vfs).

(** The guard of [resolve]'s loop for a non-root mount. *)
Definition mount_matches (abs p : str) : bool :=
  bool_decide (abs = p)
  || ((length p <? length abs) && starts_with p abs
      && bool_decide (abs !! length p = Some "/"%byte)).

Fixpoint resolve_loop (abs : str) (i : nat) (ms : list (Mount F)) (best : option (nat * Mount F))
    : option (nat * Mount F) :=
  match ms with
  | [] => best
  | m :: ms' =>
      let best' :=
        if decide (prefix m = []) then
          match best with None => Some (i, m) | Some _ => best end
        else if mount_matches abs (prefix m) then
          match best with
          | None => Some (i, m)
          | Some (_, b) => if length (prefix b) <? length (prefix m) then Some (i, m) else best
          end
        else best in
      resolve_loop abs (S i) ms' best'
  end.

(** [Vfs::resolve]: position of the owning mount and the path relative to it. *)
Definition resolve (vfs : Vfs F) (abs : str) : res FsError (nat * str) :=
  if negb (starts_with (s_ "/") abs) then Err NotFound
  else
    let? (i, m) := ok_or NotFound (resolve_loop abs 0 (mounts vfs) None) in
    let rel :=
      if decide (prefix m = []) then abs
      else
        let tail := drop (length (prefix m)) abs in
        if decide (tail = []) then s_ "/" else tail in
    Ok (i, rel).

(** Run a backend method on the mount at position [i]. *)
Definition at_mount {A} (i : nat) (op : M (F * W) FsError A) : M (Vfs F * W) FsError A :=
  fun '(vfs, w) =>
    match mounts vfs !! i with
    | None => (Panic, (vfs, w))
    | Some m =>
        let '(r, (f', w')) := op (fs m, w) in
        (r, (mkVfs (<[i := mkMount (prefix m) f']> (mounts vfs)), w'))
    end.

(** [let (fs, rel) = self.resolve(abs)?; fs.op(&rel)]. *)
Definition routed {A} (abs : str) (op : str -> M (F * W) FsError A) : M (Vfs F * W) FsError A :=
  fun '(vfs, w) =>
    match resolve vfs abs with
    | Ok (i, rel) => at_mount i (op rel) (vfs, w)
    | Err e => (Err e, (vfs, w))
    | Panic => (Panic, (vfs, w))
    | Diverge => (Diverge, (vfs, w))
    end.

Definition vfs_read_file (abs : str) : M (Vfs F * W) FsError bytes := routed abs fs_read_file.

(** The loop of [list_dir] that surfaces child mount points. *)
Definition add_children (parent : str) (ms : list (Mount F)) (entries : list str) : list str :=
  fold_left
    (fun entries m =>
       match direct_child parent (prefix m) with
       | Some child => if decide (child ∈ entries) then entries else entries ++ [child]
       | None => entries
       end) ms entries.

Definition vfs_list_dir (abs : str) : M (Vfs F * W) FsError (list str) :=
  fun '(vfs, w) =>
    (let* entries := routed abs fs_list_dir in
     ret (add_children (canonical_prefix abs) (mounts vfs) entries)) (vfs, w).

Definition vfs_is_dir (abs : str) : M (Vfs F * W) FsError bool :=
  fun '(vfs, w) =>
    if existsb (fun m => bool_decide (prefix m = canonical_prefix abs)) (mounts vfs)
    then (Ok true, (vfs, w))
    else
      match resolve vfs abs with
      | Ok (i, rel) => at_mount i (fs_is_dir rel) (vfs, w)
      | _ => (Ok false, (vfs, w))
      end.

Definition vfs_writable (vfs : Vfs F) (abs : str) : bool :=
  match resolve vfs abs with
  | Ok (i, _) => if mounts vfs !! i is Some m then fs_writable (W:=W) (fs m) else false
  | _ => false
  end.

Definition vfs_backing (vfs : Vfs F) (abs : str) : str :=
  match resolve vfs abs with
  | Ok (i, _) => if mounts vfs !! i is Some m then fs_backing (W:=W) (fs m) else s_ "?"
  | _ => s_ "?"
  end.

Definition vfs_create_file (abs : str) : M (Vfs F * W) FsError unit :=
  routed abs fs_create_file.
Definition vfs_write_file (abs : str) (data : bytes) : M (Vfs F * W) FsError unit :=
  routed abs (fun rel => fs_write_file rel data).
Definition vfs_append_file (abs : str) (data : bytes) : M (Vfs F * W) FsError unit :=
  routed abs (fun rel => fs_append_file rel data).
Definition vfs_create_dir (abs : str) : M (Vfs F * W) FsError unit :=
  routed abs fs_create_dir.
Definition vfs_remove (abs : str) : M (Vfs F * W) FsError unit :=
  routed abs fs_remove.
Definition vfs_read_at (abs : str) (off : Z) (buf : bytes)
    : M (Vfs F * W) FsError (nat * bytes) :=
  routed abs (fun rel => fs_read_at rel off buf).
Definition vfs_write_at (abs : str) (off : Z) (buf : bytes) : M (Vfs F * W) FsError nat :=
  routed abs (fun rel => fs_write_at rel off buf).

End vfs.

(** ** Path lemmas *)

(** A segment [normalize] keeps: valid and neither ["."] nor [".."]. *)
Definition path_seg (w : str) : Prop := valid_seg w /\ w <> s_ "." /\ w <> s_ "..".

(** The absolute path of a segment stack. *)
Definition abs_path (ws : list str) : str := if decide (ws = []) then s_ "/" else slashed ws.

(** What [normalize] promises: an absolute path without empty, [.] or [..] segments and without
    a trailing ['/'] (the root excepted). *)
Definition canonical_path (p : str) : Prop := exists ws, Forall path_seg ws /\ p = abs_path ws.

Lemma slashed_app a b : slashed (a ++ b) = slashed a ++ slashed b.
Proof.
  unfold slashed. by rewrite map_app, concat_app.
Qed.

Lemma fold_out_slashed ws out :
  fold_left (fun out s => out ++ s_ "/" ++ s) ws out = out ++ slashed ws.
Proof.
  revert out. induction ws as [|w ws IH]; intros out; simpl.
  { unfold slashed. simpl. by rewrite app_nil_r. }
  rewrite IH. by rewrite <- app_assoc.
Qed.

Definition norm_start (cwd input : str) : list str :=
  if starts_with (s_ "/") input then [] else segments cwd.

Definition norm_stack (cwd input : str) : list str :=
  fold_left norm_push (segments input) (norm_start cwd input).

Lemma normalize_stack cwd input : normalize cwd input = abs_path (norm_stack cwd input).
Proof.
  unfold normalize, abs_path. fold (norm_start cwd input). fold (norm_stack cwd input).
  case_decide; [done|]. by rewrite fold_out_slashed.
Qed.

Lemma Forall_removelast {A} (P : A -> Prop) l : Forall P l -> Forall P (removelast l).
Proof.
  induction 1 as [|x l Hx Hl IH]; simpl; [constructor|]. destruct l; [constructor|by constructor].
Qed.

Lemma norm_push_Forall (P : str -> Prop) w stack :
  (w <> s_ "." -> w <> s_ ".." -> P w) -> Forall P stack -> Forall P (norm_push stack w).
Proof.
  intros Hw Hs. unfold norm_push. repeat case_decide; [done|by apply Forall_removelast|].
  apply Forall_app. auto.
Qed.

Lemma fold_norm_push_Forall (P : str -> Prop) ws stack :
  Forall (fun w => w <> s_ "." -> w <> s_ ".." -> P w) ws -> Forall P stack ->
  Forall P (fold_left norm_push ws stack).
Proof.
  intros Hws. revert stack. induction Hws; intros stack Hs; simpl; [done|].
  apply IHHws. by apply norm_push_Forall.
Qed.

Lemma norm_stack_valid cwd input : Forall valid_seg (norm_stack cwd input).
Proof.
  apply fold_norm_push_Forall.
  - eapply Forall_impl; [apply segments_valid|]. auto.
  - unfold norm_start. case_match; [constructor|apply segments_valid].
Qed.

Lemma norm_stack_path cwd input :
  starts_with (s_ "/") input = true \/ Forall path_seg (segments cwd) ->
  Forall path_seg (norm_stack cwd input).
Proof.
  intros Hc. apply fold_norm_push_Forall.
  - eapply Forall_impl; [apply segments_valid|]. by intros w [] ? ?.
  - unfold norm_start. destruct (starts_with _ input); [constructor|]. destruct Hc; done.
Qed.

Lemma segments_abs_path ws : Forall valid_seg ws -> segments (abs_path ws) = ws.
Proof.
  intros H. unfold abs_path. case_decide; [by subst|]. by apply segments_slashed.
Qed.

Lemma starts_with_abs_path ws : starts_with (s_ "/") (abs_path ws) = true.
Proof.
  unfold abs_path. destruct ws; case_decide; done.
Qed.

Lemma fold_norm_push_id ws stack :
  Forall path_seg ws -> fold_left norm_push ws stack = stack ++ ws.
Proof.
  intros H. revert stack. induction H as [|w ws [_ [H1 H2]] _ IH]; intros stack; simpl.
  { by rewrite app_nil_r. }
  unfold norm_push at 2. rewrite !decide_False by done. rewrite IH. by rewrite <- app_assoc.
Qed.

Lemma path_seg_valid ws : Forall path_seg ws -> Forall valid_seg ws.
Proof.
  intros H. eapply Forall_impl; [exact H|]. by intros ? [? _].
Qed.

Lemma canonical_segments p : canonical_path p -> p = abs_path (segments p).
Proof.
  intros (ws & Hws & ->). by rewrite segments_abs_path by (by apply path_seg_valid).
Qed.

Lemma canonical_path_segs p : canonical_path p -> Forall path_seg (segments p).
Proof.
  intros (ws & Hws & ->). by rewrite segments_abs_path by (by apply path_seg_valid).
Qed.

Lemma normalize_canonical cwd input : canonical_path cwd -> canonical_path (normalize cwd input).
Proof.
  intros Hc. rewrite normalize_stack. exists (norm_stack cwd input). split; [|done].
  apply norm_stack_path. right. by apply canonical_path_segs.
Qed.

Lemma segments_normalize cwd input : segments (normalize cwd input) = norm_stack cwd input.
Proof.
  rewrite normalize_stack. apply segments_abs_path, norm_stack_valid.
Qed.

Lemma starts_with_app_ne p a b : a <> [] -> length p = 1 -> starts_with p (a ++ b) = starts_with p a.
Proof.
  intros Ha Hp. destruct p as [|x [|? ?]]; try done. destruct a as [|y a]; [done|].
  unfold starts_with. simpl. by case_decide.
Qed.

(** ** Path theorems *)

(** C11: path canonicity. From a canonical working directory (the only kind the shell ever holds),
    [normalize] yields an absolute path with no empty, ["."] or [".."] segment and no trailing
    slash, whatever the input; an absolute input gives one from any [cwd]. *)
Theorem normalize_is_canonical cwd input :
  canonical_path cwd \/ starts_with (s_ "/") input = true ->
  canonical_path (normalize cwd input).
Proof.
  intros [Hc|Ha]; [by apply normalize_canonical|].
  rewrite normalize_stack. eexists. split; [|done]. apply norm_stack_path. by left.
Qed.

Lemma normalize_is_canonical_witness :
  canonical_path (normalize (s_ "/etc") (s_ "..//./bin/../tmp/")).
Proof.
  apply normalize_is_canonical. left. exists [s_ "etc"]. split; [|done].
  repeat constructor; try done. vm_compute. set_solver.
Defined.

(** C39: path composition. Resolving [a/b] is resolving [a] and then [b] from there, for a relative
    [b]; so [cd a] followed by [cd b] and [cd a/b] agree. *)
Theorem normalize_compose cwd a b :
  a <> [] -> starts_with (s_ "/") b = false ->
  normalize (normalize cwd a) b = normalize cwd (a ++ s_ "/" ++ b).
Proof.
  intros Ha Hb. rewrite (normalize_stack (normalize cwd a) b), (normalize_stack cwd (a ++ _)).
  f_equal. unfold norm_stack, norm_start.
  rewrite Hb, segments_normalize, (starts_with_app_ne _ a) by done.
  change (s_ "/" ++ b) with ("/"%byte :: b). rewrite segments_slash.
  by rewrite fold_left_app.
Qed.

Lemma normalize_compose_witness :
  normalize (normalize (s_ "/etc") (s_ "../tmp")) (s_ "../dev/null")
  = normalize (s_ "/etc") (s_ "../tmp" ++ s_ "/" ++ s_ "../dev/null").
Proof.
  apply normalize_compose; [done|reflexivity].
Defined.

(** Normalisation is idempotent and forgets the working directory: a normalised path is a fixed
    point from every [cwd]. *)
Theorem normalize_idempotent cwd cwd' input :
  canonical_path cwd ->
  normalize cwd' (normalize cwd input) = normalize cwd input.
Proof.
  intros Hc. pose proof (normalize_canonical cwd input Hc) as Hn.
  rewrite (normalize_stack cwd'). unfold norm_stack, norm_start.
  replace (starts_with (s_ "/") (normalize cwd input)) with true.
  2:{ rewrite normalize_stack. by rewrite starts_with_abs_path. }
  rewrite fold_norm_push_id by (by apply canonical_path_segs). simpl.
  by rewrite <- canonical_segments.
Qed.

Lemma normalize_idempotent_witness :
  normalize (s_ "/dev") (normalize (s_ "/") (s_ "a/./b/..")) = normalize (s_ "/") (s_ "a/./b/..").
Proof.
  apply normalize_idempotent. exists []. split; [constructor|reflexivity].
Defined.

(** ** Resolution lemmas *)

(** A mount at prefix [p] owns [abs] when [p] is a ['/']-aligned prefix of it. *)
Definition owns (abs p : str) : Prop := abs = p \/ exists t, abs = p ++ "/"%byte :: t.

Lemma mount_matches_spec abs p : mount_matches abs p = true <-> owns abs p.
Proof.
  unfold mount_matches, owns. rewrite orb_true_iff, !andb_true_iff, !bool_decide_eq_true.
  rewrite starts_with_spec, Nat.ltb_lt. split.
  - intros [?|[[Hl [t ->]] Hs]]; [by left|right].
    rewrite lookup_app_r, Nat.sub_diag in Hs by lia. destruct t as [|x t]; simplify_eq/=. eauto.
  - intros [?|[t ->]]; [by left|right]. rewrite length_app. simpl. repeat split; [lia| |].
    + by exists ("/"%byte :: t).
    + rewrite lookup_app_r by lia. by rewrite Nat.sub_diag.
Qed.

Lemma starts_slash abs : starts_with (s_ "/") abs = true <-> exists t, abs = "/"%byte :: t.
Proof.
  rewrite starts_with_spec. split; intros [t ->]; by exists t.
Qed.

Lemma owns_root abs : starts_with (s_ "/") abs = true -> owns abs [].
Proof.
  intros [t ->]%starts_slash. right. by exists t.
Qed.

(** Two owners of one path with prefixes of equal length have the same prefix. *)
Lemma owns_same_length abs p q : owns abs p -> owns abs q -> length p = length q -> p = q.
Proof.
  intros Hp Hq Hl.
  assert (forall p, owns abs p -> p = take (length p) abs) as Ht.
  { intros ? [->|[t ->]]; [by rewrite take_ge|by rewrite take_app_length]. }
  rewrite (Ht p), (Ht q) by done. by rewrite Hl.
Qed.

Section vfs_lemmas.
Context {W F : Type} `{FS : FileSystem W F}.
Implicit Types (vfs : Vfs F) (m b : Mount F) (ms : list (Mount F)).

(** Length of the best candidate so far; every owner beats the absence of one. *)
Definition best_le (best : option (nat * Mount F)) (n : nat) : Prop :=
  match best with None => True | Some (_, b) => length (prefix b) <= n end.

(** One iteration of [resolve]'s loop. *)
Definition pick (abs : str) (i : nat) (m : Mount F) (best : option (nat * Mount F))
    : option (nat * Mount F) :=
  if decide (prefix m = []) then match best with None => Some (i, m) | Some _ => best end
  else if mount_matches abs (prefix m) then
    match best with
    | None => Some (i, m)
    | Some (_, b) => if length (prefix b) <? length (prefix m) then Some (i, m) else best
    end
  else best.

Lemma resolve_loop_cons abs i m ms best :
  resolve_loop abs i (m :: ms) best = resolve_loop abs (S i) ms (pick abs i m best).
Proof.
  done.
Qed.

Lemma pick_spec abs i m best :
  starts_with (s_ "/") abs = true ->
  (pick abs i m best = best \/ (pick abs i m best = Some (i, m) /\ owns abs (prefix m))) /\
  forall n, best_le (pick abs i m best) n ->
    best_le best n /\ (owns abs (prefix m) -> length (prefix m) <= n).
Proof.
  intros Ha. pose proof (owns_root abs Ha) as Hr. unfold pick.
  case_decide as Hp; [rewrite Hp; destruct best as [[? b]|]; simpl; naive_solver lia|].
  destruct (mount_matches abs (prefix m)) eqn:Hm.
  - apply mount_matches_spec in Hm. destruct best as [[? b]|]; simpl; [|naive_solver].
    destruct (Nat.ltb_spec (length (prefix b)) (length (prefix m))); simpl;
      (split; [tauto|]); intros; split; lia.
  - assert (~ owns abs (prefix m)) by (by rewrite <- mount_matches_spec, Hm).
    split; [tauto|]. intros n Hb. split; [exact Hb|tauto].
Qed.

Lemma resolve_loop_Some abs i ms best j m :
  starts_with (s_ "/") abs = true ->
  resolve_loop abs i ms best = Some (j, m) ->
  (best = Some (j, m) \/ exists k, j = i + k /\ ms !! k = Some m /\ owns abs (prefix m)) /\
  best_le best (length (prefix m)) /\
  (forall m', m' ∈ ms -> owns abs (prefix m') -> length (prefix m') <= length (prefix m)).
Proof.
  intros Ha. revert i best. induction ms as [|m0 ms IH]; intros i best H.
  { simpl in H. subst. simpl. split; [by left|]. split; [lia|].
    intros m' Hm'. by apply not_elem_of_nil in Hm'. }
  rewrite resolve_loop_cons in H. apply IH in H as (Hin & Hle & Hmax). clear IH.
  destruct (pick_spec abs i m0 best Ha) as [Hpick Hn]. apply Hn in Hle as [Hle Hm0].
  split; [|split; [done|]].
  - destruct Hin as [Hin|(k & -> & Hk & Ho)].
    + destruct Hpick as [Hpick|[Hpick Ho]]; rewrite Hpick in Hin; [by left|].
      injection Hin as <- <-. right. exists 0. by rewrite Nat.add_0_r.
    + right. exists (S k). repeat split; [lia|done|done].
  - intros m' [->|Hm']%elem_of_cons Ho; auto.
Qed.

Lemma resolve_loop_None abs i ms best :
  resolve_loop abs i ms best = None ->
  best = None /\ forall m, m ∈ ms -> prefix m <> [] /\ ~ owns abs (prefix m).
Proof.
  revert i best. induction ms as [|m0 ms IH]; intros i best H; simpl in H.
  { split; [done|]. intros m Hm. by apply not_elem_of_nil in Hm. }
  apply IH in H as [Hb Hno].
  case_decide as Hp; [by destruct best as [[]|]|].
  destruct (mount_matches abs (prefix m0)) eqn:Hm.
  { destruct best as [[]|]; [by destruct (_ <? _)|done]. }
  split; [done|]. intros m [->|?]%elem_of_cons; [|auto].
  rewrite <- mount_matches_spec, Hm. done.
Qed.

(** The relative path that goes with an owning prefix. *)
Definition rel_of (abs p : str) : str := if decide (abs = p) then s_ "/" else drop (length p) abs.

Lemma resolve_Ok_inv vfs abs i rel :
  resolve vfs abs = Ok (i, rel) ->
  starts_with (s_ "/") abs = true /\
  exists m, mounts vfs !! i = Some m /\ owns abs (prefix m) /\ rel = rel_of abs (prefix m) /\
    forall m', m' ∈ mounts vfs -> owns abs (prefix m') -> length (prefix m') <= length (prefix m).
Proof.
  unfold resolve. destruct (starts_with _ abs) eqn:Ha; simpl; [|done].
  destruct (resolve_loop abs 0 (mounts vfs) None) as [[j m]|] eqn:Hr; simpl; [|done].
  intros [= <- <-]. split; [done|].
  apply resolve_loop_Some in Hr as ([|(k & -> & Hk & Ho)] & _ & Hmax); [done|..|done].
  exists m. repeat split; [done|done| |done]. unfold rel_of. case_decide as Hp.
  - rewrite Hp. rewrite decide_False by (by intros ->). done.
  - case_decide as Hd; case_decide as He; subst; try done.
    + exfalso. destruct Ho as [->|[t ->]]; [done|].
      by rewrite drop_app_length in Hd.
    + by rewrite drop_all in Hd.
Qed.

Lemma resolve_Err_inv vfs abs e :
  resolve vfs abs = Err e ->
  e = NotFound /\
  (starts_with (s_ "/") abs = false \/ forall m, m ∈ mounts vfs -> ~ owns abs (prefix m)).
Proof.
  unfold resolve. destruct (starts_with _ abs) eqn:Ha; simpl.
  2:{ intros [= <-]. auto. }
  destruct (resolve_loop abs 0 (mounts vfs) None) as [[j m]|] eqn:Hr; simpl; [done|].
  intros [= <-]. split; [done|right]. intros m Hm. by eapply resolve_loop_None in Hr as [_ []].
Qed.

Lemma resolve_total vfs abs :
  (exists i rel, resolve vfs abs = Ok (i, rel)) \/ resolve vfs abs = Err NotFound.
Proof.
  destruct (resolve vfs abs) as [[i rel]|e| |] eqn:H; [by eauto| | |].
  - apply resolve_Err_inv in H as [-> _]. by right.
  - unfold resolve in H. repeat case_match; try done. by destruct (resolve_loop _ _ _ _) as [[]|].
  - unfold resolve in H. repeat case_match; try done. by destruct (resolve_loop _ _ _ _) as [[]|].
Qed.

(** The table invariant. *)
Definition canon_prefix (p : str) : Prop :=
  p = [] \/ (starts_with (s_ "/") p = true /\ last p <> Some "/"%byte).

Definition vfs_wf (vfs : Vfs F) : Prop :=
  length (mounts vfs) <= MAX_MOUNTS /\ NoDup (prefix <$> mounts vfs) /\
  Forall canon_prefix (prefix <$> mounts vfs).

Lemma resolve_max vfs abs i m :
  NoDup (prefix <$> mounts vfs) -> starts_with (s_ "/") abs = true ->
  mounts vfs !! i = Some m -> owns abs (prefix m) ->
  (forall m', m' ∈ mounts vfs -> owns abs (prefix m') -> length (prefix m') <= length (prefix m)) ->
  resolve vfs abs = Ok (i, rel_of abs (prefix m)).
Proof.
  intros Hnd Ha Hi Ho Hmax.
  destruct (resolve_total vfs abs) as [(j & rel & Hr)|Hr]; rewrite Hr.
  - apply resolve_Ok_inv in Hr as (_ & m' & Hj & Ho' & -> & Hmax').
    assert (prefix m' = prefix m) as Hp.
    { eapply owns_same_length; [done..|]. apply Nat.le_antisymm.
      - apply Hmax; [|done]. by eapply list_elem_of_lookup_2.
      - apply Hmax'; [|done]. by eapply list_elem_of_lookup_2. }
    rewrite Hp. repeat f_equal. eapply (NoDup_lookup _ _ _ (prefix m)); [done|..].
    + by rewrite list_lookup_fmap, Hj, <- Hp.
    + by rewrite list_lookup_fmap, Hi.
  - apply resolve_Err_inv in Hr as [_ [Hr|Hr]]; [congruence|].
    exfalso. eapply Hr; [|exact Ho]. by eapply list_elem_of_lookup_2.
Qed.

Lemma rel_of_spec abs p :
  owns abs p -> exists t, rel_of abs p = "/"%byte :: t /\ (abs = p ++ rel_of abs p \/ (abs = p /\ t = [])).
Proof.
  unfold rel_of. intros Ho. case_decide as He; subst; [by exists []; auto|].
  destruct Ho as [->|[t ->]]; [done|]. exists t. rewrite drop_app_length. auto.
Qed.

End vfs_lemmas.

(** ** Mount-table lemmas *)

Section table.
Context {W F : Type} `{FS : FileSystem W F}.
Implicit Types (vfs : Vfs F) (m : Mount F) (ms : list (Mount F)).

Lemma existsb_prefix ms p :
  existsb (fun m => bool_decide (prefix m = p)) ms = true <-> p ∈ (prefix <$> ms).
Proof.
  rewrite existsb_exists, list_elem_of_fmap. setoid_rewrite bool_decide_eq_true.
  setoid_rewrite list_elem_of_In. naive_solver.
Qed.

Lemma position_Some p ms i :
  position p ms = Some i -> exists m, ms !! i = Some m /\ prefix m = p.
Proof.
  revert i. induction ms as [|m ms IH]; intros i; simpl; [done|].
  case_decide; [intros [= <-]; by exists m|].
  destruct (position p ms) as [j|]; simpl; [|done]. intros [= <-]. by apply IH.
Qed.

Lemma position_None p ms : position p ms = None <-> p ∉ (prefix <$> ms).
Proof.
  induction ms as [|m ms IH]; simpl; [set_solver|].
  case_decide; [set_solver|]. rewrite fmap_None, IH. set_solver.
Qed.

Lemma position_snoc p ms m :
  p ∉ (prefix <$> ms) -> prefix m = p -> position p (ms ++ [m]) = Some (length ms).
Proof.
  intros Hn Hp. induction ms as [|m0 ms IH]; simpl in *.
  { by rewrite decide_True. }
  rewrite decide_False by set_solver. by rewrite IH by set_solver.
Qed.

Lemma canonical_prefix_canon p : starts_with (s_ "/") p = true -> canon_prefix (canonical_prefix p).
Proof.
  intros [t ->]%starts_slash. unfold canonical_prefix, canon_prefix. case_decide; [by left|].
  pose proof (trim_end_last "/" ("/"%byte :: t)) as Hl.
  destruct (trim_end_app "/" ("/"%byte :: t)) as [k Hk].
  destruct (trim_end "/" ("/"%byte :: t)) as [|x t'] eqn:Ht; [by left|].
  simpl in Hk. injection Hk as <- _. right. split; [done|]. done.
Qed.

Lemma vfs_mount_Ok p f vfs vfs' :
  vfs_mount p f vfs = (Ok tt, vfs') ->
  length (mounts vfs) < MAX_MOUNTS /\ starts_with (s_ "/") p = true /\
  (canonical_prefix p ∉ (prefix <$> mounts vfs)) /\
  vfs' = mkVfs (mounts vfs ++ [mkMount (canonical_prefix p) f]).
Proof.
  unfold vfs_mount. case_decide as Hlen; [done|].
  destruct (starts_with _ p) eqn:Hs; simpl; [|done].
  destruct (existsb _ _) eqn:He; [done|]. intros [= <-].
  repeat split; [lia|]. by rewrite <- existsb_prefix, He.
Qed.

Lemma vfs_wf_new : vfs_wf (F:=F) vfs_new.
Proof.
  repeat split; [unfold MAX_MOUNTS; simpl; lia|constructor|constructor].
Qed.

Lemma vfs_mount_wf p f vfs r vfs' : vfs_wf vfs -> vfs_mount p f vfs = (r, vfs') -> vfs_wf vfs'.
Proof.
  intros (Hlen & Hnd & Hc) H. destruct r as [[]|e| |].
  2-4: unfold vfs_mount in H; repeat case_match; by simplify_eq.
  apply vfs_mount_Ok in H as (? & ? & ? & ->). unfold vfs_wf. simpl.
  rewrite length_app, fmap_app. simpl. split; [lia|]. split.
  - apply NoDup_app. repeat split; [done|set_solver|apply NoDup_singleton].
  - apply Forall_app. split; [done|]. apply Forall_singleton. by apply canonical_prefix_canon.
Qed.

Lemma vfs_unmount_wf p vfs r vfs' : vfs_wf vfs -> vfs_unmount p vfs = (r, vfs') -> vfs_wf vfs'.
Proof.
  intros (Hlen & Hnd & Hc). unfold vfs_unmount.
  destruct (position _ _) as [i|] eqn:Hp; intros [= <- <-]; [|by repeat split].
  unfold vfs_wf. simpl. rewrite fmap_app, fmap_take, fmap_drop. split; [|split].
  - rewrite length_app, length_take, length_drop. lia.
  - eapply sublist_NoDup; [exact Hnd|].
    rewrite <- (take_drop i (prefix <$> mounts vfs)) at 3. apply sublist_app; [done|].
    rewrite <- Nat.add_1_r, <- drop_drop. apply sublist_drop.
  - apply Forall_app. split; [by apply Forall_take|by apply Forall_drop].
Qed.

Lemma at_mount_prefixes {A} i (op : M (F * W) FsError A) vfs w r vfs' w' :
  at_mount i op (vfs, w) = (r, (vfs', w')) -> prefix <$> mounts vfs' = prefix <$> mounts vfs.
Proof.
  unfold at_mount. destruct (mounts vfs !! i) as [m|] eqn:Hi; [|by intros [= _ <- _]].
  destruct (op (fs m, w)) as [r0 [f0 w0]]. intros [= _ <- _]. simpl.
  rewrite list_fmap_insert. apply list_insert_id. by rewrite list_lookup_fmap, Hi.
Qed.

Lemma routed_prefixes {A} abs (op : str -> M (F * W) FsError A) vfs w r vfs' w' :
  routed abs op (vfs, w) = (r, (vfs', w')) -> prefix <$> mounts vfs' = prefix <$> mounts vfs.
Proof.
  unfold routed. destruct (resolve vfs abs) as [[i rel]|e| |]; [|by intros [= _ <- _]..].
  apply at_mount_prefixes.
Qed.

Lemma vfs_wf_prefixes vfs vfs' :
  prefix <$> mounts vfs' = prefix <$> mounts vfs -> vfs_wf vfs -> vfs_wf vfs'.
Proof.
  intros Hp (Hlen & Hnd & Hc). unfold vfs_wf. rewrite Hp. repeat split; [|done|done].
  apply (f_equal length) in Hp. rewrite !length_fmap in Hp. lia.
Qed.

(** The table's life: mount, unmount, and backend operations routed through it. *)
Inductive vfs_step : Vfs F * W -> Vfs F * W -> Prop :=
| step_mount p f vfs vfs' w r :
    vfs_mount p f vfs = (r, vfs') -> vfs_step (vfs, w) (vfs', w)
| step_unmount p vfs vfs' w r :
    vfs_unmount p vfs = (r, vfs') -> vfs_step (vfs, w) (vfs', w)
| step_op {A : Set} abs (op : str -> M (F * W) FsError A) s r s' :
    routed abs op s = (r, s') -> vfs_step s s'.

Definition vfs_reachable (s : Vfs F * W) : Prop :=
  exists w, rtc vfs_step (vfs_new, w) s.

Lemma vfs_step_wf s s' : vfs_step s s' -> vfs_wf s.1 -> vfs_wf s'.1.
Proof.
  intros [p f vfs vfs' w r H|p vfs vfs' w r H|A abs op [vfs w] r [vfs' w'] H] Hwf; simpl in *.
  - by eapply vfs_mount_wf.
  - by eapply vfs_unmount_wf.
  - eapply vfs_wf_prefixes; [|done]. by eapply routed_prefixes.
Qed.

Lemma direct_child_spec parent c x :
  direct_child parent c = Some x <-> valid_seg x /\ c = parent ++ s_ "/" ++ x.
Proof.
  unfold direct_child, valid_seg. change (s_ "/" ++ x) with ("/"%byte :: x).
  case_decide as Hc.
  { subst. split; [done|]. intros [_ H]. by destruct parent. }
  assert (forall c, (exists rest, strip_prefix (s_ "/") c = Some rest /\ rest = x)
                    <-> c = "/"%byte :: x) as Hs.
  { intros c'. setoid_rewrite strip_prefix_Some. naive_solver. }
  set (rest := if decide (parent = []) then _ else _).
  assert (rest = Some x <-> c = parent ++ "/"%byte :: x) as Hr.
  { subst rest. case_decide as Hp; subst; [rewrite strip_prefix_Some; done|].
    destruct (strip_prefix parent c) as [after|] eqn:Ha.
    - apply strip_prefix_Some in Ha as ->. rewrite strip_prefix_Some. simpl.
      split; [by intros ->|]. intros H. by apply app_inv_head in H.
    - split; [done|]. intros ->. by rewrite strip_prefix_app in Ha. }
  destruct rest as [r|]; [|naive_solver].
  unfold contains. case_decide; [naive_solver|]. case_bool_decide; naive_solver.
Qed.

Lemma add_children_spec parent ms entries :
  (forall x, x ∈ add_children parent ms entries <->
     x ∈ entries \/ exists m, m ∈ ms /\ direct_child parent (prefix m) = Some x) /\
  (NoDup entries -> NoDup (add_children parent ms entries)) /\
  entries `prefix_of` add_children parent ms entries.
Proof.
  unfold add_children. revert entries. induction ms as [|m ms IH]; intros entries; simpl.
  { repeat split; [set_solver..|done|done]. }
  set (e' := match _ with Some _ => _ | None => _ end).
  destruct (IH e') as (IH1 & IH2 & IH3).
  assert ((forall x, x ∈ e' <-> x ∈ entries \/ direct_child parent (prefix m) = Some x) /\
    (NoDup entries -> NoDup e') /\ entries `prefix_of` e') as (He1 & He2 & He3).
  { subst e'. destruct (direct_child parent (prefix m)) as [c|]; [|naive_solver].
    case_decide; [naive_solver|]. repeat split.
    - set_solver.
    - set_solver.
    - intros Hnd. apply NoDup_app. repeat split; [done|set_solver|apply NoDup_singleton].
    - by exists [c]. }
  repeat split.
  - rewrite IH1, He1. set_solver.
  - rewrite IH1, He1. set_solver.
  - auto.
  - by etrans.
Qed.

End table.

(** ** VFS theorems *)

Section vfs_theorems.
Context {W F : Type} `{FS : FileSystem W F}.
Implicit Types (vfs : Vfs F) (m : Mount F).

(** C3: longest-prefix match. On a well-formed table, [resolve] answers mount [i] with relative
    path [rel] exactly when [abs] is absolute, mount [i]'s prefix is a ['/']-aligned prefix of
    [abs], no other owning mount has a longer prefix, and [rel] is what follows the prefix
    (["/"] when nothing does). *)
Theorem resolve_longest_prefix vfs abs i rel :
  vfs_wf vfs ->
  resolve vfs abs = Ok (i, rel) <->
  starts_with (s_ "/") abs = true /\
  exists m, mounts vfs !! i = Some m /\ owns abs (prefix m) /\ rel = rel_of abs (prefix m) /\
    forall m', m' ∈ mounts vfs -> owns abs (prefix m') -> length (prefix m') <= length (prefix m).
Proof.
  intros (_ & Hnd & _). split; [apply resolve_Ok_inv|].
  intros (Ha & m & Hi & Ho & -> & Hmax). by apply resolve_max.
Qed.

(** C40: the order of the mount table does not matter: with distinct prefixes, a path that resolves in one
    table resolves in every permutation of it to the same mount and the same relative path. *)
Theorem resolve_order_independent vfs1 vfs2 abs i1 rel1 :
  NoDup (prefix <$> mounts vfs1) -> mounts vfs1 ≡ₚ mounts vfs2 ->
  resolve vfs1 abs = Ok (i1, rel1) ->
  exists i2, resolve vfs2 abs = Ok (i2, rel1) /\ mounts vfs2 !! i2 = mounts vfs1 !! i1.
Proof.
  intros Hnd Hperm (Ha & m & Hi & Ho & -> & Hmax)%resolve_Ok_inv.
  assert (m ∈ mounts vfs2) as [i2 Hi2]%list_elem_of_lookup.
  { rewrite <- Hperm. by eapply list_elem_of_lookup_2. }
  exists i2. rewrite Hi2, Hi. split; [|done]. apply resolve_max; [|done..|].
  - by rewrite <- Hperm.
  - intros m'. rewrite <- Hperm. apply Hmax.
Qed.

(** C13: in every state reachable from the empty table by mounting, unmounting and routed file
    operations, at most [MAX_MOUNTS] mounts exist, no prefix is mounted twice, and every stored
    prefix is [""] or an absolute path without trailing ['/']. *)
Theorem vfs_reachable_wf (s : Vfs F * W) : vfs_reachable s -> vfs_wf s.1.
Proof.
  intros [w H]. assert (vfs_wf (vfs_new (F:=F), w).1) as Hwf by apply vfs_wf_new.
  revert Hwf. induction H as [|s1 s2 s3 Hs _ IH]; intros Hwf; [done|].
  apply IH. by eapply vfs_step_wf.
Qed.

(** Mounting and then unmounting the same prefix (in any of its spellings that [mount]
    accepts) restores the table exactly, order included. *)
Theorem mount_unmount_roundtrip p f vfs vfs' :
  vfs_mount p f vfs = (Ok tt, vfs') -> vfs_unmount p vfs' = (Ok tt, vfs).
Proof.
  intros (_ & _ & Hn & ->)%vfs_mount_Ok. unfold vfs_unmount. simpl.
  rewrite position_snoc by done. rewrite take_app_length, drop_ge, app_nil_r.
  - by destruct vfs.
  - rewrite length_app. simpl. lia.
Qed.

(** [mount] fails exactly on a full table ([Unsupported]), a relative prefix or a prefix that
    is already taken ([Io]), and leaves the table unchanged in each case. *)
Theorem vfs_mount_outcome p f vfs :
  (MAX_MOUNTS <= length (mounts vfs) -> vfs_mount p f vfs = (Err Unsupported, vfs)) /\
  (length (mounts vfs) < MAX_MOUNTS ->
     (starts_with (s_ "/") p = false \/ canonical_prefix p ∈ (prefix <$> mounts vfs) ->
        vfs_mount p f vfs = (Err Io, vfs)) /\
     (starts_with (s_ "/") p = true -> (canonical_prefix p ∉ (prefix <$> mounts vfs)) ->
        vfs_mount p f vfs = (Ok tt, mkVfs (mounts vfs ++ [mkMount (canonical_prefix p) f])))).
Proof.
  unfold vfs_mount. split; [intros; by rewrite decide_True|].
  intros Hlen. rewrite decide_False by lia. split.
  - intros [->|Hin]; [done|]. apply existsb_prefix in Hin. rewrite Hin.
    by destruct (starts_with _ p).
  - intros -> Hn. rewrite <- existsb_prefix in Hn. simpl.
    by destruct (existsb _ _).
Qed.

(** C37: a directory listing is the backend's entries followed by the basenames of the mounts
    directly below the directory, each once: nothing is lost, and a listing without duplicates
    stays without duplicates. *)
Theorem list_dir_surfaces_mounts abs vfs w entries s' :
  routed abs fs_list_dir (vfs, w) = (Ok entries, s') ->
  exists out, vfs_list_dir abs (vfs, w) = (Ok out, s') /\
    entries `prefix_of` out /\ (NoDup entries -> NoDup out) /\
    forall x, x ∈ out <-> x ∈ entries \/
      (valid_seg x /\ canonical_prefix abs ++ s_ "/" ++ x ∈ (prefix <$> mounts vfs)).
Proof.
  intros H. unfold vfs_list_dir. rewrite (bind_ok _ _ _ _ _ H).
  destruct (add_children_spec (canonical_prefix abs) (mounts vfs) entries) as (H1 & H2 & H3).
  eexists. split; [done|]. split; [done|]. split; [done|].
  intros x. rewrite H1. setoid_rewrite direct_child_spec. rewrite list_elem_of_fmap.
  naive_solver.
Qed.

(** Once a backend is mounted at [p], a path below [p] that no deeper mount owns reaches that
    backend, with the rest of the path, whatever the operation. *)
Theorem mount_routes {A} p f vfs vfs' t (op : str -> M (F * W) FsError A) w r f' w' :
  vfs_wf vfs -> vfs_mount p f vfs = (Ok tt, vfs') ->
  (forall m, m ∈ mounts vfs -> owns (canonical_prefix p ++ s_ "/" ++ t) (prefix m) ->
     length (prefix m) <= length (canonical_prefix p)) ->
  op (s_ "/" ++ t) (f, w) = (r, (f', w')) ->
  routed (canonical_prefix p ++ s_ "/" ++ t) op (vfs', w) =
    (r, (mkVfs (mounts vfs ++ [mkMount (canonical_prefix p) f']), w')).
Proof.
  intros Hwf Hm Hmax Hop. pose proof (vfs_mount_wf _ _ _ _ _ Hwf Hm) as (_ & Hnd & _).
  apply vfs_mount_Ok in Hm as (_ & Hp & Hn & ->). simpl in Hnd.
  change (s_ "/" ++ t) with ("/"%byte :: t) in *.
  assert (owns (canonical_prefix p ++ "/"%byte :: t) (canonical_prefix p)) as Ho by (right; eauto).
  unfold routed.
  rewrite (resolve_max _ _ (length (mounts vfs)) (mkMount (canonical_prefix p) f));
    [|done| |by simpl; rewrite list_lookup_middle|done|].
  - unfold at_mount. simpl. rewrite list_lookup_middle by done. simpl.
    unfold rel_of. rewrite decide_False, drop_app_length, Hop.
    + by rewrite insert_app_r_alt, Nat.sub_diag by lia.
    + intros Heq. apply (f_equal length) in Heq. rewrite length_app in Heq. simpl in Heq. lia.
  - destruct (canonical_prefix_canon p Hp) as [->|[[t' ->]%starts_slash _]]; done.
  - simpl. intros m' [Hin| ->%list_elem_of_singleton]%elem_of_app ?; [by apply Hmax|done].
Qed.

End vfs_theorems.

(** ** Backends that always answer

    What a backend promises the shell: on devices satisfying [Wok t] none of the methods the shell calls
    panics, the devices satisfy [Wok t] again, and listing a directory never fails with [IsADir]. The
    index [t] stands for what backends may not change, such as the clock. *)

Class FileSystemSpec {T W F : Type} (Wok : T -> W -> Prop) `{FS : FileSystem W F} : Type := {
  fss_inv : F -> Prop;
  fss_ok (t : T) : F * W -> Prop := fun s => fss_inv (fst s) /\ Wok t (snd s);
  fss_read_file t rel : answers (fss_ok t) (fun _ => True) (fs_read_file rel);
  fss_list_dir t rel : answers (fss_ok t) (fun e => e <> IsADir) (fs_list_dir rel);
  fss_is_dir t rel : answers (fss_ok t) (fun _ => True) (fs_is_dir rel);
  fss_create_file t rel : answers (fss_ok t) (fun _ => True) (fs_create_file rel);
  fss_write_file t rel data : answers (fss_ok t) (fun _ => True) (fs_write_file rel data);
  fss_create_dir t rel : answers (fss_ok t) (fun _ => True) (fs_create_dir rel);
  fss_remove t rel : answers (fss_ok t) (fun _ => True) (fs_remove rel);
}.
#[export] Hint Resolve fss_read_file fss_list_dir fss_is_dir fss_create_file fss_write_file
  fss_create_dir fss_remove : answers.

Section answering.
Context {T W F : Type} (Wok : T -> W -> Prop) (t : T) `{SP : FileSystemSpec T W F Wok}.

(** All mounted backends are fine, on fine devices. *)
Definition vfs_ok (s : Vfs F * W) : Prop :=
  Forall (fun m => fss_inv (fs m)) (mounts (fst s)) /\ Wok t (snd s).

Lemma at_mount_answers {A} Q i (op : M (F * W) FsError A) vfs w :
  is_Some (mounts vfs !! i) -> answers (fss_ok t) Q op -> vfs_ok (vfs, w) ->
  exists r s', at_mount i op (vfs, w) = (r, s') /\ good Q r /\ vfs_ok s'.
Proof.
  intros [m Hm] Hop [Hv Hw]. unfold at_mount. rewrite Hm.
  destruct (Hop (fs m, w)) as (r & [f' w'] & He & Hr & [Hf' Hw']).
  { split; [|done]. by eapply (Forall_lookup_1 (fun m => fss_inv (fs m))). }
  rewrite He. eexists _, _. split; [done|]. split; [done|]. split; [|done].
  by apply Forall_insert.
Qed.

Lemma routed_answers {A} (Q : FsError -> Prop) abs (op : str -> M (F * W) FsError A) :
  Q NotFound -> (forall rel, answers (fss_ok t) Q (op rel)) -> answers vfs_ok Q (routed abs op).
Proof.
  intros HQ Hop [vfs w] Hs. unfold routed.
  destruct (resolve vfs abs) as [[i rel]|e| |] eqn:Hr.
  - apply resolve_Ok_inv in Hr as (_ & m & Hm & _). apply at_mount_answers; eauto.
  - apply resolve_Err_inv in Hr as [-> _]. by eexists _, _.
  - destruct (resolve_total vfs abs) as [(? & ? & H)|H]; congruence.
  - destruct (resolve_total vfs abs) as [(? & ? & H)|H]; congruence.
Qed.

Lemma vfs_list_dir_answers abs : answers vfs_ok (fun e => e <> IsADir) (vfs_list_dir abs).
Proof.
  intros [v w] Hs. unfold vfs_list_dir. 
  refine (answers_bind _ _ _ _ _ _ (v, w) Hs); auto with answers.
  apply routed_answers; auto with answers.
Qed.

Lemma vfs_is_dir_answers abs : answers vfs_ok (fun _ => True) (vfs_is_dir abs).
Proof.
  intros [v w] Hs. unfold vfs_is_dir. destruct (existsb _ _); [by eexists _, _|].
  destruct (resolve v abs) as [[i rel]|e| |] eqn:Hr; [|by eexists _, _..].
  apply resolve_Ok_inv in Hr as (_ & m & Hm & _). apply at_mount_answers; eauto with answers.
Qed.

End answering.
