(* ===== verification/Block.v ===== *)
(** * Block devices (src/kernel/src/block.rs) and the kernel's global devices

    The [BlockDevice] trait as a class, the abstract disk that states its contract, and the record
    of global singletons ([DRIVE], [SERIAL1], [FB_WRITER], [TIMER_TICKS]) the file systems reach. *)

From S2P Require Import Prelude.

Inductive BlockError : Set :=
| Timeout
| DriveError
| OutOfRange.

#[global] Instance BlockError_eq_dec : EqDecision BlockError.
Proof.
  solve_decision.
Defined.

(** [{:?}] of the error. *)
Definition block_error_debug (e : BlockError) : str :=
  match e with
  | Timeout => s_ "Timeout"
  | DriveError => s_ "DriveError"
  | OutOfRange => s_ "OutOfRange"
  end.

Definition BLOCK_SIZE : nat := 512.

(** [read_block lba buf] returns the count and the buffer after the call; [write_block] returns
    the count. *)
Class BlockDevice (D : Type) : Type := {
  num_blocks : D -> Z;
  read_block : Z -> bytes -> M D BlockError (nat * bytes);
  write_block : Z -> bytes -> M D BlockError nat;
}.

(** ** The contract: a disk is an array of 512-byte blocks

    Blocks that were never written read as zeros. *)

Record Disk : Type := mkDisk { nblocks : Z; blocks : gmap Z bytes }.

Definition dget (d : Disk) (lba : Z) : bytes := default (zeros BLOCK_SIZE) (blocks d !! lba).
Definition dput (d : Disk) (lba : Z) (b : bytes) : Disk :=
  mkDisk (nblocks d) (<[lba := b]> (blocks d)).

Definition disk_read (lba : Z) (buf : bytes) : M Disk BlockError (nat * bytes) := fun d =>
  if negb ((0 <=? lba) && (lba <? nblocks d))%Z then (Err OutOfRange, d)
  else if length buf <? BLOCK_SIZE then (Err OutOfRange, d)
  else (Ok (BLOCK_SIZE, splice 0 (dget d lba) buf), d).

Definition disk_write (lba : Z) (buf : bytes) : M Disk BlockError nat := fun d =>
  if negb ((0 <=? lba) && (lba <? nblocks d))%Z then (Err OutOfRange, d)
  else if length buf <? BLOCK_SIZE then (Err OutOfRange, d)
  else (Ok BLOCK_SIZE, dput d lba (take BLOCK_SIZE buf)).

#[global] Instance disk_block_device : BlockDevice Disk := {
  num_blocks := nblocks;
  read_block := disk_read;
  write_block := disk_write;
}.

(** Every stored block has the block size. *)
Definition disk_wf (d : Disk) : Prop := forall lba, length (dget d lba) = BLOCK_SIZE.

(** What a driver promises its clients: it behaves like the abstract disk it is related to. *)
Class BlockDeviceSpec (D : Type) `{BlockDevice D} : Type := {
  bd_rel : D -> Disk -> Prop;
  bd_wf d k : bd_rel d k -> disk_wf k;
  bd_num_blocks d k : bd_rel d k -> num_blocks d = nblocks k;
  bd_read lba buf d k :
    bd_rel d k -> exists d', read_block lba buf d = (fst (disk_read lba buf k), d') /\ bd_rel d' k;
  bd_write lba buf d k :
    bd_rel d k -> exists d', write_block lba buf d = (fst (disk_write lba buf k), d') /\
                             bd_rel d' (snd (disk_write lba buf k));
}.

(** ** Global devices *)

(** The text console behind [print!] and the scrollback keys: the framebuffer writer's interface. *)
Class Console (C : Type) : Type := {
  con_write_str : str -> M C unit unit;
  con_clear : M C unit unit;
  con_viewport_rows : C -> Z;
  con_scroll_up : Z -> M C unit unit;
  con_scroll_down : Z -> M C unit unit;
  con_scroll_end : M C unit unit;
}.

(** What a console promises its clients: on an initialised console no operation panics, as long as
    scroll steps stay below 2^63 rows, which [viewport_rows] does. *)
Class ConsoleSpec (C : Type) `{Console C} : Type := {
  con_inv : C -> Prop;
  con_write_str_total s : total_on con_inv (con_write_str s);
  con_clear_total : total_on con_inv con_clear;
  con_rows_bound c : con_inv c -> (0 <= con_viewport_rows c < 2 ^ 63)%Z;
  con_scroll_up_total n : (0 <= n < 2 ^ 63)%Z -> total_on con_inv (con_scroll_up n);
  con_scroll_down_total n : (0 <= n < 2 ^ 63)%Z -> total_on con_inv (con_scroll_down n);
  con_scroll_end_total : total_on con_inv con_scroll_end;
}.

Record Devices (D C : Type) : Type := mkDevices {
  drive : D;
  serial1 : option bytes;
  fb_writer : option C;
  timer_ticks : Z;
}.
Arguments mkDevices {D C} _ _ _ _.
Arguments drive {D C} _.
Arguments serial1 {D C} _.
Arguments fb_writer {D C} _.
Arguments timer_ticks {D C} _.

(** [TIMER_TICKS.fetch_add(1)]: an [AtomicU64], which wraps. *)
Definition count_tick (t : Z) : Z := ((t + 1) mod 2 ^ 64)%Z.
Definition tick_devices {D C} (w : Devices D C) : Devices D C :=
  mkDevices (drive w) (serial1 w) (fb_writer w) (count_tick (timer_ticks w)).

(** [DRIVE.lock().op()]. *)
Definition with_drive {D C E A} (op : M D E A) : M (Devices D C) E A := fun w =>
  let '(r, d') := op (drive w) in
  (r, mkDevices d' (serial1 w) (fb_writer w) (timer_ticks w)).

(** [crate::print!("{}", s)]: a no-op until the framebuffer is initialised. *)
Definition print {D C E} `{Console C} (s : str) : M (Devices D C) E unit := fun w =>
  match fb_writer w with
  | None => (Ok tt, w)
  | Some c =>
      let '(r, c') := con_write_str s c in
      (match r with Ok _ => Ok tt | Err _ => Ok tt | Panic => Panic | Diverge => Diverge end,
       mkDevices (drive w) (serial1 w) (Some c') (timer_ticks w))
  end.

(** [crate::serial_print!("{}", s)]: bytes handed to the UART, a no-op before [serial::init]. *)
Definition serial_print {D C E} (s : str) : M (Devices D C) E unit := fun w =>
  match serial1 w with
  | None => (Ok tt, w)
  | Some log => (Ok tt, mkDevices (drive w) (Some (log ++ s)) (fb_writer w) (timer_ticks w))
  end.

(** ** Device invariants *)

Section devices.
Context {D C : Type} `{BD : BlockDevice D} `{BS : !BlockDeviceSpec D} `{CO : Console C} `{CS : !ConsoleSpec C}.

(** The drive keeps its contract and the console, once there is one, its own; the clock shows [now]. *)
Definition devices_ok (now : Z) (w : Devices D C) : Prop :=
  (exists k, bd_rel (drive w) k) /\ match fb_writer w with Some c => con_inv c | None => True end /\
  timer_ticks w = now.

Lemma print_total {E} now s : total_on (E:=E) (devices_ok now) (print s).
Proof.
  intros w (Hd & Hc & Ht). unfold print. destruct (fb_writer w) as [c|] eqn:Hw.
  - destruct (con_write_str_total s c Hc) as (a & c' & He & Hc'). rewrite He. by eexists _, _.
  - exists tt, w. split; [done|]. split; [done|]. by rewrite Hw.
Qed.

Lemma serial_print_total {E} now s : total_on (E:=E) (devices_ok now) (serial_print s).
Proof.
  intros w Hw. unfold serial_print. by destruct (serial1 w); eexists _, _.
Qed.

Lemma with_drive_answers {E A} now (m : M D E A) :
  (forall d k, bd_rel d k -> exists r d' k', m d = (r, d') /\ good (fun _ => True) r /\ bd_rel d' k') ->
  answers (devices_ok now) (fun _ => True) (with_drive m).
Proof.
  intros Hm w ([k Hk] & Hc). destruct (Hm _ _ Hk) as (r & d' & k' & He & Hr & Hk').
  unfold with_drive. rewrite He. eexists _, _. split; [done|]. split; [done|]. split; [by eexists|done].
Qed.

Lemma tick_devices_ok now w : devices_ok now w -> devices_ok (count_tick now) (tick_devices w).
Proof.
  intros (Hd & Hc & <-). by split.
Qed.

End devices.
#[export] Hint Resolve print_total serial_print_total : answers.

(** ** Disk lemmas *)

Lemma dget_dput d lba b lba' : dget (dput d lba b) lba' = if decide (lba = lba') then b else dget d lba'.
Proof.
  unfold dget, dput. simpl. case_decide; subst.
  - by rewrite lookup_insert_eq.
  - by rewrite lookup_insert_ne.
Qed.

Lemma dget_dput_eq d lba b : dget (dput d lba b) lba = b.
Proof.
  rewrite dget_dput. by rewrite decide_True.
Qed.

Lemma dget_dput_ne d lba b lba' : lba <> lba' -> dget (dput d lba b) lba' = dget d lba'.
Proof.
  intros. rewrite dget_dput. by rewrite decide_False.
Qed.

Lemma nblocks_dput d lba b : nblocks (dput d lba b) = nblocks d.
Proof.
  done.
Qed.

Lemma disk_wf_dput d lba b : disk_wf d -> length b = BLOCK_SIZE -> disk_wf (dput d lba b).
Proof.
  intros Hd Hb l. rewrite dget_dput. by case_decide.
Qed.

Lemma splice_all data buf : length data = length buf -> splice 0 data buf = data.
Proof.
  intros H. unfold splice. rewrite take_0, drop_ge by (simpl; lia). by rewrite app_nil_r.
Qed.

Lemma disk_read_ok d lba buf :
  (0 <= lba < nblocks d)%Z -> length buf = BLOCK_SIZE -> disk_wf d ->
  disk_read lba buf d = (Ok (BLOCK_SIZE, dget d lba), d).
Proof.
  intros Hl Hb Hd. unfold disk_read.
  replace ((0 <=? lba) && (lba <? nblocks d))%Z with true by (symmetry; lia). simpl.
  rewrite Hb, splice_all by (by rewrite Hb, Hd). done.
Qed.

Lemma disk_write_ok d lba buf :
  (0 <= lba < nblocks d)%Z -> length buf = BLOCK_SIZE ->
  disk_write lba buf d = (Ok BLOCK_SIZE, dput d lba buf).
Proof.
  intros Hl Hb. unfold disk_write.
  replace ((0 <=? lba) && (lba <? nblocks d))%Z with true by (symmetry; lia). simpl.
  rewrite Hb. simpl. by rewrite take_ge by lia.
Qed.

(** Abstract disk after writing the [n] blocks of [buf] from index [i] on at [lba]. *)
Fixpoint dput_blocks (k : Disk) (lba : Z) (n i : nat) (buf : bytes) : Disk :=
  match n with
  | O => k
  | S n' => dput_blocks (dput k (lba + Z.of_nat i) (sub_bytes (i * BLOCK_SIZE) BLOCK_SIZE buf))
                        lba n' (S i) buf
  end.

Lemma nblocks_dput_blocks k lba n i buf : nblocks (dput_blocks k lba n i buf) = nblocks k.
Proof.
  revert k i. induction n as [|n IH]; intros k i; simpl; [done|]. by rewrite IH.
Qed.

Lemma dget_dput_blocks k lba n i buf l :
  dget (dput_blocks k lba n i buf) l =
    if decide (lba + Z.of_nat i <= l < lba + Z.of_nat (i + n))%Z
    then sub_bytes (Z.to_nat (l - lba) * BLOCK_SIZE) BLOCK_SIZE buf
    else dget k l.
Proof.
  revert k i. induction n as [|n IH]; intros k i; simpl.
  { rewrite decide_False by lia. done. }
  rewrite IH, dget_dput. repeat case_decide; try lia; try done.
  subst l. do 2 f_equal. lia.
Qed.

(** The abstract disk keeps its own contract. *)
#[global] Program Instance disk_spec : BlockDeviceSpec Disk := {
  bd_rel d k := d = k /\ disk_wf k;
}.
Next Obligation.
  by intros d k [-> ?].
Qed.
Next Obligation.
  by intros d k [-> ?].
Qed.
Next Obligation.
  intros lba buf d k [-> Hk]. exists k. split; [|done]. simpl. unfold disk_read.
  by repeat case_match.
Qed.
Next Obligation.
  intros lba buf d k [-> Hk]. exists (snd (disk_write lba buf k)).
  split; [by simpl; destruct (disk_write lba buf k)|]. split; [done|].
  unfold disk_write. repeat case_match; simpl; try done.
  apply disk_wf_dput; [done|]. rewrite length_take. rewrite Nat.ltb_ge in *. lia.
Qed.
