(* ===== verification/Framebuffer.v ===== *)
(** * The framebuffer console (src/kernel/src/framebuffer.rs)

    The pixel buffer, the cursor, the scrollback ring and every method of [FrameBufferWriter]. The
    bitmap font is the crate [noto_sans_mono_bitmap]: a parameter, with its documented laws as a
    class. Pixels are bytes of the buffer, [usize] arithmetic panics on overflow. *)

From S2P Require Import Prelude.
From S2P Require Import Block.

Open Scope Z_scope.

(** ** The font *)

(** [RasterizedChar]: one intensity byte per pixel, row by row. *)
Record RasterizedChar : Type := mkGlyph { raster : list bytes; width : Z }.

Class Font : Type := {
  CHAR_RASTER_HEIGHT : Z;
  CHAR_RASTER_WIDTH : Z;
  get_raster : Z -> option RasterizedChar;
}.

Definition LINE_SPACING : Z := 2.
Definition LETTER_SPACING : Z := 0.
Definition BORDER_PADDING : Z := 1.
Definition BACKUP_CHAR : Z := 65533.
Definition SCROLLBACK_LINES : Z := 256.
Definition MAX_LINE_LEN : Z := 256.

(** What the crate documents: the glyphs of one weight and size all have the same raster, and the
    replacement character has one. *)
Class FontSpec `{Font} : Prop := {
  font_height : 1 <= CHAR_RASTER_HEIGHT <= 32;
  font_width : 1 <= CHAR_RASTER_WIDTH <= 32;
  font_glyph c g : get_raster c = Some g ->
    Z.of_nat (length (raster g)) = CHAR_RASTER_HEIGHT /\
    Forall (fun row => Z.of_nat (length row) = CHAR_RASTER_WIDTH) (raster g) /\
    width g = CHAR_RASTER_WIDTH;
  font_backup : is_Some (get_raster BACKUP_CHAR);
}.

(** ** Data *)

Inductive PixelFormat : Set :=
| Rgb
| Bgr
| U8
| UnknownFormat.

(** The fields of the bootloader's [FrameBufferInfo] the writer uses. *)
Record FrameBufferInfo : Type := mkInfo {
  fi_width : Z;
  fi_height : Z;
  fi_pixel_format : PixelFormat;
  fi_bytes_per_pixel : Z;
  fi_stride : Z;
}.

Record FrameBufferWriter : Type := mkWriter {
  framebuffer : bytes;
  info : FrameBufferInfo;
  x_pos : Z;
  y_pos : Z;
  ring : list str;
  current_line : str;
  scroll_back : Z;
  viewport_rows : Z;
}.

Definition set_framebuffer (b : bytes) (w : FrameBufferWriter) : FrameBufferWriter :=
  mkWriter b (info w) (x_pos w) (y_pos w) (ring w) (current_line w) (scroll_back w) (viewport_rows w).
Definition set_info (i : FrameBufferInfo) (w : FrameBufferWriter) : FrameBufferWriter :=
  mkWriter (framebuffer w) i (x_pos w) (y_pos w) (ring w) (current_line w) (scroll_back w) (viewport_rows w).
Definition set_pos (x y : Z) (w : FrameBufferWriter) : FrameBufferWriter :=
  mkWriter (framebuffer w) (info w) x y (ring w) (current_line w) (scroll_back w) (viewport_rows w).
Definition set_lines (r : list str) (cur : str) (w : FrameBufferWriter) : FrameBufferWriter :=
  mkWriter (framebuffer w) (info w) (x_pos w) (y_pos w) r cur (scroll_back w) (viewport_rows w).
Definition set_scroll (n : Z) (w : FrameBufferWriter) : FrameBufferWriter :=
  mkWriter (framebuffer w) (info w) (x_pos w) (y_pos w) (ring w) (current_line w) n (viewport_rows w).

(** Replace the state by a function of it. *)
Definition modify {S E} (f : S -> S) : M S E unit := fun s => (Ok tt, f s).

(** ** Operations *)

Section framebuffer.
Context `{FT : Font}.

Definition ROW_HEIGHT : Z := CHAR_RASTER_HEIGHT + LINE_SPACING.

Definition fb_op : Type := M FrameBufferWriter unit unit.

Definition raster_for {S E} (c : Z) : M S E RasterizedChar :=
  match get_raster c with
  | Some g => ret g
  | None =>
      match get_raster BACKUP_CHAR with
      | Some g => ret g
      | None => panic
      end
  end.

(** The four channel bytes of a grey level. *)
Definition pixel_color (f : PixelFormat) (intensity : byte) : option bytes :=
  let half := of_u8 (u8 intensity / 2) in
  match f with
  | Rgb => Some [intensity; intensity; half; Byte.x00]
  | Bgr => Some [half; intensity; intensity; Byte.x00]
  | U8 => Some [if 200 <? u8 intensity then Byte.x0f else Byte.x00; Byte.x00; Byte.x00; Byte.x00]
  | UnknownFormat => None
  end.

(** [framebuffer[byte_offset..end].copy_from_slice(&color[..bpp])] and the volatile read back. *)
Definition blit (byte_offset last bpp : Z) (color : bytes) : fb_op := fun w =>
  let len := Z.of_nat (length (framebuffer w)) in
  if (last <=? len) && (bpp <=? 4) && (byte_offset <? len)
  then (Ok tt, set_framebuffer (splice (Z.to_nat byte_offset) (take (Z.to_nat bpp) color) (framebuffer w)) w)
  else (Panic, w).

Definition write_pixel (x y : Z) (intensity : byte) : fb_op := fun w =>
  (let* row_offset := usize_mul y (fi_stride (info w)) in
   let* pixel_offset := usize_add row_offset x in
   match pixel_color (fi_pixel_format (info w)) intensity with
   | None =>
       modify (set_info (mkInfo (fi_width (info w)) (fi_height (info w)) Rgb
                                (fi_bytes_per_pixel (info w)) (fi_stride (info w)))) ;;;
       panic
   | Some color =>
       let bpp := fi_bytes_per_pixel (info w) in
       let* byte_offset := usize_mul pixel_offset bpp in
       let* last := usize_add byte_offset bpp in
       blit byte_offset last bpp color
   end) w.

(** The pixel loops of [write_rendered] and of [redraw_visible]. *)
Definition draw_row (x y : Z) (row : bytes) : fb_op :=
  for_each (enumerate row) (fun '(gx, b) =>
    let* px := usize_add x gx in write_pixel px y b).

Definition draw_glyph (x y : Z) (glyph : RasterizedChar) : fb_op :=
  for_each (enumerate (raster glyph)) (fun '(gy, row) =>
    let* py := usize_add y gy in draw_row x py row).

Definition write_rendered (glyph : RasterizedChar) : fb_op := fun w =>
  (draw_glyph (x_pos w) (y_pos w) glyph ;;;
   let* x := usize_add (x_pos w) (width glyph + LETTER_SPACING) in
   modify (set_pos x (y_pos w))) w.

Definition clear_visible : fb_op :=
  modify (fun w => set_framebuffer (zeros (length (framebuffer w))) w).

Definition fb_new (buf : bytes) (i : FrameBufferInfo) : FrameBufferWriter :=
  let rows := saturating_sub (fi_height i) (2 * BORDER_PADDING) / ROW_HEIGHT in
  snd (clear_visible (mkWriter buf i BORDER_PADDING BORDER_PADDING [] [] 0 rows)).

Definition fb_clear : fb_op :=
  modify (fun w => set_framebuffer (zeros (length (framebuffer w)))
                     (set_pos BORDER_PADDING BORDER_PADDING w)).

Definition push_current_to_ring : fb_op :=
  modify (fun w =>
    let r := if decide (Z.of_nat (length (ring w)) = SCROLLBACK_LINES) then tail (ring w) else ring w in
    set_lines (r ++ [current_line w]) [] w).

(** The inner loop of [redraw_visible] over one line, returning the final [x]. *)
Fixpoint redraw_line (wd : Z) (cs : list Z) (x y : Z) : M FrameBufferWriter unit Z :=
  match cs with
  | [] => ret x
  | c :: cs' =>
      let* right_edge := usize_add x CHAR_RASTER_WIDTH in
      if wd <=? right_edge then ret x
      else
        let* glyph := raster_for c in
        draw_glyph x y glyph ;;;
        let* x' := usize_add x (width glyph + LETTER_SPACING) in
        redraw_line wd cs' x' y
  end.

(** The outer loop: [row], [x] and [y] are the source's variables. *)
Fixpoint redraw_rows (idxs : list Z) (row x y : Z) : M FrameBufferWriter unit (Z * Z) :=
  match idxs with
  | [] => ret (row, x)
  | idx :: idxs' => fun w =>
      let line := if idx <? Z.of_nat (length (ring w)) then ring w !!! Z.to_nat idx else current_line w in
      (let* x := redraw_line (fi_width (info w)) (chars line) BORDER_PADDING y in
       let* y := usize_add y ROW_HEIGHT in
       let* row := usize_add row 1 in
       if viewport_rows w <=? row then ret (row, x) else redraw_rows idxs' row x y) w
  end.

Definition redraw_visible (back : Z) : fb_op :=
  clear_visible ;;;
  fun w =>
  (let* total := usize_add (Z.of_nat (length (ring w))) 1 in
   let max_back := saturating_sub total (viewport_rows w) in
   let off := Z.min back max_back in
   let* rows_off := usize_add (viewport_rows w) off in
   let first := saturating_sub total rows_off in
   let* last := usize_sub total off in
   let* (row, x) := redraw_rows (seqZ first (last - first)) 0 BORDER_PADDING BORDER_PADDING in
   let* dy := usize_mul (saturating_sub row 1) ROW_HEIGHT in
   let* y := usize_add BORDER_PADDING dy in
   modify (set_pos x y)) w.

Definition advance_visual_row : fb_op := fun w =>
  (let* y := usize_add (y_pos w) ROW_HEIGHT in
   modify (set_pos BORDER_PADDING y) ;;;
   let* a := usize_add y CHAR_RASTER_HEIGHT in
   let* bottom := usize_add a BORDER_PADDING in
   if fi_height (info w) <=? bottom then
     redraw_visible 0 ;;;
     let* dy := usize_mul (saturating_sub (viewport_rows w) 1) ROW_HEIGHT in
     let* y := usize_add BORDER_PADDING dy in
     modify (set_pos BORDER_PADDING y)
   else ret tt) w.

(** [if self.scroll_back == 0 { self.advance_visual_row() }]. *)
Definition advance_if_live : fb_op := fun w =>
  (if decide (scroll_back w = 0) then advance_visual_row else ret tt) w.

Definition newline : fb_op := push_current_to_ring ;;; advance_if_live.

Definition carriage_return : fb_op := modify (fun w => set_pos BORDER_PADDING (y_pos w) w).

(** Drawing one character at the live tail. *)
Definition put_char (c : Z) : fb_op := fun w =>
  (if decide (scroll_back w = 0) then
     let* right_edge := usize_add (x_pos w) CHAR_RASTER_WIDTH in
     (if fi_width (info w) <=? right_edge then advance_visual_row else ret tt) ;;;
     let* glyph := raster_for c in
     write_rendered glyph
   else ret tt) w.

Definition write_char (c : Z) : fb_op := fun w =>
  (if decide (c = 10) then newline
   else if decide (c = 13) then carriage_return
   else
     (if MAX_LINE_LEN <=? Z.of_nat (length (current_line w))
      then push_current_to_ring ;;; advance_if_live
      else ret tt) ;;;
     put_char c ;;;
     modify (fun w => set_lines (ring w) (current_line w ++ utf8_encode c) w)) w.

Definition write_str (s : str) : fb_op := for_each (chars s) write_char.

Definition scroll_up (n : Z) : fb_op := fun w =>
  (let* total := usize_add (Z.of_nat (length (ring w))) 1 in
   let max_back := saturating_sub total (viewport_rows w) in
   let* want := usize_add (scroll_back w) n in
   let new := Z.min want max_back in
   if decide (new = scroll_back w) then ret tt
   else modify (set_scroll new) ;;; redraw_visible new) w.

Definition scroll_down (n : Z) : fb_op := fun w =>
  (let new := saturating_sub (scroll_back w) n in
   if decide (new = scroll_back w) then ret tt
   else modify (set_scroll new) ;;; redraw_visible new) w.

Definition scroll_end : fb_op := fun w =>
  (if decide (scroll_back w = 0) then ret tt
   else modify (set_scroll 0) ;;; redraw_visible 0) w.

#[global] Instance fb_console : Console FrameBufferWriter := {
  con_write_str := write_str;
  con_clear := fb_clear;
  con_viewport_rows := viewport_rows;
  con_scroll_up := scroll_up;
  con_scroll_down := scroll_down;
  con_scroll_end := scroll_end;
}.

End framebuffer.

(** ** Geometry and pixels *)

Section pixels.
Context `{FS : FontSpec}.

(** A buffer and description on which glyphs fit. *)
Record fb_geom (i : FrameBufferInfo) (len : nat) : Prop := {
  g_fmt : fi_pixel_format i <> UnknownFormat;
  g_bpp : 1 <= fi_bytes_per_pixel i <= 4;
  g_stride : fi_width i <= fi_stride i;
  g_width : BORDER_PADDING + CHAR_RASTER_WIDTH <= fi_width i;
  g_height : BORDER_PADDING + CHAR_RASTER_HEIGHT <= fi_height i;
  g_fits : fi_height i * fi_stride i * fi_bytes_per_pixel i <= Z.of_nat len;
  g_len : Z.of_nat len < 2 ^ 63;
}.

(** The bytes of one pixel, and the bytes a grey level is stored as. *)
Definition pixel_offset (i : FrameBufferInfo) (x y : Z) : Z :=
  (y * fi_stride i + x) * fi_bytes_per_pixel i.
Definition pixel (i : FrameBufferInfo) (fb : bytes) (x y : Z) : bytes :=
  sub_bytes (Z.to_nat (pixel_offset i x y)) (Z.to_nat (fi_bytes_per_pixel i)) fb.
Definition color (i : FrameBufferInfo) (b : byte) : bytes :=
  take (Z.to_nat (fi_bytes_per_pixel i)) (default [] (pixel_color (fi_pixel_format i) b)).

(** A point of the visible area. *)
Definition visible (i : FrameBufferInfo) (x y : Z) : Prop :=
  0 <= x < fi_width i /\ 0 <= y < fi_height i.

(** What a drawing operation puts where; [None] leaves a pixel alone. *)
Definition paint : Type := Z -> Z -> option byte.
Definition over (q p : paint) : paint := fun x y =>
  match q x y with Some b => Some b | None => p x y end.
Definition nothing : paint := fun _ _ => None.

Context (w0 : FrameBufferWriter).
Abbreviation i := (info w0).
Abbreviation len := (length (framebuffer w0)).
Hypothesis G : fb_geom i len.

(** [m] returns [a], changes nothing but the buffer, and paints [p]. *)
Definition paints {A} (m : M FrameBufferWriter unit A) (a : A) (p : paint) : Prop :=
  forall fb, length fb = len ->
  exists fb', m (set_framebuffer fb w0) = (Ok a, set_framebuffer fb' w0) /\ length fb' = len /\
    forall x y, visible i x y ->
      pixel i fb' x y = match p x y with Some b => color i b | None => pixel i fb x y end.

Lemma font_bounds :
  1 <= CHAR_RASTER_HEIGHT <= 32 /\ 1 <= CHAR_RASTER_WIDTH <= 32 /\ BORDER_PADDING = 1 /\
  ROW_HEIGHT = CHAR_RASTER_HEIGHT + 2 /\ LETTER_SPACING = 0.
Proof using FS.
  repeat split; try apply font_height; try apply font_width.
Qed.

Lemma geom_bounds :
  2 <= fi_width i <= fi_stride i /\ 2 <= fi_height i /\ 1 <= fi_bytes_per_pixel i <= 4 /\
  fi_stride i < 2 ^ 62 /\ fi_height i < 2 ^ 62.
Proof using FS G.
  destruct G as [_ Hb Hs Hw Hh Hf Hl]. pose proof font_bounds as (H1 & H2 & H3 & _).
  assert (2 <= fi_height i) by lia. assert (2 <= fi_stride i) by lia.
  repeat split; try lia; nia.
Qed.

(** Visible pixels lie in the buffer. *)
Lemma offset_bound x y :
  visible i x y ->
  0 <= pixel_offset i x y /\ pixel_offset i x y + fi_bytes_per_pixel i <= Z.of_nat len /\
  0 <= y * fi_stride i + x < 2 ^ 63 /\ y * fi_stride i < 2 ^ 63.
Proof using FS G.
  intros [Hx Hy]. pose proof geom_bounds as (H1 & H2 & H3 & _). destruct G as [_ _ _ _ _ Hf Hl].
  unfold pixel_offset.
  assert (y * fi_stride i + x + 1 <= fi_height i * fi_stride i) by nia.
  assert ((y * fi_stride i + x + 1) * fi_bytes_per_pixel i <= fi_height i * fi_stride i * fi_bytes_per_pixel i) by nia.
  repeat split; nia.
Qed.

(** Different visible pixels do not overlap. *)
Lemma offset_apart x y x' y' :
  visible i x y -> visible i x' y' -> ~ (x = x' /\ y = y') ->
  pixel_offset i x y + fi_bytes_per_pixel i <= pixel_offset i x' y' \/
  pixel_offset i x' y' + fi_bytes_per_pixel i <= pixel_offset i x y.
Proof using FS G.
  intros [Hx Hy] [Hx' Hy'] Hne. pose proof geom_bounds as (H1 & H2 & H3 & _).
  unfold pixel_offset.
  assert (y * fi_stride i + x + 1 <= y' * fi_stride i + x' \/ y' * fi_stride i + x' + 1 <= y * fi_stride i + x)
    as [|] by (destruct (Z.lt_trichotomy y y') as [|[->|]]; [left; nia| |right; nia];
               destruct (Z.lt_trichotomy x x') as [|[->|]]; lia).
  - left. nia.
  - right. nia.
Qed.

Lemma length_pixel_color b c : pixel_color (fi_pixel_format i) b = Some c -> length c = 4%nat.
Proof.
  unfold pixel_color. by destruct (fi_pixel_format i); intros [= <-].
Qed.

Lemma pixel_color_some b : exists c, pixel_color (fi_pixel_format i) b = Some c.
Proof using FS G.
  pose proof (g_fmt _ _ G). destruct (fi_pixel_format i); simpl; eauto. done.
Qed.

Lemma write_pixel_paints x y b :
  visible i x y ->
  paints (write_pixel x y b) tt (fun x' y' => if decide (x' = x /\ y' = y) then Some b else None).
Proof using FS G.
  intros Hv fb Hfb. destruct (offset_bound x y Hv) as (O1 & O2 & O3 & O4). destruct Hv as [Hx Hy].
  pose proof geom_bounds as (H1 & H2 & H3 & H4 & H5). pose proof (g_len _ _ G) as Hl.
  destruct (pixel_color_some b) as [c Hc]. pose proof (length_pixel_color _ _ Hc) as Hlc.
  assert (length (take (Z.to_nat (fi_bytes_per_pixel i)) c) = Z.to_nat (fi_bytes_per_pixel i)) as Hlt
    by (rewrite length_take; lia).
  exists (splice (Z.to_nat (pixel_offset i x y)) (take (Z.to_nat (fi_bytes_per_pixel i)) c) fb).
  repeat split.
  - unfold write_pixel. cbn [info set_framebuffer]. unfold usize_mul, usize_add, USIZE_MAX in *.
    erewrite bind_ok by (apply usize_checked_ok; unfold USIZE_MAX; nia).
    erewrite bind_ok by (apply usize_checked_ok; unfold USIZE_MAX; nia).
    rewrite Hc. fold (pixel_offset i x y).
    erewrite bind_ok by (apply usize_checked_ok; unfold USIZE_MAX; lia).
    erewrite bind_ok by (apply usize_checked_ok; unfold USIZE_MAX; lia).
    unfold blit. cbn [framebuffer set_framebuffer]. rewrite Hfb.
    replace (_ && _ && _) with true by (symmetry; rewrite !andb_true_iff; lia). done.
  - rewrite length_splice; lia.
  - intros x' y' Hv'. unfold pixel at 1. case_decide as Hd.
    + destruct Hd as [-> ->]. unfold color. rewrite Hc. simpl.
      set (t := take _ c) in *. rewrite <- Hlt. apply sub_splice_same. lia.
    + destruct (offset_bound x' y' Hv') as (P1 & P2 & _).
      destruct (offset_apart x y x' y' (conj Hx Hy) Hv') as [Ha|Ha]; [naive_solver| |];
        apply sub_splice_other; rewrite ?Hlt; lia.
Qed.

Lemma paints_bind {A B} (m : M FrameBufferWriter unit A) (k : A -> M FrameBufferWriter unit B) a b p q :
  paints m a p -> paints (k a) b q -> paints (bind m k) b (over q p).
Proof.
  intros Hm Hk fb Hfb. destruct (Hm fb Hfb) as (fb1 & E1 & L1 & P1).
  destruct (Hk fb1 L1) as (fb2 & E2 & L2 & P2). exists fb2.
  split; [by erewrite bind_ok by done|]. split; [done|].
  intros x y Hv. rewrite P2, P1 by done. unfold over. by destruct (q x y).
Qed.

Lemma paints_pure {A} (m : M FrameBufferWriter unit A) a :
  (forall s, m s = (Ok a, s)) -> paints m a nothing.
Proof.
  intros Hm fb Hfb. exists fb. by rewrite Hm.
Qed.

Lemma paints_ext {A} (m : M FrameBufferWriter unit A) a p q :
  paints m a p -> (forall x y, visible i x y -> p x y = q x y) -> paints m a q.
Proof.
  intros Hm Hpq fb Hfb. destruct (Hm fb Hfb) as (fb' & E & L & P). exists fb'.
  split; [done|]. split; [done|]. intros x y Hv. by rewrite P, Hpq.
Qed.

(** A pure step before a drawing one paints nothing. *)
Lemma paints_after {A B} (m : M FrameBufferWriter unit A) (k : A -> M FrameBufferWriter unit B) a b q :
  (forall s, m s = (Ok a, s)) -> paints (k a) b q -> paints (bind m k) b q.
Proof.
  intros Hm Hk. eapply paints_ext; [by eapply paints_bind; [apply paints_pure|]|].
  intros x y _. unfold over, nothing. by destruct (q x y).
Qed.

(** ** Glyphs, lines and screens *)

Definition row_paint (x y : Z) (row : bytes) : paint := fun px py =>
  if decide (py = y /\ x <= px) then row !! Z.to_nat (px - x) else None.

Definition glyph_paint (x y : Z) (g : RasterizedChar) : paint := fun px py =>
  if decide (y <= py /\ x <= px) then raster g !! Z.to_nat (py - y) ≫= (.!! Z.to_nat (px - x)) else None.

Lemma usize_add_pure a b (s : FrameBufferWriter) :
  0 <= a + b <= USIZE_MAX -> usize_add (E:=unit) a b s = (Ok (a + b), s).
Proof.
  apply usize_checked_ok.
Qed.

Lemma draw_row_from x y k row :
  0 <= x -> 0 <= k -> 0 <= y < fi_height i -> x + k + Z.of_nat (length row) <= fi_width i ->
  paints (for_each (enumerate_from k row) (fun '(gx, b) =>
            let* px := usize_add x gx in write_pixel px y b)) tt (row_paint (x + k) y row).
Proof using FS G.
  intros Hx Hk Hy. revert k Hk. pose proof geom_bounds as (H1 & _ & _ & H4 & _).
  induction row as [|b row IH]; intros k Hk Hw; cbn [enumerate_from for_each length] in *.
  - eapply paints_ext; [by apply paints_pure|]. intros px py _. unfold nothing, row_paint. by case_decide.
  - eapply paints_ext.
    + eapply paints_bind; [|apply IH; lia].
      eapply paints_after; [intros s; apply usize_add_pure; unfold USIZE_MAX; lia|].
      apply write_pixel_paints. unfold visible. lia.
    + intros px py _. unfold over, row_paint.
      destruct (decide (py = y)) as [->|]; [|by repeat case_decide; naive_solver].
      destruct (decide (px = x + k)) as [->|Hne].
      * rewrite (decide_False (P := _ /\ _ <= _)) by lia. rewrite !decide_True by lia.
        by rewrite Z.sub_diag.
      * rewrite (decide_False (P := px = _ /\ _)) by tauto.
        destruct (decide (x + k <= px)); [|by rewrite !decide_False by lia]. rewrite !decide_True by lia.
        replace (Z.to_nat (px - (x + k))) with (S (Z.to_nat (px - (x + (k + 1))))) by lia.
        simpl. by destruct (row !! _).
Qed.

Lemma draw_glyph_from x y k rows :
  0 <= x -> 0 <= y -> 0 <= k -> x + CHAR_RASTER_WIDTH <= fi_width i ->
  y + k + Z.of_nat (length rows) <= fi_height i ->
  Forall (fun row => Z.of_nat (length row) = CHAR_RASTER_WIDTH) rows ->
  paints (for_each (enumerate_from k rows) (fun '(gy, row) =>
            let* py := usize_add y gy in draw_row x py row)) tt
    (fun px py => if decide (y + k <= py /\ x <= px)
                  then rows !! Z.to_nat (py - (y + k)) ≫= (.!! Z.to_nat (px - x)) else None).
Proof using FS G.
  intros Hx Hy Hk Hw. revert k Hk. pose proof geom_bounds as (H1 & _ & _ & H4 & H5).
  induction rows as [|row rows IH]; intros k Hk Hh Hr; cbn [enumerate_from for_each length] in *.
  - eapply paints_ext; [by apply paints_pure|]. intros px py _. unfold nothing. by case_decide.
  - apply Forall_cons in Hr as [Hrow Hr]. eapply paints_ext.
    + eapply paints_bind; [|apply IH; [lia..|done]].
      eapply paints_after; [intros s; apply usize_add_pure; unfold USIZE_MAX; lia|].
      unfold draw_row, enumerate. apply draw_row_from; lia.
    + intros px py _. unfold over, row_paint. rewrite Z.add_0_r.
      destruct (decide (x <= px)); [|by repeat case_decide; naive_solver].
      destruct (decide (py = y + k)) as [->|Hne].
      * rewrite (decide_False (P := _ <= _ /\ _)) by lia. rewrite !decide_True by lia.
        by rewrite Z.sub_diag.
      * rewrite (decide_False (P := py = _ /\ _)) by tauto.
        destruct (decide (y + k <= py)); [|by rewrite !decide_False by lia]. rewrite !decide_True by lia.
        replace (Z.to_nat (py - (y + k))) with (S (Z.to_nat (py - (y + (k + 1))))) by lia.
        simpl. by destruct (_ ≫= _).
Qed.

(** The glyph [raster_for] picks. *)
Definition glyph_of (c : Z) : RasterizedChar :=
  match get_raster c with
  | Some g => g
  | None => default (mkGlyph [] 0) (get_raster BACKUP_CHAR)
  end.

Lemma raster_for_ok {S E} c (s : S) : raster_for (E:=E) c s = (Ok (glyph_of c), s).
Proof using FS.
  unfold raster_for, glyph_of. destruct (get_raster c); [done|].
  by destruct font_backup as [g ->].
Qed.

Lemma glyph_of_dims c :
  Z.of_nat (length (raster (glyph_of c))) = CHAR_RASTER_HEIGHT /\
  Forall (fun row => Z.of_nat (length row) = CHAR_RASTER_WIDTH) (raster (glyph_of c)) /\
  width (glyph_of c) = CHAR_RASTER_WIDTH.
Proof using FS.
  unfold glyph_of. destruct (get_raster c) as [g|] eqn:E; [by eapply font_glyph|].
  destruct font_backup as [g Hg]. rewrite Hg. by eapply font_glyph.
Qed.

Lemma draw_glyph_paints x y c :
  0 <= x -> 0 <= y -> x + CHAR_RASTER_WIDTH <= fi_width i -> y + CHAR_RASTER_HEIGHT <= fi_height i ->
  paints (draw_glyph x y (glyph_of c)) tt (glyph_paint x y (glyph_of c)).
Proof using FS G.
  intros Hx Hy Hw Hh. destruct (glyph_of_dims c) as (D1 & D2 & _).
  eapply paints_ext; [apply draw_glyph_from; [lia..|done]|].
  intros px py _. unfold glyph_paint. by rewrite Z.add_0_r.
Qed.

(** A line of text from [x] on: column [col] is drawn when it ends left of [wd]. *)
Definition line_paint (wd : Z) (cs : list Z) (x y : Z) : paint := fun px py =>
  let col := (px - x) / CHAR_RASTER_WIDTH in
  if decide (x <= px /\ x + (col + 1) * CHAR_RASTER_WIDTH < wd)
  then cs !! Z.to_nat col ≫= fun c => glyph_paint (x + col * CHAR_RASTER_WIDTH) y (glyph_of c) px py
  else None.

Fixpoint line_end (wd : Z) (cs : list Z) (x : Z) : Z :=
  match cs with
  | [] => x
  | _ :: cs' => if wd <=? x + CHAR_RASTER_WIDTH then x else line_end wd cs' (x + CHAR_RASTER_WIDTH)
  end.

Lemma line_end_bound wd cs x : x <= wd -> x <= line_end wd cs x <= wd.
Proof using FS.
  pose proof font_bounds as (_ & Hw & _).
  revert x. induction cs as [|c cs IH]; intros x Hx; simpl; [lia|].
  destruct (Z.leb_spec wd (x + CHAR_RASTER_WIDTH)); [lia|].
  specialize (IH (x + CHAR_RASTER_WIDTH)). lia.
Qed.

Lemma line_paint_cons wd c cs x y px py :
  x + CHAR_RASTER_WIDTH < wd ->
  over (line_paint wd cs (x + CHAR_RASTER_WIDTH) y) (glyph_paint x y (glyph_of c)) px py =
  line_paint wd (c :: cs) x y px py.
Proof using FS.
  intros Hlt. pose proof font_bounds as (_ & Hw & _). destruct (glyph_of_dims c) as (_ & D & _).
  unfold over, line_paint. destruct (decide (x + CHAR_RASTER_WIDTH <= px)) as [Hge|Hge].
  - replace ((px - x) / CHAR_RASTER_WIDTH) with ((px - (x + CHAR_RASTER_WIDTH)) / CHAR_RASTER_WIDTH + 1)
      by (rewrite <- Z.div_add by lia; f_equal; lia).
    set (q := (px - (x + CHAR_RASTER_WIDTH)) / CHAR_RASTER_WIDTH).
    assert (0 <= q) by (apply Z.div_pos; lia).
    assert (glyph_paint x y (glyph_of c) px py = None) as ->.
    { unfold glyph_paint. case_decide; [|done]. destruct (raster _ !! _) as [row|] eqn:Er; [|done].
      simpl. apply lookup_ge_None. eapply Forall_lookup_1 in D; [|done]. simpl in D. lia. }
    replace (Z.to_nat (q + 1)) with (S (Z.to_nat q)) by lia. cbn [lookup list_lookup].
    replace (x + CHAR_RASTER_WIDTH + (q + 1) * CHAR_RASTER_WIDTH) with (x + (q + 1 + 1) * CHAR_RASTER_WIDTH) by lia.
    replace (x + (q + 1) * CHAR_RASTER_WIDTH) with (x + CHAR_RASTER_WIDTH + q * CHAR_RASTER_WIDTH) by lia.
    change (list_lookup (Z.to_nat q) cs) with (cs !! Z.to_nat q).
    repeat case_decide; try lia; [|done]. by destruct (_ ≫= _).
  - rewrite (decide_False (P := _ <= px /\ _)) by lia.
    destruct (decide (x <= px)) as [Hx|Hx].
    + rewrite Z.div_small by lia. rewrite decide_True by lia. simpl. by rewrite Z.add_0_r.
    + rewrite decide_False by lia. unfold glyph_paint. by rewrite decide_False by lia.
Qed.

Lemma redraw_line_paints cs x y :
  0 <= x <= fi_width i -> 0 <= y -> y + CHAR_RASTER_HEIGHT <= fi_height i ->
  paints (redraw_line (fi_width i) cs x y) (line_end (fi_width i) cs x) (line_paint (fi_width i) cs x y).
Proof using FS G.
  pose proof geom_bounds as (H1 & _ & _ & H4 & H5). pose proof font_bounds as (_ & Hw & _).
  intros Hx Hy Hh. revert x Hx. induction cs as [|c cs IH]; intros x Hx; cbn [redraw_line line_end].
  - eapply paints_ext; [by apply paints_pure|]. intros px py _. unfold nothing, line_paint. by case_decide.
  - eapply paints_after; [intros s; apply usize_add_pure; unfold USIZE_MAX; lia|]. simpl.
    destruct (Z.leb_spec (fi_width i) (x + CHAR_RASTER_WIDTH)) as [Hle|Hlt].
    + eapply paints_ext; [by apply paints_pure|]. intros px py _. unfold nothing, line_paint.
      rewrite decide_False; [done|]. intros [Hp Hc].
      assert (0 <= (px - x) / CHAR_RASTER_WIDTH) as Hq by (clear Hc; apply Z.div_pos; lia).
      revert Hq Hc. generalize ((px - x) / CHAR_RASTER_WIDTH). intros q Hq Hc. nia.
    + eapply paints_after; [intros s; apply raster_for_ok|]. destruct (glyph_of_dims c) as (_ & _ & D).
      eapply paints_ext.
      * eapply paints_bind; [apply draw_glyph_paints; lia|].
        eapply paints_after; [intros s; apply usize_add_pure; unfold USIZE_MAX, LETTER_SPACING; lia|].
        cbv beta. rewrite D. unfold LETTER_SPACING. rewrite Z.add_0_r. apply IH. lia.
      * intros px py _. by apply line_paint_cons.
Qed.

(** The text of position [idx] in [ring ++ [current_line]]. *)
Definition line_at (w : FrameBufferWriter) (idx : Z) : str :=
  if idx <? Z.of_nat (length (ring w)) then ring w !!! Z.to_nat idx else current_line w.

(** Lines below each other from [y] on. *)
Definition rows_paint (wd : Z) (lines : list str) (y : Z) : paint := fun px py =>
  let r := (py - y) / ROW_HEIGHT in
  if decide (y <= py)
  then lines !! Z.to_nat r ≫= fun l => line_paint wd (chars l) BORDER_PADDING (y + r * ROW_HEIGHT) px py
  else None.

Fixpoint rows_end (wd : Z) (lines : list str) (x : Z) : Z :=
  match lines with
  | [] => x
  | l :: lines' => rows_end wd lines' (line_end wd (chars l) BORDER_PADDING)
  end.

Lemma rows_paint_cons wd l lines y px py :
  over (rows_paint wd lines (y + ROW_HEIGHT)) (line_paint wd (chars l) BORDER_PADDING y) px py =
  rows_paint wd (l :: lines) y px py.
Proof using FS.
  pose proof font_bounds as (Hh & _ & _ & Hr & _). unfold over, rows_paint.
  destruct (decide (y + ROW_HEIGHT <= py)) as [Hge|Hge].
  - replace ((py - y) / ROW_HEIGHT) with ((py - (y + ROW_HEIGHT)) / ROW_HEIGHT + 1)
      by (rewrite <- Z.div_add by lia; f_equal; lia).
    set (q := (py - (y + ROW_HEIGHT)) / ROW_HEIGHT). assert (0 <= q) by (apply Z.div_pos; lia).
    assert (line_paint wd (chars l) BORDER_PADDING y px py = None) as ->.
    { unfold line_paint. case_decide; [|done]. destruct (chars l !! _) as [c|]; [|done]. simpl.
      unfold glyph_paint. case_decide; [|done]. destruct (glyph_of_dims c) as (D & _).
      by rewrite lookup_ge_None_2 by lia. }
    replace (Z.to_nat (q + 1)) with (S (Z.to_nat q)) by lia. cbn [lookup list_lookup].
    change (list_lookup (Z.to_nat q) lines) with (lines !! Z.to_nat q).
    replace (y + (q + 1) * ROW_HEIGHT) with (y + ROW_HEIGHT + q * ROW_HEIGHT) by lia.
    rewrite decide_True by lia. by destruct (_ ≫= _).
  - destruct (decide (y <= py)).
    + rewrite Z.div_small by lia. simpl. by rewrite Z.add_0_r.
    + unfold line_paint. case_decide; [|done]. destruct (chars l !! _); [|done]. simpl.
      unfold glyph_paint. by rewrite decide_False by lia.
Qed.

Lemma paints_at {A} (m m' : M FrameBufferWriter unit A) a p :
  (forall fb, m (set_framebuffer fb w0) = m' (set_framebuffer fb w0)) -> paints m' a p -> paints m a p.
Proof.
  intros He Hm fb Hfb. rewrite He. by apply Hm.
Qed.

Lemma redraw_rows_paints idxs row x y :
  0 <= row -> row + Z.of_nat (length idxs) <= viewport_rows w0 -> viewport_rows w0 < 2 ^ 63 -> 0 <= y ->
  y + Z.of_nat (length idxs) * ROW_HEIGHT <= fi_height i + 1 ->
  paints (redraw_rows idxs row x y)
    (row + Z.of_nat (length idxs), rows_end (fi_width i) (map (line_at w0) idxs) x)
    (rows_paint (fi_width i) (map (line_at w0) idxs) y).
Proof using FS G.
  pose proof geom_bounds as (H1 & _ & _ & H4 & H5). pose proof font_bounds as (Hh & Hw & Hb & Hr & _).
  intros Hrow Hvr Hmax Hy Hfit. revert row x y Hrow Hvr Hy Hfit.
  induction idxs as [|idx idxs IH]; intros row x y Hrow Hvr Hy Hfit; cbn [redraw_rows map rows_end length] in *.
  - rewrite Z.add_0_r. eapply paints_ext; [by apply paints_pure|].
    intros px py _. unfold nothing, rows_paint. by case_decide.
  - rewrite Nat2Z.inj_succ, Z.mul_succ_l in Hfit.
    assert (0 <= Z.of_nat (length idxs) * ROW_HEIGHT) by (apply Z.mul_nonneg_nonneg; lia).
    eapply paints_at;
      [intros fb; cbn [ring info viewport_rows current_line set_framebuffer]; fold (line_at w0 idx); reflexivity|].
    eapply paints_ext; [|intros px py _; apply rows_paint_cons].
    eapply paints_bind; [apply redraw_line_paints; lia|].
    eapply paints_after; [intros s; apply usize_add_pure; unfold USIZE_MAX; lia|].
    eapply paints_after; [intros s; apply usize_add_pure; unfold USIZE_MAX; lia|]. cbv beta.
    replace (row + Z.of_nat (S (length idxs))) with (row + 1 + Z.of_nat (length idxs)) by lia.
    destruct (Z.leb_spec (viewport_rows w0) (row + 1)) as [Hle|Hlt].
    + destruct idxs as [|? ?]; [|simpl in *; lia].
      specialize (IH (row + 1) (line_end (fi_width i) (chars (line_at w0 idx)) BORDER_PADDING) (y + ROW_HEIGHT)).
      apply IH; simpl; lia.
    + apply IH; lia.
Qed.

End pixels.

(** ** The writer's invariant and the redraw *)

Section writer.
Context `{FS : FontSpec}.

(** The lines the viewport shows [back] lines above the live tail: of everything but the newest
    [back] lines, the last [viewport_rows]; [back] is clamped to the depth of the history. *)
Definition window (w : FrameBufferWriter) (back : Z) : list str :=
  let lines := ring w ++ [current_line w] in
  let off := Z.min back (saturating_sub (Z.of_nat (length lines)) (viewport_rows w)) in
  let shown := take (length lines - Z.to_nat off) lines in
  drop (length shown - Z.to_nat (viewport_rows w)) shown.

(** Every visible pixel is that of [lines] drawn from the top left corner. *)
Definition shows (w : FrameBufferWriter) (lines : list str) : Prop :=
  forall x y, visible (info w) x y ->
    pixel (info w) (framebuffer w) x y =
    color (info w) (default Byte.x00 (rows_paint (fi_width (info w)) lines BORDER_PADDING x y)).

(** A glyph at the cursor's row, after at most one wrap, stays on the screen. *)
Definition cursor_ok (i : FrameBufferInfo) (x y : Z) : Prop :=
  BORDER_PADDING <= x <= fi_width i /\ BORDER_PADDING <= y /\ y + CHAR_RASTER_HEIGHT <= fi_height i.

(** The part that does not concern the cursor. *)
Record fb_base (w : FrameBufferWriter) : Prop := {
  inv_geom : fb_geom (info w) (length (framebuffer w));
  inv_rows : viewport_rows w = saturating_sub (fi_height (info w)) (2 * BORDER_PADDING) / ROW_HEIGHT;
  inv_ring : Z.of_nat (length (ring w)) <= SCROLLBACK_LINES;
  inv_scroll : 0 <= scroll_back w <= saturating_sub (Z.of_nat (length (ring w)) + 1) (viewport_rows w);
}.

Definition fb_inv (w : FrameBufferWriter) : Prop := fb_base w /\ cursor_ok (info w) (x_pos w) (y_pos w).

Lemma rows_bound w :
  fb_base w -> 0 <= viewport_rows w < 2 ^ 63 /\ BORDER_PADDING + viewport_rows w * ROW_HEIGHT <= fi_height (info w).
Proof using FS.
  intros I. pose proof (geom_bounds w (inv_geom _ I)) as (_ & H2 & _ & _ & H5).
  pose proof font_bounds as (Hh & _ & Hb & Hr & _). assert (0 < ROW_HEIGHT) as Hpos by lia.
  rewrite (inv_rows _ I), Hb. set (n := saturating_sub _ _).
  assert (0 <= n <= fi_height (info w) - 2) as Hn by (unfold n, saturating_sub; lia).
  generalize (Z.mul_div_le n ROW_HEIGHT Hpos), (Z.div_pos n ROW_HEIGHT (proj1 Hn) Hpos).
  generalize (n / ROW_HEIGHT). intros q ? ?. nia.
Qed.

Lemma line_at_window (w : FrameBufferWriter) first n :
  (first + n <= S (length (ring w)))%nat ->
  map (line_at w) (seqZ (Z.of_nat first) (Z.of_nat n)) = take n (drop first (ring w ++ [current_line w])).
Proof.
  intros Hn. apply list_eq. intros j.
  destruct (decide (j < n)%nat) as [Hj|Hj].
  - rewrite lookup_take_lt by done. rewrite lookup_drop.
    change (map (line_at w)) with (fmap (M:=list) (line_at w)).
    rewrite list_lookup_fmap, (lookup_seqZ_lt (Z.of_nat first) (Z.of_nat n) j) by lia. simpl.
    unfold line_at. destruct (Z.ltb_spec (Z.of_nat first + Z.of_nat j) (Z.of_nat (length (ring w)))).
    + rewrite lookup_app_l by lia.
      replace (Z.to_nat (Z.of_nat first + Z.of_nat j)) with (first + j)%nat by lia.
      symmetry. apply list_lookup_lookup_total_lt. lia.
    + replace (first + j)%nat with (length (ring w)) by lia. symmetry. by apply list_lookup_middle.
  - rewrite !lookup_ge_None_2; [done|rewrite length_take; lia|].
    rewrite length_map, length_seqZ. lia.
Qed.

(** A cleared buffer shows grey level zero everywhere. *)
Lemma pixel_zeros w x y :
  fb_geom (info w) (length (framebuffer w)) -> visible (info w) x y ->
  pixel (info w) (zeros (length (framebuffer w))) x y = color (info w) Byte.x00.
Proof using FS.
  intros G Hv. destruct (offset_bound w G x y Hv) as (O1 & O2 & _). pose proof (g_bpp _ _ G) as Hb.
  unfold pixel, sub_bytes, zeros, color. rewrite drop_replicate, take_replicate.
  transitivity (replicate (Z.to_nat (fi_bytes_per_pixel (info w))) Byte.x00); [f_equal; lia|].
  assert (default [] (pixel_color (fi_pixel_format (info w)) Byte.x00) = replicate 4 Byte.x00) as ->.
  { pose proof (g_fmt _ _ G). by destruct (fi_pixel_format (info w)). }
  rewrite take_replicate. f_equal. lia.
Qed.

(** The index range [first..last] of the redraw. *)
Definition win_off (w : FrameBufferWriter) (back : Z) : Z :=
  Z.min back (saturating_sub (Z.of_nat (length (ring w)) + 1) (viewport_rows w)).
Definition win_first (w : FrameBufferWriter) (back : Z) : Z :=
  saturating_sub (Z.of_nat (length (ring w)) + 1) (viewport_rows w + win_off w back).
Definition win_len (w : FrameBufferWriter) (back : Z) : Z :=
  Z.of_nat (length (ring w)) + 1 - win_off w back - win_first w back.

Lemma win_bounds w back :
  0 <= viewport_rows w -> 0 <= back ->
  0 <= win_off w back <= Z.of_nat (length (ring w)) + 1 /\ 0 <= win_first w back /\
  0 <= win_len w back <= viewport_rows w.
Proof.
  intros. unfold win_len, win_first, win_off, saturating_sub. lia.
Qed.

Lemma window_lines w back :
  0 <= viewport_rows w -> 0 <= back ->
  window w back = map (line_at w) (seqZ (win_first w back) (win_len w back)).
Proof.
  intros Hvr Hback. destruct (win_bounds w back Hvr Hback) as (H1 & H2 & H3).
  rewrite <- (Z2Nat.id (win_first w back) H2), <- (Z2Nat.id (win_len w back) (proj1 H3)).
  rewrite line_at_window by (unfold win_len in *; lia).
  unfold window. rewrite length_app. cbn [length].
  replace (Z.of_nat (length (ring w) + 1)) with (Z.of_nat (length (ring w)) + 1) by lia.
  fold (win_off w back). rewrite length_take, length_app. cbn [length].
  rewrite take_drop_commute. f_equal; [|f_equal].
  all: unfold win_len, win_first, win_off, saturating_sub in *; lia.
Qed.

Lemma rows_end_bound wd lines x : BORDER_PADDING <= wd -> BORDER_PADDING <= x <= wd ->
  BORDER_PADDING <= rows_end wd lines x <= wd.
Proof using FS.
  intros Hwd. revert x. induction lines as [|l lines IH]; intros x Hx; simpl; [done|].
  apply IH. by apply line_end_bound.
Qed.

Lemma redraw_visible_ok w back :
  fb_base w -> 0 <= back ->
  exists fb x y, redraw_visible back w = (Ok tt, set_pos x y (set_framebuffer fb w)) /\
    fb_inv (set_pos x y (set_framebuffer fb w)) /\ shows (set_pos x y (set_framebuffer fb w)) (window w back).
Proof using FS.
  intros I Hback. destruct (rows_bound w I) as [Hvr Hfit]. pose proof I as [G Hrows Hring Hsb].
  pose proof (geom_bounds w G) as (G1 & G2 & _ & _ & G5). pose proof font_bounds as (Hh & Hcw & Hb & Hr & _).
  destruct (win_bounds w back) as (W1 & W2 & W3); [lia..|]. unfold SCROLLBACK_LINES in Hring.
  set (w1 := set_framebuffer (zeros (length (framebuffer w))) w).
  assert (length (framebuffer w1) = length (framebuffer w)) as L1 by apply length_replicate.
  assert (fb_geom (info w1) (length (framebuffer w1))) as G1' by (by rewrite L1).
  assert (Z.of_nat (length (seqZ (win_first w back) (win_len w back))) = win_len w back) as Ls
    by (rewrite length_seqZ; lia).
  destruct (redraw_rows_paints w1 G1' (seqZ (win_first w back) (win_len w back)) 0 BORDER_PADDING BORDER_PADDING)
    with (fb := framebuffer w1) as (fb & E & L & P); [cbn [viewport_rows info w1 set_framebuffer]; nia..|done|].
  rewrite Ls in E. change (map (line_at w1)) with (map (line_at w)) in E, P.
  rewrite <- window_lines in E, P by lia. cbn [info w1 set_framebuffer] in E, P.
  set (x' := rows_end (fi_width (info w)) (window w back) BORDER_PADDING) in *.
  set (y' := BORDER_PADDING + saturating_sub (win_len w back) 1 * ROW_HEIGHT).
  exists fb, x', y'.
  assert (BORDER_PADDING <= x' <= fi_width (info w)) by (apply rows_end_bound; lia).
  assert (BORDER_PADDING <= y' /\ y' + CHAR_RASTER_HEIGHT <= fi_height (info w)).
  { pose proof (g_height _ _ G). unfold y', saturating_sub.
    destruct (decide (win_len w back <= 0)); [rewrite Z.max_l by lia; lia|rewrite Z.max_r by lia; nia]. }
  split; [|split].
  - unfold redraw_visible. erewrite bind_ok by done. fold w1. cbv beta.
    erewrite bind_ok by (apply usize_add_pure; cbn; unfold USIZE_MAX; lia). cbn [ring viewport_rows w1 set_framebuffer].
    fold (win_off w back).
    erewrite bind_ok by (apply usize_add_pure; unfold USIZE_MAX; lia). fold (win_first w back).
    erewrite bind_ok by (apply usize_checked_ok; unfold USIZE_MAX; lia).
    fold (win_len w back). erewrite bind_ok by apply E.
    rewrite Z.add_0_l.
    erewrite bind_ok by (apply usize_checked_ok; unfold USIZE_MAX, saturating_sub; nia).
    erewrite bind_ok by (apply usize_add_pure; unfold USIZE_MAX; lia). done.
  - rewrite L1 in L. split; [split; cbn; rewrite ?L; done|done].
  - intros x y Hv. cbn in *. rewrite P by done. rewrite pixel_zeros by done.
    by destruct (rows_paint _ _ _ _ _).
Qed.

(** ** Every operation returns and keeps the invariant *)

(** The same history, view and geometry; only cursor and pixels may differ. *)
Record same_text (w w' : FrameBufferWriter) : Prop := {
  st_ring : ring w' = ring w;
  st_cur : current_line w' = current_line w;
  st_back : scroll_back w' = scroll_back w;
  st_rows : viewport_rows w' = viewport_rows w;
  st_info : info w' = info w;
}.

Lemma same_text_trans w1 w2 w3 : same_text w1 w2 -> same_text w2 w3 -> same_text w1 w3.
Proof.
  intros [? ? ? ? ?] [? ? ? ? ?]. split; congruence.
Qed.

(** [m] returns, keeps the invariant and leaves the text alone. *)
Definition draws_on (w : FrameBufferWriter) (m : fb_op) : Prop :=
  exists w', m w = (Ok tt, w') /\ fb_inv w' /\ same_text w w'.

Lemma draws_skip w : fb_inv w -> draws_on w (ret tt).
Proof.
  intros I. by exists w.
Qed.

Lemma advance_visual_row_ok w :
  fb_inv w -> exists w', advance_visual_row w = (Ok tt, w') /\ fb_inv w' /\ same_text w w' /\
    x_pos w' = BORDER_PADDING.
Proof using FS.
  intros [B (Hx & Hy1 & Hy2)]. pose proof (inv_geom _ B) as G.
  pose proof (geom_bounds w G) as (G1 & G2 & _ & _ & G5). pose proof font_bounds as (Hh & Hcw & Hb & Hr & _).
  destruct (rows_bound w B) as [Hvr Hfit]. pose proof (g_height _ _ G).
  unfold advance_visual_row.
  erewrite bind_ok by (apply usize_add_pure; unfold USIZE_MAX; lia).
  erewrite bind_ok by done.
  erewrite bind_ok by (apply usize_add_pure; unfold USIZE_MAX; lia).
  erewrite bind_ok by (apply usize_add_pure; unfold USIZE_MAX; lia).
  destruct (Z.leb_spec (fi_height (info w)) (y_pos w + ROW_HEIGHT + CHAR_RASTER_HEIGHT + BORDER_PADDING)) as [Hle|Hlt].
  - destruct (redraw_visible_ok (set_pos BORDER_PADDING (y_pos w + ROW_HEIGHT) w) 0) as (fb & x & y & E & I' & _);
      [by destruct B|lia|].
    erewrite bind_ok by done.
    erewrite bind_ok by (apply usize_checked_ok; unfold USIZE_MAX, saturating_sub; nia).
    erewrite bind_ok by (apply usize_add_pure; unfold USIZE_MAX, saturating_sub; nia).
    eexists. split; [done|]. split; [|by repeat split]. split; [by destruct I' as [[? ? ? ?] _]|].
    cbn. unfold cursor_ok, saturating_sub. destruct (decide (viewport_rows w <= 0)); [rewrite Z.max_l by lia|rewrite Z.max_r by lia]; nia.
  - eexists. split; [done|]. split; [|by repeat split]. split; [by destruct B|].
    cbn. unfold cursor_ok. lia.
Qed.

Lemma advance_if_live_ok w : fb_inv w -> draws_on w advance_if_live.
Proof using FS.
  intros I. unfold draws_on, advance_if_live. case_decide; [|by apply draws_skip].
  destruct (advance_visual_row_ok w I) as (w' & ? & ? & ? & _). by exists w'.
Qed.

Lemma write_rendered_ok w c :
  fb_inv w -> x_pos w + CHAR_RASTER_WIDTH <= fi_width (info w) -> draws_on w (write_rendered (glyph_of c)).
Proof using FS.
  intros [B (Hx & Hy1 & Hy2)] Hfit. pose proof (inv_geom _ B) as G. pose proof font_bounds as (Hh & Hcw & Hb & _).
  pose proof (geom_bounds w G) as (G1 & _ & _ & G4 & _). destruct (glyph_of_dims c) as (_ & _ & D).
  destruct (draw_glyph_paints w G (x_pos w) (y_pos w) c) with (fb := framebuffer w) as (fb & E & L & _); [lia..|done|].
  assert (set_framebuffer (framebuffer w) w = w) as Ew by (by destruct w). rewrite Ew in E.
  unfold draws_on, write_rendered. erewrite bind_ok by done. rewrite D. unfold LETTER_SPACING.
  erewrite bind_ok by (apply usize_add_pure; unfold USIZE_MAX; lia).
  eexists. split; [done|]. split; [|by repeat split]. split; [destruct B; split; cbn; by rewrite ?L|].
  cbn. unfold cursor_ok. lia.
Qed.

Lemma put_char_ok w c : fb_inv w -> draws_on w (put_char c).
Proof using FS.
  intros I. pose proof I as [B (Hx & _)]. pose proof (inv_geom _ B) as G. pose proof (g_width _ _ G).
  pose proof (geom_bounds w G) as (G1 & _ & _ & G4 & _). pose proof font_bounds as (_ & Hcw & Hb & _).
  unfold draws_on, put_char. case_decide; [|by apply draws_skip].
  erewrite bind_ok by (apply usize_add_pure; unfold USIZE_MAX; lia).
  destruct (Z.leb_spec (fi_width (info w)) (x_pos w + CHAR_RASTER_WIDTH)) as [Hle|Hlt].
  - destruct (advance_visual_row_ok w I) as (w1 & E1 & I1 & T1 & X1). erewrite bind_ok by done.
    erewrite bind_ok by apply raster_for_ok.
    destruct (write_rendered_ok w1 c I1) as (w2 & E2 & I2 & T2); [rewrite X1, (st_info _ _ T1); lia|].
    exists w2. split; [done|]. split; [done|]. by eapply same_text_trans.
  - erewrite bind_ok by done. erewrite bind_ok by apply raster_for_ok. apply write_rendered_ok; [done|lia].
Qed.

(** ** The scrollback ring as a window on everything printed *)

(** Finished lines, without bound, and the line in progress. *)
Definition log : Type := list str * str.

Definition log_char (l : log) (c : Z) : log :=
  let '(h, cur) := l in
  if decide (c = 10) then (h ++ [cur], [])
  else if decide (c = 13) then (h, cur)
  else if MAX_LINE_LEN <=? Z.of_nat (length cur) then (h ++ [cur], utf8_encode c)
  else (h, cur ++ utf8_encode c).

(** The ring keeps the last 256 finished lines. *)
Definition logs (w : FrameBufferWriter) (l : log) : Prop :=
  ring w = last_n 256 (fst l) /\ current_line w = snd l.

Lemma logs_same w w' l : same_text w w' -> logs w l -> logs w' l.
Proof.
  intros [H1 H2 _ _ _] [H3 H4]. split; congruence.
Qed.

(** [op] returns, keeps the invariant and takes the text from [l] to [l']. *)
Definition runs_on (w : FrameBufferWriter) (op : fb_op) (l : log) : Prop :=
  exists w', op w = (Ok tt, w') /\ fb_inv w' /\ logs w' l /\
    scroll_back w' = scroll_back w /\ viewport_rows w' = viewport_rows w.

Lemma runs_draws w op l : draws_on w op -> logs w l -> runs_on w op l.
Proof.
  intros (w' & E & I & T) L. exists w'. pose proof T as [_ _ ? ? _].
  split; [done|]. split; [done|]. split; [by apply (logs_same w w' l T)|done].
Qed.

Lemma push_advance_ok w h cur :
  fb_inv w -> logs w (h, cur) -> runs_on w (push_current_to_ring ;;; advance_if_live) (h ++ [cur], []).
Proof using FS.
  intros [[G Hr Hn Hs] C] [L1 L2]. simpl in *. unfold runs_on. erewrite bind_ok by done.
  set (r' := if decide (Z.of_nat (length (ring w)) = SCROLLBACK_LINES) then tail (ring w) else ring w).
  assert (r' ++ [current_line w] = last_n 256 (h ++ [cur])) as Hr'.
  { rewrite <- (last_n_snoc 255), <- L1, <- L2. unfold r', SCROLLBACK_LINES. f_equal. 
    repeat case_decide; try lia; done. }
  assert (Z.of_nat (length (ring w)) <= Z.of_nat (length (r' ++ [current_line w])) <= 256) as Hlen.
  { rewrite length_app. unfold r', SCROLLBACK_LINES in *. cbn [length]. case_decide; [|lia].
    destruct (ring w); simpl in *; lia. }
  destruct (advance_if_live_ok (set_lines (r' ++ [current_line w]) [] w)) as (w' & E & I & T).
  { split; [|done]. split; try done; cbn; unfold SCROLLBACK_LINES, saturating_sub in *; lia. }
  exists w'. split; [done|]. split; [done|]. split; [|by destruct T].
  apply (logs_same _ _ _ T). done.
Qed.

Lemma write_char_ok w c l : fb_inv w -> logs w l -> runs_on w (write_char c) (log_char l c).
Proof using FS.
  destruct l as [h cur]. intros I L. unfold runs_on, write_char, log_char.
  case_decide; [by apply push_advance_ok|]. case_decide.
  { exists (set_pos BORDER_PADDING (y_pos w) w). split; [done|]. destruct I as [[G Hr Hn Hs] (C1 & C2)].
    split; [|done]. split; [done|]. split; [|done]. cbn. pose proof (g_width _ _ G).
    pose proof font_bounds as (_ & ? & ? & _). lia. }
  set (l1 := if MAX_LINE_LEN <=? Z.of_nat (length cur) then (h ++ [cur], []) else (h, cur)).
  assert (runs_on w (if MAX_LINE_LEN <=? Z.of_nat (length (current_line w))
                     then push_current_to_ring ;;; advance_if_live else ret tt) l1) as (w1 & E1 & I1 & L1 & S1 & R1).
  { unfold l1. replace (current_line w) with cur by (symmetry; apply L).
    destruct (MAX_LINE_LEN <=? _); [by apply push_advance_ok|]. by apply runs_draws; [apply draws_skip|]. }
  erewrite bind_ok by done.
  destruct (put_char_ok w1 c I1) as (w2 & E2 & I2 & T2). erewrite bind_ok by done.
  eexists. split; [done|]. destruct I2 as [[? ? ? ?] ?]. split; [by split|].
  pose proof (logs_same _ _ _ T2 L1) as [? L2]. destruct T2 as [_ _ ? ? _].
  split; [|cbn; split; congruence].
  unfold logs, l1 in *. cbn. rewrite L2. by destruct (MAX_LINE_LEN <=? _).
Qed.

Lemma write_chars_ok w cs l :
  fb_inv w -> logs w l -> runs_on w (for_each cs write_char) (fold_left log_char cs l).
Proof using FS.
  revert w l. induction cs as [|c cs IH]; intros w l I L; cbn [for_each fold_left].
  - by apply runs_draws; [apply draws_skip|].
  - destruct (write_char_ok w c l I L) as (w1 & E1 & I1 & L1 & S1 & R1).
    destruct (IH w1 _ I1 L1) as (w2 & E2 & I2 & L2 & S2 & R2).
    exists w2. unfold runs_on. erewrite bind_ok by done. split; [done|]. split; [done|]. split; [done|].
    split; congruence.
Qed.

(** ** Scrolling *)

(** Moving the view to [back] redraws exactly that window. *)
Lemma set_scroll_ok w back :
  fb_inv w -> 0 <= back <= saturating_sub (Z.of_nat (length (ring w)) + 1) (viewport_rows w) ->
  exists w', (modify (set_scroll back) ;;; redraw_visible back) w = (Ok tt, w') /\ fb_inv w' /\
    ring w' = ring w /\ current_line w' = current_line w /\ viewport_rows w' = viewport_rows w /\
    scroll_back w' = back /\ shows w' (window w' back).
Proof using FS.
  intros [[G Hr Hn Hs] C] Hb. erewrite bind_ok by done.
  destruct (redraw_visible_ok (set_scroll back w) back) as (fb & x & y & E & I & S); [done|lia|].
  by exists (set_pos x y (set_framebuffer fb (set_scroll back w))).
Qed.

End writer.

(** ** Sessions *)

Inductive con_op : Type :=
| OpWrite (s : str)
| OpClear
| OpUp (n : Z)
| OpDown (n : Z)
| OpEnd.

(** Scroll distances are below 2^63 rows. *)
Definition op_ok (o : con_op) : bool :=
  match o with
  | OpUp n | OpDown n => (0 <=? n) && (n <? 2 ^ 63)
  | _ => true
  end.

(** Everything a session printed. *)
Definition printed (ops : list con_op) : list Z :=
  concat (map (fun o => match o with OpWrite s => chars s | _ => [] end) ops).

Section session.
Context `{FS : FontSpec}.

Definition con_exec (o : con_op) : fb_op :=
  match o with
  | OpWrite s => con_write_str s
  | OpClear => con_clear
  | OpUp n => con_scroll_up n
  | OpDown n => con_scroll_down n
  | OpEnd => con_scroll_end
  end.

Lemma fb_new_inv buf i : fb_geom i (length buf) -> fb_inv (fb_new buf i) /\ logs (fb_new buf i) ([], []).
Proof using FS.
  intros G. pose proof font_bounds as (Hh & Hw & Hb & _). pose proof (g_width _ _ G). pose proof (g_height _ _ G).
  split; [|done]. split; [split|]; cbn.
  - unfold zeros. by rewrite length_replicate.
  - done.
  - done.
  - unfold saturating_sub. lia.
  - unfold cursor_ok. lia.
Qed.

(** Where a scroll operation takes the view. *)
Definition scroll_target (w : FrameBufferWriter) (o : con_op) : Z :=
  let depth := saturating_sub (Z.of_nat (length (ring w)) + 1) (viewport_rows w) in
  match o with
  | OpUp n => Z.min (scroll_back w + n) depth
  | OpDown n => saturating_sub (scroll_back w) n
  | OpEnd => 0
  | _ => scroll_back w
  end.

Definition is_scroll (o : con_op) : bool :=
  match o with OpUp _ | OpDown _ | OpEnd => true | _ => false end.

Lemma scroll_ok w o :
  fb_inv w -> op_ok o = true -> is_scroll o = true ->
  exists w', con_exec o w = (Ok tt, w') /\ fb_inv w' /\ ring w' = ring w /\ current_line w' = current_line w /\
    viewport_rows w' = viewport_rows w /\ scroll_back w' = scroll_target w o /\
    (scroll_target w o = scroll_back w -> w' = w) /\
    (scroll_target w o <> scroll_back w -> shows w' (window w' (scroll_target w o))).
Proof using FS.
  intros I Ho Hs. destruct I as [B C]. pose proof B as [G Hr Hn Hsb]. destruct (rows_bound w B) as [Hvr _].
  assert (forall back, 0 <= back <= saturating_sub (Z.of_nat (length (ring w)) + 1) (viewport_rows w) ->
    back = scroll_target w o -> exists w',
    (if decide (back = scroll_back w) then ret tt else modify (set_scroll back) ;;; redraw_visible back) w = (Ok tt, w') /\
    fb_inv w' /\ ring w' = ring w /\ current_line w' = current_line w /\
    viewport_rows w' = viewport_rows w /\ scroll_back w' = scroll_target w o /\
    (scroll_target w o = scroll_back w -> w' = w) /\
    (scroll_target w o <> scroll_back w -> shows w' (window w' (scroll_target w o)))) as Hgo.
  { intros back Hb ->. case_decide as Hd; [by exists w|].
    destruct (set_scroll_ok w (scroll_target w o)) as (w' & H1 & H2 & H3 & H4 & H5 & H6 & H7); [done|done|].
    exists w'. done. }
  unfold SCROLLBACK_LINES, saturating_sub in *. destruct o as [| |n|n|]; try done; simpl in Ho; cbn [con_exec con_scroll_up con_scroll_down con_scroll_end fb_console].
  - unfold scroll_up. erewrite bind_ok by (apply usize_add_pure; unfold USIZE_MAX; lia).
    erewrite bind_ok by (apply usize_add_pure; unfold USIZE_MAX; lia). apply Hgo; [|done].
    unfold saturating_sub. lia.
  - unfold scroll_down. apply Hgo; [unfold saturating_sub; lia|done].
  - unfold scroll_end. destruct (Hgo 0) as (w' & Hw'); [lia|done|]. exists w'.
    destruct (decide (scroll_back w = 0)); [rewrite decide_True in Hw' by done|rewrite decide_False in Hw' by done]; done.
Qed.

Lemma con_exec_ok w o l :
  fb_inv w -> op_ok o = true -> logs w l ->
  exists w', con_exec o w = (Ok tt, w') /\ fb_inv w' /\ logs w' (fold_left log_char (printed [o]) l).
Proof using FS.
  intros I Ho L. unfold printed. simpl. rewrite app_nil_r.
  destruct (is_scroll o) eqn:Hs.
  { destruct (scroll_ok w o I Ho Hs) as (w' & E & I' & R & Cu & _). exists w'. split; [done|]. split; [done|].
    destruct L as [L1 L2]. destruct o; try done; split; simpl; congruence. }
  destruct o; try done.
  - destruct (write_chars_ok w (chars s) l I L) as (w' & E & I' & L' & _). by exists w'.
  - exists (set_framebuffer (zeros (length (framebuffer w))) (set_pos BORDER_PADDING BORDER_PADDING w)).
    split; [done|]. split; [|done]. destruct I as [[G ? ? ?] C].
    destruct (fb_new_inv (framebuffer w) (info w) G) as [[_ C'] _].
    split; [split; cbn; unfold zeros; by rewrite ?length_replicate|done].
Qed.

Lemma session_ok ops w l :
  fb_inv w -> Forall (fun o => op_ok o = true) ops -> logs w l ->
  exists w', run_ops con_exec ops w = (replicate (length ops) (Ok tt), w') /\ fb_inv w' /\
    logs w' (fold_left log_char (printed ops) l).
Proof using FS.
  revert w l. induction ops as [|o ops IH]; intros w l I Ho L; cbn [run_ops]; [by exists w|].
  apply Forall_cons in Ho as [Ho Hos].
  destruct (con_exec_ok w o l I Ho L) as (w1 & E1 & I1 & L1). rewrite E1.
  destruct (IH w1 _ I1 Hos L1) as (w2 & E2 & I2 & L2). rewrite E2. exists w2.
  split; [done|]. split; [done|]. 
  unfold printed in *. cbn [map concat] in *. by rewrite app_nil_r in L2; rewrite fold_left_app.
Qed.

End session.

(** ** Printed text and its lines *)

Lemma utf8_encode_newline c : is_scalar c = true -> c <> 10 -> (Byte.x0a ∉ utf8_encode c).
Proof.
  intros Hs%is_scalar_spec Hc Hin.
  assert (forall z, of_u8 z = Byte.x0a -> 0 <= z < 256 -> z = 10) as H10.
  { intros z Hz Hb. apply (f_equal u8) in Hz. rewrite u8_of_u8, Z.mod_small in Hz by lia. by vm_compute in Hz. }
  unfold utf8_encode in Hin.
  repeat case_match; rewrite ?Z.ltb_lt, ?Z.ltb_ge in *; rewrite ?elem_of_cons in Hin;
    repeat match goal with H : _ \/ _ |- _ => destruct H as [H|H] end;
    try (by apply elem_of_nil in Hin);
    symmetry in Hin; apply H10 in Hin; Z.to_euclidean_division_equations; lia.
Qed.

Lemma of_chars_app a b : of_chars (a ++ b) = of_chars a ++ of_chars b.
Proof.
  unfold of_chars. by rewrite map_app, concat_app.
Qed.

(** Without carriage returns and over-long lines the log is the text cut at its newlines. *)
Lemma log_text cs :
  Forall (fun c => is_scalar c = true) cs -> (13 ∉ cs) ->
  Forall (fun l => Z.of_nat (length l) <= MAX_LINE_LEN) (split_on Byte.x0a (of_chars cs)) ->
  let '(h, cur) := fold_left log_char cs ([], []) in h ++ [cur] = split_on Byte.x0a (of_chars cs).
Proof.
  induction cs as [|c cs IH] using rev_ind; intros Hs Hcr Hlen; [done|].
  apply Forall_app in Hs as [Hs Hc]. rewrite Forall_singleton in Hc. rewrite fold_left_app. cbn [fold_left].
  rewrite of_chars_app in *. assert (of_chars [c] = utf8_encode c) as Ec by (unfold of_chars; simpl; by rewrite app_nil_r).
  rewrite Ec in *.
  destruct (fold_left log_char cs ([], [])) as [h cur].
  assert (c <> 13) by set_solver. assert (13 ∉ cs) as Hcr' by set_solver. unfold log_char.
  destruct (decide (c = 10)) as [->|Hne].
  - change (utf8_encode 10) with (Byte.x0a :: []) in *. rewrite split_on_app in Hlen |- *.
    apply Forall_app in Hlen as [Hlen _]. by rewrite <- IH.
  - rewrite decide_False by done.
    pose proof (utf8_encode_newline c Hc Hne) as Hnl.
    assert (exists l x, split_on Byte.x0a (of_chars cs) = l ++ [x]) as (l & x & Hsp).
    { destruct (split_on Byte.x0a (of_chars cs)) as [|? ?] eqn:E using rev_ind;
        [by destruct (split_on_nonempty Byte.x0a (of_chars cs))|by eauto]. }
    rewrite (split_on_extend _ _ _ l x) in Hlen |- * by done. apply Forall_app in Hlen as [Hl Hx].
    rewrite Forall_singleton, length_app in Hx.
    assert (0 < length (utf8_encode c))%nat by (pose proof (utf8_encode_nonempty c); by destruct (utf8_encode c); simpl; [|lia]).
    assert (h ++ [cur] = l ++ [x]) as Heq.
    { rewrite <- Hsp. apply IH; [done..|]. rewrite Hsp. apply Forall_app. split; [done|]. rewrite Forall_singleton. lia. }
    apply app_inj_tail in Heq as [-> ->].
    by rewrite (proj2 (Z.leb_gt _ _)) by lia.
Qed.

(** A line of characters after [cur], broken before the character that finds 256 bytes in it. *)
Fixpoint wrap (cur : str) (l : list Z) : list str :=
  match l with
  | [] => [cur]
  | c :: l' =>
      if MAX_LINE_LEN <=? Z.of_nat (length cur) then cur :: wrap (utf8_encode c) l' else wrap (cur ++ utf8_encode c) l'
  end.

(** The characters between newlines; carriage returns leave no trace. *)
Fixpoint char_lines (cs : list Z) : list (list Z) :=
  match cs with
  | [] => [[]]
  | c :: cs' =>
      if decide (c = 10) then [] :: char_lines cs'
      else match char_lines cs' with
           | l :: ls => (if decide (c = 13) then l else c :: l) :: ls
           | [] => []
           end
  end.

Lemma char_lines_nonempty cs : char_lines cs <> [].
Proof.
  induction cs as [|c cs IH]; cbn [char_lines]; [done|]. case_decide; [done|]. by destruct (char_lines cs).
Qed.

(** The lines of a text as the scrollback keeps them. *)
Definition text_lines (cs : list Z) : list str := concat (map (wrap []) (char_lines cs)).

Lemma log_lines cs h cur :
  let '(h', cur') := fold_left log_char cs (h, cur) in
  h' ++ [cur'] = h ++ match char_lines cs with l :: ls => wrap cur l ++ concat (map (wrap []) ls) | [] => [] end.
Proof.
  revert h cur. induction cs as [|c cs IH]; intros h cur; [done|]. cbn [fold_left char_lines]. unfold log_char at 2.
  destruct (decide (c = 10)) as [Hn|Hn].
  { specialize (IH (h ++ [cur]) []). destruct (fold_left log_char cs _) as [h' cur']. rewrite IH, <- app_assoc. f_equal.
    cbn [wrap app]. f_equal. by destruct (char_lines cs). }
  destruct (decide (c = 13)) as [Hr|Hr].
  { specialize (IH h cur). destruct (fold_left log_char cs _) as [h' cur']. rewrite IH. by destruct (char_lines cs). }
  destruct (MAX_LINE_LEN <=? Z.of_nat (length cur)) eqn:Hc.
  - specialize (IH (h ++ [cur]) (utf8_encode c)). destruct (fold_left log_char cs _) as [h' cur'].
    rewrite IH, <- app_assoc. f_equal. destruct (char_lines cs) as [|l ls] eqn:Hl; [by destruct (char_lines_nonempty cs)|].
    cbn [wrap app]. by rewrite Hc.
  - specialize (IH h (cur ++ utf8_encode c)). destruct (fold_left log_char cs _) as [h' cur'].
    rewrite IH. f_equal. destruct (char_lines cs) as [|l ls]; [done|]. cbn [wrap]. by rewrite Hc.
Qed.

Lemma text_lines_log cs :
  let '(h, cur) := fold_left log_char cs ([], []) in h ++ [cur] = text_lines cs.
Proof.
  pose proof (log_lines cs [] []) as H. destruct (fold_left log_char cs ([], [])) as [h cur]. rewrite H.
  unfold text_lines. by destruct (char_lines cs).
Qed.

(** Wrapping loses nothing. *)
Lemma wrap_concat cur l : concat (wrap cur l) = cur ++ of_chars l.
Proof.
  revert cur. induction l as [|c l IH]; intros cur; cbn [wrap concat]; [done|].
  change (of_chars (c :: l)) with (utf8_encode c ++ of_chars l).
  destruct (_ <=? _); cbn [concat]; rewrite IH; by rewrite ?app_assoc.
Qed.

Lemma text_lines_concat cs : concat (text_lines cs) = of_chars (filter (fun c => c <> 10 /\ c <> 13) cs).
Proof.
  assert (concat (text_lines cs) = of_chars (concat (char_lines cs))) as ->.
  { unfold text_lines. induction (char_lines cs) as [|l ls IH]; [done|]. cbn [map concat].
    by rewrite concat_app, IH, wrap_concat, of_chars_app. }
  f_equal. induction cs as [|c cs IH]; [done|]. rewrite filter_cons, <- IH. cbn [char_lines].
  pose proof (char_lines_nonempty cs) as Hne. destruct (char_lines cs) as [|l ls]; [done|].
  destruct (decide (c = 10)) as [->|H1]; [by rewrite decide_False by lia|].
  destruct (decide (c = 13)) as [->|H2]; [by rewrite decide_False by lia|]. by rewrite decide_True by done.
Qed.

Lemma last_n_257 (h : list str) cur : last_n 257 (h ++ [cur]) = last_n 256 h ++ [cur].
Proof.
  unfold last_n. rewrite length_app. cbn [length]. rewrite drop_app_le by lia.
  f_equal. f_equal. lia.
Qed.

(** Bytes written, in order. *)
Definition written (ops : list con_op) : str :=
  concat (map (fun o => match o with OpWrite s => s | _ => [] end) ops).

(** Written strings are UTF-8, as every [&str] is. *)
Definition utf8_op (o : con_op) : bool :=
  match o with OpWrite s => if utf8_decode s is Some _ then true else false | _ => true end.

Lemma printed_written ops :
  Forall (fun o => utf8_op o = true) ops ->
  Forall (fun c => is_scalar c = true) (printed ops) /\ of_chars (printed ops) = written ops.
Proof.
  induction 1 as [|o ops Ho _ [IH1 IH2]]; [done|]. unfold printed, written in *. cbn [map concat].
  rewrite of_chars_app, IH2.
  assert (Forall (fun c => is_scalar c = true) (match o with OpWrite s => chars s | _ => [] end) /\
          of_chars (match o with OpWrite s => chars s | _ => [] end) = match o with OpWrite s => s | _ => [] end) as [H1 ->].
  { destruct o; try done. simpl in Ho. unfold chars. destruct (utf8_decode s) eqn:E; [|done]. by apply utf8_decode_inv. }
  split; [by apply Forall_app|done].
Qed.

(** ** Correctness *)

Section theorems.
Context `{FS : FontSpec}.

#[global] Program Instance fb_console_spec : ConsoleSpec FrameBufferWriter := { con_inv := fb_inv }.
Next Obligation.
  intros s w I. destruct (write_chars_ok w (chars s) (ring w, current_line w) I) as (w' & E & I' & _).
  { split; [|done]. simpl. unfold last_n.
    destruct I as [[_ _ Hr _] _]. unfold SCROLLBACK_LINES in Hr. by replace (length (ring w) - 256)%nat with 0%nat by lia. }
  by exists tt, w'.
Qed.
Next Obligation.
  intros w I. exists tt, (set_framebuffer (zeros (length (framebuffer w))) (set_pos BORDER_PADDING BORDER_PADDING w)).
  split; [done|]. destruct I as [[G ? ? ?] C]. destruct (fb_new_inv (framebuffer w) (info w) G) as [[_ C'] _].
  split; [split; cbn; unfold zeros; by rewrite ?length_replicate|done].
Qed.
Next Obligation.
  intros w [B _]. by destruct (rows_bound w B).
Qed.
Next Obligation.
  intros n Hn w I. destruct (scroll_ok w (OpUp n) I) as (w' & E & I' & _); [simpl; lia|done|]. by exists tt, w'.
Qed.
Next Obligation.
  intros n Hn w I. destruct (scroll_ok w (OpDown n) I) as (w' & E & I' & _); [simpl; lia|done|]. by exists tt, w'.
Qed.
Next Obligation.
  intros w I. destruct (scroll_ok w OpEnd I) as (w' & E & I' & _); [done|done|]. by exists tt, w'.
Qed.

(** C24: no write ever leaves the pixel buffer. On a buffer that holds the described screen (a
    supported pixel format, room for one glyph), every session of prints, clears and scrolls
    returns normally, and leaves the cursor on the screen, at most 256 lines in the ring and the
    view within the recorded history. *)
Theorem console_never_panics buf i ops :
  fb_geom i (length buf) -> Forall (fun o => op_ok o = true) ops ->
  exists w, run_ops con_exec ops (fb_new buf i) = (replicate (length ops) (Ok tt), w) /\ fb_inv w.
Proof.
  intros G Ho. destruct (fb_new_inv buf i G) as [I L].
  destruct (session_ok ops _ _ I Ho L) as (w & E & I' & _). by exists w.
Qed.

(** C25: the ring is the tail of everything printed. After any session of prints, clears and scrolls, the
    ring followed by the line in progress is exactly the last 257 lines of the printed text, where a line
    that reaches 256 bytes goes on in a new one and a carriage return leaves no trace. The pieces of a
    line make up the line; and a text without carriage returns whose lines have at most 256 bytes is
    kept line by line as it is. *)
Theorem scrollback_is_last_lines buf i ops :
  fb_geom i (length buf) -> Forall (fun o => op_ok o = true) ops ->
  (exists w, run_ops con_exec ops (fb_new buf i) = (replicate (length ops) (Ok tt), w) /\
    ring w ++ [current_line w] = last_n 257 (text_lines (printed ops))) /\
  concat (text_lines (printed ops)) = of_chars (filter (fun c => c <> 10 /\ c <> 13) (printed ops)) /\
  (Forall (fun o => utf8_op o = true) ops -> (13 ∉ printed ops) ->
   Forall (fun l => Z.of_nat (length l) <= MAX_LINE_LEN) (split_on Byte.x0a (written ops)) ->
   text_lines (printed ops) = split_on Byte.x0a (written ops)).
Proof.
  intros G Ho. pose proof (text_lines_log (printed ops)) as Ht. split_and!.
  - destruct (fb_new_inv buf i G) as [I L]. destruct (session_ok ops _ _ I Ho L) as (w & E & I' & [L1 L2]).
    exists w. split; [done|]. destruct (fold_left log_char (printed ops) ([], [])) as [h cur].
    rewrite <- Ht, last_n_257, L1, L2. done.
  - apply text_lines_concat.
  - intros Hu Hcr Hlen. destruct (printed_written ops Hu) as [Hs Hw]. rewrite <- Hw in *.
    pose proof (log_text (printed ops) Hs Hcr Hlen) as Ht'.
    destruct (fold_left log_char (printed ops) ([], [])) as [h cur]. by rewrite <- Ht, Ht'.
Qed.

(** C26: scrolling shows history exactly. From any reachable state, a scroll by [n] lines moves the
    view to the clamped offset; when the offset changes, every visible pixel is that of the
    [viewport_rows] lines above it, drawn from the top left; otherwise nothing changes at all. The
    text is never touched. *)
Theorem scroll_shows_history w o :
  fb_inv w -> op_ok o = true -> is_scroll o = true ->
  exists w', con_exec o w = (Ok tt, w') /\ fb_inv w' /\
    ring w' = ring w /\ current_line w' = current_line w /\ scroll_back w' = scroll_target w o /\
    (scroll_target w o = scroll_back w -> w' = w) /\
    (scroll_target w o <> scroll_back w -> shows w' (window w' (scroll_target w o))).
Proof.
  intros I Ho Hs. destruct (scroll_ok w o I Ho Hs) as (w' & ? & ? & ? & ? & _ & ? & ? & ?). by exists w'.
Qed.

End theorems.

(** ** A small screen *)

Module screen.

(** One column per character, two rows of its code. *)
#[local] Instance tiny_font : Font := {
  CHAR_RASTER_HEIGHT := 2;
  CHAR_RASTER_WIDTH := 1;
  get_raster c := Some (mkGlyph [[of_u8 c]; [of_u8 c]] 1);
}.

#[local] Instance tiny_font_spec : FontSpec.
Proof.
  split.
  - vm_compute. split; discriminate.
  - vm_compute. split; discriminate.
  - intros c g [= <-]. split; [reflexivity|]. split; [|reflexivity]. repeat constructor.
  - by eexists.
Defined.

(** Six columns of text, three rows. *)
Definition tiny_info : FrameBufferInfo := mkInfo 8 15 Bgr 3 10.
Definition tiny_buf : bytes := replicate 450 Byte.xff.

Lemma tiny_geom : fb_geom tiny_info (length tiny_buf).
Proof.
  split; vm_compute; try split; discriminate.
Qed.

Definition ops : list con_op := [OpWrite (s_ "a" ++ NL ++ s_ "b" ++ NL ++ s_ "c" ++ NL ++ s_ "d"); OpUp 1; OpClear; OpEnd].

Lemma console_never_panics_witness :
  exists w, run_ops con_exec ops (fb_new tiny_buf tiny_info) = (replicate 4 (Ok tt), w) /\ fb_inv w.
Proof.
  apply (console_never_panics tiny_buf tiny_info ops tiny_geom).
  apply (bool_decide_unpack _). vm_compute. reflexivity.
Defined.

(** A line of 300 bytes, and three short ones. *)
Definition long_ops : list con_op :=
  [OpWrite (replicate 300 "x"%byte ++ NL ++ s_ "b" ++ NL); OpUp 1; OpWrite (s_ "c" ++ [Byte.x0d] ++ s_ "d")].

Lemma scrollback_is_last_lines_witness :
  exists w, run_ops con_exec long_ops (fb_new tiny_buf tiny_info) = (replicate 3 (Ok tt), w) /\
    ring w ++ [current_line w] = [replicate 256 "x"%byte; replicate 44 "x"%byte; s_ "b"; s_ "cd"].
Proof.
  destruct (scrollback_is_last_lines tiny_buf tiny_info long_ops tiny_geom) as [(w & E & R) _].
  - apply (bool_decide_unpack _). vm_compute. reflexivity.
  - exists w. split; [exact E|]. rewrite R. vm_compute. reflexivity.
Defined.

(** The writer after four lines on the three-row screen. *)
Definition four : FrameBufferWriter :=
  snd (con_exec (OpWrite (s_ "a" ++ NL ++ s_ "b" ++ NL ++ s_ "c" ++ NL ++ s_ "d")) (fb_new tiny_buf tiny_info)).

Lemma four_inv : fb_inv four.
Proof.
  destruct (fb_new_inv tiny_buf tiny_info tiny_geom) as [I L].
  destruct (con_exec_ok _ (OpWrite (s_ "a" ++ NL ++ s_ "b" ++ NL ++ s_ "c" ++ NL ++ s_ "d")) _ I eq_refl L)
    as (w' & E & I' & _).
  unfold four. by rewrite E.
Qed.

Lemma scroll_shows_history_witness :
  exists w', con_exec (OpUp 5) four = (Ok tt, w') /\ shows w' [s_ "a"; s_ "b"; s_ "c"].
Proof.
  destruct (scroll_shows_history four (OpUp 5) four_inv) as (w' & E & _ & R & Cu & _ & _ & S).
  - reflexivity.
  - reflexivity.
  - exists w'. split; [exact E|]. revert S.
    replace (window w' _) with [s_ "a"; s_ "b"; s_ "c"].
    + intros S. apply S. vm_compute. discriminate.
    + vm_compute in E. injection E as <-. vm_compute. reflexivity.
Defined.

(** The bottom row after a line that wraps there, one grey level per column. *)
Definition bottom_row (w : FrameBufferWriter) : list bytes :=
  map (fun x => pixel (info w) (framebuffer w) x 9) (seqZ 1 6).

(** A line that wraps on the bottom row is drawn over itself. On the six-column, three-row screen,
    the seventh character of the third line lands on the first: the row shows [723456], although the
    recorded line is [1234567] and no newline was printed. *)
Theorem bottom_wrap_overdraws :
  let w := snd (write_str (s_ "a" ++ NL ++ s_ "b" ++ NL ++ s_ "1234567") (fb_new tiny_buf tiny_info)) in
  bottom_row w = map (color tiny_info) (s_ "723456") /\
  ring w ++ [current_line w] = [s_ "a"; s_ "b"; s_ "1234567"].
Proof.
  vm_compute. split; reflexivity.
Qed.

End screen.
