(* ===== verification/Tmp.v ===== *)
(** * tmpfs (src/kernel/src/fs/tmp.rs)

    The writable in-memory file system: a tree of nested maps behind a mutex, its operations, an
    abstract flat namespace (path to entry) and the proof that the tree implements it. *)

From S2P Require Import Prelude.
From S2P Require Import Vfs.

Inductive Node : Type :=
| File (b : bytes)
| Dir (d : gmap str Node).

(** [TmpFs { root: Mutex<Node> }]; the mutex serialises operations, each of which takes it once. *)
Record TmpFs : Type := mkTmpFs { root : Node }.

Definition tmp_new : TmpFs := mkTmpFs (Dir ∅).

Definition split_segments (rel : str) : list str := segments rel.

(** [slice::split_last]. *)
Definition split_last {A} (l : list A) : option (list A * A) :=
  match rev l with
  | [] => None
  | x :: r => Some (rev r, x)
  end.

Definition split_parent (rel : str) : option (list str * str) := split_last (split_segments rel).

Fixpoint walk (node : Node) (segs : list str) : res FsError Node :=
  match segs with
  | [] => Ok node
  | s :: segs' =>
      match node with
      | Dir d => let? child := ok_or NotFound (d !! s) in walk child segs'
      | File _ => Err NotADir
      end
  end.

(** [walk_mut]: the mutable borrow it returns is the continuation's argument; what the
    continuation leaves there is written back along the path. *)
Fixpoint walk_mut {A} (node : Node) (segs : list str) (k : Node -> res FsError A * Node)
    : res FsError A * Node :=
  match segs with
  | [] => k node
  | s :: segs' =>
      match node with
      | Dir d =>
          match d !! s with
          | Some child =>
              let '(r, child') := walk_mut child segs' k in (r, Dir (<[s := child']> d))
          | None => (Err NotFound, node)
          end
      | File _ => (Err NotADir, node)
      end
  end.

(** [let dir = match parent_node { Node::Dir(d) => d, _ => return Err(NotADir) }; ..]. *)
Definition on_dir {A} (k : gmap str Node -> res FsError A * gmap str Node) (node : Node)
    : res FsError A * Node :=
  match node with
  | Dir d => let '(r, d') := k d in (r, Dir d')
  | File _ => (Err NotADir, node)
  end.

(** The common shape of the five mutating methods: split off the last segment, walk to the
    parent, require a directory there and edit its map. *)
Definition in_parent {W A : Type} (rel : str)
    (k : str -> gmap str Node -> res FsError A * gmap str Node) : M (TmpFs * W) FsError A :=
  fun '(t, w) =>
    match split_parent rel with
    | None => (Err Io, (t, w))
    | Some (parent, name) =>
        let '(r, root') := walk_mut (root t) parent (on_dir (k name)) in
        (r, (mkTmpFs root', w))
    end.

Definition tmp_read_file {W : Type} (rel : str) : M (TmpFs * W) FsError bytes := fun s =>
  (let? n := walk (root s.1) (split_segments rel) in
   match n with File b => Ok b | Dir _ => Err IsADir end, s).

Definition tmp_list_dir {W : Type} (rel : str) : M (TmpFs * W) FsError (list str) := fun s =>
  (let? n := walk (root s.1) (split_segments rel) in
   match n with Dir d => Ok (btree_keys d) | File _ => Err NotADir end, s).

Definition tmp_is_dir {W : Type} (rel : str) : M (TmpFs * W) FsError bool := fun s =>
  (Ok (match walk (root s.1) (split_segments rel) with Ok (Dir _) => true | _ => false end), s).

Definition tmp_create_file {W : Type} (rel : str) : M (TmpFs * W) FsError unit :=
  in_parent rel (fun name dir =>
    match dir !! name with
    | Some (Dir _) => (Err IsADir, dir)
    | _ => (Ok tt, <[name := File []]> dir)
    end).

Definition tmp_write_file {W : Type} (rel : str) (data : bytes) : M (TmpFs * W) FsError unit :=
  in_parent rel (fun name dir =>
    match dir !! name with
    | Some (Dir _) => (Err IsADir, dir)
    | _ => (Ok tt, <[name := File data]> dir)
    end).

Definition tmp_append_file {W : Type} (rel : str) (data : bytes) : M (TmpFs * W) FsError unit :=
  in_parent rel (fun name dir =>
    match dir !! name with
    | Some (File b) => (Ok tt, <[name := File (b ++ data)]> dir)
    | Some (Dir _) => (Err IsADir, dir)
    | None => (Ok tt, <[name := File data]> dir)
    end).

Definition tmp_create_dir {W : Type} (rel : str) : M (TmpFs * W) FsError unit :=
  in_parent rel (fun name dir =>
    match dir !! name with
    | Some _ => (Err Io, dir)
    | None => (Ok tt, <[name := Dir ∅]> dir)
    end).

Definition tmp_remove {W : Type} (rel : str) : M (TmpFs * W) FsError unit :=
  in_parent rel (fun name dir =>
    match dir !! name with
    | None => (Err NotFound, dir)
    | Some (Dir child) =>
        if bool_decide (map_to_list child = []) then (Ok tt, delete name dir) else (Err Io, dir)
    | Some (File _) => (Ok tt, delete name dir)
    end).

#[global] Instance tmp_filesystem (W : Type) : FileSystem W TmpFs := {
  fs_read_file := tmp_read_file;
  fs_list_dir := tmp_list_dir;
  fs_is_dir := tmp_is_dir;
  fs_writable _ := true;
  fs_backing _ := s_ "tmpfs";
  fs_create_file := tmp_create_file;
  fs_write_file := tmp_write_file;
  fs_append_file := tmp_append_file;
  fs_create_dir := tmp_create_dir;
  fs_remove := tmp_remove;
  fs_read_at := default_read_at tmp_read_file;
  fs_write_at := default_write_at;
}.

(** ** Abstract specification: a flat namespace

    A state maps each existing path (list of segments, [[]] the root) to its entry. *)

Inductive Entry : Set :=
| EFile (b : bytes)
| EDir.

Abbreviation namespace := (gmap (list str) Entry).

Module spec.

(** Follow a path: the first missing prefix is [NotFound], a file before the end [NotADir]. *)
Fixpoint resolve (σ : namespace) (done rest : list str) : res FsError Entry :=
  match rest with
  | [] => ok_or NotFound (σ !! done)
  | s :: rest' =>
      match σ !! done with
      | Some EDir => resolve σ (done ++ [s]) rest'
      | Some (EFile _) => Err NotADir
      | None => Err NotFound
      end
  end.

(** The names directly below [p], in ascending order. *)
Definition child_of (p : list str) (qe : list str * Entry) : option (str * Entry) :=
  match split_last (fst qe) with
  | Some (q', x) => if decide (q' = p) then Some (x, snd qe) else None
  | None => None
  end.

Definition children (σ : namespace) (p : list str) : list str :=
  btree_keys (list_to_map (omap (child_of p) (map_to_list σ)) : gmap str Entry).

Definition read_file (rel : str) (σ : namespace) : res FsError bytes :=
  let? e := resolve σ [] (segments rel) in
  match e with EFile b => Ok b | EDir => Err IsADir end.

Definition list_dir (rel : str) (σ : namespace) : res FsError (list str) :=
  let? e := resolve σ [] (segments rel) in
  match e with EDir => Ok (children σ (segments rel)) | EFile _ => Err NotADir end.

Definition is_dir (rel : str) (σ : namespace) : bool :=
  match resolve σ [] (segments rel) with Ok EDir => true | _ => false end.

(** Every update needs a parent that is a directory; [upd] then gets the path and its entry. *)
Definition update (rel : str)
    (upd : list str -> option Entry -> namespace -> res FsError unit * namespace)
    (σ : namespace) : res FsError unit * namespace :=
  match split_last (segments rel) with
  | None => (Err Io, σ)
  | Some (parent, name) =>
      match resolve σ [] parent with
      | Ok EDir => upd (segments rel) (σ !! segments rel) σ
      | Ok (EFile _) => (Err NotADir, σ)
      | Err e => (Err e, σ)
      | Panic => (Panic, σ)
      | Diverge => (Diverge, σ)
      end
  end.

Definition create_file (rel : str) : namespace -> res FsError unit * namespace :=
  update rel (fun p e σ =>
    match e with Some EDir => (Err IsADir, σ) | _ => (Ok tt, <[p := EFile []]> σ) end).

Definition write_file (rel : str) (data : bytes) : namespace -> res FsError unit * namespace :=
  update rel (fun p e σ =>
    match e with Some EDir => (Err IsADir, σ) | _ => (Ok tt, <[p := EFile data]> σ) end).

Definition append_file (rel : str) (data : bytes) : namespace -> res FsError unit * namespace :=
  update rel (fun p e σ =>
    match e with
    | Some EDir => (Err IsADir, σ)
    | Some (EFile b) => (Ok tt, <[p := EFile (b ++ data)]> σ)
    | None => (Ok tt, <[p := EFile data]> σ)
    end).

Definition create_dir (rel : str) : namespace -> res FsError unit * namespace :=
  update rel (fun p e σ =>
    match e with Some _ => (Err Io, σ) | None => (Ok tt, <[p := EDir]> σ) end).

Definition remove (rel : str) : namespace -> res FsError unit * namespace :=
  update rel (fun p e σ =>
    match e with
    | None => (Err NotFound, σ)
    | Some EDir => if bool_decide (children σ p = []) then (Ok tt, delete p σ) else (Err Io, σ)
    | Some (EFile _) => (Ok tt, delete p σ)
    end).

End spec.

(** ** The tree represents a namespace *)

Definition entry_of (n : Node) : Entry := match n with File b => EFile b | Dir _ => EDir end.

Definition entry_at (n : Node) (q : list str) : option Entry :=
  match walk n q with Ok m => Some (entry_of m) | _ => None end.

Definition represents (n : Node) (σ : namespace) : Prop := forall q, σ !! q = entry_at n q.

Lemma split_last_snoc {A} (l : list A) x : split_last (l ++ [x]) = Some (l, x).
Proof.
  unfold split_last. rewrite rev_app_distr. simpl. by rewrite rev_involutive.
Qed.

Lemma split_last_Some {A} (l : list A) l' x : split_last l = Some (l', x) <-> l = l' ++ [x].
Proof.
  split; [|intros ->; apply split_last_snoc].
  destruct l as [|y l _] using rev_ind; [done|]. rewrite split_last_snoc. by intros [= -> ->].
Qed.

Lemma split_last_None {A} (l : list A) : split_last l = None <-> l = [].
Proof.
  destruct l as [|y l _] using rev_ind; [done|]. rewrite split_last_snoc.
  split; [done|]. intros H. by destruct l.
Qed.

Lemma walk_app n p q : walk n (p ++ q) = (let? m := walk n p in walk m q).
Proof.
  revert n. induction p as [|s p IH]; intros n; simpl; [done|].
  destruct n as [b|d]; [done|]. destruct (d !! s); simpl; [apply IH|done].
Qed.

Lemma walk_outcome n p : (exists m, walk n p = Ok m) \/ walk n p = Err NotFound \/ walk n p = Err NotADir.
Proof.
  revert n. induction p as [|s p IH]; intros n; simpl; [eauto|].
  destruct n as [b|d]; [auto|]. destruct (d !! s); simpl; auto.
Qed.

Lemma resolve_represents n σ done rest m :
  represents n σ -> walk n done = Ok m ->
  spec.resolve σ done rest = (let? m' := walk m rest in Ok (entry_of m')).
Proof.
  intros HR. revert done m. induction rest as [|s rest IH]; intros done m Hw; simpl.
  { rewrite HR. unfold entry_at. by rewrite Hw. }
  rewrite HR. unfold entry_at at 1. rewrite Hw. destruct m as [b|d]; simpl; [done|].
  destruct (d !! s) as [c|] eqn:Hs; simpl.
  - apply IH. rewrite walk_app, Hw. simpl. by rewrite Hs.
  - assert (σ !! (done ++ [s]) = None) as Hn.
    { rewrite HR. unfold entry_at. rewrite walk_app, Hw. simpl. by rewrite Hs. }
    destruct rest; simpl; by rewrite Hn.
Qed.

Lemma resolve_root n σ rest :
  represents n σ -> spec.resolve σ [] rest = (let? m := walk n rest in Ok (entry_of m)).
Proof.
  intros HR. by apply (resolve_represents n σ [] rest n).
Qed.

(** Directory listings agree. *)
Lemma children_keys σ p k :
  is_Some ((list_to_map (omap (spec.child_of p) (map_to_list σ)) : gmap str Entry) !! k) <->
  is_Some (σ !! (p ++ [k])).
Proof.
  rewrite <- not_eq_None_Some, <- not_elem_of_list_to_map, <- (not_eq_None_Some (σ !! _)).
  rewrite list_elem_of_fmap. setoid_rewrite list_elem_of_omap. unfold spec.child_of. split.
  - intros Hk Hn. apply Hk. intros ([x e] & -> & [q e'] & Hin & Hc). simpl in *.
    destruct (split_last q) as [[q' x']|] eqn:Hq; [|done]. case_decide; simplify_eq.
    apply split_last_Some in Hq as ->. apply elem_of_map_to_list in Hin. congruence.
  - intros Hk Hn. apply Hk. apply eq_None_not_Some. intros [e He]. apply Hn.
    exists (k, e). split; [done|]. exists (p ++ [k], e).
    split; [by apply elem_of_map_to_list|]. simpl. rewrite split_last_snoc. by rewrite decide_True.
Qed.

Lemma children_spec n σ p d :
  represents n σ -> walk n p = Ok (Dir d) -> spec.children σ p = btree_keys d.
Proof.
  intros HR Hw. apply btree_keys_ext. intros k. rewrite children_keys, HR.
  unfold entry_at. rewrite walk_app, Hw. simpl.
  destruct (d !! k) as [c|]; simpl; split; intros []; by eauto.
Qed.

(** What an edit below one path does to every path. *)
Lemma walk_mut_spec {A} n segs m (k : Node -> res FsError A * Node) r m' :
  walk n segs = Ok m -> k m = (r, m') ->
  exists n', walk_mut n segs k = (r, n') /\
    (forall q, entry_at n' (segs ++ q) = entry_at m' q) /\
    (forall q, ~ segs `prefix_of` q -> entry_at n' q = entry_at n q).
Proof.
  revert n. induction segs as [|s segs IH]; intros n Hw Hk; simpl in *.
  { injection Hw as ->. rewrite Hk. exists m'. split; [done|]. split; [done|].
    intros q []. apply prefix_nil. }
  destruct n as [b|d]; [done|]. destruct (d !! s) as [c|] eqn:Hs; simpl in Hw; [|done].
  destruct (IH c Hw Hk) as (c' & -> & Hin & Hout). eexists. split; [done|]. split.
  - intros q. unfold entry_at in *. simpl. rewrite lookup_insert_eq. simpl. apply Hin.
  - intros [|x q] Hq; [done|]. unfold entry_at in *. simpl.
    destruct (decide (x = s)) as [->|Hne].
    + rewrite lookup_insert_eq, Hs. simpl. apply Hout. intros Hp. apply Hq.
      by apply prefix_cons.
    + by rewrite lookup_insert_ne by done.
Qed.

Lemma walk_mut_err {A} n segs (k : Node -> res FsError A * Node) e :
  walk n segs = Err e -> exists n', walk_mut n segs k = (Err e, n') /\ forall q, entry_at n' q = entry_at n q.
Proof.
  revert n. induction segs as [|s segs IH]; intros n Hw; simpl in *; [done|].
  destruct n as [b|d]; [injection Hw as <-; eauto|].
  destruct (d !! s) as [c|] eqn:Hs; simpl in Hw; [|injection Hw as <-; eauto].
  destruct (IH c Hw) as (c' & -> & Hc). eexists. split; [done|].
  intros [|x q]; [done|]. unfold entry_at in *. simpl. destruct (decide (x = s)) as [->|].
  - rewrite lookup_insert_eq, Hs. apply Hc.
  - by rewrite lookup_insert_ne.
Qed.

(** Editing the map of the directory at [p] represents [σ'] when [σ'] agrees with the edited map
    below [p] and with [σ] elsewhere. *)
Lemma represents_edit {A} n σ σ' p d (k : Node -> res FsError A * Node) r d' :
  represents n σ -> walk n p = Ok (Dir d) -> k (Dir d) = (r, Dir d') ->
  (forall q, σ' !! (p ++ q) = entry_at (Dir d') q) ->
  (forall q, ~ p `prefix_of` q -> σ' !! q = σ !! q) ->
  exists n', walk_mut n p k = (r, n') /\ represents n' σ'.
Proof.
  intros HR Hw Hk Hin Hout.
  destruct (walk_mut_spec n p (Dir d) k r (Dir d') Hw Hk) as (n' & Hn' & Hi & Ho).
  exists n'. split; [done|]. intros q.
  destruct (decide (p `prefix_of` q)) as [[q' ->]|Hq].
  - by rewrite Hin, Hi.
  - by rewrite Hout, HR, Ho by done.
Qed.

(** A leaf has nothing below it. *)
Definition leaf (c : Node) : Prop := match c with File _ => True | Dir d => d = ∅ end.

Lemma entry_at_leaf c x q : leaf c -> entry_at c (x :: q) = None.
Proof.
  destruct c as [b|d]; [done|]. simpl. by intros ->.
Qed.

Lemma entry_at_child n p d name q :
  walk n p = Ok (Dir d) ->
  entry_at n (p ++ name :: q) = match d !! name with Some c => entry_at c q | None => None end.
Proof.
  intros Hw. unfold entry_at. rewrite walk_app, Hw. simpl. by destruct (d !! name).
Qed.

Lemma entry_at_dir d name q :
  entry_at (Dir d) (name :: q) = match d !! name with Some c => entry_at c q | None => None end.
Proof.
  exact (entry_at_child (Dir d) [] d name q eq_refl).
Qed.

Lemma represents_insert {A} n σ p d name c (k : Node -> res FsError A * Node) r :
  represents n σ -> walk n p = Ok (Dir d) -> leaf c ->
  (forall c0, d !! name = Some c0 -> leaf c0) ->
  k (Dir d) = (r, Dir (<[name := c]> d)) ->
  exists n', walk_mut n p k = (r, n') /\ represents n' (<[p ++ [name] := entry_of c]> σ).
Proof.
  intros HR Hw Hc Hd Hk. eapply represents_edit; [done..| |].
  - intros [|x q].
    + rewrite app_nil_r, lookup_insert_ne, HR by (intros H; by apply (f_equal length) in H;
        rewrite length_app in H; simpl in H; lia).
      unfold entry_at. by rewrite Hw.
    + destruct (decide (x = name)) as [->|Hne].
      * destruct q as [|y q].
        { rewrite lookup_insert_eq. unfold entry_at. simpl. by rewrite lookup_insert_eq. }
        rewrite lookup_insert_ne by (intros H; by apply app_inv_head in H).
        rewrite HR, (entry_at_child n p d) by done.
        rewrite entry_at_dir.
        rewrite lookup_insert_eq, (entry_at_leaf c) by done.
        destruct (d !! name) eqn:Hn; [|done]. apply entry_at_leaf; eauto.
      * rewrite lookup_insert_ne by (intros H; apply app_inv_head in H; by injection H).
        rewrite HR, (entry_at_child n p d) by done.
        rewrite entry_at_dir.
        by rewrite lookup_insert_ne.
  - intros q Hq. apply lookup_insert_ne. intros <-. apply Hq. by exists [name].
Qed.

Lemma represents_delete {A} n σ p d name c (k : Node -> res FsError A * Node) r :
  represents n σ -> walk n p = Ok (Dir d) -> d !! name = Some c -> leaf c ->
  k (Dir d) = (r, Dir (delete name d)) ->
  exists n', walk_mut n p k = (r, n') /\ represents n' (delete (p ++ [name]) σ).
Proof.
  intros HR Hw Hd Hc Hk. eapply represents_edit; [done..| |].
  - intros [|x q].
    + rewrite app_nil_r, lookup_delete_ne, HR by (intros H; by apply (f_equal length) in H;
        rewrite length_app in H; simpl in H; lia).
      unfold entry_at. by rewrite Hw.
    + rewrite entry_at_dir.
      destruct (decide (x = name)) as [->|Hne].
      * rewrite lookup_delete_eq. destruct q as [|y q]; [by rewrite lookup_delete_eq|].
        rewrite lookup_delete_ne by (intros H; by apply app_inv_head in H).
        rewrite HR, (entry_at_child n p d), Hd by done. by apply entry_at_leaf.
      * rewrite lookup_delete_ne by (intros H; apply app_inv_head in H; by injection H).
        rewrite HR, (entry_at_child n p d) by done. by rewrite lookup_delete_ne.
  - intros q Hq. apply lookup_delete_ne. intros <-. apply Hq. by exists [name].
Qed.

(** The simulation for one mutating method, from what its edit of the parent map does. *)
Section in_parent.
Context {W : Type}.
Implicit Types (t : TmpFs) (w : W) (σ : namespace).

Definition edit_sim (k : str -> gmap str Node -> res FsError unit * gmap str Node)
    (upd : list str -> option Entry -> namespace -> res FsError unit * namespace) : Prop :=
  forall n σ p name d,
    represents n σ -> walk n p = Ok (Dir d) ->
    let '(r, d') := k name d in
    let '(r', σ') := upd (p ++ [name]) (σ !! (p ++ [name])) σ in
    r = r' /\
    ((d' = d /\ σ' = σ) \/
     (exists c, leaf c /\ (forall c0, d !! name = Some c0 -> leaf c0) /\
        d' = <[name := c]> d /\ σ' = <[p ++ [name] := entry_of c]> σ) \/
     (exists c, leaf c /\ d !! name = Some c /\ d' = delete name d /\ σ' = delete (p ++ [name]) σ)).

Lemma in_parent_refines rel k upd t w σ :
  edit_sim k upd -> represents (root t) σ ->
  exists r t' σ', in_parent rel k (t, w) = (r, (t', w)) /\ spec.update rel upd σ = (r, σ') /\
    represents (root t') σ'.
Proof.
  intros Hsim HR. unfold in_parent, spec.update, split_parent, split_segments.
  destruct (split_last (segments rel)) as [[p name]|] eqn:Hs; [|by eauto 10].
  apply split_last_Some in Hs. rewrite (resolve_root (root t) σ p HR), Hs.
  set (kk := on_dir (k name)).
  destruct (walk_outcome (root t) p) as [[m Hm]|Herr].
  2:{ assert (exists e, walk (root t) p = Err e) as [e He] by (destruct Herr; eauto).
      rewrite He. simpl.
      destruct (walk_mut_err (root t) p kk e He) as (n' & -> & Hn').
      exists (Err e), (mkTmpFs n'), σ. repeat split. intros q. simpl. by rewrite Hn'. }
  rewrite Hm. simpl. destruct m as [b|d]; simpl.
  { destruct (walk_mut_spec (root t) p (File b) kk (Err NotADir) (File b)) as (n' & -> & Hi & Ho);
      [done..|].
    exists (Err NotADir), (mkTmpFs n'), σ. repeat split. intros q. simpl. rewrite HR.
    destruct (decide (p `prefix_of` q)) as [[q' ->]|]; [|by rewrite Ho].
    rewrite Hi. unfold entry_at. by rewrite walk_app, Hm. }
  specialize (Hsim (root t) σ p name d HR Hm).
  destruct (k name d) as [r d'] eqn:Hk. destruct (upd _ _ _) as [r' σ'].
  destruct Hsim as [<- Hsim].
  assert (kk (Dir d) = (r, Dir d')) as Hkk by (unfold kk, on_dir; by rewrite Hk).
  cut (exists n', walk_mut (root t) p kk = (r, n') /\ represents n' σ').
  { intros (n' & -> & HR'). exists r, (mkTmpFs n'), σ'. by repeat split. }
  destruct Hsim as [[-> ->]|[(c & ? & ? & -> & ->)|(c & ? & ? & -> & ->)]].
  - eapply represents_edit; [done..| |done].
    intros q. rewrite HR. unfold entry_at. by rewrite walk_app, Hm.
  - by eapply represents_insert.
  - by eapply represents_delete.
Qed.

(** The parent map's view of a path's entry. *)
Lemma lookup_child n σ p d name :
  represents n σ -> walk n p = Ok (Dir d) -> σ !! (p ++ [name]) = entry_of <$> d !! name.
Proof.
  intros HR Hw. rewrite HR, (entry_at_child n p d) by done.
  unfold entry_at. simpl. by destruct (d !! name).
Qed.

End in_parent.

(** ** Per-operation simulation *)

Ltac tmp_sim :=
  intros n σ p name d HR Hw; rewrite (lookup_child n σ p d name) by done;
  destruct (d !! name) as [[b0|d0]|] eqn:Hn; simpl.

Lemma create_file_sim :
  edit_sim (fun name dir => match dir !! name with
                            | Some (Dir _) => (Err IsADir, dir)
                            | _ => (Ok tt, <[name := File []]> dir) end)
    (fun p e σ => match e with Some EDir => (Err IsADir, σ) | _ => (Ok tt, <[p := EFile []]> σ) end).
Proof.
  tmp_sim; (split; [done|]); [|by left|].
  all: right; left; exists (File []); split; [done|]; naive_solver.
Qed.

Lemma write_file_sim data :
  edit_sim (fun name dir => match dir !! name with
                            | Some (Dir _) => (Err IsADir, dir)
                            | _ => (Ok tt, <[name := File data]> dir) end)
    (fun p e σ => match e with Some EDir => (Err IsADir, σ) | _ => (Ok tt, <[p := EFile data]> σ) end).
Proof.
  tmp_sim; (split; [done|]); [|by left|].
  all: right; left; exists (File data); split; [done|]; naive_solver.
Qed.

Lemma append_file_sim data :
  edit_sim (fun name dir => match dir !! name with
                            | Some (File b) => (Ok tt, <[name := File (b ++ data)]> dir)
                            | Some (Dir _) => (Err IsADir, dir)
                            | None => (Ok tt, <[name := File data]> dir) end)
    (fun p e σ => match e with
                  | Some EDir => (Err IsADir, σ)
                  | Some (EFile b) => (Ok tt, <[p := EFile (b ++ data)]> σ)
                  | None => (Ok tt, <[p := EFile data]> σ) end).
Proof.
  tmp_sim; (split; [done|]); [|by left|]; right; left.
  - exists (File (b0 ++ data)). split; [done|]. naive_solver.
  - exists (File data). split; [done|]. naive_solver.
Qed.

Lemma create_dir_sim :
  edit_sim (fun name dir => match dir !! name with
                            | Some _ => (Err Io, dir)
                            | None => (Ok tt, <[name := Dir ∅]> dir) end)
    (fun p e σ => match e with Some _ => (Err Io, σ) | None => (Ok tt, <[p := EDir]> σ) end).
Proof.
  tmp_sim; (split; [done|]); [by left..|]. right; left. exists (Dir ∅). split; [done|]. naive_solver.
Qed.

Lemma remove_sim :
  edit_sim (fun name dir =>
      match dir !! name with
      | None => (Err NotFound, dir)
      | Some (Dir child) =>
          if bool_decide (map_to_list child = []) then (Ok tt, delete name dir) else (Err Io, dir)
      | Some (File _) => (Ok tt, delete name dir)
      end)
    (fun p e σ =>
      match e with
      | None => (Err NotFound, σ)
      | Some EDir =>
          if bool_decide (spec.children σ p = []) then (Ok tt, delete p σ) else (Err Io, σ)
      | Some (EFile _) => (Ok tt, delete p σ)
      end).
Proof.
  tmp_sim.
  - split; [done|]. right; right. exists (File b0). by repeat split.
  - rewrite (children_spec n σ (p ++ [name]) d0); [|done|by rewrite walk_app, Hw; simpl; rewrite Hn].
    replace (bool_decide (btree_keys d0 = [])) with (bool_decide (map_to_list d0 = [])).
    2:{ apply bool_decide_ext. rewrite btree_keys_nil. apply map_to_list_empty_iff. }
    case_bool_decide as Hc; (split; [done|]); [|by left].
    right; right. exists (Dir d0). apply map_to_list_empty_iff in Hc. by repeat split.
  - split; [done|]. by left.
Qed.

(** ** Refinement of whole runs *)

Inductive op : Set :=
| OCreateFile (rel : str)
| OWriteFile (rel : str) (data : bytes)
| OAppendFile (rel : str) (data : bytes)
| OCreateDir (rel : str)
| ORemove (rel : str).

Definition tmp_exec {W : Type} (o : op) : M (TmpFs * W) FsError unit :=
  match o with
  | OCreateFile rel => tmp_create_file rel
  | OWriteFile rel data => tmp_write_file rel data
  | OAppendFile rel data => tmp_append_file rel data
  | OCreateDir rel => tmp_create_dir rel
  | ORemove rel => tmp_remove rel
  end.

Definition spec_exec (o : op) : namespace -> res FsError unit * namespace :=
  match o with
  | OCreateFile rel => spec.create_file rel
  | OWriteFile rel data => spec.write_file rel data
  | OAppendFile rel data => spec.append_file rel data
  | OCreateDir rel => spec.create_dir rel
  | ORemove rel => spec.remove rel
  end.

Lemma tmp_exec_sim {W : Type} o t (w : W) σ :
  represents (root t) σ ->
  exists r t' σ', tmp_exec o (t, w) = (r, (t', w)) /\ spec_exec o σ = (r, σ') /\
    represents (root t') σ'.
Proof.
  intros HR. destruct o; apply in_parent_refines; try done.
  - apply create_file_sim.
  - apply write_file_sim.
  - apply append_file_sim.
  - apply create_dir_sim.
  - apply remove_sim.
Qed.

Lemma run_ops_sim {W : Type} l t (w : W) σ :
  represents (root t) σ ->
  exists rs t' σ', run_ops tmp_exec l (t, w) = (rs, (t', w)) /\
    run_ops spec_exec l σ = (rs, σ') /\ represents (root t') σ'.
Proof.
  revert t σ. induction l as [|o l IH]; intros t σ HR; simpl; [by eauto 10|].
  destruct (tmp_exec_sim o t w σ HR) as (r & t1 & σ1 & -> & -> & HR1).
  destruct (IH t1 σ1 HR1) as (rs & t2 & σ2 & -> & -> & HR2). eauto 10.
Qed.

Lemma read_file_sim {W : Type} rel t (w : W) σ :
  represents (root t) σ -> tmp_read_file rel (t, w) = (spec.read_file rel σ, (t, w)).
Proof.
  intros HR. unfold tmp_read_file, spec.read_file, split_segments.
  rewrite (resolve_root (root t)) by done. simpl.
  by destruct (walk (root t) (segments rel)) as [[]| | |].
Qed.

Lemma list_dir_sim {W : Type} rel t (w : W) σ :
  represents (root t) σ -> tmp_list_dir rel (t, w) = (spec.list_dir rel σ, (t, w)).
Proof.
  intros HR. unfold tmp_list_dir, spec.list_dir, split_segments.
  rewrite (resolve_root (root t)) by done. simpl.
  destruct (walk (root t) (segments rel)) as [[b|d]| | |] eqn:Hw; simpl; try done.
  by rewrite (children_spec (root t) σ (segments rel) d).
Qed.

Lemma is_dir_sim {W : Type} rel t (w : W) σ :
  represents (root t) σ -> tmp_is_dir rel (t, w) = (Ok (spec.is_dir rel σ), (t, w)).
Proof.
  intros HR. unfold tmp_is_dir, spec.is_dir, split_segments.
  rewrite (resolve_root (root t)) by done. simpl.
  by destruct (walk (root t) (segments rel)) as [[]| | |].
Qed.

Lemma represents_new : represents (root tmp_new) {[ [] := EDir ]}.
Proof.
  intros [|x q]; [done|]. rewrite lookup_singleton_ne by done.
  symmetry. by apply entry_at_leaf.
Qed.

(** C4: tmpfs refines the flat namespace. Any sequence of operations started on a fresh tmpfs
    returns, operation by operation, the results of the abstract namespace holding just the root
    directory, and afterwards every read, listing and directory test agrees with it; in
    particular no operation panics or diverges. *)
Theorem tmpfs_refines_namespace {W : Type} (l : list op) (w : W) :
  exists rs t σ,
    run_ops tmp_exec l (tmp_new, w) = (rs, (t, w)) /\
    run_ops spec_exec l {[ [] := EDir ]} = (rs, σ) /\
    forall rel,
      tmp_read_file rel (t, w) = (spec.read_file rel σ, (t, w)) /\
      tmp_list_dir rel (t, w) = (spec.list_dir rel σ, (t, w)) /\
      tmp_is_dir rel (t, w) = (Ok (spec.is_dir rel σ), (t, w)).
Proof.
  destruct (run_ops_sim l tmp_new w _ represents_new) as (rs & t & σ & H1 & H2 & HR).
  exists rs, t, σ. repeat split; [done..| | |].
  - by apply read_file_sim.
  - by apply list_dir_sim.
  - by apply is_dir_sim.
Qed.

(** ** Reading back and framing *)

(** The outcome of following a path, errors included. *)
Definition look (n : Node) (q : list str) : res FsError Entry :=
  let? m := walk n q in Ok (entry_of m).

Lemma look_app n p q : look n (p ++ q) = (let? m := walk n p in look m q).
Proof.
  unfold look. rewrite walk_app. by destruct (walk n p).
Qed.

Lemma walk_mut_look {A} n segs m (k : Node -> res FsError A * Node) r m' :
  walk n segs = Ok m -> k m = (r, m') ->
  exists n', walk_mut n segs k = (r, n') /\
    (forall q, look n' (segs ++ q) = look m' q) /\
    (forall q, ~ segs `prefix_of` q -> look n' q = look n q).
Proof.
  revert n. induction segs as [|s segs IH]; intros n Hw Hk; simpl in *.
  { injection Hw as ->. rewrite Hk. exists m'. split; [done|]. split; [done|].
    intros q []. apply prefix_nil. }
  destruct n as [b|d]; [done|]. destruct (d !! s) as [c|] eqn:Hs; simpl in Hw; [|done].
  destruct (IH c Hw Hk) as (c' & -> & Hin & Hout). eexists. split; [done|]. split.
  - intros q. unfold look in *. simpl. rewrite lookup_insert_eq. simpl. apply Hin.
  - intros [|x q] Hq; [done|]. unfold look in *. simpl.
    destruct (decide (x = s)) as [->|Hne].
    + rewrite lookup_insert_eq, Hs. simpl. apply Hout. intros Hp. apply Hq. by apply prefix_cons.
    + by rewrite lookup_insert_ne by done.
Qed.

Lemma read_file_look {W : Type} rel t (w : W) :
  tmp_read_file rel (t, w) =
    (let? e := look (root t) (segments rel) in match e with EFile b => Ok b | EDir => Err IsADir end,
     (t, w)).
Proof.
  unfold tmp_read_file, look, split_segments. simpl.
  by destruct (walk (root t) (segments rel)) as [[]| | |].
Qed.

(** A successful edit of the parent map that only changes [name], seen from every path. *)
Lemma in_parent_Ok {W : Type} rel k t (w : W) t' w' :
  in_parent rel k (t, w) = (Ok tt, (t', w')) ->
  exists p name d d', segments rel = p ++ [name] /\ k name d = (Ok tt, d') /\ w' = w /\
    walk (root t) p = Ok (Dir d) /\
    ((forall x, x <> name -> d' !! x = d !! x) ->
     look (root t') (segments rel) = (let? c := ok_or NotFound (d' !! name) in Ok (entry_of c)) /\
     look (root t) (segments rel) = (let? c := ok_or NotFound (d !! name) in Ok (entry_of c)) /\
     forall q, ~ segments rel `prefix_of` q -> look (root t') q = look (root t) q).
Proof.
  unfold in_parent, split_parent, split_segments.
  destruct (split_last (segments rel)) as [[p name]|] eqn:Hs; [|done].
  apply split_last_Some in Hs. rewrite Hs.
  destruct (walk_outcome (root t) p) as [[m Hm]|Herr].
  2:{ assert (exists e, walk (root t) p = Err e) as [e He] by (destruct Herr; eauto).
      by destruct (walk_mut_err (root t) p (on_dir (k name)) e He) as (n' & -> & _). }
  destruct (on_dir (k name) m) as [r m'] eqn:Hk.
  destruct (walk_mut_look (root t) p m _ r m' Hm Hk) as (n' & -> & Hi & Ho).
  intros [= -> <- <-]. unfold on_dir in Hk. destruct m as [b|d]; [done|].
  destruct (k name d) as [r0 d'] eqn:Hkd. injection Hk as -> <-.
  exists p, name, d, d'. repeat split; [done..| | |]; simpl.
  - rewrite Hi. unfold look. simpl. by destruct (d' !! name).
  - rewrite look_app, Hm. unfold look. simpl. by destruct (d !! name).
  - intros q Hq. destruct (decide (p `prefix_of` q)) as [[q' ->]|Hp]; [|by apply Ho].
    rewrite Hi, look_app, Hm. simpl. destruct q' as [|x q']; [done|].
    assert (x <> name).
    { intros ->. apply Hq. exists q'. by rewrite <- app_assoc. }
    unfold look. simpl. by rewrite H by done.
Qed.

(** Tmpfs read-your-writes with framing. After a successful [write_file], reading the path
    (in any spelling with the same segments) returns exactly the data, and every path that does
    not lie at or below it reads as before, errors included. *)
Theorem tmp_write_read {W : Type} rel data t (w : W) t' w' :
  tmp_write_file rel data (t, w) = (Ok tt, (t', w')) ->
  (forall rel', segments rel' = segments rel -> tmp_read_file rel' (t', w') = (Ok data, (t', w'))) /\
  (forall rel', ~ segments rel `prefix_of` segments rel' ->
     fst (tmp_read_file rel' (t', w')) = fst (tmp_read_file rel' (t, w))).
Proof.
  intros (p & name & d & d' & Hs & Hk & -> & Hw & H)%in_parent_Ok.
  assert (d' = <[name := File data]> d) as -> by (repeat case_match; by simplify_eq).
  destruct H as (Hnew & _ & Hfr); [intros; by apply lookup_insert_ne|].
  split; intros rel' Hr; rewrite !read_file_look; simpl.
  - by rewrite Hr, Hnew, lookup_insert_eq.
  - by rewrite Hfr.
Qed.

Lemma tmp_write_read_witness :
  let t := fst (snd (tmp_create_dir (s_ "/d") (tmp_new, tt))) in
  let t' := fst (snd (tmp_write_file (s_ "/d/f") (s_ "hi") (t, tt))) in
  tmp_read_file (s_ "//d//f/") (t', tt) = (Ok (s_ "hi"), (t', tt)).
Proof.
  intros t t'. apply (tmp_write_read (s_ "/d/f") (s_ "hi") t tt t' tt); vm_compute; reflexivity.
Defined.

(** Append extends. A successful [append_file] leaves the old contents followed by the new
    data (just the data when the file did not exist), and no other path is affected. *)
Theorem tmp_append_read {W : Type} rel data t (w : W) t' w' :
  tmp_append_file rel data (t, w) = (Ok tt, (t', w')) ->
  exists old, (fst (tmp_read_file rel (t, w)) = Ok old \/
               (fst (tmp_read_file rel (t, w)) = Err NotFound /\ old = [])) /\
    fst (tmp_read_file rel (t', w')) = Ok (old ++ data) /\
    forall rel', ~ segments rel `prefix_of` segments rel' ->
      fst (tmp_read_file rel' (t', w')) = fst (tmp_read_file rel' (t, w)).
Proof.
  intros (p & name & d & d' & Hs & Hk & -> & Hw & H)%in_parent_Ok.
  destruct (d !! name) as [[b|]|] eqn:Hn; simplify_eq.
  - exists b. destruct H as (Hnew & Hold & Hfr); [intros; by apply lookup_insert_ne|].
    setoid_rewrite read_file_look. simpl. rewrite Hnew, Hold, lookup_insert_eq. simpl.
    repeat split; [by left|]. intros. by rewrite Hfr.
  - exists []. destruct H as (Hnew & Hold & Hfr); [intros; by apply lookup_insert_ne|].
    setoid_rewrite read_file_look. simpl. rewrite Hnew, Hold, lookup_insert_eq. simpl.
    repeat split; [by right|]. intros. by rewrite Hfr.
Qed.

Lemma tmp_append_read_witness :
  let t := fst (snd (tmp_write_file (s_ "/f") (s_ "ab") (tmp_new, tt))) in
  let t' := fst (snd (tmp_append_file (s_ "/f") (s_ "cd") (t, tt))) in
  exists old, fst (tmp_read_file (s_ "/f") (t', tt)) = Ok (old ++ s_ "cd").
Proof.
  intros t t'. destruct (tmp_append_read (s_ "/f") (s_ "cd") t tt t' tt) as (old & _ & H & _).
  - vm_compute. reflexivity.
  - by exists old.
Defined.

(** [remove] deletes exactly one leaf. It only succeeds on a file or an empty directory;
    afterwards the path is gone ([NotFound]) and every path not below it reads as before. *)
Theorem tmp_remove_gone {W : Type} rel t (w : W) t' w' :
  tmp_remove rel (t, w) = (Ok tt, (t', w')) ->
  ((exists b, fst (tmp_read_file rel (t, w)) = Ok b) \/ fst (tmp_list_dir rel (t, w)) = Ok []) /\
  fst (tmp_read_file rel (t', w')) = Err NotFound /\
  forall rel', ~ segments rel `prefix_of` segments rel' ->
    fst (tmp_read_file rel' (t', w')) = fst (tmp_read_file rel' (t, w)).
Proof.
  intros (p & name & d & d' & Hs & Hk & -> & Hw & H)%in_parent_Ok.
  assert (exists c, d !! name = Some c /\ d' = delete name d /\ leaf c) as (c & Hc & -> & Hl).
  { destruct (d !! name) as [[b|dd]|] eqn:Hn; simplify_eq; [by exists (File b)|].
    case_bool_decide as Hd; simplify_eq. exists (Dir dd). repeat split.
    by apply map_to_list_empty_iff. }
  destruct H as (Hnew & Hold & Hfr); [intros; by apply lookup_delete_ne|].
  rewrite lookup_delete_eq in Hnew. setoid_rewrite read_file_look. simpl.
  rewrite Hnew, Hold, Hc. split; [|split; [done|]; intros; by rewrite Hfr].
  destruct c as [b|dd]; simpl; [left; eauto|right].
  unfold tmp_list_dir, split_segments. simpl. rewrite Hs, walk_app, Hw. simpl. rewrite Hc. simpl.
  simpl in Hl. by subst.
Qed.

Lemma tmp_remove_gone_witness :
  let t := fst (snd (tmp_create_dir (s_ "/d") (tmp_new, tt))) in
  let t' := fst (snd (tmp_remove (s_ "/d") (t, tt))) in
  fst (tmp_read_file (s_ "/d") (t', tt)) = Err NotFound.
Proof.
  intros t t'. apply (tmp_remove_gone (s_ "/d") t tt t' tt). vm_compute. reflexivity.
Defined.

(** ** tmpfs always answers *)

Lemma walk_good node segs : good (fun e => e = NotFound \/ e = NotADir) (walk node segs).
Proof.
  revert node. induction segs as [|x segs IH]; intros [b|d]; simpl; auto.
  destruct (d !! x); simpl; auto.
Qed.

Lemma walk_mut_good {A} node segs (k : Node -> res FsError A * Node) :
  (forall n, good (fun _ => True) (k n).1) -> good (fun _ => True) (walk_mut node segs k).1.
Proof.
  intros Hk. revert node. induction segs as [|x segs IH]; intros [b|d]; simpl; auto.
  destruct (d !! x) as [c|]; simpl; auto. specialize (IH c). by destruct (walk_mut c segs k).
Qed.

Lemma in_parent_answers {W A : Type} (P : TmpFs * W -> Prop) (rel : str)
    (k : str -> gmap str Node -> res FsError A * gmap str Node) :
  (forall t t' w, P (t, w) -> P (t', w)) -> (forall name d, good (fun _ => True) (k name d).1) ->
  answers P (fun _ => True) (in_parent rel k).
Proof.
  intros HP Hk [t w] Hs. unfold in_parent. destruct (split_parent rel) as [[parent name]|]; [|by eexists _, _].
  pose proof (walk_mut_good (root t) parent (on_dir (k name))) as Hg.
  destruct (walk_mut (root t) parent (on_dir (k name))) as [r root']. eexists _, _. split; [done|].
  split; [|by eapply HP]. apply Hg. intros [b|d]; simpl; [done|].
  specialize (Hk name d). by destruct (k name d).
Qed.

#[global] Program Instance tmp_spec {T W : Type} (Wok : T -> W -> Prop) : FileSystemSpec (F:=TmpFs) Wok :=
  { fss_inv _ := True }.
Next Obligation.
  intros T W Wok t rel s Hs. eexists _, _. split; [done|]. split; [|done].
  pose proof (walk_good (root s.1) (split_segments rel)) as Hg.
  destruct (walk _ _) as [[b|d]|e| |]; done.
Qed.
Next Obligation.
  intros T W Wok t rel s Hs. eexists _, _. split; [done|]. split; [|done].
  pose proof (walk_good (root s.1) (split_segments rel)) as Hg.
  destruct (walk _ _) as [[b|d]|e| |]; simpl in *; [done..| |done|done]. by destruct Hg as [-> | ->].
Qed.
Next Obligation.
  intros T W Wok t rel s Hs. by eexists _, _.
Qed.
Solve Obligations with
  (intros; apply in_parent_answers; [done|]; intros name d; by repeat case_match).
