(* ===== verification/Ram.v ===== *)
(** * ramfs (src/kernel/src/fs/ram.rs)

    The read-only in-memory tree used when no data disk is attached, and under [/ram]. *)

From S2P Require Import Prelude.
From S2P Require Import Vfs.
From S2P Require Import Block.

(** [Special] files are evaluated against the devices each time they are read. *)
Inductive RamNode (W : Type) : Type :=
| RFile (b : bytes)
| RSpecial (f : W -> str)
| RDir (d : gmap str (RamNode W)).
Arguments RFile {W} _.
Arguments RSpecial {W} _.
Arguments RDir {W} _.

Record RamFs (W : Type) : Type := mkRamFs { ram_root : RamNode W }.
Arguments mkRamFs {W} _.
Arguments ram_root {W} _.

Section ram.
Context {W : Type}.

Fixpoint ram_lookup_segs (node : RamNode W) (segs : list str) : res FsError (RamNode W) :=
  match segs with
  | [] => Ok node
  | seg :: segs' =>
      match node with
      | RDir d => let? child := ok_or NotFound (d !! seg) in ram_lookup_segs child segs'
      | _ => Err NotADir
      end
  end.

Definition ram_lookup (r : RamFs W) (abs : str) : res FsError (RamNode W) :=
  ram_lookup_segs (ram_root r) (segments abs).

Definition ram_read_file (abs : str) : M (RamFs W * W) FsError bytes := fun s =>
  (let? n := ram_lookup s.1 abs in
   match n with
   | RFile b => Ok b
   | RSpecial f => Ok (f s.2)
   | RDir _ => Err IsADir
   end, s).

Definition ram_list_dir (abs : str) : M (RamFs W * W) FsError (list str) := fun s =>
  (let? n := ram_lookup s.1 abs in
   match n with RDir d => Ok (btree_keys d) | _ => Err NotADir end, s).

Definition ram_is_dir (abs : str) : M (RamFs W * W) FsError bool := fun s =>
  (Ok (match ram_lookup s.1 abs with Ok (RDir _) => true | _ => false end), s).

#[global] Instance ram_filesystem : FileSystem W (RamFs W) := {
  fs_read_file := ram_read_file;
  fs_list_dir := ram_list_dir;
  fs_is_dir := ram_is_dir;
  fs_writable _ := default_writable;
  fs_backing _ := s_ "ramfs (no data disk)";
  fs_create_file := default_create_file;
  fs_write_file := default_write_file;
  fs_append_file := default_append_file;
  fs_create_dir := default_create_dir;
  fs_remove := default_remove;
  fs_read_at := default_read_at ram_read_file;
  fs_write_at := default_write_at;
}.

End ram.


(** ** The seed tree *)

Definition uptime_text {D C} (w : Devices D C) : str := dec (timer_ticks w) ++ s_ " ticks" ++ NL.

Definition welcome_txt : bytes := s_ "Welcome to Willo!" ++ NL ++ s_ "Type `help`." ++ NL.
Definition version_txt : bytes := s_ "willo 0.9 (M9)" ++ NL.
Definition motd_txt : bytes := s_ "the kernel that fits in your head" ++ NL.

Definition seed {D C} : RamFs (Devices D C) :=
  let root := <[s_ "welcome.txt" := RFile welcome_txt]> ∅ in
  let etc := <[s_ "motd" := RFile motd_txt]> (<[s_ "version" := RFile version_txt]> ∅) in
  let root := <[s_ "etc" := RDir etc]> root in
  let proc_dir := <[s_ "uptime" := RSpecial uptime_text]> ∅ in
  let root := <[s_ "proc" := RDir proc_dir]> root in
  let root := <[s_ "bin" := RDir ∅]> root in
  mkRamFs (RDir root).

(** The seed tree, completely: for every path, what reading it returns, whatever the spelling
    of the path, and whichever device state it is read in. *)
Theorem seed_read_file {D C} (rel : str) (w : Devices D C) :
  fst (ram_read_file rel (seed, w)) =
    match segments rel with
    | [] => Err IsADir
    | x :: q =>
        if decide (x = s_ "welcome.txt") then
          if decide (q = []) then Ok welcome_txt else Err NotADir
        else if decide (x = s_ "bin") then
          if decide (q = []) then Err IsADir else Err NotFound
        else if decide (x = s_ "etc") then
          match q with
          | [] => Err IsADir
          | y :: q' =>
              if decide (y = s_ "version") then
                if decide (q' = []) then Ok version_txt else Err NotADir
              else if decide (y = s_ "motd") then
                if decide (q' = []) then Ok motd_txt else Err NotADir
              else Err NotFound
          end
        else if decide (x = s_ "proc") then
          match q with
          | [] => Err IsADir
          | y :: q' =>
              if decide (y = s_ "uptime") then
                if decide (q' = []) then Ok (dec (timer_ticks w) ++ s_ " ticks" ++ NL)
                else Err NotADir
              else Err NotFound
          end
        else Err NotFound
    end.
Proof.
  unfold ram_read_file, ram_lookup. simpl fst. destruct (segments rel) as [|x q]; [done|].
  unfold seed. cbn [ram_root ram_lookup_segs]. rewrite !lookup_insert, lookup_empty.
  repeat (case_decide; subst; simpl; try done).
  - by destruct q.
  - destruct q as [|y q]; [done|]. cbn [ram_lookup_segs]. rewrite lookup_insert, lookup_empty.
    repeat (case_decide; subst; simpl; try done). by destruct q.
  - destruct q as [|y q]; [done|]. cbn [ram_lookup_segs]. rewrite !lookup_insert, lookup_empty.
    repeat (case_decide; subst; simpl; try done); by destruct q.
  - by destruct q.
Qed.

(** ** ramfs always answers *)

Lemma ram_lookup_good {W} node segs :
  good (fun e => e = NotFound \/ e = NotADir) (ram_lookup_segs (W:=W) node segs).
Proof.
  revert node. induction segs as [|x segs IH]; intros [b|f|d]; simpl; auto.
  destruct (d !! x); simpl; auto.
Qed.

#[global] Program Instance ram_spec {T W : Type} (Wok : T -> W -> Prop) : FileSystemSpec (F:=RamFs W) Wok :=
  { fss_inv _ := True }.
Next Obligation.
  intros T W Wok t rel s Hs. eexists _, _. split; [done|]. split; [|done].
  pose proof (ram_lookup_good (ram_root s.1) (segments rel)) as Hg. unfold ram_lookup.
  destruct (ram_lookup_segs _ _) as [[b|f|d]|e| |]; done.
Qed.
Next Obligation.
  intros T W Wok t rel s Hs. eexists _, _. split; [done|]. split; [|done].
  pose proof (ram_lookup_good (ram_root s.1) (segments rel)) as Hg. unfold ram_lookup.
  destruct (ram_lookup_segs _ _) as [[b|f|d]|e| |]; simpl in *; try done. by destruct Hg as [-> | ->].
Qed.
Next Obligation.
  intros T W Wok t rel s Hs. by eexists _, _.
Qed.
Solve Obligations with (intros; by apply answers_throw).
