(* ===== verification/Dev.v ===== *)
(** * devfs (src/kernel/src/fs/dev.rs)

    The flat [/dev] namespace: console, null, zero, serial0 and the raw disk. *)

From S2P Require Import Prelude.
From S2P Require Import Vfs.
From S2P Require Import Block.

Inductive DevNode : Set :=
| ConsoleNode
| NullNode
| ZeroNode
| Serial0Node
| Disk0Node.

(** [DevFs] is a unit struct. *)
Inductive DevFs : Set := mkDevFs.

Definition dev_new : DevFs := mkDevFs.

Definition NODES : list (str * DevNode) :=
  [(s_ "console", ConsoleNode); (s_ "null", NullNode); (s_ "zero", ZeroNode);
   (s_ "serial0", Serial0Node); (s_ "disk0", Disk0Node)].

Definition ZERO_READ_FILE_BYTES : nat := 4096.

Section dev.
Context {D C : Type} `{BlockDevice D} `{Console C}.
Abbreviation W := (Devices D C).

(** The block loop of [Disk0Node::read]; errors of the drive become [Io]. *)
Fixpoint disk0_read (lba : Z) (n i : nat) (buf : bytes) : M W FsError bytes :=
  match n with
  | O => ret buf
  | S n' =>
      let* dst := slice (i * BLOCK_SIZE) BLOCK_SIZE buf in
      let* (_, dst) := mmap_err (fun _ => Io) (with_drive (read_block (lba + Z.of_nat i) dst)) in
      let* buf := put (i * BLOCK_SIZE) dst buf in
      disk0_read lba n' (S i) buf
  end.

Fixpoint disk0_write (lba : Z) (n i : nat) (buf : bytes) : M W FsError unit :=
  match n with
  | O => ret tt
  | S n' =>
      let* src := slice (i * BLOCK_SIZE) BLOCK_SIZE buf in
      let* _ := mmap_err (fun _ => Io) (with_drive (write_block (lba + Z.of_nat i) src)) in
      disk0_write lba n' (S i) buf
  end.

(** Block alignment of an offset and a buffer length. *)
Definition block_aligned (off : Z) (buf : bytes) : bool :=
  (off mod Z.of_nat BLOCK_SIZE =? 0)%Z && (length buf mod BLOCK_SIZE =? 0).

(** [DevNode::read]: the count and the buffer after the call. *)
Definition node_read (n : DevNode) (off : Z) (buf : bytes) : M W FsError (nat * bytes) :=
  match n with
  | ConsoleNode => throw Unsupported
  | NullNode => ret (0, buf)
  | ZeroNode => ret (length buf, zeros (length buf))
  | Serial0Node => ret (0, buf)
  | Disk0Node =>
      if decide (buf = []) then ret (0, buf)
      else if negb (block_aligned off buf) then throw Io
      else
        let* buf := disk0_read (off / Z.of_nat BLOCK_SIZE) (length buf / BLOCK_SIZE) 0 buf in
        ret (length buf, buf)
  end.

(** [DevNode::write]. *)
Definition node_write (n : DevNode) (off : Z) (buf : bytes) : M W FsError nat :=
  match n with
  | ConsoleNode =>
      let s := if utf8_decode buf is Some _ then buf else [] in
      print s ;;; ret (length buf)
  | NullNode => ret (length buf)
  | ZeroNode => ret (length buf)
  | Serial0Node => fun w =>
      match serial1 w with
      | Some log =>
          (Ok (length buf), mkDevices (drive w) (Some (log ++ buf)) (fb_writer w) (timer_ticks w))
      | None => (Err Io, w)
      end
  | Disk0Node =>
      if decide (buf = []) then ret 0
      else if negb (block_aligned off buf) then throw Io
      else
        disk0_write (off / Z.of_nat BLOCK_SIZE) (length buf / BLOCK_SIZE) 0 buf ;;;
        ret (length buf)
  end.

Definition node (name : str) : option DevNode :=
  snd <$> List.find (fun p => bool_decide (fst p = name)) NODES.

Definition flat_name (rel : str) : res FsError str :=
  let trimmed := default rel (strip_prefix (s_ "/") rel) in
  if contains "/" trimmed then Err NotFound else Ok trimmed.

(** Lift a device computation to the method's state. *)
Definition on_devices {A} (m : M W FsError A) : M (DevFs * W) FsError A := fun '(f, w) =>
  let '(r, w') := m w in (r, (f, w')).

Definition dev_read_file (rel : str) : M (DevFs * W) FsError bytes :=
  let* name := lift (flat_name rel) in
  if decide (name = []) then throw IsADir
  else if decide (name = s_ "null") then ret []
  else if decide (name = s_ "zero") then ret (zeros ZERO_READ_FILE_BYTES)
  else if decide (name = s_ "console" \/ name = s_ "serial0" \/ name = s_ "disk0")
  then throw Unsupported
  else throw NotFound.

Definition dev_list_dir (rel : str) : M (DevFs * W) FsError (list str) :=
  let* name := lift (flat_name rel) in
  if decide (name = []) then ret (map fst NODES) else throw NotADir.

Definition dev_is_dir (rel : str) : M (DevFs * W) FsError bool :=
  ret (match flat_name rel with Ok n => bool_decide (n = []) | _ => false end).

Definition dev_read_at (rel : str) (off : Z) (buf : bytes) : M (DevFs * W) FsError (nat * bytes) :=
  let* name := lift (flat_name rel) in
  let* nd := lift (ok_or NotFound (node name)) in
  on_devices (node_read nd off buf).

Definition dev_write_at (rel : str) (off : Z) (buf : bytes) : M (DevFs * W) FsError nat :=
  let* name := lift (flat_name rel) in
  let* nd := lift (ok_or NotFound (node name)) in
  on_devices (node_write nd off buf).

Definition dev_write_file (rel : str) (data : bytes) : M (DevFs * W) FsError unit :=
  let* n := dev_write_at rel 0 data in
  if decide (n = length data) then ret tt else throw Io.

#[global] Instance dev_filesystem : FileSystem W DevFs := {
  fs_read_file := dev_read_file;
  fs_list_dir := dev_list_dir;
  fs_is_dir := dev_is_dir;
  fs_writable _ := true;
  fs_backing _ := s_ "devfs";
  fs_create_file := default_create_file;
  fs_write_file := dev_write_file;
  fs_append_file := default_append_file;
  fs_create_dir := default_create_dir;
  fs_remove := default_remove;
  fs_read_at := dev_read_at;
  fs_write_at := dev_write_at;
}.

End dev.

(** ** Raw disk access *)

(** Only the drive differs. *)
Definition same_but_drive {D C : Type} (w w' : Devices D C) : Prop :=
  serial1 w' = serial1 w /\ fb_writer w' = fb_writer w /\ timer_ticks w' = timer_ticks w.

Section disk0.
Context {D C : Type} `{BD : BlockDevice D} `{BS : !BlockDeviceSpec D} `{CO : Console C}.
Implicit Types (w : Devices D C) (k : Disk).

Lemma with_drive_read w k lba buf :
  bd_rel (drive w) k ->
  exists w', with_drive (read_block lba buf) w = (fst (disk_read lba buf k), w') /\
    bd_rel (drive w') k /\ same_but_drive w w'.
Proof.
  intros HR. destruct (bd_read lba buf _ _ HR) as (d' & Hr & HR').
  unfold with_drive. rewrite Hr. by eexists.
Qed.

Lemma with_drive_write w k lba buf :
  bd_rel (drive w) k ->
  exists w', with_drive (write_block lba buf) w = (fst (disk_write lba buf k), w') /\
    bd_rel (drive w') (snd (disk_write lba buf k)) /\ same_but_drive w w'.
Proof.
  intros HR. destruct (bd_write lba buf _ _ HR) as (d' & Hr & HR').
  unfold with_drive. rewrite Hr. by eexists.
Qed.

Lemma same_but_drive_trans w1 w2 w3 :
  same_but_drive w1 w2 -> same_but_drive w2 w3 -> same_but_drive w1 w3.
Proof.
  unfold same_but_drive. intuition congruence.
Qed.

Lemma disk0_write_ok n lba i buf w k :
  bd_rel (drive w) k ->
  (0 <= lba)%Z -> (lba + Z.of_nat (i + n) <= nblocks k)%Z -> (i + n) * BLOCK_SIZE <= length buf ->
  exists w', disk0_write lba n i buf w = (Ok tt, w') /\
    bd_rel (drive w') (dput_blocks k lba n i buf) /\ same_but_drive w w'.
Proof.
  revert i w k. induction n as [|n IH]; intros i w k HR H0 Hn Hlen; simpl; [by exists w|].
  erewrite bind_ok; [|apply slice_ok; lia]. unfold bind.
  set (src := sub_bytes _ _ _). assert (length src = BLOCK_SIZE) as Hsrc.
  { apply length_sub_bytes. lia. }
  destruct (with_drive_write w k (lba + Z.of_nat i) src HR) as (w1 & Hw1 & HR1 & Hs1).
  rewrite disk_write_ok in Hw1, HR1 by (done || lia). simpl in HR1.
  erewrite mmap_err_ok by done.
  destruct (IH (S i) w1 _ HR1) as (w2 & -> & HR2 & Hs2); [done| |lia|].
  { rewrite nblocks_dput. lia. }
  exists w2. split; [done|]. split; [done|]. by eapply same_but_drive_trans.
Qed.

Lemma disk0_read_ok n lba i data buf w k :
  bd_rel (drive w) k ->
  (0 <= lba)%Z -> (lba + Z.of_nat (i + n) <= nblocks k)%Z ->
  length data = (i + n) * BLOCK_SIZE -> length buf = (i + n) * BLOCK_SIZE ->
  take (i * BLOCK_SIZE) buf = take (i * BLOCK_SIZE) data ->
  (forall j, i <= j < i + n ->
     dget k (lba + Z.of_nat j) = sub_bytes (j * BLOCK_SIZE) BLOCK_SIZE data) ->
  exists w', disk0_read lba n i buf w = (Ok data, w') /\
    bd_rel (drive w') k /\ same_but_drive w w'.
Proof.
  revert i buf w. induction n as [|n IH]; intros i buf w HR H0 Hn Hd Hb Htk Hk; simpl.
  { exists w. rewrite Nat.add_0_r in *. rewrite !take_ge in Htk by lia. by subst. }
  erewrite bind_ok; [|apply slice_ok; lia].
  set (dst := sub_bytes _ _ _). assert (length dst = BLOCK_SIZE) as Hdst.
  { apply length_sub_bytes. lia. }
  destruct (with_drive_read w k (lba + Z.of_nat i) dst HR) as (w1 & Hw1 & HR1 & Hs1).
  rewrite disk_read_ok in Hw1; [|lia|done|by eapply bd_wf].
  erewrite bind_ok by (by apply mmap_err_ok). rewrite (Hk i) by lia.
  set (blk := sub_bytes _ _ data). assert (length blk = BLOCK_SIZE) as Hblk.
  { apply length_sub_bytes. lia. }
  erewrite bind_ok; [|apply put_ok; lia].
  destruct (IH (S i) (splice (i * BLOCK_SIZE) blk buf) w1 HR1) as (w2 & -> & HR2 & Hs2);
    [done|lia|lia|rewrite length_splice; lia| | |].
  - unfold splice. replace (S i * BLOCK_SIZE) with (i * BLOCK_SIZE + BLOCK_SIZE) by lia.
    rewrite Htk, app_assoc. rewrite take_app_le by (rewrite length_app, length_take; lia).
    rewrite take_ge by (rewrite length_app, length_take; lia).
    unfold blk, sub_bytes. by rewrite take_take_drop.
  - intros j Hj. apply Hk. lia.
  - exists w2. split; [done|]. split; [done|]. by eapply same_but_drive_trans.
Qed.

End disk0.

(** ** Theorems *)

Section dev_theorems.
Context {D C : Type} `{BD : BlockDevice D} `{BS : !BlockDeviceSpec D} `{CO : Console C}.
Implicit Types (w : Devices D C) (k : Disk).

Lemma dev_write_at_disk0 off buf f w :
  dev_write_at (s_ "/disk0") off buf (f, w) = on_devices (node_write Disk0Node off buf) (f, w).
Proof.
  done.
Qed.

Lemma dev_read_at_disk0 off buf f w :
  dev_read_at (s_ "/disk0") off buf (f, w) = on_devices (node_read Disk0Node off buf) (f, w).
Proof.
  done.
Qed.

(** C34: raw disk round trip. On any driver that behaves like a disk, writing a whole number of
    blocks to [/dev/disk0] at a block-aligned in-range offset succeeds, changes exactly those
    blocks, touches no other device, and reading the same range back returns the bytes written. *)
Theorem disk0_write_read f w k lba buf buf' :
  bd_rel (drive w) k -> buf <> [] -> length buf mod BLOCK_SIZE = 0 -> length buf' = length buf ->
  (0 <= lba)%Z -> (lba + Z.of_nat (length buf / BLOCK_SIZE) <= nblocks k)%Z ->
  exists w1 w2,
    dev_write_at (s_ "/disk0") (lba * 512) buf (f, w) = (Ok (length buf), (f, w1)) /\
    dev_read_at (s_ "/disk0") (lba * 512) buf' (f, w1) = (Ok (length buf, buf), (f, w2)) /\
    same_but_drive w w1 /\
    exists k', bd_rel (drive w1) k' /\
      forall l, (l < lba \/ lba + Z.of_nat (length buf / BLOCK_SIZE) <= l)%Z -> dget k' l = dget k l.
Proof.
  intros HR Hne Hmod Hlen Hlba Hn.
  assert (length buf = length buf / BLOCK_SIZE * BLOCK_SIZE) as Hdiv.
  { pose proof (Nat.div_mod_eq (length buf) BLOCK_SIZE). lia. }
  set (n := length buf / BLOCK_SIZE) in *.
  assert (lba * 512 / Z.of_nat BLOCK_SIZE = lba)%Z as Hoff by (by rewrite Z.div_mul).
  assert (forall b, length b = length buf -> block_aligned (lba * 512) b = true) as Hal.
  { intros b Hb. unfold block_aligned. rewrite Hb, Hmod. by rewrite Z.mod_mul. }
  destruct (disk0_write_ok n lba 0 buf w k HR) as (w1 & Hw1 & HR1 & Hs1); [lia..|].
  destruct (disk0_read_ok n lba 0 buf buf' w1 (dput_blocks k lba n 0 buf) HR1)
    as (w2 & Hw2 & HR2 & Hs2);
    [done|by rewrite nblocks_dput_blocks|lia|lia|done| |].
  { intros j Hj. rewrite dget_dput_blocks, decide_True by lia. f_equal. lia. }
  exists w1, w2. split; [|split; [|split; [done|]]].
  - rewrite dev_write_at_disk0. unfold on_devices, node_write.
    rewrite decide_False, Hal by done. cbn [negb]. fold n. by rewrite Hoff, (bind_ok _ _ _ _ _ Hw1).
  - rewrite dev_read_at_disk0. unfold on_devices, node_read.
    rewrite decide_False by (intros ->; by destruct buf). rewrite Hal by done. cbn [negb].
    rewrite Hlen. fold n. by rewrite Hoff, (bind_ok _ _ _ _ _ Hw2).
  - eexists. split; [done|]. intros l Hl. rewrite dget_dput_blocks, decide_False by lia. done.
Qed.

(** Misaligned raw access is refused before the drive is touched. Any non-empty transfer at
    an offset or of a length that is not a multiple of the block size fails with [Io] and leaves
    every device as it was. *)
Theorem disk0_misaligned f w off buf :
  buf <> [] -> block_aligned off buf = false ->
  dev_write_at (s_ "/disk0") off buf (f, w) = (Err Io, (f, w)) /\
  dev_read_at (s_ "/disk0") off buf (f, w) = (Err Io, (f, w)).
Proof.
  intros Hne Hal. rewrite dev_write_at_disk0, dev_read_at_disk0.
  unfold on_devices, node_write, node_read. by rewrite !decide_False, Hal by done.
Qed.

(** The device namespace. A device is reachable exactly under the five listed names (with or
    without the leading slash), everything with an inner slash is [NotFound], and [list_dir] on
    the root lists just those names, each once. *)
Theorem dev_namespace f w rel :
  dev_list_dir (s_ "/") (f, w) = (Ok (map fst NODES), (f, w)) /\
  NoDup (map fst NODES) /\
  (forall name off buf, flat_name rel = Ok name -> (name ∉ map fst NODES) ->
     dev_read_at rel off buf (f, w) = (Err NotFound, (f, w)) /\
     dev_write_at rel off buf (f, w) = (Err NotFound, (f, w))) /\
  (forall name, name ∈ map fst NODES ->
     flat_name name = Ok name /\ flat_name (s_ "/" ++ name) = Ok name /\ is_Some (node name)) /\
  (forall a b, valid_seg a -> flat_name (s_ "/" ++ a ++ s_ "/" ++ b) = Err NotFound).
Proof.
  split; [done|]. split; [by apply (bool_decide_unpack _); vm_compute|].
  split; [|split].
  - intros name off buf Hf Hn.
    assert (node name = None) as Hnone.
    { unfold node. apply fmap_None. destruct (List.find _ NODES) as [[n nd]|] eqn:Hfind; [|done].
      apply List.find_some in Hfind as [Hin Heq]. simpl in Heq. apply bool_decide_eq_true in Heq.
      destruct Hn. apply list_elem_of_fmap. exists (n, nd). split; [done|].
      by apply list_elem_of_In. }
    unfold dev_read_at, dev_write_at, bind, lift. rewrite Hf. simpl. by rewrite Hnone.
  - intros name Hn. repeat (apply elem_of_cons in Hn as [->|Hn]; [by vm_compute; eauto|]).
    by apply not_elem_of_nil in Hn.
  - intros a b [Ha Hs]. unfold flat_name. change (s_ "/" ++ a ++ s_ "/" ++ b) with ("/"%byte :: a ++ "/"%byte :: b).
    simpl. unfold contains. rewrite bool_decide_eq_true_2; [done|]. set_solver.
Qed.

End dev_theorems.

(** ** devfs always answers *)

Section dev_answers.
Context {D C : Type} `{BD : BlockDevice D} `{BS : !BlockDeviceSpec D} `{CO : Console C} `{CS : !ConsoleSpec C}.

Lemma flat_name_good rel : good (fun e => e = NotFound) (flat_name rel).
Proof.
  unfold flat_name. by destruct (contains _ _).
Qed.

Lemma on_devices_answers {A} now (m : M (Devices D C) FsError A) :
  answers (devices_ok now) (fun _ => True) m ->
  answers (fun s : DevFs * Devices D C => True /\ devices_ok now s.2) (fun _ => True) (on_devices m).
Proof.
  intros Hm [f w] [_ Hw]. destruct (Hm w Hw) as (r & w' & He & Hr & Hw'). unfold on_devices. rewrite He.
  by eexists _, _.
Qed.

Lemma write_block_answers now lba (buf : bytes) :
  answers (devices_ok (D:=D) (C:=C) now) (fun _ => True)
    (mmap_err (fun _ => Io) (with_drive (write_block lba buf))).
Proof.
  intros w Hw. destruct (with_drive_answers now (write_block (D:=D) lba buf)) with (s := w) as (r & w' & He & Hr & Hw');
    [|done|].
  { intros d k Hd. destruct (bd_write lba buf d k Hd) as (d' & He & Hd'). eexists _, _, _. split; [done|].
    split; [|done]. unfold disk_write. by repeat case_match. }
  unfold mmap_err. rewrite He. destruct r; try done; by eexists _, _.
Qed.

Lemma disk0_write_answers now lba n i (buf : bytes) :
  ((i + n) * BLOCK_SIZE <= length buf)%nat ->
  answers (devices_ok (D:=D) (C:=C) now) (fun _ => True) (disk0_write lba n i buf).
Proof.
  revert i. induction n as [|n IH]; intros i Hn; simpl; auto with answers.
  apply answers_bind.
  { unfold slice. rewrite decide_True by lia. auto with answers. }
  intros src. apply answers_bind; [apply write_block_answers|]. intros _. apply IH. lia.
Qed.

Lemma node_write_answers now n off (buf : bytes) :
  answers (devices_ok (D:=D) (C:=C) now) (fun _ => True) (node_write n off buf).
Proof.
  destruct n; simpl; auto with answers.
  - apply answers_bind; auto with answers. intros w Hw.
    destruct (print_total (E:=FsError) now (if utf8_decode buf is Some _ then buf else []) w Hw) as (a & w' & He & Hw').
    rewrite He. by eexists _, _.
  - intros w Hw. destruct (serial1 w); by eexists _, _.
  - case_decide; auto with answers. destruct (block_aligned off buf) eqn:Hb; simpl; auto with answers.
    apply answers_bind; auto with answers. apply disk0_write_answers.
    rewrite Nat.add_0_l, Nat.mul_comm. exact (Nat.Div0.mul_div_le (length buf) 512).
Qed.

#[global] Program Instance dev_spec : FileSystemSpec (F:=DevFs) (devices_ok (D:=D) (C:=C)) :=
  { fss_inv _ := True }.
Next Obligation.
  intros now rel. simpl. unfold dev_read_file. apply answers_bind.
  - apply answers_lift. pose proof (flat_name_good rel). by destruct (flat_name rel).
  - intros name. repeat case_decide; auto with answers.
Qed.
Next Obligation.
  intros now rel. simpl. unfold dev_list_dir. apply answers_bind.
  - apply answers_lift. pose proof (flat_name_good rel). destruct (flat_name rel); simpl in *; congruence.
  - intros name. case_decide; [apply answers_ret|by apply answers_throw].
Qed.
Next Obligation.
  intros now rel. apply answers_ret.
Qed.
Next Obligation.
  intros now rel. by apply answers_throw.
Qed.
Next Obligation.
  intros now rel data. simpl. unfold dev_write_file. apply answers_bind.
  2:{ intros n. case_decide; auto with answers. }
  unfold dev_write_at. apply answers_bind.
  { apply answers_lift. pose proof (flat_name_good rel). by destruct (flat_name rel). }
  intros name. apply answers_bind; [apply answers_lift; by destruct (node name)|].
  intros nd. apply on_devices_answers, node_write_answers.
Qed.
Next Obligation.
  intros now rel. by apply answers_throw.
Qed.
Next Obligation.
  intros now rel. by apply answers_throw.
Qed.

End dev_answers.
