(* ===== verification/Fat.v ===== *)
(** * FAT32 (src/kernel/src/fs/fat.rs): data model and operations

    Every method runs on a block device [D] (the global [DRIVE]); [u32] arithmetic panics on
    overflow, slices panic out of range, and chain walks are bounded by [chain_fuel], one step per
    FAT entry, running out of which is [Diverge] (the code would keep walking a cyclic chain). *)

From S2P Require Import Prelude.
From S2P Require Import Vfs.
From S2P Require Import Block.

Open Scope Z_scope.

Definition ATTR_READ_ONLY : Z := 1.
Definition ATTR_HIDDEN : Z := 2.
Definition ATTR_SYSTEM : Z := 4.
Definition ATTR_VOLUME_ID : Z := 8.
Definition ATTR_DIRECTORY : Z := 16.
Definition ATTR_LONG_NAME : Z :=
  Z.lor (Z.lor (Z.lor ATTR_READ_ONLY ATTR_HIDDEN) ATTR_SYSTEM) ATTR_VOLUME_ID.

Definition EOC_THRESHOLD : Z := 0x0FFFFFF8.
Definition CLUSTER_MASK : Z := 0x0FFFFFFF.

Record FatFs : Type := mkFatFs {
  bytes_per_sector : Z;
  sectors_per_cluster : Z;
  reserved_sectors : Z;
  num_fats : Z;
  sectors_per_fat : Z;
  root_cluster : Z;
  fat_start_lba : Z;
  data_start_lba : Z;
}.

Record DirEntry : Type := mkDirEntry {
  de_name : str;
  de_is_dir : bool;
  de_cluster : Z;
  de_size : Z;
}.

(** [impl From<BlockError> for FsError]. *)
Definition fs_error_from (_ : BlockError) : FsError := Io.

(** ** Short names *)

(** [decode_short_name]: bytes up to the first space of each field, re-encoded as characters. *)
Fixpoint until_space (l : bytes) : str :=
  match l with
  | [] => []
  | b :: l' => if decide (b = " "%byte) then [] else latin1 b ++ until_space l'
  end.

Definition decode_short_name (entry : bytes) : str :=
  let name := until_space (sub_bytes 0 8 entry) in
  let ext := until_space (sub_bytes 8 3 entry) in
  let name := if decide (ext = []) then name else name ++ s_ "." ++ ext in
  map to_lower name.

(** [HeaplessUpper::from]: at most 11 upper-cased bytes and their count. *)
Record HeaplessUpper : Type := mkHeaplessUpper { hu_bytes : bytes; hu_len : nat }.

Definition HeaplessUpper_from (s : str) : HeaplessUpper :=
  let b := map to_upper (take 11 s) in
  mkHeaplessUpper (b ++ zeros (11 - length b)) (length b).

(** The first [n] bytes of a field, space-padded. *)
Definition padded (n : nat) (u : HeaplessUpper) : bytes :=
  map (fun i => if (i <? hu_len u)%nat then hu_bytes u !!! i else " "%byte) (seq 0 n).

(** The base name and extension [write_short_entry] splits a name into. *)
Definition split_name (name : str) : str * str :=
  if decide (name = s_ ".") then (s_ ".", [])
  else if decide (name = s_ "..") then (s_ "..", [])
  else match rfind "." name with
       | Some i => (take i name, drop (S i) name)
       | None => (name, [])
       end.

(** [write_short_entry]: the 32 bytes it leaves in the slot. *)
Definition write_short_entry (name : str) (attrs cluster size : Z) : bytes :=
  let slot := zeros 32 in
  let '(basename, ext) := split_name name in
  let slot := splice 0 (padded 8 (HeaplessUpper_from basename)) slot in
  let slot := splice 8 (padded 3 (HeaplessUpper_from ext)) slot in
  let slot :=
    if decide (name = s_ "." \/ name = s_ "..") then
      let slot := splice 0 (replicate 11 " "%byte) slot in
      let slot := splice 0 [ "."%byte ] slot in
      if decide (name = s_ "..") then splice 1 [ "."%byte ] slot else slot
    else slot in
  let slot := splice 11 [of_u8 attrs] slot in
  let cluster_lo := Z.land cluster 0xFFFF in
  let cluster_hi := Z.land (Z.shiftr cluster 16) 0xFFFF in
  let slot := splice 20 (le_bytes 2 cluster_hi) slot in
  let slot := splice 26 (le_bytes 2 cluster_lo) slot in
  splice 28 (le_bytes 4 size) slot.

(** ** Directory parsing (the loop of [read_dir]) *)

Definition chunk_byte (chunk : bytes) (i : nat) : Z := u8 (chunk !!! i).

(** Deleted entries, long-name entries and volume labels are skipped. *)
Definition slot_skipped (chunk : bytes) : bool :=
  (chunk_byte chunk 0 =? 0xE5)
  || (Z.land (chunk_byte chunk 11) ATTR_LONG_NAME =? ATTR_LONG_NAME)
  || negb (Z.land (chunk_byte chunk 11) ATTR_VOLUME_ID =? 0).

Definition decode_entry (chunk : bytes) : DirEntry :=
  mkDirEntry (decode_short_name chunk)
    (negb (Z.land (chunk_byte chunk 11) ATTR_DIRECTORY =? 0))
    (Z.lor (Z.shiftl (le_val (sub_bytes 20 2 chunk)) 16) (le_val (sub_bytes 26 2 chunk)))
    (le_val (sub_bytes 28 4 chunk)).

Fixpoint parse_dir (chunks : list bytes) : list DirEntry :=
  match chunks with
  | [] => []
  | chunk :: rest =>
      if chunk_byte chunk 0 =? 0 then []
      else if slot_skipped chunk then parse_dir rest
      else
        let e := decode_entry chunk in
        if decide (de_name e = s_ "." \/ de_name e = s_ "..") then parse_dir rest
        else e :: parse_dir rest
  end.

(** [entries.into_iter().find(|e| e.name.eq_ignore_ascii_case(name))]. *)
Definition find_entry (name : str) (entries : list DirEntry) : option DirEntry :=
  List.find (fun e => eq_ignore_case (de_name e) name) entries.

(** [split_parent] of fat.rs. *)
Definition fat_split_parent (abs : str) : res FsError (str * str) :=
  let trimmed := trim_end "/" abs in
  if decide (trimmed = []) then Err Io
  else
    let? idx := ok_or Io (rfind "/" trimmed) in
    let parent := if decide (idx = 0%nat) then s_ "/" else take idx trimmed in
    let name := drop (S idx) trimmed in
    if decide (name = []) then Err Io else Ok (parent, name).

(** [as i32], and unary minus on [i32]. *)
Definition as_i32 (z : Z) : Z := (z + 0x80000000) mod 0x100000000 - 0x80000000.

Definition i32_neg {S E} (z : Z) : M S E Z :=
  if decide (z = -0x80000000) then panic else ret (- z).

(** [data.len().div_ceil(n)]. *)
Definition div_ceil (a b : Z) : Z := (a + b - 1) / b.

Section fat.
Context {D : Type} `{BD : BlockDevice D}.
Implicit Types (fs : FatFs).

(** [DRIVE.lock().read_block(lba, &mut buf)?] and [write_block]. *)
Definition read_into (lba : Z) (buf : bytes) : M D FsError bytes :=
  let* (_, buf) := mmap_err fs_error_from (read_block lba buf) in ret buf.

Definition read_sector (lba : Z) : M D FsError bytes := read_into lba (zeros BLOCK_SIZE).

Definition write_sector (lba : Z) (buf : bytes) : M D FsError unit :=
  mmap_err fs_error_from (write_block lba buf) ;;; ret tt.

(** ** Mounting *)

Definition fat_mount : M D FsError FatFs :=
  let* buf := read_sector 0 in
  let* bps := get_le 2 0x0B buf in
  let* spc := get_le 1 0x0D buf in
  let* rsv := get_le 2 0x0E buf in
  let* nf := get_le 1 0x10 buf in
  let* spf := get_le 4 0x24 buf in
  let* rootc := get_le 4 0x2C buf in
  if negb (bps =? Z.of_nat BLOCK_SIZE) || (spc =? 0) || (nf =? 0) then throw Io
  else
    let* fats := u32_mul nf spf in
    let* data := u32_add rsv fats in
    ret (mkFatFs bps spc rsv nf spf rootc rsv data).

(** ** Addressing and the FAT *)

Definition cluster_to_lba (fs : FatFs) (cluster : Z) : M D FsError Z :=
  let* c := u32_sub cluster 2 in
  let* o := u32_mul c (sectors_per_cluster fs) in
  u32_add (data_start_lba fs) o.

Definition next_cluster (fs : FatFs) (cluster : Z) : M D FsError Z :=
  let* fat_offset := u32_mul cluster 4 in
  let* fat_sector := u32_add (fat_start_lba fs) (fat_offset / bytes_per_sector fs) in
  let in_sector := Z.to_nat (fat_offset mod bytes_per_sector fs) in
  let* buf := read_sector fat_sector in
  let* raw := get_le 4 in_sector buf in
  ret (Z.land raw CLUSTER_MASK).

(** [(sectors_per_cluster * bytes_per_sector) as usize]. *)
Definition cluster_bytes (fs : FatFs) : M D FsError nat :=
  let* n := u32_mul (sectors_per_cluster fs) (bytes_per_sector fs) in ret (Z.to_nat n).

(** A cluster number that a chain walk follows. *)
Definition in_chain (cluster : Z) : bool := (2 <=? cluster) && (cluster <? EOC_THRESHOLD).

(** One step per FAT entry and one for the end of the chain. *)
Definition chain_fuel (fs : FatFs) : nat := S (Z.to_nat (sectors_per_fat fs * 128)).

(** The sector loop of [read_chain]. *)
Definition read_cluster (fs : FatFs) (lba : Z) (buf : bytes) : M D FsError bytes :=
  for_acc (range0 (sectors_per_cluster fs)) buf (fun buf sec =>
    let off := (Z.to_nat sec * BLOCK_SIZE)%nat in
    let* dst := slice off BLOCK_SIZE buf in
    let* dst := read_into (lba + sec) dst in
    put off dst buf).

Fixpoint read_chain_go (fuel : nat) (fs : FatFs) (cb : nat) (cluster max_bytes : Z) (out : bytes)
    : M D FsError bytes :=
  if in_chain cluster then
    match fuel with
    | O => diverge
    | S fuel' =>
        let* lba := cluster_to_lba fs cluster in
        let* buf := read_cluster fs lba (zeros cb) in
        let out := out ++ buf in
        if max_bytes <=? Z.of_nat (length out) then ret out
        else
          let* next := next_cluster fs cluster in
          read_chain_go fuel' fs cb next max_bytes out
    end
  else ret out.

Definition read_chain (fs : FatFs) (start max_bytes : Z) : M D FsError bytes :=
  let* cb := cluster_bytes fs in
  read_chain_go (chain_fuel fs) fs cb start max_bytes [].

(** ** Read path *)

Definition read_dir (fs : FatFs) (cluster : Z) : M D FsError (list DirEntry) :=
  let* b := read_chain fs cluster USIZE_MAX in
  ret (parse_dir (chunks_exact 32 b)).

Fixpoint lookup_go (fs : FatFs) (i : nat) (segs : list str) (current_cluster : Z)
    (found : option DirEntry) : M D FsError DirEntry :=
  match segs with
  | [] => lift (ok_or NotFound found)
  | seg :: segs' =>
      let* current_cluster :=
        (if (0 <? i)%nat then
           let* f := lift (ok_or NotFound found) in
           if negb (de_is_dir f) then throw NotADir else ret (de_cluster f)
         else ret current_cluster) in
      let* entries := read_dir fs current_cluster in
      match find_entry seg entries with
      | None => throw NotFound
      | found => lookup_go fs (S i) segs' current_cluster found
      end
  end.

Definition fat_lookup (fs : FatFs) (abs : str) : M D FsError DirEntry :=
  if decide (abs = s_ "/" \/ abs = []) then ret (mkDirEntry (s_ "/") true (root_cluster fs) 0)
  else lookup_go fs 0 (segments abs) (root_cluster fs) None.

Definition fat_read_file (fs : FatFs) (abs : str) : M D FsError bytes :=
  let* entry := fat_lookup fs abs in
  if de_is_dir entry then throw IsADir
  else if (de_size entry =? 0) || (de_cluster entry <? 2) then ret []
  else
    let* out := read_chain fs (de_cluster entry) (de_size entry) in
    ret (take (Z.to_nat (de_size entry)) out).

Definition fat_list_dir (fs : FatFs) (abs : str) : M D FsError (list str) :=
  let* entry := fat_lookup fs abs in
  if negb (de_is_dir entry) then throw NotADir
  else
    let cluster := if decide (abs = s_ "/") then root_cluster fs else de_cluster entry in
    let* entries := read_dir fs cluster in
    ret (map de_name entries).

Definition fat_is_dir (fs : FatFs) (abs : str) : M D FsError bool :=
  mcase (fat_lookup fs abs) (fun e => ret (de_is_dir e)) (fun _ => ret false).

Definition cluster_for (fs : FatFs) (abs : str) : M D FsError Z :=
  if decide (abs = s_ "/") then ret (root_cluster fs)
  else
    let* entry := fat_lookup fs abs in
    if negb (de_is_dir entry) then throw NotADir else ret (de_cluster entry).

Definition find_in_dir (fs : FatFs) (cluster : Z) (name : str) : M D FsError (option DirEntry) :=
  let* entries := read_dir fs cluster in ret (find_entry name entries).

(** ** Write path: the FAT *)

(** The loop of [find_free_cluster], carrying the sector buffer and which sector it holds. *)
Fixpoint find_free_go (fs : FatFs) (cs : list Z) (buf : bytes) (current_sector : Z)
    : M D FsError Z :=
  match cs with
  | [] => throw Io
  | c :: cs' =>
      let* fat_offset := u32_mul c 4 in
      let* fat_sector := u32_add (fat_start_lba fs) (fat_offset / bytes_per_sector fs) in
      let in_sector := Z.to_nat (fat_offset mod bytes_per_sector fs) in
      let* buf := (if negb (fat_sector =? current_sector) then read_into fat_sector buf
                   else ret buf) in
      let* raw := get_le 4 in_sector buf in
      if Z.land raw CLUSTER_MASK =? 0 then ret c else find_free_go fs cs' buf fat_sector
  end.

Definition find_free_cluster (fs : FatFs) : M D FsError Z :=
  let* n := u32_mul (sectors_per_fat fs) (bytes_per_sector fs) in
  let total_clusters := n / 4 in
  find_free_go fs (seqZ 2 (total_clusters - 2)) (zeros BLOCK_SIZE) U32_MAX.

(** One FAT copy of [write_fat_entry]. *)
Definition write_fat_copy (fs : FatFs) (fat_offset value : Z) (i : Z) : M D FsError unit :=
  let in_sector := Z.to_nat (fat_offset mod bytes_per_sector fs) in
  let* io := u32_mul i (sectors_per_fat fs) in
  let* base := u32_add (fat_start_lba fs) io in
  let* fat_sector := u32_add base (fat_offset / bytes_per_sector fs) in
  let* buf := read_sector fat_sector in
  let* old := get_le 4 in_sector buf in
  let masked := Z.lor (Z.land value CLUSTER_MASK) (Z.land old 0xF0000000) in
  let* buf := put in_sector (le_bytes 4 masked) buf in
  write_sector fat_sector buf.

Definition write_fat_entry (fs : FatFs) (cluster value : Z) : M D FsError unit :=
  let* fat_offset := u32_mul cluster 4 in
  for_each (range0 (num_fats fs)) (write_fat_copy fs fat_offset value).

Definition update_fsinfo (fs : FatFs) (delta_free last_alloc : Z) : M D FsError unit :=
  let* buf := read_sector 1 in
  let* lead := get_le 4 0 buf in
  let* strct := get_le 4 484 buf in
  if negb (lead =? 0x41615252) || negb (strct =? 0x61417272) then ret tt
  else
    let* free := get_le 4 0x1E8 buf in
    let* buf :=
      (if negb (free =? 0xFFFFFFFF)
       then put 0x1E8 (le_bytes 4 (as_u32 (Z.max (free + delta_free) 0))) buf
       else ret buf) in
    let* buf :=
      (if negb (last_alloc =? 0) then put 0x1EC (le_bytes 4 last_alloc) buf else ret buf) in
    write_sector 1 buf.

(** The loop of [free_chain]; returns the number of clusters freed. *)
Fixpoint free_chain_go (fuel : nat) (fs : FatFs) (cluster freed : Z) : M D FsError Z :=
  if in_chain cluster then
    match fuel with
    | O => diverge
    | S fuel' =>
        let* next := next_cluster fs cluster in
        write_fat_entry fs cluster 0 ;;;
        free_chain_go fuel' fs next (freed + 1)
    end
  else ret freed.

Definition free_chain (fs : FatFs) (start : Z) : M D FsError unit :=
  let* freed := free_chain_go (chain_fuel fs) fs start 0 in
  if 0 <? freed then ignore (update_fsinfo fs freed 0) else ret tt.

(** ** Write path: data clusters *)

Definition write_cluster (fs : FatFs) (cluster : Z) (data : bytes) : M D FsError unit :=
  let* lba := cluster_to_lba fs cluster in
  for_each (range0 (sectors_per_cluster fs)) (fun sec =>
    let off := (Z.to_nat sec * BLOCK_SIZE)%nat in
    let* src := slice off BLOCK_SIZE data in
    write_sector (lba + sec) src).

Definition zero_cluster (fs : FatFs) (cluster : Z) : M D FsError unit :=
  let* cb := cluster_bytes fs in
  write_cluster fs cluster (zeros cb).

(** One iteration of [allocate_chain] on [(head, prev, last)]. *)
Definition alloc_step (fs : FatFs) (acc : Z * Z * Z) (_ : Z) : M D FsError (Z * Z * Z) :=
  let '(head, prev, last) := acc in
  let* c := find_free_cluster fs in
  write_fat_entry fs c (Z.lor EOC_THRESHOLD 0xF) ;;;
  zero_cluster fs c ;;;
  if prev =? 0 then ret (c, c, c)
  else write_fat_entry fs prev c ;;; ret (head, c, c).

Definition allocate_chain (fs : FatFs) (count : Z) : M D FsError Z :=
  if count =? 0 then ret 0
  else
    let* acc := for_acc (range0 count) (0, 0, 0) (alloc_step fs) in
    let '(head, _, last) := acc in
    let* delta := i32_neg (as_i32 count) in
    ignore (update_fsinfo fs delta last) ;;; ret head.

(** The loop of [write_chain]; each iteration writes at least one byte. *)
Fixpoint write_chain_go (fuel : nat) (fs : FatFs) (cb : nat) (cluster : Z) (offset : nat)
    (data : bytes) : M D FsError unit :=
  if (offset <? length data)%nat && in_chain cluster then
    match fuel with
    | O => diverge
    | S fuel' =>
        let chunk_end := ((offset + cb) `min` length data)%nat in
        let* src := slice offset (chunk_end - offset) data in
        let* buf := put 0 src (zeros cb) in
        write_cluster fs cluster buf ;;;
        if (length data <=? chunk_end)%nat then ret tt
        else
          let* next := next_cluster fs cluster in
          write_chain_go fuel' fs cb next chunk_end data
    end
  else ret tt.

Definition write_chain (fs : FatFs) (head : Z) (data : bytes) : M D FsError unit :=
  let* cb := cluster_bytes fs in
  write_chain_go (length data) fs cb head 0 data.

(** ** Write path: directory entries *)

(** The slot loop of [add_dir_entry] over one sector buffer. *)
Definition add_in_sector (entry : bytes) (lba : Z) : M D FsError (option unit) :=
  let* buf := read_sector lba in
  for_ret (seq 0 (BLOCK_SIZE / 32)) (fun slot =>
    let off := (slot * 32)%nat in
    let* first := get_le 1 off buf in
    if (first =? 0) || (first =? 0xE5) then
      let* buf := put off entry buf in
      write_sector lba buf ;;; ret (Some tt)
    else ret None).

Fixpoint add_dir_entry_go (fuel : nat) (fs : FatFs) (chain_cluster : Z) (entry : bytes)
    : M D FsError unit :=
  match fuel with
  | O => diverge
  | S fuel' =>
      let* lba := cluster_to_lba fs chain_cluster in
      let* done := for_ret (range0 (sectors_per_cluster fs)) (fun sec => add_in_sector entry (lba + sec)) in
      match done with
      | Some _ => ret tt
      | None =>
          let* next := next_cluster fs chain_cluster in
          if (next <? 2) || (EOC_THRESHOLD <=? next) then
            let* new_cluster := find_free_cluster fs in
            write_fat_entry fs new_cluster (Z.lor EOC_THRESHOLD 0xF) ;;;
            zero_cluster fs new_cluster ;;;
            write_fat_entry fs chain_cluster new_cluster ;;;
            ignore (update_fsinfo fs (-1) new_cluster) ;;;
            add_dir_entry_go fuel' fs new_cluster entry
          else add_dir_entry_go fuel' fs next entry
      end
  end.

Definition add_dir_entry (fs : FatFs) (parent_cluster : Z) (name : str) (attrs cluster size : Z)
    : M D FsError unit :=
  let* _ := cluster_bytes fs in
  add_dir_entry_go (S (chain_fuel fs)) fs parent_cluster (write_short_entry name attrs cluster size).

(** The slot loop of [delete_dir_entry] over one sector; [Some tt] is its [return Ok(())]. *)
Definition delete_in_sector (name : str) (lba : Z) : M D FsError (option unit) :=
  let* buf := read_sector lba in
  for_ret (seq 0 (BLOCK_SIZE / 32)) (fun slot =>
    let off := (slot * 32)%nat in
    let* chunk := slice off 32 buf in
    if chunk_byte chunk 0 =? 0 then ret (Some tt)
    else if slot_skipped chunk then ret None
    else if eq_ignore_case (decode_short_name chunk) name then
      let* buf := put off [of_u8 0xE5] buf in
      write_sector lba buf ;;; ret (Some tt)
    else ret None).

Fixpoint delete_dir_entry_go (fuel : nat) (fs : FatFs) (chain_cluster : Z) (name : str)
    : M D FsError unit :=
  match fuel with
  | O => diverge
  | S fuel' =>
      let* lba := cluster_to_lba fs chain_cluster in
      let* done := for_ret (range0 (sectors_per_cluster fs)) (fun sec => delete_in_sector name (lba + sec)) in
      match done with
      | Some _ => ret tt
      | None =>
          let* next := next_cluster fs chain_cluster in
          if (next <? 2) || (EOC_THRESHOLD <=? next) then throw NotFound
          else delete_dir_entry_go fuel' fs next name
      end
  end.

Definition delete_dir_entry (fs : FatFs) (parent_cluster : Z) (name : str) : M D FsError unit :=
  delete_dir_entry_go (chain_fuel fs) fs parent_cluster name.

(** ** Write path: the public operations *)

Definition truncate_file (fs : FatFs) (parent_cluster : Z) (name : str) : M D FsError unit :=
  let* found := find_in_dir fs parent_cluster name in
  let* entry := lift (ok_or NotFound found) in
  if de_is_dir entry then throw IsADir
  else
    (if 2 <=? de_cluster entry then free_chain fs (de_cluster entry) else ret tt) ;;;
    delete_dir_entry fs parent_cluster name ;;;
    add_dir_entry fs parent_cluster name 0x20 0 0.

Definition fat_create_file (fs : FatFs) (abs : str) : M D FsError unit :=
  let* (parent, name) := lift (fat_split_parent abs) in
  let* isd := fat_is_dir fs parent in
  if negb isd then throw NotADir
  else
    let* parent_cluster := cluster_for fs parent in
    let* found := find_in_dir fs parent_cluster name in
    match found with
    | Some _ => truncate_file fs parent_cluster name
    | None => add_dir_entry fs parent_cluster name 0 0 0
    end.

Definition fat_write_file (fs : FatFs) (abs : str) (data : bytes) : M D FsError unit :=
  let* (parent, name) := lift (fat_split_parent abs) in
  let* isd := fat_is_dir fs parent in
  if negb isd then throw NotADir
  else
    let* parent_cluster := cluster_for fs parent in
    let* old := find_in_dir fs parent_cluster name in
    match old with
    | Some old =>
        if de_is_dir old then throw IsADir
        else
          (if 2 <=? de_cluster old then free_chain fs (de_cluster old) else ret tt) ;;;
          delete_dir_entry fs parent_cluster name
    | None => ret tt
    end ;;;
    let* cb := cluster_bytes fs in
    let* first_cluster :=
      (if decide (data = []) then ret 0
       else
         let n_clusters := as_u32 (div_ceil (Z.of_nat (length data)) (Z.of_nat cb)) in
         let* head := allocate_chain fs n_clusters in
         write_chain fs head data ;;; ret head) in
    add_dir_entry fs parent_cluster name 0x20 first_cluster (as_u32 (Z.of_nat (length data))).

Definition fat_append_file (fs : FatFs) (abs : str) (data : bytes) : M D FsError unit :=
  let* existing :=
    mcase (fat_read_file fs abs) (fun b => ret b)
      (fun e => match e with NotFound => ret [] | _ => throw e end) in
  fat_write_file fs abs (existing ++ data).

Definition fat_create_dir (fs : FatFs) (abs : str) : M D FsError unit :=
  let* (parent, name) := lift (fat_split_parent abs) in
  let* isd := fat_is_dir fs parent in
  if negb isd then throw NotADir
  else
    let* parent_cluster := cluster_for fs parent in
    let* found := find_in_dir fs parent_cluster name in
    match found with
    | Some _ => throw Io
    | None =>
        let* cluster := allocate_chain fs 1 in
        let* cb := cluster_bytes fs in
        let* buf := put 0 (write_short_entry (s_ ".") ATTR_DIRECTORY cluster 0) (zeros cb) in
        let parent_for_dotdot := if decide (parent = s_ "/") then 0 else parent_cluster in
        let* buf := put 32 (write_short_entry (s_ "..") ATTR_DIRECTORY parent_for_dotdot 0) buf in
        write_cluster fs cluster buf ;;;
        add_dir_entry fs parent_cluster name ATTR_DIRECTORY cluster 0
    end.

Definition fat_remove (fs : FatFs) (abs : str) : M D FsError unit :=
  let* (parent, name) := lift (fat_split_parent abs) in
  let* parent_cluster := cluster_for fs parent in
  let* found := find_in_dir fs parent_cluster name in
  let* entry := lift (ok_or NotFound found) in
  (if de_is_dir entry then
     let* kids := read_dir fs (de_cluster entry) in
     if decide (kids = []) then ret tt else throw Io
   else ret tt) ;;;
  (if 2 <=? de_cluster entry then free_chain fs (de_cluster entry) else ret tt) ;;;
  delete_dir_entry fs parent_cluster name.

End fat.

(** ** [impl FileSystem for FatFs] *)

Section fat_instance.
Context {D C : Type} `{BD : BlockDevice D}.

Definition on_drive {A} (m : FatFs -> M D FsError A) : M (FatFs * Devices D C) FsError A :=
  fun '(f, w) => let '(r, w') := with_drive (m f) w in (r, (f, w')).

#[global] Instance fat_filesystem : FileSystem (Devices D C) FatFs := {
  fs_read_file rel := on_drive (fun f => fat_read_file f rel);
  fs_list_dir rel := on_drive (fun f => fat_list_dir f rel);
  fs_is_dir rel := on_drive (fun f => fat_is_dir f rel);
  fs_writable _ := true;
  fs_backing _ := s_ "fat32 on /dev/ata1";
  fs_create_file rel := on_drive (fun f => fat_create_file f rel);
  fs_write_file rel data := on_drive (fun f => fat_write_file f rel data);
  fs_append_file rel data := on_drive (fun f => fat_append_file f rel data);
  fs_create_dir rel := on_drive (fun f => fat_create_dir f rel);
  fs_remove rel := on_drive (fun f => fat_remove f rel);
  fs_read_at := default_read_at (fun rel => on_drive (fun f => fat_read_file f rel));
  fs_write_at := default_write_at;
}.

End fat_instance.
