(* ===== verification/FatName.v ===== *)
(** * FAT32 directory entries: the 8.3 codec and directory slots

    Lemmas on [write_short_entry], [decode_short_name] and [parse_dir] (src/kernel/src/fs/fat.rs):
    which names survive the trip to disk and back, and how adding or deleting one slot changes a
    directory's contents. *)

From S2P Require Import Prelude.
From S2P Require Import Vfs.
From S2P Require Import Fat.

Open Scope Z_scope.

(** A printable, non-space ASCII byte: what the shell can put into a path segment. *)
Definition name_char (b : byte) : Prop := 33 <= u8 b <= 126.

(** A name the shell can produce: printable characters, and neither ["."] nor [".."]. *)
Definition plain_name (name : str) : Prop :=
  name <> [] /\ Forall name_char name /\ name <> s_ "." /\ name <> s_ "..".

(** The name fits 8.3: base at most 8 bytes, extension at most 3, and no trailing dot. *)
Definition fits_83 (name : str) : Prop :=
  (length (split_name name).1 <= 8)%nat /\ (length (split_name name).2 <= 3)%nat /\
  last name <> Some "."%byte.

(** The slot-level rendering of a name and attributes as a list of fields. *)
Definition short_fields (base ext : str) (attrs cluster size : Z) : bytes :=
  padded 8 (HeaplessUpper_from base) ++ padded 3 (HeaplessUpper_from ext) ++ [of_u8 attrs] ++
  zeros 8 ++ le_bytes 2 (Z.land (Z.shiftr cluster 16) 0xFFFF) ++ zeros 4 ++
  le_bytes 2 (Z.land cluster 0xFFFF) ++ le_bytes 4 size.

Lemma length_padded n u : length (padded n u) = n.
Proof.
  unfold padded. by rewrite length_map, length_seq.
Qed.

Lemma write_short_entry_fields name attrs cluster size :
  name <> s_ "." -> name <> s_ ".." ->
  write_short_entry name attrs cluster size =
    short_fields (split_name name).1 (split_name name).2 attrs cluster size.
Proof.
  intros H1 H2. unfold write_short_entry, short_fields. destruct (split_name name) as [b e].
  rewrite decide_False by tauto. simpl fst. simpl snd.
  generalize (padded 8 (HeaplessUpper_from b)) (length_padded 8 (HeaplessUpper_from b)).
  generalize (padded 3 (HeaplessUpper_from e)) (length_padded 3 (HeaplessUpper_from e)).
  intros l3 Hl3 l8 Hl8.
  do 8 (destruct l8 as [|? l8]; [discriminate|]). destruct l8; [|discriminate].
  do 3 (destruct l3 as [|? l3]; [discriminate|]). destruct l3; [|discriminate].
  reflexivity.
Qed.

(** ** Letter case *)

Lemma u8_to_upper b : u8 (to_upper b) = if decide (97 <= u8 b <= 122) then u8 b - 32 else u8 b.
Proof.
  unfold to_upper. case_decide; [|done]. rewrite u8_of_u8. apply Z.mod_small. lia.
Qed.

Lemma u8_to_lower b : u8 (to_lower b) = if decide (65 <= u8 b <= 90) then u8 b + 32 else u8 b.
Proof.
  unfold to_lower. case_decide; [|done]. rewrite u8_of_u8. apply Z.mod_small. lia.
Qed.

Lemma to_lower_upper b : to_lower (to_upper b) = to_lower b.
Proof.
  apply u8_inj. rewrite !u8_to_lower, u8_to_upper. repeat case_decide; lia.
Qed.

Lemma to_lower_idem b : to_lower (to_lower b) = to_lower b.
Proof.
  apply u8_inj. rewrite !u8_to_lower. repeat case_decide; lia.
Qed.

Lemma map_to_lower_upper s : map to_lower (map to_upper s) = map to_lower s.
Proof.
  rewrite map_map. apply map_ext, to_lower_upper.
Qed.

Lemma map_to_lower_idem s : map to_lower (map to_lower s) = map to_lower s.
Proof.
  rewrite map_map. apply map_ext, to_lower_idem.
Qed.

Lemma name_char_upper b : name_char b -> name_char (to_upper b).
Proof.
  unfold name_char. rewrite u8_to_upper. case_decide; lia.
Qed.

Lemma latin1_ascii b : u8 b < 128 -> latin1 b = [b].
Proof.
  intros H. unfold latin1, utf8_encode. rewrite (proj2 (Z.ltb_lt _ _) H). by rewrite of_u8_u8.
Qed.

Lemma name_char_not_space b : name_char b -> b <> " "%byte.
Proof.
  intros H ->. unfold name_char in H. change (u8 " ") with 32 in H. lia.
Qed.

(** ** Fields *)

Lemma padded_spec n s :
  (n <= 11)%nat ->
  padded n (HeaplessUpper_from s) = map to_upper (take n s) ++ replicate (n - length s) " "%byte.
Proof.
  intros Hn. apply list_eq_same_length with n;
    [rewrite length_app, length_map, length_take, length_replicate; lia|apply length_padded|].
  intros i x y Hi Hx Hy. unfold padded in Hx.
  rewrite list_lookup_fmap, lookup_seq_lt in Hx by done. simpl in Hx. injection Hx as <-.
  unfold HeaplessUpper_from. simpl. rewrite length_map, length_take.
  destruct (Nat.ltb_spec i (11 `min` length s)).
  - rewrite lookup_app_l in Hy by (rewrite length_map, length_take; lia).
    apply list_lookup_total_correct. rewrite lookup_app_l by (rewrite length_map, length_take; lia).
    rewrite <- Hy, !list_lookup_fmap, !lookup_take_lt by lia. done.
  - rewrite lookup_app_r in Hy by (rewrite length_map, length_take; lia).
    apply lookup_replicate in Hy as [-> _]. done.
Qed.

Lemma until_space_app s l :
  Forall name_char s -> until_space (s ++ " "%byte :: l) = s.
Proof.
  induction 1 as [|b s Hb _ IH]; simpl; [done|].
  rewrite decide_False by (by apply name_char_not_space).
  rewrite IH, latin1_ascii by (unfold name_char in Hb; lia). done.
Qed.

Lemma until_space_all s : Forall name_char s -> until_space s = s.
Proof.
  induction 1 as [|b s Hb _ IH]; simpl; [done|].
  rewrite decide_False by (by apply name_char_not_space).
  rewrite IH, latin1_ascii by (unfold name_char in Hb; lia). done.
Qed.

Lemma until_space_padded n s :
  (n <= 11)%nat -> Forall name_char s ->
  until_space (padded n (HeaplessUpper_from s)) = map to_upper (take n s).
Proof.
  intros Hn Hs. rewrite padded_spec by done.
  assert (Forall name_char (map to_upper (take n s))) as Hu.
  { apply Forall_map. apply Forall_take. eapply Forall_impl; [done|]. apply name_char_upper. }
  destruct (n - length s)%nat; simpl.
  - rewrite app_nil_r. by apply until_space_all.
  - by apply until_space_app.
Qed.

(** ** Splitting a name *)

Lemma split_name_plain name :
  plain_name name ->
  (rfind "." name = None /\ split_name name = (name, [])) \/
  exists a b, name = a ++ "."%byte :: b /\ ("."%byte ∉ b) /\ split_name name = (a, b).
Proof.
  intros (_ & _ & H1 & H2). unfold split_name. rewrite !decide_False by done.
  destruct (rfind "." name) as [i|] eqn:Hr; [right|by left].
  apply rfind_Some in Hr as (a & b & -> & <- & Hb). exists a, b. split; [done|]. split; [done|].
  rewrite take_app_length. f_equal.
  rewrite drop_app_ge by lia. by replace (S (length a) - length a)%nat with 1%nat by lia.
Qed.

(** The name read back from the entry written for [name]. *)
Lemma decode_short_fields base ext attrs cluster size :
  Forall name_char base -> Forall name_char ext ->
  decode_short_name (short_fields base ext attrs cluster size) =
    map to_lower (take 8 base ++ (if decide (ext = []) then [] else s_ "." ++ take 3 ext)).
Proof.
  intros Hb He. unfold decode_short_name, short_fields, sub_bytes.
  rewrite drop_0, take_app_length' by (by rewrite length_padded).
  rewrite drop_app_length' by (by rewrite length_padded).
  rewrite take_app_length' by (by rewrite length_padded).
  rewrite !until_space_padded by (done || lia).
  destruct ext as [|x ext].
  - rewrite !decide_True by done. by rewrite app_nil_r, map_to_lower_upper.
  - rewrite !decide_False by done. rewrite !map_app, !map_to_lower_upper. done.
Qed.

Lemma plain_split_chars name :
  plain_name name -> Forall name_char (split_name name).1 /\ Forall name_char (split_name name).2.
Proof.
  intros H. pose proof H as (_ & Hc & _ & _).
  destruct (split_name_plain name H) as [[_ ->]|(a & b & -> & _ & ->)]; simpl; [by split|].
  apply Forall_app in Hc as [? Hc]. by inversion_clear Hc.
Qed.

Lemma decode_write_short name attrs cluster size :
  plain_name name ->
  decode_short_name (write_short_entry name attrs cluster size) =
    map to_lower (take 8 (split_name name).1 ++
      (if decide ((split_name name).2 = []) then [] else s_ "." ++ take 3 (split_name name).2)).
Proof.
  intros H. pose proof H as (_ & _ & H1 & H2). rewrite write_short_entry_fields by done.
  destruct (plain_split_chars name H). by apply decode_short_fields.
Qed.

Lemma short_name_fits name attrs cluster size :
  plain_name name -> fits_83 name ->
  decode_short_name (write_short_entry name attrs cluster size) = map to_lower name.
Proof.
  intros Hp (Hb & He & Hl). rewrite decode_write_short by done.
  destruct (split_name_plain name Hp) as [[_ Hs]|(a & b & Hn & _ & Hs)]; rewrite Hs in *; simpl in *.
  - rewrite take_ge by lia. by rewrite app_nil_r.
  - rewrite !take_ge by lia. case_decide as Hb0; [|by rewrite Hn].
    exfalso. apply Hl. rewrite Hn, Hb0. apply last_snoc.
Qed.

Lemma short_name_too_long name attrs cluster size :
  plain_name name -> ~ fits_83 name ->
  length (decode_short_name (write_short_entry name attrs cluster size)) <> length name.
Proof.
  intros Hp Hn. rewrite decode_write_short by done. rewrite length_map.
  unfold fits_83 in Hn.
  destruct (split_name_plain name Hp) as [[Hr Hs]|(a & b & -> & Hnb & Hs)]; rewrite Hs in *; cbn [fst snd] in *.
  - rewrite decide_True, app_nil_r, length_take by done. intros Heq. apply Hn. split; [lia|]. split; [simpl; lia|].
    apply rfind_None in Hr. intros Hl. apply Hr. apply last_Some in Hl as [l ->]. set_solver.
  - rewrite !length_app, length_take. cbn [length]. case_decide as Hb; subst; cbn [length]; [lia|].
    rewrite length_app, length_take. change (length (s_ ".")) with 1%nat. intros Heq. apply Hn. split; [lia|]. split; [lia|].
    rewrite last_app, last_cons. destruct (last b) as [y|] eqn:Hl.
    + intros [= ->]. apply Hnb. apply last_Some in Hl as [l ->]. set_solver.
    + by apply last_None in Hl.
Qed.

(** ** Numeric fields *)

Lemma sub_app_r a l off n : length a = off -> sub_bytes off n (a ++ l) = take n l.
Proof.
  intros <-. unfold sub_bytes. by rewrite drop_app_length.
Qed.

Lemma cluster_fields c :
  0 <= c < 2 ^ 32 ->
  Z.lor (Z.shiftl (Z.land (Z.shiftr c 16) 0xFFFF mod 256 ^ Z.of_nat 2) 16)
        (Z.land c 0xFFFF mod 256 ^ Z.of_nat 2) = c.
Proof.
  intros Hc. change (256 ^ Z.of_nat 2) with (2 ^ 16). change 0xFFFF with (Z.ones 16).
  rewrite !Z.land_ones, !Z.mod_mod by lia. rewrite <- !Z.land_ones by lia.
  apply Z.bits_inj'. intros n Hn. rewrite Z.lor_spec, Z.shiftl_spec, !Z.land_spec by done.
  rewrite !Z.testbit_ones by lia.
  destruct (Z.leb_spec 0 (n - 16)), (Z.ltb_spec (n - 16) 16), (Z.leb_spec 0 n), (Z.ltb_spec n 16);
    try lia; simpl; rewrite ?andb_false_r, ?andb_true_r, ?orb_false_r; simpl; try done.
  - rewrite Z.shiftr_spec by lia. f_equal. lia.
  - symmetry. apply Z.bits_above_log2; [lia|].
    destruct (decide (c = 0)) as [->|]; [simpl; lia|].
    assert (Z.log2 c < 32) by (apply Z.log2_lt_pow2; lia). lia.
Qed.

Lemma length_short_fields base ext attrs cluster size :
  length (short_fields base ext attrs cluster size) = 32%nat.
Proof.
  unfold short_fields. by rewrite !length_app, !length_padded, !length_le_bytes.
Qed.

(** The fixed fields of a freshly written slot. *)
Lemma short_fields_values base ext attrs cluster size :
  0 <= attrs < 256 -> 0 <= cluster < 2 ^ 32 -> 0 <= size < 2 ^ 32 ->
  let e := short_fields base ext attrs cluster size in
  chunk_byte e 11 = attrs /\
  Z.lor (Z.shiftl (le_val (sub_bytes 20 2 e)) 16) (le_val (sub_bytes 26 2 e)) = cluster /\
  le_val (sub_bytes 28 4 e) = size.
Proof.
  intros Ha Hc Hs e. unfold e, short_fields.
  generalize (padded 8 (HeaplessUpper_from base)) (length_padded 8 (HeaplessUpper_from base)).
  generalize (padded 3 (HeaplessUpper_from ext)) (length_padded 3 (HeaplessUpper_from ext)).
  intros l3 Hl3 l8 Hl8.
  do 8 (destruct l8 as [|? l8]; [discriminate|]). destruct l8; [|discriminate].
  do 3 (destruct l3 as [|? l3]; [discriminate|]). destruct l3; [|discriminate].
  split; [|split].
  - change (u8 (of_u8 attrs) = attrs). rewrite u8_of_u8. by apply Z.mod_small.
  - etransitivity; [|apply (cluster_fields cluster Hc)].
    rewrite <- !le_val_le_bytes. reflexivity.
  - etransitivity; [|apply (Z.mod_small size (256 ^ Z.of_nat 4)); done].
    rewrite <- le_val_le_bytes. reflexivity.
Qed.

(** First byte of a plain name's slot: a printable character or a space. *)
Lemma short_fields_first base ext attrs cluster size :
  Forall name_char base -> 32 <= chunk_byte (short_fields base ext attrs cluster size) 0 <= 126.
Proof.
  intros Hb. unfold chunk_byte, short_fields. rewrite padded_spec by lia.
  destruct base as [|x base]; [by vm_compute|]. inversion_clear Hb as [|?? Hx _].
  change (32 <= u8 (to_upper x) <= 126). apply name_char_upper in Hx. unfold name_char in Hx. lia.
Qed.

(** Attributes of an ordinary file or directory. *)
Definition plain_attrs (attrs : Z) : Prop := attrs = 0 \/ attrs = ATTR_DIRECTORY \/ attrs = 0x20.

Section written_entry.
Context (name : str) (attrs cluster size : Z).
Hypothesis (Hname : plain_name name) (Hattrs : plain_attrs attrs).
Hypothesis (Hcluster : 0 <= cluster < 2 ^ 32) (Hsize : 0 <= size < 2 ^ 32).

Lemma written_length : length (write_short_entry name attrs cluster size) = 32%nat.
Proof using Hname.
  destruct Hname as (_ & _ & H1 & H2). rewrite write_short_entry_fields by done.
  apply length_short_fields.
Qed.

Lemma written_first :
  chunk_byte (write_short_entry name attrs cluster size) 0 <> 0 /\
  chunk_byte (write_short_entry name attrs cluster size) 0 <> 0xE5.
Proof using Hname.
  destruct (plain_split_chars name Hname) as [Hb _]. destruct Hname as (_ & _ & H1 & H2).
  rewrite write_short_entry_fields by done.
  pose proof (short_fields_first (split_name name).1 (split_name name).2 attrs cluster size Hb). lia.
Qed.

Lemma written_not_skipped : slot_skipped (write_short_entry name attrs cluster size) = false.
Proof using Hname Hattrs Hcluster Hsize.
  pose proof written_first as [_ Hf]. destruct Hname as (_ & _ & H1 & H2).
  unfold slot_skipped. apply Z.eqb_neq in Hf. rewrite Hf.
  rewrite write_short_entry_fields by done.
  assert (0 <= attrs < 256) by (unfold plain_attrs, ATTR_DIRECTORY in Hattrs; lia).
  destruct (short_fields_values (split_name name).1 (split_name name).2 attrs cluster size)
    as [-> _]; [done..|].
  by destruct Hattrs as [->|[->| ->]].
Qed.

Lemma written_entry :
  fits_83 name ->
  decode_entry (write_short_entry name attrs cluster size) =
    mkDirEntry (map to_lower name) (bool_decide (attrs = ATTR_DIRECTORY)) cluster size.
Proof using Hname Hattrs Hcluster Hsize.
  intros Hfit. unfold decode_entry. rewrite short_name_fits by done.
  destruct Hname as (_ & _ & H1 & H2). rewrite write_short_entry_fields by done.
  assert (0 <= attrs < 256) by (unfold plain_attrs, ATTR_DIRECTORY in Hattrs; lia).
  destruct (short_fields_values (split_name name).1 (split_name name).2 attrs cluster size)
    as (-> & -> & ->); [done..|].
  f_equal. by destruct Hattrs as [->|[->| ->]].
Qed.

End written_entry.

Lemma plain_name_lower name : plain_name name -> map to_lower name <> s_ "." /\ map to_lower name <> s_ "..".
Proof.
  intros (_ & _ & H1 & H2).
  assert (forall b, to_lower b = "."%byte -> b = "."%byte) as Hdot.
  { intros b Hb. apply (f_equal u8) in Hb. rewrite u8_to_lower in Hb.
    change (u8 "."%byte) with 46 in Hb. apply u8_inj. change (u8 "."%byte) with 46.
    case_decide; lia. }
  split; intros H; destruct name as [|x [|y [|z l]]]; try discriminate H.
  - injection H as Hx%Hdot. by subst.
  - injection H as Hx%Hdot Hy%Hdot. by subst.
Qed.

(** ** Directory slots *)

(** What [read_dir] makes of one slot that is not the end marker. *)
Definition slot_entry (c : bytes) : option DirEntry :=
  if slot_skipped c then None
  else
    let e := decode_entry c in
    if decide (de_name e = s_ "." \/ de_name e = s_ "..") then None else Some e.

(** Slots in use (or deleted), then only unused ones: how the code leaves every directory. *)
Fixpoint slots_wf (slots : list bytes) : Prop :=
  match slots with
  | [] => True
  | c :: l => if chunk_byte c 0 =? 0 then Forall (fun c => chunk_byte c 0 = 0) l else slots_wf l
  end.

Abbreviation nonzero := (fun c : bytes => chunk_byte c 0 <> 0).
Abbreviation zeroed := (fun c : bytes => chunk_byte c 0 = 0).

Lemma slots_wf_app a l : Forall nonzero a -> slots_wf (a ++ l) <-> slots_wf l.
Proof.
  induction 1 as [|c a Hc _ IH]; simpl; [done|]. apply Z.eqb_neq in Hc. by rewrite Hc.
Qed.

Lemma slots_wf_zeroed l : Forall zeroed l -> slots_wf l.
Proof.
  destruct 1 as [|c l Hc Hl]; simpl; [done|]. by rewrite Hc.
Qed.

Lemma slots_wf_cons c l : chunk_byte c 0 <> 0 -> slots_wf (c :: l) <-> slots_wf l.
Proof.
  intros H. apply (slots_wf_app [c]). by repeat constructor.
Qed.

Lemma parse_dir_app a z : Forall nonzero a -> parse_dir (a ++ z) = omap slot_entry a ++ parse_dir z.
Proof.
  induction 1 as [|c a Hc _ IH]; simpl; [done|]. unfold slot_entry at 1. simpl.
  apply Z.eqb_neq in Hc. rewrite Hc. destruct (slot_skipped c); [by rewrite IH|].
  case_decide; simpl; by rewrite IH.
Qed.

Lemma parse_dir_cons c z :
  chunk_byte c 0 <> 0 -> parse_dir (c :: z) = option_list (slot_entry c) ++ parse_dir z.
Proof.
  intros H. etransitivity; [apply (parse_dir_app [c] z); by repeat constructor|]. simpl.
  by destruct (slot_entry c).
Qed.

Lemma parse_dir_zero z : Forall zeroed z -> parse_dir z = [].
Proof.
  destruct 1 as [|c z Hc _]; simpl; [done|]. by rewrite Hc.
Qed.

Definition slot_free (c : bytes) : bool := (chunk_byte c 0 =? 0) || (chunk_byte c 0 =? 0xE5).

Lemma slot_free_skipped c : slot_free c = true -> chunk_byte c 0 <> 0 -> slot_entry c = None.
Proof.
  unfold slot_free, slot_entry, slot_skipped. rewrite orb_true_iff, !Z.eqb_eq.
  intros [?|H] Hn; [done|]. by rewrite H.
Qed.

Lemma not_free_nonzero l : Forall (fun c => slot_free c = false) l -> Forall nonzero l.
Proof.
  intros H. eapply Forall_impl; [exact H|]. unfold slot_free. intros c.
  rewrite orb_false_iff, Z.eqb_neq. by intros [? _].
Qed.

(** Directory contents after the slot [e] replaced the first free slot. *)
Lemma parse_dir_add l1 c l2 e :
  slots_wf (l1 ++ c :: l2) -> Forall (fun c => slot_free c = false) l1 -> slot_free c = true ->
  chunk_byte e 0 <> 0 ->
  slots_wf (l1 ++ e :: l2) /\
  exists x y, parse_dir (l1 ++ c :: l2) = x ++ y /\
    parse_dir (l1 ++ e :: l2) = x ++ option_list (slot_entry e) ++ y.
Proof.
  intros Hwf Hl1%not_free_nonzero Hc He. rewrite slots_wf_app in Hwf |- * by done.
  rewrite !parse_dir_app, slots_wf_cons, (parse_dir_cons e) by done.
  destruct (decide (chunk_byte c 0 = 0)) as [H0|H0].
  - simpl in Hwf. rewrite H0 in Hwf. simpl in Hwf. split; [by apply slots_wf_zeroed|].
    exists (omap slot_entry l1), []. simpl. rewrite H0. simpl.
    rewrite parse_dir_zero by done. done.
  - rewrite slots_wf_cons in Hwf by done. split; [done|].
    exists (omap slot_entry l1), (parse_dir l2). rewrite parse_dir_cons by done.
    by rewrite (slot_free_skipped c).
Qed.

(** Directory contents after the slot [c] was marked deleted. *)
Lemma parse_dir_delete l1 c l2 c' :
  slots_wf (l1 ++ c :: l2) -> Forall nonzero l1 -> chunk_byte c 0 <> 0 -> chunk_byte c' 0 = 0xE5 ->
  slots_wf (l1 ++ c' :: l2) /\
  exists x y, parse_dir (l1 ++ c :: l2) = x ++ option_list (slot_entry c) ++ y /\
    parse_dir (l1 ++ c' :: l2) = x ++ y /\ x = omap slot_entry l1.
Proof.
  intros Hwf Hl1 Hc Hc'. assert (chunk_byte c' 0 <> 0) as Hn by lia.
  rewrite slots_wf_app, slots_wf_cons in Hwf |- * by done. split; [done|].
  exists (omap slot_entry l1), (parse_dir l2). rewrite !parse_dir_app, !parse_dir_cons by done.
  rewrite (slot_free_skipped c'); [done| |done].
  unfold slot_free. by rewrite Hc'.
Qed.

(** ** Looking a name up *)

Lemma eq_ignore_case_spec a b : eq_ignore_case a b = true <-> map to_lower a = map to_lower b.
Proof.
  unfold eq_ignore_case. apply bool_decide_eq_true.
Qed.

Lemma find_entry_app name x y :
  find_entry name (x ++ y) = match find_entry name x with Some e => Some e | None => find_entry name y end.
Proof.
  unfold find_entry. induction x as [|e x IH]; simpl; [done|]. by destruct (eq_ignore_case _ _).
Qed.

Lemma find_entry_None name l :
  find_entry name l = None <-> Forall (fun e => map to_lower (de_name e) <> map to_lower name) l.
Proof.
  unfold find_entry. induction l as [|e l IH]; simpl; [by split|].
  rewrite Forall_cons. destruct (eq_ignore_case (de_name e) name) eqn:He.
  - apply eq_ignore_case_spec in He. naive_solver.
  - rewrite <- not_true_iff_false, eq_ignore_case_spec in He. naive_solver.
Qed.

Lemma find_entry_single name e :
  find_entry name [e] = if eq_ignore_case (de_name e) name then Some e else None.
Proof.
  done.
Qed.

(** ** Theorems *)

(** C14: directory entries round-trip. For a name the shell can type that fits 8.3, the slot
    [write_short_entry] builds is read back by [read_dir]'s decoder as exactly the lower-cased
    name, the directory flag, the first cluster and the size, and it is neither an end marker nor
    skipped. *)
Theorem short_entry_roundtrip name attrs cluster size :
  plain_name name -> fits_83 name -> plain_attrs attrs ->
  0 <= cluster < 2 ^ 32 -> 0 <= size < 2 ^ 32 ->
  parse_dir [write_short_entry name attrs cluster size] =
    [mkDirEntry (map to_lower name) (bool_decide (attrs = ATTR_DIRECTORY)) cluster size].
Proof.
  intros Hn Hf Ha Hc Hs.
  rewrite parse_dir_cons by (by apply written_first). unfold slot_entry.
  rewrite written_not_skipped, written_entry by done. simpl.
  rewrite decide_False; [done|]. by pose proof (plain_name_lower name Hn) as [? ?]; intros [?|?].
Qed.

Lemma short_entry_roundtrip_witness :
  parse_dir [write_short_entry (s_ "Notes.txt") 0x20 70000 2500] =
    [mkDirEntry (s_ "notes.txt") false 70000 2500].
Proof.
  apply (short_entry_roundtrip (s_ "Notes.txt") 0x20 70000 2500).
  - repeat split; try discriminate. repeat constructor; vm_compute; discriminate.
  - repeat split; vm_compute; [lia|lia|discriminate].
  - by right; right.
  - lia.
  - lia.
Defined.

(** C36: which names survive. A name the shell can type is found again under that name after it
    was written to a directory slot if and only if it fits 8.3; longer bases, longer extensions
    and trailing dots are silently truncated, so the file cannot be found under the name it was
    created with. *)
Theorem short_name_found_iff_fits name attrs cluster size :
  plain_name name ->
  eq_ignore_case (decode_short_name (write_short_entry name attrs cluster size)) name = true
  <-> fits_83 name.
Proof.
  intros Hp. rewrite eq_ignore_case_spec. split.
  - intros Heq. destruct (decide (length (split_name name).1 <= 8)%nat) as [H1|H1];
      [destruct (decide (length (split_name name).2 <= 3)%nat) as [H2|H2];
        [destruct (decide (last name = Some "."%byte)) as [H3|H3]|]|]; [| by repeat split | |].
    all: exfalso; apply (short_name_too_long name attrs cluster size Hp);
      [intros (? & ? & ?); tauto|].
    all: apply (f_equal length) in Heq; by rewrite !length_map in Heq.
  - intros Hf. rewrite short_name_fits by done. apply map_to_lower_idem.
Qed.

Lemma short_name_found_iff_fits_witness :
  eq_ignore_case (decode_short_name (write_short_entry (s_ "longfilename.txt") 0x20 3 5))
    (s_ "longfilename.txt") = true <-> fits_83 (s_ "longfilename.txt").
Proof.
  apply short_name_found_iff_fits.
  repeat split; try discriminate. repeat constructor; vm_compute; discriminate.
Defined.
