(* ===== verification/FatTable.v ===== *)
(** * FAT32 on an abstract disk: geometry, FAT entries, clusters

    What the low-level methods of src/kernel/src/fs/fat.rs do to a disk: addressing stays in
    range, a FAT entry is written to every copy and nowhere else, a cluster write changes exactly
    that cluster. [upd] is the frame relation the higher layers compose. *)

From S2P Require Import Prelude.
From S2P Require Import Vfs.
From S2P Require Import Block.
From S2P Require Import Fat.

Open Scope Z_scope.

(** Number of FAT entries, and of clusters (plus 2) whose data lies wholly on the disk. *)
Definition nfat (fs : FatFs) : Z := sectors_per_fat fs * 128.
Definition nclusters (fs : FatFs) (nb : Z) : Z :=
  Z.min (nfat fs) (2 + (nb - data_start_lba fs) / sectors_per_cluster fs).

(** A volume geometry the driver handles: FAT32 with 512-byte sectors on a 28-bit-LBA disk, FsInfo
    outside the FATs, and the data area on the disk. *)
Record geom (fs : FatFs) (nb : Z) : Prop := {
  g_bps : bytes_per_sector fs = 512;
  g_spc : 1 <= sectors_per_cluster fs <= 255;
  g_nf : 1 <= num_fats fs <= 255;
  g_spf : 1 <= sectors_per_fat fs < 0x200000;
  g_rsv : 2 <= reserved_sectors fs;
  g_fat : fat_start_lba fs = reserved_sectors fs;
  g_data : data_start_lba fs = reserved_sectors fs + num_fats fs * sectors_per_fat fs;
  g_fit : data_start_lba fs <= nb;
  g_lba28 : nb <= 0x10000000;
}.

(** First sector of a cluster; sector and byte offset of FAT entry [c] in copy [i]. *)
Definition clba (fs : FatFs) (c : Z) : Z := data_start_lba fs + (c - 2) * sectors_per_cluster fs.
Definition fat_lba (fs : FatFs) (i c : Z) : Z := fat_start_lba fs + i * sectors_per_fat fs + c / 128.
Definition fat_off (c : Z) : nat := Z.to_nat (c mod 128 * 4).

(** FAT entry [c] of copy [i], and of the copy the code reads. *)
Definition fat_i (fs : FatFs) (k : Disk) (i c : Z) : Z :=
  Z.land (le_val (sub_bytes (fat_off c) 4 (dget k (fat_lba fs i c)))) CLUSTER_MASK.
Definition fat_val (fs : FatFs) (k : Disk) (c : Z) : Z := fat_i fs k 0 c.

(** Contents of a cluster. *)
Definition cdata (fs : FatFs) (k : Disk) (c : Z) : bytes :=
  concat (map (fun s => dget k (clba fs c + s)) (seqZ 0 (sectors_per_cluster fs))).

(** All FAT copies agree. *)
Definition mirrored (fs : FatFs) (k : Disk) : Prop :=
  forall i c, 0 <= i < num_fats fs -> 0 <= c < nfat fs -> fat_i fs k i c = fat_val fs k c.

(** The disk changed only at FAT entries in [F], cluster contents in [C], and FsInfo, and FAT
    copies that agreed still do. *)
Record upd (fs : FatFs) (k k' : Disk) (F C : list Z) : Prop := {
  u_nb : nblocks k' = nblocks k;
  u_wf : disk_wf k';
  u_fat : forall i c, 0 <= i < num_fats fs -> 0 <= c < nfat fs -> (c ∉ F) ->
    fat_i fs k' i c = fat_i fs k i c;
  u_data : forall c, 2 <= c < nclusters fs (nblocks k) -> (c ∉ C) -> cdata fs k' c = cdata fs k c;
  u_boot : dget k' 0 = dget k 0;
  u_mir : mirrored fs k -> mirrored fs k';
}.

Lemma upd_refl fs k : disk_wf k -> upd fs k k [] [].
Proof.
  by split.
Qed.

Lemma upd_trans fs k1 k2 k3 F1 C1 F2 C2 :
  upd fs k1 k2 F1 C1 -> upd fs k2 k3 F2 C2 -> upd fs k1 k3 (F1 ++ F2) (C1 ++ C2).
Proof.
  intros H1 H2. split.
  - by rewrite (u_nb _ _ _ _ _ H2), (u_nb _ _ _ _ _ H1).
  - apply H2.
  - intros i c Hi Hc Hn. rewrite (u_fat _ _ _ _ _ H2) by set_solver.
    apply (u_fat _ _ _ _ _ H1); set_solver.
  - intros c Hc Hn. rewrite (u_data _ _ _ _ _ H2).
    + apply (u_data _ _ _ _ _ H1); set_solver.
    + by rewrite (u_nb _ _ _ _ _ H1).
    + set_solver.
  - by rewrite (u_boot _ _ _ _ _ H2), (u_boot _ _ _ _ _ H1).
  - intros Hm. by apply (u_mir _ _ _ _ _ H2), (u_mir _ _ _ _ _ H1).
Qed.

(** A change that leaves every FAT entry alone keeps the copies in agreement. *)
Lemma mirrored_same fs k k' :
  1 <= num_fats fs ->
  (forall i c, 0 <= i < num_fats fs -> 0 <= c < nfat fs -> fat_i fs k' i c = fat_i fs k i c) ->
  mirrored fs k -> mirrored fs k'.
Proof.
  intros Hn H Hm i c Hi Hc. unfold fat_val. rewrite !H by lia. by apply Hm.
Qed.

Lemma upd_weaken fs k k' F C F' C' :
  upd fs k k' F C -> F ⊆ F' -> C ⊆ C' -> upd fs k k' F' C'.
Proof.
  intros [Hnb Hwf Hf Hd Hb Hm] HF HC. split; [done|done| | |done|done].
  - intros i c Hi Hc Hn. apply Hf; set_solver.
  - intros c Hc Hn. apply Hd; set_solver.
Qed.

(** ** Sector access *)

Lemma zeros_length n : length (zeros n) = n.
Proof.
  apply length_replicate.
Qed.

Lemma read_into_ok k lba buf :
  disk_wf k -> 0 <= lba < nblocks k -> length buf = BLOCK_SIZE ->
  read_into lba buf k = (Ok (dget k lba), k).
Proof.
  intros Hk Hl Hb. unfold read_into.
  by erewrite bind_ok by (apply mmap_err_ok, disk_read_ok; done).
Qed.

Lemma read_sector_ok k lba :
  disk_wf k -> 0 <= lba < nblocks k -> read_sector lba k = (Ok (dget k lba), k).
Proof.
  intros Hk Hl. by apply read_into_ok.
Qed.

Lemma write_sector_ok k lba b :
  0 <= lba < nblocks k -> length b = BLOCK_SIZE -> write_sector lba b k = (Ok tt, dput k lba b).
Proof.
  intros Hl Hb. unfold write_sector.
  by erewrite bind_ok by (apply mmap_err_ok, disk_write_ok; done).
Qed.

(** ** Addressing *)

Section geometry.
Context (fs : FatFs) (nb : Z) (G : geom fs nb).

Lemma nfat_bound : 128 <= nfat fs < EOC_THRESHOLD.
Proof using G.
  unfold nfat, EOC_THRESHOLD. pose proof (g_spf _ _ G). lia.
Qed.

Lemma clba_bound c :
  2 <= c < nclusters fs nb ->
  data_start_lba fs <= clba fs c /\ clba fs c + sectors_per_cluster fs <= nb.
Proof using G.
  unfold nclusters, clba. intros Hc. pose proof (g_spc _ _ G) as Hs.
  assert (c - 2 < (nb - data_start_lba fs) / sectors_per_cluster fs) as H by lia.
  split; [nia|].
  pose proof (Z.mul_div_le (nb - data_start_lba fs) (sectors_per_cluster fs) ltac:(lia)).
  nia.
Qed.

Lemma fat_lba_bound i c :
  0 <= i < num_fats fs -> 0 <= c < nfat fs ->
  2 <= fat_lba fs i c < data_start_lba fs.
Proof using G.
  unfold fat_lba, nfat. intros Hi Hc. rewrite (g_data _ _ G), (g_fat _ _ G).
  pose proof (g_rsv _ _ G). pose proof (g_spf _ _ G).
  assert (0 <= c / 128 < sectors_per_fat fs) by (Z.to_euclidean_division_equations; lia).
  nia.
Qed.

Lemma fat_lba_inj i c i' c' :
  0 <= i < num_fats fs -> 0 <= c < nfat fs -> 0 <= i' < num_fats fs -> 0 <= c' < nfat fs ->
  fat_lba fs i c = fat_lba fs i' c' -> i = i' /\ c / 128 = c' / 128.
Proof using G.
  unfold fat_lba, nfat. intros Hi Hc Hi' Hc' H. pose proof (g_spf _ _ G).
  assert (0 <= c / 128 < sectors_per_fat fs) by (Z.to_euclidean_division_equations; lia).
  assert (0 <= c' / 128 < sectors_per_fat fs) by (Z.to_euclidean_division_equations; lia).
  assert (i = i') by nia. subst. lia.
Qed.

Lemma fat_off_bound c : (fat_off c + 4 <= BLOCK_SIZE)%nat.
Proof using.
  unfold fat_off, BLOCK_SIZE. pose proof (Z.mod_pos_bound c 128 ltac:(lia)). lia.
Qed.

(** The code's byte-offset arithmetic in terms of entry numbers. *)
Lemma fat_offset_div c : c * 4 / bytes_per_sector fs = c / 128.
Proof using G.
  rewrite (g_bps _ _ G). Z.to_euclidean_division_equations; lia.
Qed.

Lemma fat_offset_mod c : Z.to_nat (c * 4 mod bytes_per_sector fs) = fat_off c.
Proof using G.
  rewrite (g_bps _ _ G). unfold fat_off. f_equal. Z.to_euclidean_division_equations; lia.
Qed.

End geometry.

(** Bytes per cluster. *)
Definition cb (fs : FatFs) : nat := (Z.to_nat (sectors_per_cluster fs) * BLOCK_SIZE)%nat.

Lemma checked_step {S E B} z (f : Z -> M S E B) s :
  0 <= z <= U32_MAX -> bind (checked z) f s = f z s.
Proof.
  intros. by erewrite bind_ok by (by apply checked_ok).
Qed.

Section ops.
Context (fs : FatFs) (k : Disk) (G : geom fs (nblocks k)) (Hwf : disk_wf k).

Lemma cluster_to_lba_ok c :
  2 <= c < nclusters fs (nblocks k) -> cluster_to_lba fs c k = (Ok (clba fs c), k).
Proof using G.
  intros Hc. pose proof (clba_bound fs (nblocks k) G c Hc) as [H1 H2].
  pose proof (g_lba28 _ _ G). pose proof (g_spc _ _ G). pose proof (g_data _ _ G).
  pose proof (g_rsv _ _ G). pose proof (g_nf _ _ G). pose proof (g_spf _ _ G).
  unfold clba in *. unfold cluster_to_lba, u32_sub, u32_mul, u32_add.
  assert (0 <= (c - 2) * sectors_per_cluster fs) by nia.
  assert (c - 2 <= (c - 2) * sectors_per_cluster fs) by nia.
  assert (0 <= data_start_lba fs) by nia.
  rewrite !checked_step by (unfold U32_MAX; lia).
  apply checked_ok. unfold U32_MAX. lia.
Qed.

Lemma cluster_bytes_ok : cluster_bytes fs k = (Ok (cb fs), k).
Proof using G.
  unfold cluster_bytes, u32_mul, cb. pose proof (g_spc _ _ G).
  rewrite checked_step by (rewrite (g_bps _ _ G); unfold U32_MAX; lia).
  rewrite (g_bps _ _ G). unfold ret. do 2 f_equal. unfold BLOCK_SIZE. lia.
Qed.

Lemma fat_lba_ok i c :
  0 <= i < num_fats fs -> 0 <= c < nfat fs -> 0 <= fat_lba fs i c < nblocks k.
Proof using G.
  intros Hi Hc. pose proof (fat_lba_bound fs (nblocks k) G i c Hi Hc). pose proof (g_fit _ _ G). lia.
Qed.

Lemma fat_entry_u32 c : 0 <= c < nfat fs -> 0 <= c * 4 <= U32_MAX.
Proof using G.
  intros Hc. pose proof (nfat_bound fs (nblocks k) G). unfold EOC_THRESHOLD, U32_MAX in *. lia.
Qed.

Lemma next_cluster_ok c :
  0 <= c < nfat fs -> next_cluster fs c k = (Ok (fat_val fs k c), k).
Proof using G Hwf.
  intros Hc. pose proof (g_nf _ _ G). pose proof (fat_lba_ok 0 c ltac:(lia) Hc) as Hl.
  unfold next_cluster, u32_mul, u32_add.
  rewrite checked_step by (by apply fat_entry_u32).
  rewrite (fat_offset_div fs (nblocks k)), (fat_offset_mod fs (nblocks k)) by done.
  assert (fat_start_lba fs + c / 128 = fat_lba fs 0 c) as Hf by (unfold fat_lba; lia).
  pose proof (g_lba28 _ _ G).
  rewrite Hf, checked_step by (unfold U32_MAX; lia).
  erewrite bind_ok by (by apply read_sector_ok).
  by erewrite bind_ok by (apply get_le_ok; rewrite Hwf; apply fat_off_bound).
Qed.

(** Writing one copy of one entry. *)
Definition fput (i c v : Z) : Disk :=
  let b := dget k (fat_lba fs i c) in
  let old := le_val (sub_bytes (fat_off c) 4 b) in
  dput k (fat_lba fs i c)
    (splice (fat_off c) (le_bytes 4 (Z.lor (Z.land v CLUSTER_MASK) (Z.land old 0xF0000000))) b).

Lemma write_fat_copy_ok i c v :
  0 <= i < num_fats fs -> 0 <= c < nfat fs ->
  write_fat_copy fs (c * 4) v i k = (Ok tt, fput i c v).
Proof using G Hwf.
  intros Hi Hc. pose proof (fat_lba_ok i c Hi Hc) as Hl.
  pose proof (g_lba28 _ _ G). pose proof (g_spf _ _ G). pose proof (g_rsv _ _ G).
  pose proof (g_fat _ _ G). pose proof (Z.div_pos c 128).
  assert (fat_start_lba fs + i * sectors_per_fat fs + c / 128 = fat_lba fs i c) as Hf by done.
  unfold write_fat_copy, u32_mul, u32_add.
  rewrite (fat_offset_div fs (nblocks k)), (fat_offset_mod fs (nblocks k)) by done.
  rewrite !checked_step by (unfold U32_MAX; nia). rewrite Hf.
  erewrite bind_ok by (by apply read_sector_ok).
  erewrite bind_ok by (apply get_le_ok; rewrite Hwf; apply fat_off_bound).
  erewrite bind_ok by (apply put_ok; rewrite Hwf; apply fat_off_bound).
  apply write_sector_ok; [done|]. rewrite length_splice; rewrite Hwf; [done|].
  rewrite length_le_bytes. apply fat_off_bound.
Qed.

Lemma masked_entry v old :
  Z.land (Z.lor (Z.land v CLUSTER_MASK) (Z.land old 0xF0000000) mod 256 ^ Z.of_nat 4) CLUSTER_MASK
  = Z.land v CLUSTER_MASK.
Proof using.
  change (256 ^ Z.of_nat 4) with (2 ^ 32). rewrite <- Z.land_ones by lia.
  rewrite <- Z.land_assoc. change (Z.land (Z.ones 32) CLUSTER_MASK) with CLUSTER_MASK.
  rewrite Z.land_lor_distr_l, <- !Z.land_assoc.
  change (Z.land 0xF0000000 CLUSTER_MASK) with 0. rewrite Z.land_diag, Z.land_0_r. apply Z.lor_0_r.
Qed.

Lemma fat_off_disjoint c c' :
  c / 128 = c' / 128 -> c <> c' -> (fat_off c' + 4 <= fat_off c)%nat \/ (fat_off c + 4 <= fat_off c')%nat.
Proof using.
  unfold fat_off. intros Hd Hne. pose proof (Z.div_mod c 128). pose proof (Z.div_mod c' 128).
  pose proof (Z.mod_pos_bound c 128). pose proof (Z.mod_pos_bound c' 128). lia.
Qed.

Lemma fat_i_fput i c v i' c' :
  0 <= i < num_fats fs -> 0 <= c < nfat fs -> 0 <= i' < num_fats fs -> 0 <= c' < nfat fs ->
  fat_i fs (fput i c v) i' c' =
    if decide (i = i' /\ c = c') then Z.land v CLUSTER_MASK else fat_i fs k i' c'.
Proof using G Hwf.
  intros Hi Hc Hi' Hc'. unfold fat_i, fput. rewrite dget_dput.
  pose proof (fat_off_bound c) as Ho.
  case_decide as Hl.
  - apply (fat_lba_inj fs (nblocks k) G) in Hl as [<- Hd]; [|done..].
    destruct (decide (c = c')) as [<-|Hne].
    + rewrite decide_True by done. rewrite <- (length_le_bytes 4) at 1.
      rewrite sub_splice_same by (by rewrite length_le_bytes, Hwf).
      by rewrite le_val_le_bytes, masked_entry.
    + rewrite decide_False by tauto.
      rewrite sub_splice_other; [|by rewrite length_le_bytes, Hwf|rewrite length_le_bytes].
      * do 4 f_equal. unfold fat_lba. by rewrite Hd.
      * destruct (fat_off_disjoint c c' Hd Hne); auto.
  - rewrite decide_False; [done|]. by intros [-> ->].
Qed.

Lemma fput_wf i c v : disk_wf (fput i c v).
Proof using Hwf.
  apply disk_wf_dput; [done|]. rewrite length_splice, Hwf; [done|].
  rewrite length_le_bytes, Hwf. apply fat_off_bound.
Qed.

Lemma fput_other i c v lba :
  0 <= i < num_fats fs -> 0 <= c < nfat fs -> lba < 2 \/ data_start_lba fs <= lba ->
  dget (fput i c v) lba = dget k lba.
Proof using G.
  intros Hi Hc Hl. apply dget_dput_ne.
  pose proof (fat_lba_bound fs (nblocks k) G i c Hi Hc). lia.
Qed.

End ops.

(** ** [write_fat_entry] *)

(** Cluster contents depend only on the data area. *)
Lemma cdata_ext fs k k' c :
  (forall s, 0 <= s < sectors_per_cluster fs -> dget k' (clba fs c + s) = dget k (clba fs c + s)) ->
  cdata fs k' c = cdata fs k c.
Proof.
  intros H. unfold cdata. f_equal. apply map_ext_in. intros s Hs.
  apply H. by apply list_elem_of_In, elem_of_seqZ in Hs.
Qed.

Lemma write_fat_copies_ok fs k c v l :
  geom fs (nblocks k) -> disk_wf k -> 0 <= c < nfat fs ->
  Forall (fun i => 0 <= i < num_fats fs) l ->
  exists k', for_each l (write_fat_copy fs (c * 4) v) k = (Ok tt, k') /\
    nblocks k' = nblocks k /\ disk_wf k' /\
    (forall i' c', 0 <= i' < num_fats fs -> 0 <= c' < nfat fs ->
       fat_i fs k' i' c' = if decide (i' ∈ l /\ c = c') then Z.land v CLUSTER_MASK
                           else fat_i fs k i' c') /\
    (forall lba, lba < 2 \/ data_start_lba fs <= lba -> dget k' lba = dget k lba).
Proof.
  intros G Hwf Hc Hl. revert k G Hwf. induction Hl as [|i l Hi _ IH]; intros k G Hwf; simpl.
  { by exists k. }
  erewrite bind_ok by (by apply write_fat_copy_ok).
  destruct (IH (fput fs k i c v)) as (k' & Hk' & Hnb & Hwf' & Hf & Ho); [done|by apply fput_wf|].
  exists k'. rewrite Hk'. repeat split; [done|done| |].
  - intros i' c' Hi' Hc'. rewrite Hf, fat_i_fput by done.
    repeat case_decide; try done; set_solver.
  - intros lba Hlba. rewrite Ho by done. by apply fput_other.
Qed.

Lemma write_fat_entry_ok fs k c v :
  geom fs (nblocks k) -> disk_wf k -> 0 <= c < nfat fs ->
  exists k', write_fat_entry fs c v k = (Ok tt, k') /\ upd fs k k' [c] [] /\
    (forall i, 0 <= i < num_fats fs -> fat_i fs k' i c = Z.land v CLUSTER_MASK) /\
    (forall lba, lba < 2 \/ data_start_lba fs <= lba -> dget k' lba = dget k lba).
Proof.
  intros G Hwf Hc. unfold write_fat_entry, u32_mul.
  rewrite checked_step by (by eapply fat_entry_u32).
  destruct (write_fat_copies_ok fs k c v (range0 (num_fats fs))) as (k' & Hk' & Hnb & Hwf' & Hf & Ho);
    [done|done|done|apply Forall_forall; intros i Hi; by apply elem_of_seqZ in Hi|].
  pose proof (g_nf _ _ G).
  exists k'. split; [done|]. split; [split|split]; [done|done| | | | | |done].
  - intros i c' Hi Hc' Hn. rewrite Hf, decide_False by set_solver. done.
  - intros c' Hc' _. apply cdata_ext. intros s Hs. apply Ho. right.
    pose proof (clba_bound fs (nblocks k) G c' Hc'). lia.
  - apply Ho. lia.
  - intros Hm i c' Hi Hc'. unfold fat_val. rewrite !Hf by lia.
    assert (forall i, 0 <= i < num_fats fs -> i ∈ range0 (num_fats fs)) as Hin by (intros; by apply elem_of_seqZ).
    repeat case_decide; try done; [| |by apply Hm].
    + exfalso. naive_solver lia.
    + exfalso. naive_solver lia.
  - intros i Hi. rewrite Hf, decide_True by (done || (split; [by apply elem_of_seqZ|done])). done.
Qed.

(** ** Clusters *)

Lemma seqZ_S i n : seqZ (Z.of_nat i) (Z.of_nat (S n)) = Z.of_nat i :: seqZ (Z.of_nat (S i)) (Z.of_nat n).
Proof.
  rewrite seqZ_cons by lia. do 2 f_equal; lia.
Qed.

Lemma write_blocks_ok lba data n i k :
  0 <= lba -> lba + Z.of_nat (i + n) <= nblocks k -> ((i + n) * BLOCK_SIZE <= length data)%nat ->
  for_each (seqZ (Z.of_nat i) (Z.of_nat n)) (fun sec =>
    let off := (Z.to_nat sec * BLOCK_SIZE)%nat in
    let* src := slice off BLOCK_SIZE data in
    write_sector (lba + sec) src) k = (Ok tt, dput_blocks k lba n i data).
Proof.
  revert i k. induction n as [|n IH]; intros i k H0 Hn Hlen; [done|].
  rewrite seqZ_S. cbn [for_each dput_blocks]. rewrite Nat2Z.id.
  rewrite (bind_ok _ _ _ tt (dput k (lba + Z.of_nat i) (sub_bytes (i * BLOCK_SIZE) BLOCK_SIZE data))).
  - rewrite IH; [done|done| |lia]. rewrite nblocks_dput. lia.
  - cbv zeta. erewrite bind_ok by (apply slice_ok; lia).
    apply write_sector_ok; [lia|]. apply length_sub_bytes. lia.
Qed.

Lemma concat_blocks data n i :
  length data = ((i + n) * BLOCK_SIZE)%nat ->
  concat (map (fun s => sub_bytes (Z.to_nat s * BLOCK_SIZE) BLOCK_SIZE data)
              (seqZ (Z.of_nat i) (Z.of_nat n))) = drop (i * BLOCK_SIZE) data.
Proof.
  revert i. induction n as [|n IH]; intros i Hlen.
  { rewrite drop_ge by lia. done. }
  rewrite seqZ_S. cbn [map concat]. rewrite IH by lia. rewrite Nat2Z.id. unfold sub_bytes.
  replace (S i * BLOCK_SIZE)%nat with (i * BLOCK_SIZE + BLOCK_SIZE)%nat by lia.
  rewrite <- drop_drop. apply take_drop.
Qed.

Lemma read_blocks_ok k lba n i buf :
  disk_wf k -> 0 <= lba -> lba + Z.of_nat (i + n) <= nblocks k ->
  length buf = ((i + n) * BLOCK_SIZE)%nat ->
  for_acc (seqZ (Z.of_nat i) (Z.of_nat n)) buf (fun buf sec =>
    let off := (Z.to_nat sec * BLOCK_SIZE)%nat in
    let* dst := slice off BLOCK_SIZE buf in
    let* dst := read_into (lba + sec) dst in
    put off dst buf) k =
  (Ok (take (i * BLOCK_SIZE) buf ++
       concat (map (fun s => dget k (lba + s)) (seqZ (Z.of_nat i) (Z.of_nat n)))), k).
Proof.
  intros Hwf H0. revert i buf. induction n as [|n IH]; intros i buf Hn Hlen.
  { simpl. rewrite take_ge by lia. by rewrite app_nil_r. }
  rewrite seqZ_S. cbn [for_acc map concat]. rewrite Nat2Z.id.
  set (b := dget k (lba + Z.of_nat i)).
  rewrite (bind_ok _ _ _ (splice (i * BLOCK_SIZE) b buf) k).
  - rewrite IH; [|lia|rewrite length_splice; [lia|unfold b; rewrite Hwf; lia]].
    do 2 f_equal. rewrite app_assoc. f_equal. unfold splice.
    replace (S i * BLOCK_SIZE)%nat with (i * BLOCK_SIZE + BLOCK_SIZE)%nat by lia.
    rewrite app_assoc. rewrite take_app_le by (rewrite length_app, length_take; unfold b; rewrite Hwf; lia).
    rewrite take_ge; [done|]. rewrite length_app, length_take. unfold b. rewrite Hwf. lia.
  - cbv zeta. erewrite bind_ok by (apply slice_ok; lia).
    erewrite bind_ok by (apply read_into_ok; [done|lia|apply length_sub_bytes; lia]).
    apply put_ok. fold b. unfold b. rewrite Hwf. lia.
Qed.

Section clusters.
Context (fs : FatFs) (k : Disk) (G : geom fs (nblocks k)) (Hwf : disk_wf k).

Lemma spc_nat : Z.of_nat (Z.to_nat (sectors_per_cluster fs)) = sectors_per_cluster fs.
Proof using G.
  pose proof (g_spc _ _ G). lia.
Qed.

Lemma length_cdata c : length (cdata fs k c) = cb fs.
Proof using Hwf.
  unfold cdata, cb. generalize (clba fs c). intros lba.
  assert (forall l, length (concat (map (fun s => dget k (lba + s)) l)) = (length l * BLOCK_SIZE)%nat)
    as H.
  { induction l as [|x l IH]; [done|]. cbn [map concat length]. rewrite length_app, IH, Hwf. lia. }
  rewrite H, length_seqZ. done.
Qed.

Lemma read_cluster_ok c :
  2 <= c < nclusters fs (nblocks k) ->
  read_cluster fs (clba fs c) (zeros (cb fs)) k = (Ok (cdata fs k c), k).
Proof using G Hwf.
  intros Hc. pose proof (clba_bound fs (nblocks k) G c Hc) as [H1 H2].
  pose proof (g_data _ _ G). pose proof (g_rsv _ _ G). pose proof (g_nf _ _ G).
  pose proof (g_spf _ _ G).
  unfold read_cluster, range0, cdata. rewrite <- spc_nat at 1 2.
  apply (read_blocks_ok k (clba fs c) (Z.to_nat (sectors_per_cluster fs)) 0); [done|nia| |].
  - rewrite Nat.add_0_l, spc_nat. lia.
  - apply zeros_length.
Qed.

(** Distinct clusters occupy disjoint sectors. *)
Lemma clba_disjoint c c' s s' :
  c <> c' -> 0 <= s < sectors_per_cluster fs -> 0 <= s' < sectors_per_cluster fs ->
  clba fs c + s <> clba fs c' + s'.
Proof using.
  unfold clba. intros Hne Hs Hs' Heq. assert (c < c' \/ c' < c) as [H|H] by lia; nia.
Qed.

Lemma write_cluster_ok c data :
  2 <= c < nclusters fs (nblocks k) -> length data = cb fs ->
  exists k', write_cluster fs c data k = (Ok tt, k') /\ upd fs k k' [] [c] /\
    cdata fs k' c = data.
Proof using G Hwf.
  intros Hc Hlen. pose proof (clba_bound fs (nblocks k) G c Hc) as [H1 H2].
  pose proof (g_data _ _ G). pose proof (g_rsv _ _ G). pose proof (g_nf _ _ G).
  pose proof (g_spf _ _ G). pose proof (g_spc _ _ G).
  set (n := Z.to_nat (sectors_per_cluster fs)).
  exists (dput_blocks k (clba fs c) n 0 data).
  assert (Hget := dget_dput_blocks k (clba fs c) n 0 data).
  assert (Z.of_nat n = sectors_per_cluster fs) as Hn by apply spc_nat.
  split; [|split; [split|]].
  - unfold write_cluster. erewrite bind_ok by (by apply cluster_to_lba_ok).
    unfold range0. rewrite <- Hn. apply (write_blocks_ok (clba fs c) data n 0 k); [nia|lia|].
    by rewrite Hlen.
  - apply nblocks_dput_blocks.
  - intros lba. rewrite Hget. case_decide; [|apply Hwf].
    apply length_sub_bytes. rewrite Hlen. unfold cb. fold n. nia.
  - intros i c' Hi Hc' _. unfold fat_i. rewrite Hget, decide_False; [done|].
    pose proof (fat_lba_bound fs (nblocks k) G i c' Hi Hc'). lia.
  - intros c' Hc' Hne. apply cdata_ext. intros s Hs. rewrite Hget, decide_False; [done|].
    intros Hr. apply (clba_disjoint c' c s (clba fs c' + s - clba fs c)); [set_solver|lia|lia|lia].
  - rewrite Hget, decide_False; [done|]. nia.
  - apply mirrored_same; [lia|]. intros i c' Hi Hc'. unfold fat_i. rewrite Hget, decide_False; [done|].
    pose proof (fat_lba_bound fs (nblocks k) G i c' Hi Hc'). lia.
  - unfold cdata. rewrite <- Hn.
    transitivity (concat (map (fun s => sub_bytes (Z.to_nat s * BLOCK_SIZE) BLOCK_SIZE data)
                              (seqZ (Z.of_nat 0) (Z.of_nat n)))).
    + f_equal. apply map_ext_in.
      intros s Hs. apply list_elem_of_In, elem_of_seqZ in Hs. rewrite Hget, decide_True by lia.
      do 2 f_equal. lia.
    + rewrite concat_blocks by done. apply drop_0.
Qed.

Lemma zero_cluster_ok c :
  2 <= c < nclusters fs (nblocks k) ->
  exists k', zero_cluster fs c k = (Ok tt, k') /\ upd fs k k' [] [c] /\
    cdata fs k' c = zeros (cb fs).
Proof using G Hwf.
  intros Hc. unfold zero_cluster. erewrite bind_ok by (by apply cluster_bytes_ok).
  apply write_cluster_ok; [done|]. apply zeros_length.
Qed.

(** FsInfo maintenance touches sector 1 only, and never fails or panics. *)
Lemma update_fsinfo_ok delta last :
  exists k', ignore (F:=FsError) (update_fsinfo fs delta last) k = (Ok tt, k') /\ upd fs k k' [] [].
Proof using G Hwf.
  pose proof (g_fit _ _ G). pose proof (g_data _ _ G). pose proof (g_rsv _ _ G).
  pose proof (g_nf _ _ G). pose proof (g_spf _ _ G).
  assert (0 <= 1 < nblocks k) as Hone by nia.
  assert (forall b, length b = BLOCK_SIZE -> upd fs k (dput k 1 b) [] []) as Hupd.
  { intros b Hb.
    assert (forall i c, 0 <= i < num_fats fs -> 0 <= c < nfat fs ->
      fat_i fs (dput k 1 b) i c = fat_i fs k i c) as Hf.
    { intros i c Hi Hc. unfold fat_i. rewrite dget_dput_ne; [done|].
      pose proof (fat_lba_bound fs (nblocks k) G i c Hi Hc). lia. }
    split; [done|by apply disk_wf_dput| | | |apply mirrored_same; [lia|done]].
    - auto.
    - intros c Hc _. apply cdata_ext. intros s Hs. apply dget_dput_ne.
      pose proof (clba_bound fs (nblocks k) G c Hc). nia.
    - by apply dget_dput_ne. }
  cut (exists k', update_fsinfo fs delta last k = (Ok tt, k') /\ upd fs k k' [] []).
  { intros (k' & Hk' & Hu). exists k'. unfold ignore. by rewrite Hk'. }
  unfold update_fsinfo. erewrite bind_ok by (by apply read_sector_ok).
  set (b := dget k 1). assert (length b = BLOCK_SIZE) as Hb by apply Hwf.
  erewrite bind_ok by (apply get_le_ok; rewrite Hb; unfold BLOCK_SIZE; lia).
  erewrite bind_ok by (apply get_le_ok; rewrite Hb; unfold BLOCK_SIZE; lia).
  case_match; [exists k; split; [done|by apply upd_refl]|].
  erewrite bind_ok by (apply get_le_ok; rewrite Hb; unfold BLOCK_SIZE; lia).
  set (free := le_val _).
  assert (exists b1, (if negb (free =? 0xFFFFFFFF)
    then put (E:=FsError) 488 (le_bytes 4 (as_u32 (Z.max (free + delta) 0))) b else ret b) k = (Ok b1, k)
    /\ length b1 = BLOCK_SIZE) as (b1 & Hb1 & Hl1).
  { destruct (negb (free =? 0xFFFFFFFF)); [|exists b; exact (conj eq_refl Hb)]. eexists. split.
    - apply put_ok. rewrite Hb, length_le_bytes. unfold BLOCK_SIZE. lia.
    - rewrite length_splice; [done|]. rewrite Hb, length_le_bytes. unfold BLOCK_SIZE. lia. }
  erewrite bind_ok by exact Hb1.
  assert (exists b2, (if negb (last =? 0) then put (E:=FsError) 492 (le_bytes 4 last) b1 else ret b1) k
    = (Ok b2, k) /\ length b2 = BLOCK_SIZE) as (b2 & Hb2 & Hl2).
  { destruct (negb (last =? 0)); [|exists b1; exact (conj eq_refl Hl1)]. eexists. split.
    - apply put_ok. rewrite Hl1, length_le_bytes. unfold BLOCK_SIZE. lia.
    - rewrite length_splice; [done|]. rewrite Hl1, length_le_bytes. unfold BLOCK_SIZE. lia. }
  erewrite bind_ok by exact Hb2. exists (dput k 1 b2). split; [by apply write_sector_ok|auto].
Qed.

End clusters.
