(* ===== verification/FatChain.v ===== *)
(** * FAT32 cluster chains on an abstract disk

    Walking, allocating, freeing and writing chains ([read_chain], [find_free_cluster],
    [allocate_chain], [free_chain], [write_chain] of src/kernel/src/fs/fat.rs). [chain] is the
    abstract view: the list of clusters a head cluster leads to. *)

From S2P Require Import Prelude.
From S2P Require Import Vfs.
From S2P Require Import Block.
From S2P Require Import Fat.
From S2P Require Import FatTable.

Open Scope Z_scope.

(** [chain fs k c l]: following the FAT from [c] visits exactly the clusters [l], all on the disk,
    and then ends. *)
Inductive chain (fs : FatFs) (k : Disk) : Z -> list Z -> Prop :=
| chain_nil c : in_chain c = false -> chain fs k c []
| chain_cons c l :
    2 <= c < nclusters fs (nblocks k) -> chain fs k (fat_val fs k c) l -> chain fs k c (c :: l).

(** Contents of the clusters of a chain. *)
Definition contents (fs : FatFs) (k : Disk) (l : list Z) : bytes := concat (map (cdata fs k) l).

(** The free clusters, in the order [find_free_cluster] finds them. *)
Definition frees (fs : FatFs) (k : Disk) : list Z :=
  filter (fun c => fat_val fs k c = 0) (seqZ 2 (nfat fs - 2)).

Section chains.
Context (fs : FatFs) (k : Disk).
Implicit Types (c : Z) (l : list Z).

Lemma chain_range c l : chain fs k c l -> Forall (fun x => 2 <= x < nclusters fs (nblocks k)) l.
Proof.
  induction 1; by constructor.
Qed.

Lemma chain_det c l l' : chain fs k c l -> chain fs k c l' -> geom fs (nblocks k) -> l = l'.
Proof.
  intros H. revert l'. induction H as [c Hc|c l Hc _ IH]; intros l' H' G;
    pose proof (nfat_bound fs _ G); unfold in_chain, nclusters, EOC_THRESHOLD in *.
  - inversion H'; subst; [done|]. unfold nclusters in *. lia.
  - inversion H'; subst; [unfold in_chain, EOC_THRESHOLD in *; lia|]. f_equal. by apply IH.
Qed.

(** Every suffix of a chain is a chain. *)
Lemma chain_suffix c l1 x l2 : chain fs k c (l1 ++ x :: l2) -> chain fs k x (x :: l2).
Proof.
  revert c. induction l1 as [|y l1 IH]; intros c H; inversion H; subst; [done|eauto].
Qed.

(** A chain visits no cluster twice. *)
Lemma chain_NoDup c l : geom fs (nblocks k) -> chain fs k c l -> NoDup l.
Proof.
  intros G. induction 1 as [|c l Hc Hl IH]; [constructor|]. constructor; [|done].
  intros (l1 & l2 & ->)%list_elem_of_split.
  pose proof (chain_suffix _ _ _ _ Hl) as Hs.
  pose proof (chain_det c _ _ (chain_cons _ _ _ _ Hc Hl) Hs G) as Heq.
  simplify_eq. apply (f_equal length) in Heq. rewrite length_app in Heq. simpl in Heq. lia.
Qed.

(** A chain has fewer clusters than the FAT has entries. *)
Lemma chain_length c l : geom fs (nblocks k) -> chain fs k c l -> (length l <= Z.to_nat (nfat fs - 2))%nat.
Proof.
  intros G H. rewrite <- (length_seqZ 2 (nfat fs - 2)).
  apply submseteq_length, NoDup_submseteq; [by eapply chain_NoDup|].
  intros x Hx. apply elem_of_seqZ. pose proof (chain_range _ _ H) as Hr.
  rewrite Forall_forall in Hr. specialize (Hr x Hx). unfold nclusters in Hr. lia.
Qed.

End chains.

(** Chains survive changes elsewhere. *)
Lemma chain_frame fs k k' F C c l :
  geom fs (nblocks k) -> upd fs k k' F C -> F ## l -> chain fs k c l -> chain fs k' c l.
Proof.
  intros G Hu Hd H. pose proof (g_nf _ _ G). induction H as [|c l Hc Hl IH]; [by constructor|].
  constructor; [by rewrite (u_nb _ _ _ _ _ Hu)|]. unfold fat_val.
  rewrite (u_fat _ _ _ _ _ Hu); [apply IH; set_solver|lia|unfold nclusters in *; lia|set_solver].
Qed.

Lemma contents_frame fs k k' F C l :
  upd fs k k' F C -> C ## l -> Forall (fun x => 2 <= x < nclusters fs (nblocks k)) l ->
  contents fs k' l = contents fs k l.
Proof.
  intros Hu Hd Hl. unfold contents. f_equal. apply map_ext_in. intros c Hc%list_elem_of_In.
  rewrite Forall_forall in Hl. apply (u_data _ _ _ _ _ Hu); [auto|set_solver].
Qed.

Lemma contents_app fs k l1 l2 : contents fs k (l1 ++ l2) = contents fs k l1 ++ contents fs k l2.
Proof.
  unfold contents. by rewrite map_app, concat_app.
Qed.

Lemma length_contents fs k l : disk_wf k -> length (contents fs k l) = (length l * cb fs)%nat.
Proof.
  intros Hwf. induction l as [|c l IH]; [done|].
  change (contents fs k (c :: l)) with (cdata fs k c ++ contents fs k l).
  rewrite length_app, IH, length_cdata by done. simpl. lia.
Qed.

Lemma in_chain_cluster fs nb c : geom fs nb -> 2 <= c < nclusters fs nb -> in_chain c = true.
Proof.
  intros G Hc. pose proof (nfat_bound fs nb G). unfold in_chain, nclusters, EOC_THRESHOLD in *. lia.
Qed.

(** ** [read_chain] *)

Section read.
Context (fs : FatFs) (k : Disk) (G : geom fs (nblocks k)) (Hwf : disk_wf k).

(** Reads a whole number of clusters: all of them, or enough for [max_bytes]. *)
Lemma read_chain_go_ok fuel c l max out :
  chain fs k c l -> (length l < fuel)%nat ->
  exists m, read_chain_go fuel fs (cb fs) c max out k = (Ok (out ++ contents fs k (take m l)), k) /\
    ((length l <= m)%nat \/ max <= Z.of_nat (length (out ++ contents fs k (take m l)))).
Proof using G Hwf.
  intros H. revert fuel out. induction H as [c Hc|c l Hc Hl IH]; intros fuel out Hf.
  { exists 0%nat. destruct fuel; [simpl in Hf; lia|]. simpl. rewrite Hc, app_nil_r. split; [done|]. left. lia. }
  destruct fuel as [|fuel]; [simpl in Hf; lia|]. cbn [read_chain_go].
  rewrite (in_chain_cluster _ _ _ G Hc).
  erewrite bind_ok by (by apply cluster_to_lba_ok).
  erewrite bind_ok by (by apply read_cluster_ok). cbv zeta. case_match eqn:Hm.
  - exists 1%nat. cbn [take]. rewrite take_0. unfold contents at 1 2. cbn [map concat]. rewrite app_nil_r.
    split; [done|]. right. lia.
  - unfold nclusters in Hc.
    erewrite bind_ok by (apply next_cluster_ok; [done|done|lia]).
    destruct (IH fuel (out ++ cdata fs k c)) as (m & Hr & Hm'); [simpl in Hf; lia|].
    exists (S m). rewrite Hr. cbn [take length].
    change (contents fs k (c :: take m l)) with (cdata fs k c ++ contents fs k (take m l)).
    rewrite app_assoc. split; [done|]. destruct Hm'; [left; lia|by right].
Qed.

Lemma chain_fuel_ok c l : chain fs k c l -> (length l < chain_fuel fs)%nat.
Proof using G.
  intros H. pose proof (chain_length fs k c l G H). unfold chain_fuel, nfat in *.
  pose proof (g_spf _ _ G). lia.
Qed.

Lemma cb_bounds : (1 <= cb fs)%nat /\ Z.of_nat (cb fs) <= 130560.
Proof using G.
  unfold cb, BLOCK_SIZE. pose proof (g_spc _ _ G). lia.
Qed.

(** A bound at least the chain's size reads all of it. *)
Lemma read_chain_all c l max :
  chain fs k c l -> Z.of_nat (length l * cb fs) <= max ->
  read_chain fs c max k = (Ok (contents fs k l), k).
Proof using G Hwf.
  intros H Hmax. unfold read_chain. erewrite bind_ok by (by apply cluster_bytes_ok).
  destruct (read_chain_go_ok (chain_fuel fs) c l max [] H (chain_fuel_ok _ _ H)) as (m & -> & Hm).
  rewrite app_nil_l in *. rewrite length_contents, length_take in Hm by done.
  rewrite take_ge; [done|]. pose proof cb_bounds. destruct Hm as [?|Hm]; [done|]. nia.
Qed.

(** The first [max] bytes of a chain. *)
Lemma read_chain_prefix c l max :
  chain fs k c l ->
  exists out, read_chain fs c max k = (Ok out, k) /\
    take (Z.to_nat max) out = take (Z.to_nat max) (contents fs k l).
Proof using G Hwf.
  intros H. unfold read_chain. erewrite bind_ok by (by apply cluster_bytes_ok).
  destruct (read_chain_go_ok (chain_fuel fs) c l max [] H (chain_fuel_ok _ _ H)) as (m & -> & Hm).
  eexists. split; [done|]. rewrite app_nil_l in *.
  destruct Hm as [Hm|Hm]; [by rewrite take_ge with (n := m) by done|].
  rewrite <- (take_drop m l) at 2. rewrite contents_app, take_app_le by lia. done.
Qed.

(** The whole directory: no chain on the disk reaches [usize::MAX] bytes. *)
Lemma read_chain_dir c l :
  chain fs k c l -> read_chain fs c USIZE_MAX k = (Ok (contents fs k l), k).
Proof using G Hwf.
  intros H. apply read_chain_all; [done|]. pose proof (chain_length fs k c l G H).
  pose proof cb_bounds. pose proof (nfat_bound fs _ G). unfold USIZE_MAX, EOC_THRESHOLD in *. nia.
Qed.

End read.

(** ** [find_free_cluster] *)

Section find_free.
Context (fs : FatFs) (k : Disk) (G : geom fs (nblocks k)) (Hwf : disk_wf k).

Lemma find_free_go_ok cs buf cur :
  Forall (fun c => 0 <= c < nfat fs) cs -> length buf = BLOCK_SIZE ->
  (0 <= cur < nblocks k -> buf = dget k cur) ->
  find_free_go fs cs buf cur k =
    (match filter (fun c => fat_val fs k c = 0) cs with c :: _ => Ok c | [] => Err Io end, k).
Proof using G Hwf.
  intros Hcs. revert buf cur. induction Hcs as [|c cs Hc _ IH]; intros buf cur Hlen Hbuf; [done|].
  pose proof (g_nf _ _ G). pose proof (fat_lba_ok fs k G 0 c ltac:(lia) Hc) as Hl.
  pose proof (g_lba28 _ _ G).
  cbn [find_free_go]. unfold u32_mul, u32_add.
  rewrite checked_step by (by eapply fat_entry_u32).
  rewrite (fat_offset_div fs (nblocks k)), (fat_offset_mod fs (nblocks k)) by done.
  assert (fat_start_lba fs + c / 128 = fat_lba fs 0 c) as Hf by (unfold fat_lba; lia).
  rewrite Hf, checked_step by (unfold U32_MAX; lia).
  rewrite (bind_ok _ _ _ (dget k (fat_lba fs 0 c)) k).
  2:{ destruct (Z.eqb_spec (fat_lba fs 0 c) cur) as [<-|_]; [|by apply read_into_ok].
      unfold ret. simpl. do 2 f_equal. by apply Hbuf. }
  erewrite bind_ok by (apply get_le_ok; rewrite Hwf; apply fat_off_bound).
  change (Z.land (le_val (sub_bytes (fat_off c) 4 (dget k (fat_lba fs 0 c)))) CLUSTER_MASK)
    with (fat_val fs k c).
  rewrite filter_cons. destruct (Z.eqb_spec (fat_val fs k c) 0).
  - by rewrite decide_True.
  - rewrite decide_False by done. apply IH; [apply Hwf|done].
Qed.

(** The first free entry of the FAT, or [Io] when there is none. *)
Lemma find_free_cluster_ok :
  find_free_cluster fs k = (match frees fs k with c :: _ => Ok c | [] => Err Io end, k).
Proof using G Hwf.
  unfold find_free_cluster, u32_mul, frees. pose proof (g_spf _ _ G).
  rewrite checked_step by (rewrite (g_bps _ _ G); unfold U32_MAX; lia).
  assert (sectors_per_fat fs * bytes_per_sector fs / 4 = nfat fs) as ->.
  { rewrite (g_bps _ _ G). unfold nfat. Z.to_euclidean_division_equations; lia. }
  apply find_free_go_ok.
  - apply Forall_forall. intros c Hc%elem_of_seqZ. unfold nfat in *. lia.
  - apply zeros_length.
  - pose proof (g_lba28 _ _ G). unfold U32_MAX. lia.
Qed.

Lemma elem_of_frees c : c ∈ frees fs k <-> 2 <= c < nfat fs /\ fat_val fs k c = 0.
Proof using.
  unfold frees. rewrite list_elem_of_filter, elem_of_seqZ. split; intros; intuition lia.
Qed.

Lemma length_frees : (length (frees fs k) <= Z.to_nat (nfat fs - 2))%nat.
Proof using.
  rewrite <- (length_seqZ 2 (nfat fs - 2)). apply length_filter.
Qed.

Lemma frees_NoDup : NoDup (frees fs k).
Proof using.
  apply NoDup_filter, NoDup_seqZ.
Qed.

End find_free.

(** What is free after an update, from what changed. *)
Lemma frees_ext fs k k' c rest :
  frees fs k = c :: rest ->
  (forall x, 2 <= x < nfat fs -> fat_val fs k' x = 0 <-> fat_val fs k x = 0 /\ x <> c) ->
  frees fs k' = rest.
Proof.
  intros Hf Hx. pose proof (frees_NoDup fs k) as Hnd. rewrite Hf in Hnd.
  assert (frees fs k' = filter (fun x => x <> c) (frees fs k)) as ->.
  { unfold frees. rewrite list_filter_filter. apply filter_ext_Forall.
    apply Forall_forall. intros x Hin%elem_of_seqZ. rewrite Hx by lia. tauto. }
  rewrite Hf, filter_cons, decide_False by tauto.
  inversion_clear Hnd. apply filter_id, Forall_forall. by intros x ? ->.
Qed.

Lemma frees_same fs k k' F C :
  upd fs k k' F C -> 1 <= num_fats fs -> (forall x, x ∈ F -> fat_val fs k x <> 0 /\ fat_val fs k' x <> 0) ->
  frees fs k' = frees fs k.
Proof.
  intros Hu Hn HF. unfold frees. apply filter_ext_Forall. apply Forall_forall.
  intros x Hin%elem_of_seqZ. destruct (decide (x ∈ F)) as [Hx|Hx].
  - specialize (HF x Hx). tauto.
  - unfold fat_val. rewrite (u_fat _ _ _ _ _ Hu) by (done || lia). done.
Qed.

(** Growing a chain at its end. *)
Lemma chain_snoc fs k k' F C h pre p c lc :
  geom fs (nblocks k) -> upd fs k k' F C -> F ## pre ->
  chain fs k h (pre ++ [p]) -> fat_val fs k' p = c -> chain fs k' c lc ->
  chain fs k' h (pre ++ p :: lc).
Proof.
  intros G Hu. revert h. induction pre as [|x pre IH]; intros h Hd Hh Hp Hc; simpl in *.
  - inversion Hh; subst. constructor; [by rewrite (u_nb _ _ _ _ _ Hu)|done].
  - inversion Hh as [|? ? Hx Hl]; subst.
    constructor; [by rewrite (u_nb _ _ _ _ _ Hu)|]. pose proof (g_nf _ _ G).
    unfold fat_val at 1. rewrite (u_fat _ _ _ _ _ Hu); [|lia|unfold nclusters in Hx; lia|set_solver].
    apply IH; [set_solver|done|done|done].
Qed.

(** ** [free_chain] *)

Lemma geom_upd fs k k' F C : upd fs k k' F C -> geom fs (nblocks k) -> geom fs (nblocks k').
Proof.
  intros Hu. by rewrite (u_nb _ _ _ _ _ Hu).
Qed.

Lemma free_chain_go_ok fuel fs k c l freed :
  geom fs (nblocks k) -> disk_wf k -> chain fs k c l -> (length l < fuel)%nat ->
  exists k', free_chain_go fuel fs c freed k = (Ok (freed + Z.of_nat (length l)), k') /\
    upd fs k k' l [] /\ (forall x, x ∈ l -> fat_val fs k' x = 0).
Proof.
  intros G Hwf H. revert fuel k c freed G Hwf H. induction l as [|x l IH];
    intros fuel k c freed G Hwf H Hf; (destruct fuel as [|fuel]; [simpl in Hf; lia|]); cbn [free_chain_go].
  - inversion H as [? Hc|]; subst. rewrite Hc. exists k. rewrite Z.add_0_r.
    split; [done|]. split; [by apply upd_refl|]. set_solver.
  - pose proof (chain_NoDup _ _ _ _ G H) as Hnd. inversion H as [|? ? Hx Hl]; subst.
    rewrite (in_chain_cluster _ _ _ G Hx). pose proof (g_nf _ _ G). unfold nclusters in Hx.
    erewrite bind_ok by (apply next_cluster_ok; [done|done|lia]).
    destruct (write_fat_entry_ok fs k x 0) as (k1 & Hk1 & Hu1 & Hv1 & _); [done|done|lia|].
    rewrite (bind_ok _ _ _ _ _ Hk1). inversion_clear Hnd.
    destruct (IH fuel k1 (fat_val fs k x) (freed + 1)) as (k2 & Hk2 & Hu2 & Hv2);
      [by eapply geom_upd|apply Hu1|apply (chain_frame fs k k1 [x] []); [done|done|set_solver|exact Hl]|simpl in Hf; lia|].
    exists k2. rewrite Hk2. split; [|split].
    + do 2 f_equal. simpl. lia.
    + apply (upd_trans fs k k1 k2 [x] [] l [] Hu1 Hu2).
    + intros y [->|Hy]%elem_of_cons; [|by apply Hv2]. unfold fat_val.
      rewrite (u_fat _ _ _ _ _ Hu2); [|lia|lia|done]. by rewrite Hv1 by lia.
Qed.

(** Exactly the clusters of the chain become free; no data changes. *)
Lemma free_chain_ok fs k c l :
  geom fs (nblocks k) -> disk_wf k -> chain fs k c l ->
  exists k', free_chain fs c k = (Ok tt, k') /\ upd fs k k' l [] /\
    (forall x, x ∈ l -> fat_val fs k' x = 0).
Proof.
  intros G Hwf H. unfold free_chain.
  destruct (free_chain_go_ok (chain_fuel fs) fs k c l 0) as (k1 & Hk1 & Hu1 & Hv1);
    [done|done|done|by eapply chain_fuel_ok|].
  rewrite (bind_ok _ _ _ _ _ Hk1). destruct (0 <? _); [|exists k1; auto].
  destruct (update_fsinfo_ok fs k1 (geom_upd _ _ _ _ _ Hu1 G) (u_wf _ _ _ _ _ Hu1)
    (0 + Z.of_nat (length l)) 0) as (k2 & Hk2 & Hu2).
  exists k2. split; [done|]. split.
  - eapply upd_weaken; [by eapply upd_trans|set_solver..].
  - intros x Hx. pose proof (g_nf _ _ G). unfold fat_val.
    pose proof (chain_range _ _ _ _ H) as Hr. rewrite Forall_forall in Hr. specialize (Hr x Hx).
    unfold nclusters in Hr. rewrite (u_fat _ _ _ _ _ Hu2); [by apply Hv1|lia|lia|set_solver].
Qed.

(** ** [allocate_chain] *)

(** The end-of-chain mark the code writes. *)
Definition EOC : Z := Z.lor EOC_THRESHOLD 0xF.

Lemma masked_cluster fs nb c : geom fs nb -> 0 <= c < nfat fs -> Z.land c CLUSTER_MASK = c.
Proof.
  intros G Hc. pose proof (nfat_bound fs nb G). unfold EOC_THRESHOLD in *.
  change CLUSTER_MASK with (Z.ones 28). rewrite Z.land_ones by lia. apply Z.mod_small. lia.
Qed.

Lemma frees_head fs k c rest :
  frees fs k = c :: rest -> 2 <= c < nfat fs /\ fat_val fs k c = 0.
Proof.
  intros Hf. apply elem_of_frees. rewrite Hf. apply list_elem_of_here.
Qed.

(** Claiming the first free cluster: marked as a chain end, zeroed, no longer free. *)
Lemma claim_ok fs k c rest :
  geom fs (nblocks k) -> disk_wf k -> frees fs k = c :: rest -> c < nclusters fs (nblocks k) ->
  exists k1 k', write_fat_entry fs c EOC k = (Ok tt, k1) /\ zero_cluster fs c k1 = (Ok tt, k') /\
    upd fs k k' [c] [c] /\ fat_val fs k' c = EOC /\ cdata fs k' c = zeros (cb fs) /\
    frees fs k' = rest.
Proof.
  intros G Hwf Hf Hc. pose proof (g_nf _ _ G). destruct (frees_head _ _ _ _ Hf) as [Hr H0].
  destruct (write_fat_entry_ok fs k c EOC) as (k1 & Hk1 & Hu1 & Hv1 & _); [done|done|lia|].
  destruct (zero_cluster_ok fs k1 (geom_upd _ _ _ _ _ Hu1 G) (u_wf _ _ _ _ _ Hu1) c)
    as (k2 & Hk2 & Hu2 & Hd2); [rewrite (u_nb _ _ _ _ _ Hu1); lia|].
  assert (fat_val fs k2 c = EOC) as Hv.
  { unfold fat_val. rewrite (u_fat _ _ _ _ _ Hu2) by (lia || set_solver). by rewrite Hv1 by lia. }
  pose proof (upd_trans _ _ _ _ _ _ _ _ Hu1 Hu2) as Hu. simpl in Hu.
  exists k1, k2. do 5 (split; [done|]).
  eapply frees_ext; [done|]. intros x Hx. destruct (decide (x = c)) as [->|Hne].
  - rewrite Hv. split; [done|]. tauto.
  - unfold fat_val. rewrite (u_fat _ _ _ _ _ Hu) by (lia || set_solver). tauto.
Qed.

(** Only the last cluster of a chain can have a zero entry. *)
Lemma chain_inner_used fs k h pre p x :
  chain fs k h (pre ++ [p]) -> x ∈ pre -> fat_val fs k x <> 0.
Proof.
  revert h. induction pre as [|y pre IH]; intros h H Hx; [by apply elem_of_nil in Hx|].
  inversion H as [|? ? Hy Hl]; subst. apply elem_of_cons in Hx as [->|Hx]; [|by eapply IH].
  destruct pre; simpl in Hl; inversion Hl; subst; lia.
Qed.

(** The loop of [allocate_chain] once a first cluster is claimed. *)
Lemma alloc_loop_ok xs fs k head pre prev last fl rest :
  geom fs (nblocks k) -> disk_wf k -> length fl = length xs -> frees fs k = fl ++ rest ->
  Forall (fun c => c < nclusters fs (nblocks k)) fl ->
  chain fs k head (pre ++ [prev]) -> fat_val fs k prev = EOC ->
  exists p q k', for_acc xs (head, prev, last) (alloc_step fs) k = (Ok (head, p, q), k') /\
    upd fs k k' (prev :: fl) fl /\ chain fs k' head (pre ++ prev :: fl) /\
    (forall c, c ∈ fl -> cdata fs k' c = zeros (cb fs)) /\ frees fs k' = rest.
Proof.
  revert k pre prev last fl. induction xs as [|i xs IH]; intros k pre prev last fl G Hwf Hlen Hf Hr Hch Hp.
  { destruct fl; [|done]. exists prev, last, k. split; [done|].
    split; [eapply upd_weaken; [by apply upd_refl|set_solver..]|]. split; [done|]. split; [set_solver|done]. }
  destruct fl as [|c fl]; [done|]. simpl in Hf. inversion_clear Hr as [|? ? Hc Hr'].
  pose proof (g_nf _ _ G). destruct (frees_head _ _ _ _ Hf) as [Hrc H0].
  pose proof (chain_range _ _ _ _ Hch) as Hrange. apply Forall_app in Hrange as [_ Hprev].
  inversion_clear Hprev as [|? ? Hpr _]. assert (2 <= prev < nfat fs) by (unfold nclusters in Hpr; lia).
  assert (prev ∉ pre) as Hpp.
  { pose proof (chain_NoDup _ _ _ _ G Hch) as Hnd. apply NoDup_app in Hnd as (_ & Hnd & _). set_solver. }
  assert (prev <> c) as Hne by (intros ->; rewrite Hp in H0; done).
  assert (c ∉ pre) as Hpre by (intros Hx; by apply (chain_inner_used _ _ _ _ _ _ Hch Hx)).
  destruct (claim_ok fs k c (fl ++ rest)) as (k1 & k2 & Hk1 & Hk2 & Hu2 & Hv2 & Hd2 & Hf2); [done..|].
  pose proof (geom_upd _ _ _ _ _ Hu2 G) as G2. pose proof (u_wf _ _ _ _ _ Hu2) as Hwf2.
  destruct (write_fat_entry_ok fs k2 prev c) as (k3 & Hk3 & Hu3 & Hv3 & _); [done|done|lia|].
  pose proof (geom_upd _ _ _ _ _ Hu3 G2) as G3. pose proof (u_wf _ _ _ _ _ Hu3) as Hwf3.
  assert (fat_val fs k3 c = EOC) as Hvc.
  { unfold fat_val. by rewrite (u_fat _ _ _ _ _ Hu3) by (lia || set_solver). }
  assert (fat_val fs k3 prev = c) as Hvp.
  { unfold fat_val. rewrite Hv3 by lia. apply (masked_cluster fs (nblocks k)); [done|lia]. }
  pose proof (upd_trans _ _ _ _ _ _ _ _ Hu2 Hu3) as Hu. simpl in Hu.
  destruct (IH k3 (pre ++ [prev]) c c fl) as (p & q & k4 & Hk4 & Hu4 & Hch4 & Hz4 & Hf4); try done.
  - by simplify_eq/=.
  - rewrite <- Hf2. eapply frees_same; [done|lia|]. intros x ->%list_elem_of_singleton.
    unfold fat_val at 1. rewrite (u_fat _ _ _ _ _ Hu2) by (lia || set_solver).
    change (fat_i fs k 0 prev) with (fat_val fs k prev). rewrite Hp, Hvp. split; [done|lia].
  - eapply Forall_impl; [exact Hr'|]. intros x. by rewrite (u_nb _ _ _ _ _ Hu).
  - rewrite <- app_assoc. simpl. eapply (chain_snoc fs k k3); [done|done| |done|done|].
    + set_solver.
    + apply chain_cons; [rewrite (u_nb _ _ _ _ _ Hu); lia|]. rewrite Hvc. by apply chain_nil.
  - exists p, q, k4. rewrite <- app_assoc in Hch4. split; [|split; [|split; [done|split; [|done]]]].
    + cbn [for_acc]. rewrite (bind_ok _ _ _ (head, c, c) k3).
      * done.
      * unfold alloc_step. erewrite bind_ok by (rewrite find_free_cluster_ok, Hf; done).
        rewrite (bind_ok _ _ _ _ _ Hk1), (bind_ok _ _ _ _ _ Hk2).
        destruct (Z.eqb_spec prev 0); [lia|]. by rewrite (bind_ok _ _ _ _ _ Hk3).
    + eapply upd_weaken; [by eapply upd_trans|set_solver..].
    + intros x [->|Hx]%elem_of_cons; [|by apply Hz4].
      pose proof (frees_NoDup fs k) as Hnd. rewrite Hf in Hnd. apply NoDup_cons in Hnd as [Hnd _].
      rewrite (u_data _ _ _ _ _ Hu4), (u_data _ _ _ _ _ Hu3); [done|..].
      * rewrite (u_nb _ _ _ _ _ Hu2). lia.
      * set_solver.
      * rewrite (u_nb _ _ _ _ _ Hu). lia.
      * set_solver.
Qed.

(** [n] clusters: the first [n] free ones, linked in order, zeroed; nothing else changes. *)
Lemma allocate_chain_ok fs k n fl rest :
  geom fs (nblocks k) -> disk_wf k -> Z.of_nat (length fl) = n -> 0 < n -> frees fs k = fl ++ rest ->
  Forall (fun c => c < nclusters fs (nblocks k)) fl ->
  exists head k', allocate_chain fs n k = (Ok head, k') /\ 2 <= head /\
    upd fs k k' fl fl /\ chain fs k' head fl /\
    (forall c, c ∈ fl -> cdata fs k' c = zeros (cb fs)) /\ frees fs k' = rest.
Proof.
  intros G Hwf Hlen Hn Hf Hr. destruct fl as [|c fl]; [simpl in Hlen; lia|].
  pose proof (g_nf _ _ G). destruct (frees_head _ _ _ _ Hf) as [Hrc H0].
  pose proof Hr as Hr'. apply Forall_cons in Hr' as [Hc Hr'].
  destruct (claim_ok fs k c (fl ++ rest)) as (k1 & k2 & Hk1 & Hk2 & Hu2 & Hv2 & Hd2 & Hf2); [done..|].
  pose proof (geom_upd _ _ _ _ _ Hu2 G) as G2. pose proof (u_wf _ _ _ _ _ Hu2) as Hwf2.
  assert (range0 n = 0 :: seqZ 1 (n - 1)) as Hrng by (unfold range0; rewrite seqZ_cons by lia; done).
  destruct (alloc_loop_ok (seqZ 1 (n - 1)) fs k2 c [] c c fl rest)
    as (p & q & k3 & Hk3 & Hu3 & Hch3 & Hz3 & Hf3); try done.
  - rewrite length_seqZ. simpl in Hlen. lia.
  - by rewrite (u_nb _ _ _ _ _ Hu2).
  - apply chain_cons; [rewrite (u_nb _ _ _ _ _ Hu2); lia|]. rewrite Hv2. by apply chain_nil.
  - pose proof (geom_upd _ _ _ _ _ Hu3 G2) as G3. pose proof (u_wf _ _ _ _ _ Hu3) as Hwf3.
    destruct (update_fsinfo_ok fs k3 G3 Hwf3 (- n) q) as (k4 & Hk4 & Hu4).
    pose proof (upd_trans _ _ _ _ _ _ _ _ (upd_trans _ _ _ _ _ _ _ _ Hu2 Hu3) Hu4) as Hu.
    exists c, k4. split; [|split; [lia|split; [|split; [|split]]]].
    + unfold allocate_chain. destruct (Z.eqb_spec n 0); [lia|]. rewrite Hrng. cbn [for_acc].
      rewrite (bind_ok _ _ _ (c, p, q) k3).
      * assert (as_i32 n = n) as Hi.
        { pose proof (length_frees fs k) as Hl. rewrite Hf in Hl. rewrite length_app in Hl.
          pose proof (nfat_bound fs _ G). unfold as_i32, EOC_THRESHOLD in *.
          rewrite Z.mod_small by lia. lia. }
        rewrite Hi. unfold i32_neg. rewrite decide_False by lia.
        erewrite bind_ok by done. by rewrite (bind_ok _ _ _ _ _ Hk4).
      * rewrite (bind_ok _ _ _ (c, c, c) k2); [done|].
        unfold alloc_step. erewrite bind_ok by (rewrite find_free_cluster_ok, Hf; done).
        by rewrite (bind_ok _ _ _ _ _ Hk1), (bind_ok _ _ _ _ _ Hk2).
    + eapply upd_weaken; [exact Hu|set_solver..].
    + eapply chain_frame; [|exact Hu4|set_solver|done]. done.
    + intros x Hx.
      assert (2 <= x < nclusters fs (nblocks k)).
      { rewrite Forall_forall in Hr. specialize (Hr x Hx).
        assert (x ∈ frees fs k) as Hin%elem_of_frees by (rewrite Hf; set_solver). lia. }
      rewrite (u_data _ _ _ _ _ Hu4) by (rewrite ?(u_nb _ _ _ _ _ Hu3), ?(u_nb _ _ _ _ _ Hu2); (done || set_solver)).
      apply elem_of_cons in Hx as [->|Hx]; [|by apply Hz3].
      pose proof (frees_NoDup fs k) as Hnd. rewrite Hf in Hnd. apply NoDup_cons in Hnd as [Hnd _].
      rewrite (u_data _ _ _ _ _ Hu3); [done|by rewrite (u_nb _ _ _ _ _ Hu2)|set_solver].
    + rewrite <- Hf3. eapply frees_same; [done|lia|set_solver].
Qed.

(** ** [write_chain] *)

(** A cluster-sized buffer holding [src] and zeros. *)
Lemma put_zeros {S E} n src (s : S) :
  (length src <= n)%nat ->
  put (E:=E) 0 src (zeros n) s = (Ok (src ++ zeros (n - length src)), s).
Proof.
  intros Hl. rewrite put_ok by (rewrite zeros_length; lia). do 2 f_equal.
  unfold splice, zeros. rewrite take_0. simpl. f_equal. apply drop_replicate.
Qed.

Lemma write_chain_go_ok fuel fs k c l off data :
  geom fs (nblocks k) -> disk_wf k -> chain fs k c l -> (off <= length data)%nat ->
  (length data <= off + length l * cb fs)%nat -> (length data - off <= fuel)%nat ->
  exists k', write_chain_go fuel fs (cb fs) c off data k = (Ok tt, k') /\
    upd fs k k' [] l /\
    take (length data - off) (contents fs k' l) = drop off data.
Proof.
  revert fuel k c off. induction l as [|x l IH]; intros fuel k c off G Hwf H Hoff Hlen Hfuel.
  { assert (off = length data) as -> by (simpl in Hlen; lia). exists k.
    split; [|split; [by apply upd_refl|]].
    - destruct fuel; cbn [write_chain_go]; rewrite Nat.ltb_irrefl; done.
    - rewrite Nat.sub_diag, drop_all. done. }
  inversion H as [|? ? Hx Hl]; subst. pose proof (cb_bounds fs k G) as Hcb.
  pose proof (chain_NoDup _ _ _ _ G H) as Hnd. apply NoDup_cons in Hnd as [Hnx _].
  destruct (decide (off = length data)) as [->|Hne].
  { exists k. split; [|split].
    - destruct fuel; cbn [write_chain_go]; rewrite Nat.ltb_irrefl; done.
    - eapply upd_weaken; [by apply upd_refl|set_solver..].
    - by rewrite Nat.sub_diag, drop_all, take_0. }
  destruct fuel as [|fuel]; [lia|]. cbn [write_chain_go].
  replace (off <? length data)%nat with true by (symmetry; apply Nat.ltb_lt; lia).
  rewrite (in_chain_cluster _ _ _ G Hx). cbn [andb].
  set (e := ((off + cb fs) `min` length data)%nat). set (src := sub_bytes off (e - off) data).
  assert (length src = (e - off)%nat) as Hsrc by (apply length_sub_bytes; lia).
  erewrite bind_ok by (apply slice_ok; lia). fold src.
  erewrite bind_ok by (apply put_zeros; lia).
  destruct (write_cluster_ok fs k G Hwf x (src ++ zeros (cb fs - length src))) as (k1 & Hk1 & Hu1 & Hd1);
    [done|rewrite length_app, zeros_length; lia|].
  rewrite (bind_ok _ _ _ _ _ Hk1).
  pose proof (geom_upd _ _ _ _ _ Hu1 G) as G1. pose proof (u_wf _ _ _ _ _ Hu1) as Hwf1.
  case_match eqn:He; [apply Nat.leb_le in He|apply Nat.leb_gt in He].
  - exists k1. split; [done|]. split; [eapply upd_weaken; [done|set_solver..]|].
    change (contents fs k1 (x :: l)) with (cdata fs k1 x ++ contents fs k1 l).
    rewrite Hd1, <- app_assoc. assert (length src = (length data - off)%nat) as Hs by lia.
    rewrite take_app_le, take_ge by lia. unfold src, sub_bytes. apply take_ge. rewrite length_drop. lia.
  - pose proof (g_nf _ _ G). unfold nclusters in Hx.
    erewrite bind_ok by (apply next_cluster_ok; [done|done|lia]).
    assert (fat_val fs k1 x = fat_val fs k x) as Hv.
    { unfold fat_val. apply (u_fat _ _ _ _ _ Hu1); [lia|lia|set_solver]. }
    rewrite Hv.
    destruct (IH fuel k1 (fat_val fs k x) e) as (k2 & Hk2 & Hu2 & Hd2); try done; try lia.
    { by apply (chain_frame fs k k1 [] [x]); [| |set_solver|]. }
    { cbn [length] in Hlen. lia. }
    exists k2. split; [done|]. split; [eapply upd_weaken; [by eapply upd_trans|set_solver..]|].
    change (contents fs k2 (x :: l)) with (cdata fs k2 x ++ contents fs k2 l).
    rewrite (u_data _ _ _ _ _ Hu2), Hd1; [|rewrite (u_nb _ _ _ _ _ Hu1); unfold nclusters; lia|done].
    assert (length src = cb fs) as Hs by lia. rewrite Hs, Nat.sub_diag. cbn [zeros replicate].
    rewrite app_nil_r, take_app_ge, Hs by lia.
    replace (length data - off - cb fs)%nat with (length data - e)%nat by lia.
    rewrite Hd2. unfold src, sub_bytes. replace (drop e data) with (drop (e - off) (drop off data))
      by (rewrite drop_drop; f_equal; lia). apply take_drop.
Qed.

(** Writing into a chain that is long enough stores the data from its start. *)
Lemma write_chain_ok fs k c l data :
  geom fs (nblocks k) -> disk_wf k -> chain fs k c l -> (length data <= length l * cb fs)%nat ->
  exists k', write_chain fs c data k = (Ok tt, k') /\ upd fs k k' [] l /\
    take (length data) (contents fs k' l) = data.
Proof.
  intros G Hwf H Hlen. unfold write_chain. erewrite bind_ok by (by apply cluster_bytes_ok).
  destruct (write_chain_go_ok (length data) fs k c l 0 data) as (k' & Hk' & Hu & Hd); try done; try lia.
  exists k'. rewrite Nat.sub_0_r in Hd. auto.
Qed.
