(* ===== verification/FatDir.v ===== *)
(** * FAT32 directories on an abstract disk

    [read_dir], [add_dir_entry] and [delete_dir_entry] of src/kernel/src/fs/fat.rs in terms of the
    list of 32-byte slots a directory's chain holds. Both updates scan the slots for the first one a
    test accepts and rewrite it; [scan] is that scan on the slot list. *)

From S2P Require Import Prelude.
From S2P Require Import Vfs.
From S2P Require Import Block.
From S2P Require Import Fat.
From S2P Require Import FatName.
From S2P Require Import FatTable.
From S2P Require Import FatChain.

Open Scope Z_scope.

(** Rewrite the first slot [f] accepts; [None] when it accepts none. *)
Fixpoint scan (f : bytes -> option bytes) (slots : list bytes) : option (list bytes) :=
  match slots with
  | [] => None
  | s :: l => match f s with Some s' => Some (s' :: l) | None => cons s <$> scan f l end
  end.

(** What [add_dir_entry] does to a slot: takes it if it is unused or deleted. *)
Definition add_slot (entry s : bytes) : option bytes := if slot_free s then Some entry else None.

(** What [delete_dir_entry] does: stops at the end marker, marks a matching slot deleted. *)
Definition delete_slot (name s : bytes) : option bytes :=
  if chunk_byte s 0 =? 0 then Some s
  else if slot_skipped s then None
  else if eq_ignore_case (decode_short_name s) name then Some (splice 0 [of_u8 0xE5] s)
  else None.

(** The slots of a sector and of a chain. *)
Definition slots (fs : FatFs) (k : Disk) (l : list Z) : list bytes := chunks_exact 32 (contents fs k l).

Lemma scan_app f a b :
  scan f (a ++ b) =
    match scan f a with Some a' => Some (a' ++ b) | None => app a <$> scan f b end.
Proof.
  induction a as [|s a IH]; simpl; [by destruct (scan f b)|].
  destruct (f s); [done|]. rewrite IH. destruct (scan f a); [done|]. by destruct (scan f b).
Qed.

Lemma scan_Some f l l' :
  scan f l = Some l' ->
  exists a s b s', l = a ++ s :: b /\ l' = a ++ s' :: b /\ f s = Some s' /\
    Forall (fun s => f s = None) a.
Proof.
  revert l'. induction l as [|s l IH]; intros l' H; simpl in H; [done|].
  destruct (f s) as [s'|] eqn:Hs; simplify_eq.
  - by exists [], s, l, s'.
  - destruct (scan f l) as [l1|] eqn:Hl; simplify_eq/=.
    destruct (IH l1 eq_refl) as (a & t & b & t' & -> & -> & Ht & Ha).
    exists (s :: a), t, b, t'. by repeat constructor.
Qed.

Lemma scan_None f l : scan f l = None <-> Forall (fun s => f s = None) l.
Proof.
  induction l as [|s l IH]; simpl; [by split|]. rewrite Forall_cons, <- IH.
  destruct (f s); [naive_solver|]. destruct (scan f l); naive_solver.
Qed.

(** ** Chunks *)

Lemma chunks_go_app m n a b :
  length a = (m * 32)%nat -> chunks_go (m + n) 32 (a ++ b) = chunks_go m 32 a ++ chunks_go n 32 b.
Proof.
  revert a. induction m as [|m IH]; intros a Ha.
  { by destruct a. }
  cbn [Nat.add chunks_go app]. rewrite take_app_le, drop_app_le by lia.
  rewrite IH; [done|]. rewrite length_drop. lia.
Qed.

Lemma chunks_exact_go m l : length l = (m * 32)%nat -> chunks_exact 32 l = chunks_go m 32 l.
Proof.
  intros Hl. unfold chunks_exact. by rewrite Hl, Nat.div_mul.
Qed.

Lemma chunks_exact_app m n a b :
  length a = (m * 32)%nat -> length b = (n * 32)%nat ->
  chunks_exact 32 (a ++ b) = chunks_exact 32 a ++ chunks_exact 32 b.
Proof.
  intros Ha Hb. rewrite !(chunks_exact_go m a), !(chunks_exact_go n b) by done.
  rewrite (chunks_exact_go (m + n)) by (rewrite length_app; lia). by apply chunks_go_app.
Qed.

Lemma chunks_go_length m l :
  (m * 32 <= length l)%nat -> Forall (fun s => length s = 32%nat) (chunks_go m 32 l).
Proof.
  revert l. induction m as [|m IH]; intros l Hl; [constructor|]. cbn [chunks_go]. constructor.
  - rewrite length_take. lia.
  - apply IH. rewrite length_drop. lia.
Qed.

(** ** Scanning a sector *)

(** Only sector [lba] changed, to [b]. *)
Definition sector_upd (k k' : Disk) (lba : Z) (b : bytes) : Prop :=
  nblocks k' = nblocks k /\ forall l, dget k' l = if decide (lba = l) then b else dget k l.

(** A test that keeps the slot size. *)
Definition sized (f : bytes -> option bytes) : Prop :=
  forall s s', length s = 32%nat -> f s = Some s' -> length s' = 32%nat.

(** A loop body that implements [f] on the slots of sector [lba]. *)
Definition slot_body (f : bytes -> option bytes) (lba : Z) (k : Disk)
    (body : nat -> M Disk FsError (option unit)) : Prop :=
  forall j, (j < 16)%nat ->
    match f (sub_bytes (j * 32) 32 (dget k lba)) with
    | None => body j k = (Ok None, k)
    | Some s' => exists k', body j k = (Ok (Some tt), k') /\
        sector_upd k k' lba (splice (j * 32) s' (dget k lba))
    end.

Lemma sub_drop_splice i s b :
  (i + length s <= length b)%nat ->
  take i (splice i s b) = take i b /\ drop i (splice i s b) = s ++ drop (i + length s) b.
Proof.
  intros Hl. unfold splice. split.
  - rewrite take_app_le by (rewrite length_take; lia). by rewrite take_take, Nat.min_id.
  - rewrite drop_app_ge by (rewrite length_take; lia). rewrite length_take.
    replace (i - i `min` length b)%nat with 0%nat by lia. by rewrite drop_0.
Qed.

Lemma slot_loop_ok f lba k body i n :
  sized f -> disk_wf k -> slot_body f lba k body -> (i + n = 16)%nat ->
  match scan f (chunks_go n 32 (drop (i * 32) (dget k lba))) with
  | None => for_ret (seq i n) body k = (Ok None, k)
  | Some S' => exists k' b, for_ret (seq i n) body k = (Ok (Some tt), k') /\
      sector_upd k k' lba b /\ length b = BLOCK_SIZE /\
      take (i * 32) b = take (i * 32) (dget k lba) /\ chunks_go n 32 (drop (i * 32) b) = S'
  end.
Proof.
  intros Hs Hwf Hb. revert i. induction n as [|n IH]; intros i Hi; [done|].
  cbn [chunks_go scan seq for_ret]. pose proof (Hb i ltac:(lia)) as Hbi. unfold sub_bytes in Hbi.
  rewrite drop_drop. replace (i * 32 + 32)%nat with (S i * 32)%nat by lia.
  set (s := take 32 (drop (i * 32) (dget k lba))) in *.
  assert (length s = 32%nat) as Hls.
  { unfold s. rewrite length_take, length_drop, Hwf. unfold BLOCK_SIZE. lia. }
  destruct (f s) as [s'|] eqn:Hf.
  - destruct Hbi as (k' & Hk' & Hu). pose proof (Hs _ _ Hls Hf) as Hls'.
    assert (i * 32 + length s' <= length (dget k lba))%nat as Hfit.
    { rewrite Hls', Hwf. unfold BLOCK_SIZE. lia. }
    destruct (sub_drop_splice _ _ _ Hfit) as [Ht Hd].
    exists k', (splice (i * 32) s' (dget k lba)). rewrite (bind_ok _ _ _ _ _ Hk').
    split; [done|]. split; [done|]. split; [by rewrite length_splice|]. split; [done|].
    rewrite Hd. rewrite take_app_le, take_ge, drop_app_ge by lia. rewrite Hls', Nat.sub_diag, drop_0.
    do 3 f_equal. lia.
  - rewrite (bind_ok _ _ _ _ _ Hbi). specialize (IH (S i) ltac:(lia)).
    destruct (scan f _) as [S'|]; [|done]. destruct IH as (k' & b & Hk' & Hu & Hlb & Ht & Hc).
    exists k', b. split; [done|]. split; [done|]. split; [done|].
    assert (forall m (b' : bytes), m <= S i * 32 -> take m b' = take m (take (S i * 32) b'))%nat as Htt.
    { intros m b' Hm. rewrite take_take. f_equal. lia. }
    split; [rewrite Htt, Ht, <- Htt by lia; done|].
    rewrite drop_drop. replace (i * 32 + 32)%nat with (S i * 32)%nat by lia. rewrite Hc. f_equal.
    unfold s. rewrite !take_drop_commute. replace (i * 32 + 32)%nat with (S i * 32)%nat by lia. by rewrite Ht.
Qed.

(** A sector operation that implements [f] on the sector's slots. *)
Definition sector_op (f : bytes -> option bytes) (op : Z -> M Disk FsError (option unit)) : Prop :=
  forall k lba, disk_wf k -> 0 <= lba < nblocks k ->
    match scan f (chunks_exact 32 (dget k lba)) with
    | None => op lba k = (Ok None, k)
    | Some S' => exists k' b, op lba k = (Ok (Some tt), k') /\ sector_upd k k' lba b /\
        length b = BLOCK_SIZE /\ chunks_exact 32 b = S'
    end.

Lemma sector_loop_op f op (body : bytes -> Z -> nat -> M Disk FsError (option unit)) :
  sized f ->
  (forall lba, op lba = let* buf := read_sector lba in for_ret (seq 0 (BLOCK_SIZE / 32)) (body buf lba)) ->
  (forall k lba, disk_wf k -> 0 <= lba < nblocks k -> slot_body f lba k (body (dget k lba) lba)) ->
  sector_op f op.
Proof.
  intros Hs Hop Hb k lba Hwf Hl. rewrite Hop. erewrite bind_ok by (by apply read_sector_ok).
  pose proof (slot_loop_ok f lba k (body (dget k lba) lba) 0 16 Hs Hwf (Hb k lba Hwf Hl) eq_refl) as H.
  change (0 * 32)%nat with 0%nat in H. rewrite drop_0 in H.
  rewrite (chunks_exact_go 16 (dget k lba)) by apply Hwf.
  destruct (scan f _) as [S'|]; [|done].
  destruct H as (k' & b & Hk' & Hu & Hlb & _ & Hc). exists k', b.
  rewrite drop_0 in Hc. by rewrite (chunks_exact_go 16 b).
Qed.

Lemma sector_upd_write k lba b :
  0 <= lba < nblocks k -> length b = BLOCK_SIZE ->
  (write_sector lba b ;;; ret (Some tt)) k = (Ok (Some tt), dput k lba b) /\
  sector_upd k (dput k lba b) lba b.
Proof.
  intros Hl Hb. erewrite bind_ok by (by apply write_sector_ok). split; [done|].
  split; [done|]. intros l. by rewrite dget_dput.
Qed.

Lemma slot_first i b :
  (i + 32 <= length b)%nat -> le_val (sub_bytes i 1 b) = chunk_byte (sub_bytes i 32 b) 0.
Proof.
  intros Hl. unfold chunk_byte, sub_bytes. destruct (drop i b) as [|x r] eqn:Hd.
  - apply (f_equal length) in Hd. rewrite length_drop in Hd. simpl in Hd. lia.
  - simpl. lia.
Qed.

Lemma add_in_sector_op entry :
  length entry = 32%nat -> sector_op (add_slot entry) (add_in_sector entry).
Proof.
  intros He. eapply sector_loop_op; [|intros lba; reflexivity|].
  - intros s s' _. unfold add_slot. by case_match; intros; simplify_eq.
  - intros k lba Hwf Hl j Hj. cbv beta zeta. pose proof (Hwf lba) as Hlen.
    assert (j * 32 + 32 <= length (dget k lba))%nat by (rewrite Hlen; unfold BLOCK_SIZE; lia).
    erewrite !(bind_ok (get_le _ _ _)) by (apply get_le_ok; lia). rewrite slot_first by lia.
    unfold add_slot. fold (slot_free (sub_bytes (j * 32) 32 (dget k lba))).
    destruct (slot_free _); [|done].
    erewrite bind_ok by (apply put_ok; lia). eexists. apply sector_upd_write; [done|].
    rewrite length_splice; lia.
Qed.

Lemma splice_self i b : (i + 32 <= length b)%nat -> splice i (sub_bytes i 32 b) b = b.
Proof.
  intros Hl. unfold splice. rewrite length_sub_bytes by lia. unfold sub_bytes.
  rewrite <- (drop_drop b 32 i), take_drop. apply take_drop.
Qed.

Lemma splice_first i x b :
  (i + 32 <= length b)%nat -> splice i (splice 0 [x] (sub_bytes i 32 b)) b = splice i [x] b.
Proof.
  intros Hl. unfold splice at 1. rewrite length_splice, length_sub_bytes
    by (rewrite ?length_sub_bytes; simpl; lia). unfold splice, sub_bytes. f_equal.
  rewrite take_0. simpl. rewrite <- (drop_drop b 32 i), <- (drop_drop b 1 i).
  destruct (drop i b) as [|y r] eqn:Hd.
  { apply (f_equal length) in Hd. rewrite length_drop in Hd. simpl in Hd. lia. }
  simpl. by rewrite !drop_0, take_drop.
Qed.

Lemma delete_in_sector_op name : sector_op (delete_slot name) (delete_in_sector name).
Proof.
  eapply sector_loop_op; [|intros lba; reflexivity|].
  - intros s s' Hs. unfold delete_slot. repeat case_match; intros; simplify_eq; try done.
    rewrite length_splice; simpl; lia.
  - intros k lba Hwf Hl j Hj. cbv beta zeta. pose proof (Hwf lba) as Hlen.
    assert (j * 32 + 32 <= length (dget k lba))%nat by (rewrite Hlen; unfold BLOCK_SIZE; lia).
    erewrite !(bind_ok (slice _ _ _)) by (apply slice_ok; lia).
    set (s := sub_bytes (j * 32) 32 (dget k lba)). unfold delete_slot.
    destruct (chunk_byte s 0 =? 0).
    { exists k. split; [done|]. split; [done|]. intros l. case_decide; [subst l|done].
      unfold s. by rewrite splice_self. }
    destruct (slot_skipped s); [done|]. destruct (eq_ignore_case _ _); [|done].
    erewrite bind_ok by (apply put_ok; simpl; lia). eexists.
    unfold s. rewrite splice_first by done.
    apply sector_upd_write; [done|]. rewrite length_splice; simpl; lia.
Qed.

(** ** Scanning a cluster *)

Lemma sector_upd_wf k k' lba b :
  disk_wf k -> length b = BLOCK_SIZE -> sector_upd k k' lba b -> disk_wf k'.
Proof.
  intros Hwf Hb [_ H] l. rewrite H. by case_decide.
Qed.

Lemma sectors_scan_ok f op k lba secs :
  sector_op f op -> disk_wf k -> NoDup secs -> Forall (fun s => 0 <= lba + s < nblocks k) secs ->
  match scan f (concat (map (fun s => chunks_exact 32 (dget k (lba + s))) secs)) with
  | None => for_ret secs (fun s => op (lba + s)) k = (Ok None, k)
  | Some S' => exists k' s b, for_ret secs (fun s => op (lba + s)) k = (Ok (Some tt), k') /\ s ∈ secs /\
      sector_upd k k' (lba + s) b /\ length b = BLOCK_SIZE /\
      concat (map (fun s => chunks_exact 32 (dget k' (lba + s))) secs) = S'
  end.
Proof.
  intros Hop Hwf Hnd Hr. induction secs as [|s secs IH]; [done|].
  apply NoDup_cons in Hnd as [Hns Hnd]. apply Forall_cons in Hr as [Hs Hr].
  specialize (IH Hnd Hr). cbn [map concat for_ret]. rewrite scan_app.
  pose proof (Hop k (lba + s) Hwf Hs) as Ho. destruct (scan f (chunks_exact 32 (dget k (lba + s)))) as [S1|].
  - destruct Ho as (k' & b & Hk' & Hu & Hb & Hc). exists k', s, b. rewrite (bind_ok _ _ _ _ _ Hk').
    split; [done|]. split; [set_solver|]. split; [done|]. split; [done|].
    destruct Hu as [_ Hu]. rewrite (Hu (lba + s)), decide_True, Hc by done. do 2 f_equal.
    apply map_ext_in. intros s' Hin%list_elem_of_In. rewrite Hu, decide_False; [done|].
    intros Heq. apply Hns. by replace s with s' by lia.
  - rewrite (bind_ok _ _ _ _ _ Ho). destruct (scan f _) as [S2|]; [|done]. simpl.
    destruct IH as (k' & s' & b & Hk' & Hin & Hu & Hb & Hc). exists k', s', b.
    split; [done|]. split; [set_solver|]. split; [done|]. split; [done|]. rewrite Hc. f_equal.
    destruct Hu as [_ Hu]. rewrite Hu, decide_False; [done|].
    intros Heq. apply Hns. by replace s with s' by lia.
Qed.

Section cluster_scan.
Context (fs : FatFs) (k : Disk) (G : geom fs (nblocks k)) (Hwf : disk_wf k).

(** A sector change inside cluster [c] changes that cluster only. *)
Lemma sector_upd_cluster k' c s b :
  2 <= c < nclusters fs (nblocks k) -> 0 <= s < sectors_per_cluster fs ->
  length b = BLOCK_SIZE -> sector_upd k k' (clba fs c + s) b -> upd fs k k' [] [c].
Proof using G Hwf.
  intros Hc Hs Hb Hu. pose proof (sector_upd_wf _ _ _ _ Hwf Hb Hu) as Hwf'. destruct Hu as [Hnb Hu].
  pose proof (clba_bound fs (nblocks k) G c Hc). pose proof (g_nf _ _ G).
  pose proof (g_data _ _ G). pose proof (g_rsv _ _ G). pose proof (g_spf _ _ G).
  assert (forall i x, 0 <= i < num_fats fs -> 0 <= x < nfat fs -> fat_i fs k' i x = fat_i fs k i x) as Hf.
  { intros i x Hi Hx. unfold fat_i. rewrite Hu, decide_False; [done|].
    pose proof (fat_lba_bound fs (nblocks k) G i x Hi Hx). lia. }
  split; [done|done|auto| | |].
  - intros x Hx Hn. apply cdata_ext. intros s' Hs'. rewrite Hu, decide_False; [done|].
    intros Heq. apply (clba_disjoint fs c x s s'); [set_solver|done|done|done].
  - rewrite Hu, decide_False; [done|nia].
  - apply mirrored_same; [lia|done].
Qed.

Lemma cdata_slots c :
  chunks_exact 32 (cdata fs k c) =
    concat (map (fun s => chunks_exact 32 (dget k (clba fs c + s))) (seqZ 0 (sectors_per_cluster fs))).
Proof using Hwf.
  unfold cdata. generalize (seqZ 0 (sectors_per_cluster fs)). intros l.
  assert (forall l, length (concat (map (fun s => dget k (clba fs c + s)) l)) = (length l * 16 * 32)%nat)
    as Hlen.
  { induction l0 as [|s l0 IH]; [done|]. cbn [map concat length]. rewrite length_app, IH, Hwf.
    unfold BLOCK_SIZE. lia. }
  induction l as [|s l IH]; [done|]. cbn [map concat].
  rewrite (chunks_exact_app 16 (length l * 16)), IH; [done|by rewrite Hwf|by rewrite Hlen].
Qed.

End cluster_scan.

Lemma cluster_scan_ok fs k f op c :
  geom fs (nblocks k) -> disk_wf k -> sector_op f op -> 2 <= c < nclusters fs (nblocks k) ->
  match scan f (chunks_exact 32 (cdata fs k c)) with
  | None => for_ret (range0 (sectors_per_cluster fs)) (fun s => op (clba fs c + s)) k = (Ok None, k)
  | Some S' => exists k',
      for_ret (range0 (sectors_per_cluster fs)) (fun s => op (clba fs c + s)) k = (Ok (Some tt), k') /\
      upd fs k k' [] [c] /\ chunks_exact 32 (cdata fs k' c) = S'
  end.
Proof.
  intros G Hwf Hop Hc. rewrite cdata_slots by done. pose proof (clba_bound fs (nblocks k) G c Hc).
  pose proof (g_nf _ _ G). pose proof (g_data _ _ G). pose proof (g_rsv _ _ G). pose proof (g_spf _ _ G).
  assert (Forall (fun s => 0 <= clba fs c + s < nblocks k) (range0 (sectors_per_cluster fs))) as Hr.
  { apply Forall_forall. intros s Hs%elem_of_seqZ. nia. }
  pose proof (sectors_scan_ok f op k (clba fs c) _ Hop Hwf (NoDup_seqZ _ _) Hr) as H'.
  unfold range0 in *. destruct (scan f _) as [S'|]; [|done].
  destruct H' as (k' & s & b & Hk' & Hs%elem_of_seqZ & Hu & Hb & Hcs). exists k'.
  assert (upd fs k k' [] [c]) as Hupd by (by eapply sector_upd_cluster).
  split; [done|]. split; [done|]. by rewrite cdata_slots by apply Hupd.
Qed.

(** ** Directory chains *)

Lemma slots_cons fs k c l :
  disk_wf k -> slots fs k (c :: l) = chunks_exact 32 (cdata fs k c) ++ slots fs k l.
Proof.
  intros Hwf. unfold slots. change (contents fs k (c :: l)) with (cdata fs k c ++ contents fs k l).
  assert (cb fs = Z.to_nat (sectors_per_cluster fs) * 16 * 32)%nat as Hcb by (unfold cb, BLOCK_SIZE; lia).
  apply (chunks_exact_app (Z.to_nat (sectors_per_cluster fs) * 16)
    (length l * (Z.to_nat (sectors_per_cluster fs) * 16))).
  - by rewrite length_cdata.
  - rewrite length_contents by done. lia.
Qed.

Lemma slots_app fs k l1 l2 : disk_wf k -> slots fs k (l1 ++ l2) = slots fs k l1 ++ slots fs k l2.
Proof.
  intros Hwf. induction l1 as [|c l1 IH]; [done|]. simpl. by rewrite !slots_cons, IH, app_assoc.
Qed.

Lemma slots_frame fs k k' F C l :
  upd fs k k' F C -> C ## l -> Forall (fun x => 2 <= x < nclusters fs (nblocks k)) l ->
  slots fs k' l = slots fs k l.
Proof.
  intros. unfold slots. by erewrite contents_frame.
Qed.

(** [read_dir] parses the slots of the directory's chain. *)
Lemma read_dir_ok fs k c l :
  geom fs (nblocks k) -> disk_wf k -> chain fs k c l ->
  read_dir fs c k = (Ok (parse_dir (slots fs k l)), k).
Proof.
  intros G Hwf H. unfold read_dir. by erewrite bind_ok by (by apply read_chain_dir).
Qed.

Lemma find_in_dir_ok fs k c l name :
  geom fs (nblocks k) -> disk_wf k -> chain fs k c l ->
  find_in_dir fs c name k = (Ok (find_entry name (parse_dir (slots fs k l))), k).
Proof.
  intros G Hwf H. unfold find_in_dir. by erewrite bind_ok by (by apply read_dir_ok).
Qed.

(** The end-of-chain test the directory walks use. *)
Lemma end_test c : ((c <? 2) || (EOC_THRESHOLD <=? c)) = negb (in_chain c).
Proof.
  unfold in_chain. lia.
Qed.

(** One cluster of a directory walk: the scan of its slots, with the first sector computed. *)
Lemma dir_cluster_ok fs k f op c :
  geom fs (nblocks k) -> disk_wf k -> sector_op f op -> 2 <= c < nclusters fs (nblocks k) ->
  cluster_to_lba fs c k = (Ok (clba fs c), k) /\
  match scan f (chunks_exact 32 (cdata fs k c)) with
  | None => for_ret (range0 (sectors_per_cluster fs)) (fun s => op (clba fs c + s)) k = (Ok None, k) /\
      next_cluster fs c k = (Ok (fat_val fs k c), k)
  | Some S' => exists k',
      for_ret (range0 (sectors_per_cluster fs)) (fun s => op (clba fs c + s)) k = (Ok (Some tt), k') /\
      upd fs k k' [] [c] /\ chunks_exact 32 (cdata fs k' c) = S'
  end.
Proof.
  intros G Hwf Hop Hc. split; [by apply cluster_to_lba_ok|].
  pose proof (cluster_scan_ok fs k f op c G Hwf Hop Hc) as H. destruct (scan f _); [done|].
  split; [done|]. apply next_cluster_ok; [done|done|]. unfold nclusters in Hc. lia.
Qed.

(** The slots of a chain whose first or a later cluster was rewritten. *)
Lemma slots_cons_head fs k k' c l S' :
  disk_wf k -> upd fs k k' [] [c] -> Forall (fun x => 2 <= x < nclusters fs (nblocks k)) l -> c ∉ l ->
  chunks_exact 32 (cdata fs k' c) = S' -> slots fs k' (c :: l) = S' ++ slots fs k l.
Proof.
  intros Hwf Hu Hl Hn Hc. rewrite slots_cons by apply Hu. rewrite Hc. f_equal.
  eapply slots_frame; [done|set_solver|done].
Qed.

Lemma slots_cons_tail fs k k' F C c l S' :
  disk_wf k -> upd fs k k' F C -> 2 <= c < nclusters fs (nblocks k) -> c ∉ C ->
  slots fs k' l = S' -> slots fs k' (c :: l) = chunks_exact 32 (cdata fs k c) ++ S'.
Proof.
  intros Hwf Hu Hc Hn Hs. rewrite slots_cons, Hs by apply Hu. do 2 f_equal.
  by apply (u_data _ _ _ _ _ Hu).
Qed.

Section walks.
Context (fs : FatFs).

(** The outcome of a directory walk, without a change to the chain. *)
Lemma delete_dir_entry_go_ok fuel k name c l :
  geom fs (nblocks k) -> disk_wf k -> chain fs k c l -> l <> [] -> (length l <= fuel)%nat ->
  match scan (delete_slot name) (slots fs k l) with
  | None => delete_dir_entry_go fuel fs c name k = (Err NotFound, k)
  | Some S' => exists k', delete_dir_entry_go fuel fs c name k = (Ok tt, k') /\
      upd fs k k' [] l /\ slots fs k' l = S'
  end.
Proof.
  intros G Hwf H Hne. revert fuel. induction H as [|c l Hc Hl IH]; intros fuel Hf; [done|].
  destruct fuel as [|fuel]; [simpl in Hf; lia|]. cbn [delete_dir_entry_go].
  destruct (dir_cluster_ok fs k _ _ c G Hwf (delete_in_sector_op name) Hc) as [Hlba Hscan].
  pose proof (chain_NoDup _ _ _ _ G (chain_cons _ _ _ _ Hc Hl)) as Hnd.
  apply NoDup_cons in Hnd as [Hn _].
  rewrite (bind_ok _ _ _ _ _ Hlba), slots_cons, scan_app by done.
  destruct (scan _ (chunks_exact _ _)) as [S1|].
  - destruct Hscan as (k' & Hk' & Hu & Hs). exists k'. rewrite (bind_ok _ _ _ _ _ Hk').
    split; [done|]. split; [eapply upd_weaken; [done|set_solver..]|].
    eapply slots_cons_head; [done|done| |done|done]. by eapply chain_range.
  - destruct Hscan as [Hk' Hnx]. rewrite (bind_ok _ _ _ _ _ Hk'), (bind_ok _ _ _ _ _ Hnx), end_test.
    destruct l as [|y l].
    + inversion Hl as [? Hend|]; subst. by rewrite Hend.
    + assert (in_chain (fat_val fs k c) = true) as ->.
      { inversion Hl; subst. by eapply in_chain_cluster. }
      specialize (IH ltac:(done) fuel ltac:(simpl in *; lia)). cbn [negb].
      destruct (scan _ (slots fs k (y :: l))) as [S2|]; simpl; [|done].
      destruct IH as (k' & Hk2 & Hu & Hs). exists k'. split; [done|].
      split; [eapply upd_weaken; [done|set_solver..]|]. by eapply slots_cons_tail.
Qed.

Lemma delete_dir_entry_ok k name c l :
  geom fs (nblocks k) -> disk_wf k -> chain fs k c l -> l <> [] ->
  match scan (delete_slot name) (slots fs k l) with
  | None => delete_dir_entry fs c name k = (Err NotFound, k)
  | Some S' => exists k', delete_dir_entry fs c name k = (Ok tt, k') /\
      upd fs k k' [] l /\ slots fs k' l = S'
  end.
Proof.
  intros G Hwf H Hne. apply delete_dir_entry_go_ok; try done.
  pose proof (chain_fuel_ok fs k G _ _ H). lia.
Qed.

(** [add_dir_entry] when some slot is free. *)
Lemma add_dir_entry_go_room fuel k entry c l S' :
  geom fs (nblocks k) -> disk_wf k -> chain fs k c l -> l <> [] -> (length l <= fuel)%nat ->
  length entry = 32%nat -> scan (add_slot entry) (slots fs k l) = Some S' ->
  exists k', add_dir_entry_go fuel fs c entry k = (Ok tt, k') /\
    upd fs k k' [] l /\ slots fs k' l = S'.
Proof.
  intros G Hwf H Hne Hf He. revert fuel S' Hf.
  induction H as [|c l Hc Hl IH]; intros fuel S' Hf HS; [done|].
  destruct fuel as [|fuel]; [simpl in Hf; lia|]. cbn [add_dir_entry_go].
  destruct (dir_cluster_ok fs k _ _ c G Hwf (add_in_sector_op entry He) Hc) as [Hlba Hscan].
  pose proof (chain_NoDup _ _ _ _ G (chain_cons _ _ _ _ Hc Hl)) as Hnd.
  apply NoDup_cons in Hnd as [Hn _].
  rewrite (bind_ok _ _ _ _ _ Hlba). rewrite slots_cons, scan_app in HS by done.
  destruct (scan _ (chunks_exact _ _)) as [S1|]; simplify_eq.
  - destruct Hscan as (k' & Hk' & Hu & Hs). exists k'. rewrite (bind_ok _ _ _ _ _ Hk').
    split; [done|]. split; [eapply upd_weaken; [done|set_solver..]|].
    eapply slots_cons_head; [done|done| |done|done]. by eapply chain_range.
  - destruct Hscan as [Hk' Hnx]. rewrite (bind_ok _ _ _ _ _ Hk'), (bind_ok _ _ _ _ _ Hnx), end_test.
    destruct (scan _ (slots fs k l)) as [S2|] eqn:HS2; simplify_eq/=.
    destruct l as [|y l]; [done|].
    assert (in_chain (fat_val fs k c) = true) as ->.
    { inversion Hl; subst. by eapply in_chain_cluster. }
    destruct (IH ltac:(done) fuel S2 ltac:(simpl in *; lia) eq_refl) as (k' & Hk2 & Hu & Hs).
    exists k'. split; [done|]. split; [eapply upd_weaken; [done|set_solver..]|].
    by eapply slots_cons_tail.
Qed.

End walks.

(** ** Growing a directory *)

Lemma zero_chunks m : Forall zeroed (chunks_go m 32 (zeros (m * 32))).
Proof.
  induction m as [|m IH]; [constructor|]. cbn [chunks_go]. unfold zeros in *.
  rewrite take_replicate, drop_replicate. replace (S m * 32 - 32)%nat with (m * 32)%nat by lia.
  constructor; [|done]. by replace (32 `min` (S m * 32))%nat with 32%nat by lia.
Qed.

(** A zeroed cluster holds only unused slots, and takes a new entry first. *)
Lemma zero_slots fs k c :
  geom fs (nblocks k) -> disk_wf k -> cdata fs k c = zeros (cb fs) ->
  exists Z0, chunks_exact 32 (cdata fs k c) = zeros 32 :: Z0 /\ Forall zeroed Z0.
Proof.
  intros G Hwf Hd. rewrite Hd. pose proof (g_spc _ _ G).
  set (m := (Z.to_nat (sectors_per_cluster fs) * 16 - 1)%nat).
  assert (cb fs = S m * 32)%nat as -> by (unfold cb, BLOCK_SIZE, m; lia).
  rewrite (chunks_exact_go (S m)) by apply zeros_length. cbn [chunks_go]. unfold zeros.
  rewrite take_replicate, drop_replicate. replace (S m * 32 - 32)%nat with (m * 32)%nat by lia.
  replace (32 `min` (S m * 32))%nat with 32%nat by lia. eexists. split; [done|]. apply zero_chunks.
Qed.

Section grow.
Context (fs : FatFs) (entry : bytes) (He : length entry = 32%nat).

(** The step that extends a full directory by one cluster. *)
Lemma grow_step k c f rest fuel :
  geom fs (nblocks k) -> disk_wf k -> chain fs k c [c] -> fat_val fs k c <> 0 ->
  frees fs k = f :: rest -> f < nclusters fs (nblocks k) ->
  exists k', (let* new_cluster := find_free_cluster fs in
       write_fat_entry fs new_cluster EOC ;;;
       zero_cluster fs new_cluster ;;;
       write_fat_entry fs c new_cluster ;;;
       ignore (update_fsinfo fs (-1) new_cluster) ;;;
       add_dir_entry_go (S fuel) fs new_cluster entry) k = (Ok tt, k') /\
    upd fs k k' [f; c] [f] /\ chain fs k' c [c; f] /\
    (exists Z0, slots fs k' [f] = entry :: Z0 /\ Forall zeroed Z0) /\ frees fs k' = rest.
Proof using He.
  intros G Hwf Hch Hv Hf Hfn. pose proof (g_nf _ _ G).
  destruct (frees_head _ _ _ _ Hf) as [Hrf H0]. assert (c <> f) as Hne by congruence.
  pose proof (chain_range _ _ _ _ Hch) as Hc. apply Forall_cons in Hc as [Hc _].
  assert (2 <= c < nfat fs) by (unfold nclusters in Hc; lia).
  destruct (claim_ok fs k f rest) as (k1 & k2 & Hk1 & Hk2 & Hu2 & Hv2 & Hd2 & Hf2); [done..|].
  pose proof (geom_upd _ _ _ _ _ Hu2 G) as G2. pose proof (u_wf _ _ _ _ _ Hu2) as Hwf2.
  destruct (write_fat_entry_ok fs k2 c f) as (k3 & Hk3 & Hu3 & Hv3 & _); [done|done|lia|].
  pose proof (geom_upd _ _ _ _ _ Hu3 G2) as G3. pose proof (u_wf _ _ _ _ _ Hu3) as Hwf3.
  destruct (update_fsinfo_ok fs k3 G3 Hwf3 (-1) f) as (k4 & Hk4 & Hu4).
  pose proof (geom_upd _ _ _ _ _ Hu4 G3) as G4. pose proof (u_wf _ _ _ _ _ Hu4) as Hwf4.
  pose proof (upd_trans _ _ _ _ _ _ _ _ Hu3 Hu4) as Hu34. simpl in Hu34.
  pose proof (upd_trans _ _ _ _ _ _ _ _ Hu2 Hu34) as Hu. simpl in Hu.
  assert (nblocks k4 = nblocks k) as Hnb by apply Hu.
  assert (fat_val fs k4 f = EOC) as Hvf.
  { unfold fat_val. by rewrite (u_fat _ _ _ _ _ Hu34) by (lia || set_solver). }
  assert (fat_val fs k4 c = f) as Hvc.
  { unfold fat_val. rewrite (u_fat _ _ _ _ _ Hu4), Hv3 by (lia || set_solver).
    apply (masked_cluster fs (nblocks k)); [done|lia]. }
  assert (chain fs k4 f [f]) as Hchf.
  { apply chain_cons; [rewrite Hnb; lia|]. rewrite Hvf. by apply chain_nil. }
  assert (cdata fs k4 f = zeros (cb fs)) as Hz.
  { rewrite (u_data _ _ _ _ _ Hu34); [done|rewrite (u_nb _ _ _ _ _ Hu2); lia|set_solver]. }
  destruct (zero_slots fs k4 f G4 Hwf4 Hz) as (Z0 & HZ & HZ0).
  destruct (add_dir_entry_go_room fs (S fuel) k4 entry f [f] (entry :: Z0)) as (k5 & Hk5 & Hu5 & Hs5);
    [done|done|done|done|simpl; lia|done| |].
  { rewrite slots_cons, HZ by done. unfold slots. cbn [contents map concat]. by rewrite app_nil_r. }
  exists k5. split; [|split; [|split; [|split]]].
  - erewrite bind_ok by (by rewrite find_free_cluster_ok, Hf by done).
    by rewrite (bind_ok _ _ _ _ _ Hk1), (bind_ok _ _ _ _ _ Hk2), (bind_ok _ _ _ _ _ Hk3), (bind_ok _ _ _ _ _ Hk4).
  - eapply upd_weaken; [by eapply upd_trans|set_solver..].
  - eapply chain_frame; [|exact Hu5|set_solver|]; [done|]. apply chain_cons; [by rewrite Hnb|by rewrite Hvc].
  - by exists Z0.
  - rewrite <- Hf2. transitivity (frees fs k4).
    + eapply frees_same; [done|lia|set_solver].
    + eapply frees_same; [exact Hu34|lia|]. intros x [->|Hx]%elem_of_cons; [|set_solver].
      unfold fat_val at 1. rewrite (u_fat _ _ _ _ _ Hu2) by (lia || set_solver).
      rewrite Hvc. split; [done|lia].
Qed.

(** [add_dir_entry] when every slot is taken: the chain grows by the first free cluster. *)
Lemma add_dir_entry_go_full fuel k c l f rest :
  geom fs (nblocks k) -> disk_wf k -> chain fs k c l -> l <> [] -> (length l < fuel)%nat ->
  Forall (fun x => fat_val fs k x <> 0) l -> scan (add_slot entry) (slots fs k l) = None ->
  frees fs k = f :: rest -> f < nclusters fs (nblocks k) ->
  exists k', add_dir_entry_go fuel fs c entry k = (Ok tt, k') /\
    upd fs k k' (f :: l) [f] /\ chain fs k' c (l ++ [f]) /\
    (exists Z0, slots fs k' [f] = entry :: Z0 /\ Forall zeroed Z0) /\ frees fs k' = rest.
Proof using He.
  intros G Hwf H Hne Hf Hused HS Hfr Hfn. revert fuel Hf.
  induction H as [|c l Hc Hl IH]; intros fuel Hf; [done|]. destruct fuel as [|fuel]; [lia|].
  cbn [add_dir_entry_go].
  destruct (dir_cluster_ok fs k _ _ c G Hwf (add_in_sector_op entry He) Hc) as [Hlba Hscan].
  rewrite slots_cons, scan_app in HS by done. apply Forall_cons in Hused as [Hcu Hused].
  destruct (scan _ (chunks_exact _ _)) as [S1|]; [done|]. apply fmap_None in HS.
  destruct Hscan as [Hk' Hnx].
  rewrite (bind_ok _ _ _ _ _ Hlba), (bind_ok _ _ _ _ _ Hk'), (bind_ok _ _ _ _ _ Hnx), end_test.
  destruct l as [|y l].
  - inversion Hl as [? Hend|]; subst. rewrite Hend. cbn [negb]. fold EOC.
    destruct fuel as [|fuel]; [simpl in Hf; lia|].
    destruct (grow_step k c f rest fuel) as (k' & Hk2 & Hu & Hch & HZ & Hfr'); try done.
    { apply chain_cons; [done|]. by apply chain_nil. }
    by exists k'.
  - assert (in_chain (fat_val fs k c) = true) as ->.
    { inversion Hl; subst. by eapply in_chain_cluster. }
    destruct (IH ltac:(done) Hused HS fuel ltac:(simpl in *; lia)) as (k' & Hk2 & Hu & Hch & HZ & Hfr').
    exists k'. split; [done|]. split; [eapply upd_weaken; [done|set_solver..]|]. split; [|done].
    pose proof (chain_NoDup _ _ _ _ G (chain_cons _ _ _ _ Hc Hl)) as Hnd. apply NoDup_cons in Hnd as [Hn _].
    destruct (frees_head _ _ _ _ Hfr) as [Hrf H0]. pose proof (g_nf _ _ G).
    assert (c <> f) as Hcf by congruence.
    apply chain_cons; [by rewrite (u_nb _ _ _ _ _ Hu)|]. unfold fat_val at 1.
    rewrite (u_fat _ _ _ _ _ Hu); [done|lia|unfold nclusters in Hc; lia|set_solver].
Qed.

(** ... or fails with [Io], having changed nothing, when no cluster is free. *)
Lemma add_dir_entry_go_no_space fuel k c l :
  geom fs (nblocks k) -> disk_wf k -> chain fs k c l -> l <> [] -> (length l <= fuel)%nat ->
  scan (add_slot entry) (slots fs k l) = None -> frees fs k = [] ->
  add_dir_entry_go fuel fs c entry k = (Err Io, k).
Proof using He.
  intros G Hwf H Hne Hf HS Hfr. revert fuel Hf.
  induction H as [|c l Hc Hl IH]; intros fuel Hf; [done|].
  destruct fuel as [|fuel]; [simpl in Hf; lia|]. cbn [add_dir_entry_go].
  destruct (dir_cluster_ok fs k _ _ c G Hwf (add_in_sector_op entry He) Hc) as [Hlba Hscan].
  rewrite slots_cons, scan_app in HS by done.
  destruct (scan _ (chunks_exact _ _)) as [S1|]; [done|]. apply fmap_None in HS.
  destruct Hscan as [Hk' Hnx].
  rewrite (bind_ok _ _ _ _ _ Hlba), (bind_ok _ _ _ _ _ Hk'), (bind_ok _ _ _ _ _ Hnx), end_test.
  destruct l as [|y l].
  - inversion Hl as [? Hend|]; subst. rewrite Hend. cbn [negb]. unfold bind at 1.
    by rewrite find_free_cluster_ok, Hfr by done.
  - assert (in_chain (fat_val fs k c) = true) as ->.
    { inversion Hl; subst. by eapply in_chain_cluster. }
    apply IH; [done|done|simpl in *; lia].
Qed.

End grow.
