(* ===== verification/FatFile.v ===== *)
(** * FAT32 files and directories on an abstract disk

    The public operations of src/kernel/src/fs/fat.rs at file level: path lookup, directories as
    sets of entries, and what [write_file], [read_file], [create_file], [remove] and [create_dir] do
    to a well-formed volume. *)

From S2P Require Import Prelude.
From S2P Require Import Vfs.
From S2P Require Import Block.
From S2P Require Import Fat.
From S2P Require Import FatName.
From S2P Require Import FatTable.
From S2P Require Import FatChain.
From S2P Require Import FatDir.

Open Scope Z_scope.

(** The entries of a directory chain, and the key names are compared by. *)
Definition entries (fs : FatFs) (k : Disk) (l : list Z) : list DirEntry := parse_dir (slots fs k l).
Definition lname (e : DirEntry) : str := map to_lower (de_name e).

(** FAT entries of the clusters of [l] are not free. *)
Definition used (fs : FatFs) (k : Disk) (l : list Z) : Prop := Forall (fun x => fat_val fs k x <> 0) l.

(** Following [segs] from directory cluster [c] reaches the directory at [pc], whose chain is [pl];
    [anc] are the clusters of the directories on the way. *)
Inductive walks (fs : FatFs) (k : Disk) : Z -> list str -> Z -> list Z -> list Z -> Prop :=
| walks_nil c l : chain fs k c l -> walks fs k c [] c l []
| walks_cons c l seg e segs pc pl anc :
    chain fs k c l -> find_entry seg (entries fs k l) = Some e -> de_is_dir e = true ->
    walks fs k (de_cluster e) segs pc pl anc ->
    walks fs k c (seg :: segs) pc pl (l ++ anc).

(** A well-formed directory at path [segs]. *)
Record dir_at (fs : FatFs) (k : Disk) (segs : list str) (pc : Z) (pl anc : list Z) : Prop := {
  d_walk : walks fs k (root_cluster fs) segs pc pl anc;
  d_ne : pl <> [];
  d_used : used fs k (anc ++ pl);
  d_disj : anc ## pl;
  d_wf : slots_wf (slots fs k pl);
  d_uniq : NoDup (map lname (entries fs k pl));
}.

Lemma walks_chain fs k c segs pc pl anc : walks fs k c segs pc pl anc -> chain fs k pc pl.
Proof.
  by induction 1.
Qed.

Lemma walks_range fs k c segs pc pl anc :
  walks fs k c segs pc pl anc -> Forall (fun x => 2 <= x < nclusters fs (nblocks k)) anc.
Proof.
  induction 1; [constructor|]. apply Forall_app. split; [by eapply chain_range|done].
Qed.

(** The way to a directory survives changes outside the directories on it. *)
Lemma walks_frame fs k k' F C c segs pc pl anc pl' :
  geom fs (nblocks k) -> upd fs k k' F C -> walks fs k c segs pc pl anc ->
  F ## anc -> C ## anc -> chain fs k' pc pl' -> walks fs k' c segs pc pl' anc.
Proof.
  intros G Hu H. induction H as [c l Hc|c l seg e segs pc pl anc Hc He Hd Hw IH]; intros HF HC Hch.
  { by constructor. }
  econstructor; [eapply chain_frame; [done|done|set_solver|done]| |done|apply IH; [set_solver..|done]].
  unfold entries in *. erewrite slots_frame; [done|done|set_solver|by eapply chain_range].
Qed.

(** ** Lookup *)

Section lookup.
Context (fs : FatFs) (k : Disk) (G : geom fs (nblocks k)) (Hwf : disk_wf k).

(** The state of [lookup]'s loop on entering directory [c]. *)
Definition at_dir (i : nat) (cur : Z) (found : option DirEntry) (c : Z) : Prop :=
  (i = 0%nat /\ cur = c) \/
  (exists f, (0 < i)%nat /\ found = Some f /\ de_is_dir f = true /\ de_cluster f = c).

Lemma lookup_step i seg segs cur found c l :
  at_dir i cur found c -> chain fs k c l ->
  lookup_go fs i (seg :: segs) cur found k =
    match find_entry seg (entries fs k l) with
    | None => (Err NotFound, k)
    | Some e => lookup_go fs (S i) segs c (Some e) k
    end.
Proof using G Hwf.
  intros Ha Hc. cbn [lookup_go]. rewrite (bind_ok _ _ _ c k).
  - erewrite bind_ok by (by apply read_dir_ok). unfold entries. by destruct (find_entry _ _).
  - destruct Ha as [[-> ->]|(f & Hi & -> & Hd & Hcl)]; [done|].
    replace (0 <? i)%nat with true by (symmetry; by apply Nat.ltb_lt).
    unfold bind, lift, ok_or. by rewrite Hd, Hcl.
Qed.

(** Looking up a name below a directory that [segs] leads to. *)
Lemma lookup_go_child i segs cur found c pc pl anc name :
  at_dir i cur found c -> walks fs k c segs pc pl anc ->
  lookup_go fs i (segs ++ [name]) cur found k =
    (match find_entry name (entries fs k pl) with Some e => Ok e | None => Err NotFound end, k).
Proof using G Hwf.
  intros Ha Hw. revert i cur found Ha. induction Hw as [c l Hc|c l seg e segs pc pl anc Hc He Hd Hw IH];
    intros i cur found Ha; cbn [app].
  - erewrite lookup_step by done. by destruct (find_entry name _).
  - erewrite lookup_step, He by done. apply IH. right. exists e. repeat split; [lia|done..].
Qed.

(** Looking up the directory itself. *)
Lemma lookup_dir i segs cur found c pc pl anc :
  at_dir i cur found c -> walks fs k c segs pc pl anc -> segs <> [] ->
  exists e, lookup_go fs i segs cur found k = (Ok e, k) /\ de_is_dir e = true /\ de_cluster e = pc.
Proof using G Hwf.
  intros Ha Hw. revert i cur found Ha. induction Hw as [|c l seg e segs pc pl anc Hc He Hd Hw IH];
    intros i cur found Ha Hne; [done|].
  erewrite lookup_step, He by done. destruct segs as [|s segs].
  - exists e. split; [done|]. split; [done|]. by inversion Hw.
  - apply IH; [|done]. right. exists e. repeat split; [lia|done..].
Qed.

End lookup.

(** ** Paths *)

Lemma abs_path_snoc segs name :
  abs_path (segs ++ [name]) = slashed segs ++ "/"%byte :: name.
Proof.
  unfold abs_path. rewrite decide_False by (by destruct segs).
  rewrite slashed_app. unfold slashed at 2. simpl. by rewrite app_nil_r.
Qed.

Lemma fat_split_parent_ok segs name :
  valid_seg name -> fat_split_parent (abs_path (segs ++ [name])) = Ok (abs_path segs, name).
Proof.
  intros [Hne Hns]. rewrite abs_path_snoc. unfold fat_split_parent.
  assert (last (slashed segs ++ "/"%byte :: name) <> Some "/"%byte) as Hl.
  { destruct name as [|x name _] using rev_ind; [done|].
    rewrite app_comm_cons, app_assoc, last_snoc. intros [= ->]. set_solver. }
  rewrite trim_end_id by done. rewrite decide_False by (by destruct (slashed segs)).
  assert (rfind "/" (slashed segs ++ "/"%byte :: name) = Some (length (slashed segs))) as ->.
  { apply rfind_Some. eauto. }
  cbn [ok_or rbind].
  replace (drop (S (length (slashed segs))) (slashed segs ++ "/"%byte :: name)) with name.
  2:{ rewrite drop_app_ge by lia. by replace (S (length (slashed segs)) - length (slashed segs))%nat with 1%nat by lia. }
  rewrite (decide_False (P := name = [])) by done. do 2 f_equal.
  unfold abs_path. destruct segs as [|s segs]; [done|].
  rewrite !decide_False by done. by rewrite take_app_length.
Qed.

Lemma abs_path_not_root segs :
  Forall valid_seg segs -> segs <> [] -> abs_path segs <> s_ "/" /\ abs_path segs <> [].
Proof.
  intros Hs Hne. destruct segs as [|s l]; [done|]. destruct (Forall_inv Hs) as [Hs' _].
  unfold abs_path. rewrite decide_False by done. split; [|done]. by destruct s.
Qed.

Section path_ops.
Context (fs : FatFs) (k : Disk) (G : geom fs (nblocks k)) (Hwf : disk_wf k).
Context (segs : list str) (pc : Z) (pl anc : list Z).
Context (Hsegs : Forall valid_seg segs) (Hw : walks fs k (root_cluster fs) segs pc pl anc).

Lemma fat_lookup_dir :
  exists e, fat_lookup fs (abs_path segs) k = (Ok e, k) /\ de_is_dir e = true /\ de_cluster e = pc.
Proof using G Hwf Hsegs Hw.
  unfold fat_lookup. destruct segs as [|s l].
  - rewrite decide_True by (by left). inversion Hw; subst. by eexists.
  - destruct (abs_path_not_root (s :: l)) as [H1 H2]; [done|done|].
    rewrite decide_False by (by intros [?|?]).
    rewrite segments_abs_path by done. eapply lookup_dir; [done|done|by left|done|done].
Qed.

Lemma fat_is_dir_ok : fat_is_dir fs (abs_path segs) k = (Ok true, k).
Proof using G Hwf Hsegs Hw.
  destruct fat_lookup_dir as (e & He & Hd & _). unfold fat_is_dir, mcase. rewrite He.
  unfold ret. by rewrite Hd.
Qed.

Lemma cluster_for_ok : cluster_for fs (abs_path segs) k = (Ok pc, k).
Proof using G Hwf Hsegs Hw.
  unfold cluster_for. case_decide as Hroot.
  - destruct segs as [|s l]; [by inversion Hw|].
    by destruct (abs_path_not_root (s :: l)) as [H1 H2].
  - destruct fat_lookup_dir as (e & He & Hd & Hc). rewrite (bind_ok _ _ _ _ _ He), Hd. simpl. by rewrite Hc.
Qed.

Lemma fat_lookup_child name :
  valid_seg name ->
  fat_lookup fs (abs_path (segs ++ [name])) k =
    (match find_entry name (entries fs k pl) with Some e => Ok e | None => Err NotFound end, k).
Proof using G Hwf Hsegs Hw.
  intros Hn. unfold fat_lookup.
  assert (Forall valid_seg (segs ++ [name])) as Hs by (apply Forall_app; auto).
  rewrite decide_False.
  - rewrite segments_abs_path by done. eapply lookup_go_child; [done|done|by left|done].
  - destruct (abs_path_not_root (segs ++ [name])) as [H1 H2]; [done|by destruct segs|].
    by intros [?|?].
Qed.

End path_ops.

(** ** Deleting and adding one entry *)

(** The slot [delete_dir_entry] rewrites is the one [find_in_dir] found. *)
Lemma delete_scan S name e :
  plain_name name -> find_entry name (parse_dir S) = Some e ->
  exists a s b, S = a ++ s :: b /\ Forall nonzero a /\ chunk_byte s 0 <> 0 /\ slot_entry s = Some e /\
    scan (delete_slot name) S = Some (a ++ splice 0 [of_u8 0xE5] s :: b) /\
    find_entry name (omap slot_entry a) = None.
Proof.
  intros Hp. induction S as [|s S IH]; intros Hf; [done|].
  simpl in Hf. cbn [scan]. unfold delete_slot at 1.
  destruct (Z.eqb_spec (chunk_byte s 0) 0) as [H0|H0]; [done|].
  assert (forall R, slot_entry s = None \/ (exists e', slot_entry s = Some e' /\ eq_ignore_case (de_name e') name = false) ->
    find_entry name (parse_dir S) = Some e ->
    scan (delete_slot name) S = R ->
    exists a s0 b, s :: S = a ++ s0 :: b /\ Forall nonzero a /\ chunk_byte s0 0 <> 0 /\ slot_entry s0 = Some e /\
      cons s <$> R = Some (a ++ splice 0 [of_u8 0xE5] s0 :: b) /\
      find_entry name (omap slot_entry a) = None) as Hnext.
  { intros R Hse HfS <-. destruct (IH HfS) as (a & s0 & b & -> & Ha & Hs0 & Hse0 & -> & Hfa).
    exists (s :: a), s0, b. split; [done|]. split; [by constructor|]. split; [done|]. split; [done|].
    split; [done|]. simpl. destruct Hse as [->|(e' & -> & He')]; [done|].
    unfold find_entry in *. simpl. by rewrite He'. }
  destruct (slot_skipped s) eqn:Hsk.
  { apply Hnext; [|done|done]. left. unfold slot_entry. by rewrite Hsk. }
  destruct (eq_ignore_case (decode_short_name s) name) eqn:Heq.
  - assert (slot_entry s = Some (decode_entry s)) as Hse.
    { unfold slot_entry. rewrite Hsk, decide_False; [done|].
      apply eq_ignore_case_spec in Heq. pose proof (plain_name_lower name Hp) as [H1 H2].
      rewrite <- Heq in H1, H2. simpl. by intros [Hn|Hn]; rewrite Hn in H1, H2. }
    exists [], s, S. split; [done|]. split; [done|]. split; [done|].
    pose proof Hse as Hse'. unfold slot_entry in Hse. rewrite Hsk in Hse.
    rewrite decide_False in Hf by (by case_decide). unfold find_entry in Hf. simpl in Hf.
    rewrite Heq in Hf. by simplify_eq.
  - case_decide as Hdot.
    + apply Hnext; [|done|done]. left. unfold slot_entry. by rewrite Hsk, decide_True.
    + unfold find_entry in Hf. simpl in Hf. rewrite Heq in Hf. apply Hnext; [|done|done].
      right. exists (decode_entry s). unfold slot_entry. by rewrite Hsk, decide_False.
Qed.

Lemma used_frame fs k k' F C l :
  geom fs (nblocks k) -> upd fs k k' F C -> F ## l ->
  Forall (fun x => 2 <= x < nclusters fs (nblocks k)) l -> used fs k l -> used fs k' l.
Proof.
  intros G Hu Hd Hr Hl. pose proof (g_nf _ _ G). apply Forall_forall. intros z Hz.
  unfold used in Hl. rewrite Forall_forall in Hl, Hr. specialize (Hr z Hz). unfold nclusters in Hr.
  unfold fat_val. rewrite (u_fat _ _ _ _ _ Hu); [by apply Hl|lia|lia|set_solver].
Qed.

(** A cluster that just left the free list is in use. *)
Lemma used_claimed fs k k' f rest :
  frees fs k = f :: rest -> frees fs k' = rest -> fat_val fs k' f <> 0.
Proof.
  intros Hf Hf' H0. destruct (frees_head _ _ _ _ Hf) as [Hr _].
  assert (f ∈ frees fs k') as Hin by (by apply elem_of_frees).
  pose proof (frees_NoDup fs k) as Hnd. rewrite Hf in Hnd. apply NoDup_cons in Hnd as [Hnd _].
  by rewrite Hf' in Hin.
Qed.

Lemma first_slot entry S S' :
  scan (add_slot entry) S = Some S' ->
  exists a s b, S = a ++ s :: b /\ S' = a ++ entry :: b /\ slot_free s = true /\
    Forall (fun c => slot_free c = false) a.
Proof.
  intros (a & s & b & s' & -> & -> & Hf & Ha)%scan_Some. unfold add_slot in *.
  destruct (slot_free s) eqn:Hsf; simplify_eq. exists a, s, b. split; [done|]. split; [done|].
  split; [done|]. eapply Forall_impl; [exact Ha|]. intros c. simpl. by destruct (slot_free c).
Qed.

(** A new entry, as [read_dir] will report it. *)
Definition new_entry (name : str) (attrs cluster size : Z) : DirEntry :=
  mkDirEntry (map to_lower name) (bool_decide (attrs = ATTR_DIRECTORY)) cluster size.

Lemma written_slot_entry name attrs cluster size :
  plain_name name -> fits_83 name -> plain_attrs attrs ->
  0 <= cluster < 2 ^ 32 -> 0 <= size < 2 ^ 32 ->
  slot_entry (write_short_entry name attrs cluster size) = Some (new_entry name attrs cluster size).
Proof.
  intros Hn Hf Ha Hc Hz. unfold slot_entry. rewrite written_not_skipped, written_entry by done. simpl.
  rewrite decide_False; [done|]. by pose proof (plain_name_lower name Hn) as [? ?]; intros [?|?].
Qed.

Section dir_ops.
Context (fs : FatFs) (k : Disk) (G : geom fs (nblocks k)) (Hwf : disk_wf k).
Context (pc : Z) (pl : list Z) (Hch : chain fs k pc pl) (Hne : pl <> []) (Hs : slots_wf (slots fs k pl)).

Lemma dir_delete_ok name e :
  plain_name name -> find_entry name (entries fs k pl) = Some e ->
  exists k' x y, delete_dir_entry fs pc name k = (Ok tt, k') /\ upd fs k k' [] pl /\
    slots_wf (slots fs k' pl) /\ entries fs k pl = x ++ e :: y /\ entries fs k' pl = x ++ y.
Proof using G Hwf Hch Hne Hs.
  intros Hp Hf. destruct (delete_scan _ _ _ Hp Hf) as (a & s & b & HS & Ha & Hs0 & Hse & Hscan & _).
  pose proof (delete_dir_entry_ok fs k name pc pl G Hwf Hch Hne) as Hdel. rewrite Hscan in Hdel.
  destruct Hdel as (k' & Hk' & Hu & Hsl). rewrite HS in Hs.
  destruct (parse_dir_delete a s b (splice 0 [of_u8 0xE5] s) Hs Ha Hs0 eq_refl)
    as (Hs' & x & y & Hx & Hy & _).
  rewrite Hse in Hx. exists k', x, y. unfold entries. rewrite Hsl, HS. auto.
Qed.

Lemma dir_add_ok name attrs cluster size f rest :
  plain_name name -> fits_83 name -> plain_attrs attrs ->
  0 <= cluster < 2 ^ 32 -> 0 <= size < 2 ^ 32 -> used fs k pl ->
  frees fs k = f :: rest -> f < nclusters fs (nblocks k) ->
  exists k' ext x y, add_dir_entry fs pc name attrs cluster size k = (Ok tt, k') /\
    upd fs k k' (pl ++ ext) (pl ++ ext) /\ chain fs k' pc (pl ++ ext) /\
    slots_wf (slots fs k' (pl ++ ext)) /\ used fs k' (pl ++ ext) /\
    frees fs k = ext ++ frees fs k' /\ (length ext <= 1)%nat /\
    entries fs k pl = x ++ y /\
    entries fs k' (pl ++ ext) = x ++ new_entry name attrs cluster size :: y.
Proof using G Hwf Hch Hne Hs.
  intros Hn Hf Ha Hc Hz Hused Hfr Hfn. unfold add_dir_entry.
  erewrite bind_ok by (by apply cluster_bytes_ok).
  set (e := write_short_entry name attrs cluster size).
  assert (length e = 32%nat) as He by (by apply written_length).
  assert (chunk_byte e 0 <> 0) as He0 by (by apply written_first).
  assert (slot_entry e = Some (new_entry name attrs cluster size)) as Hse by (by apply written_slot_entry).
  pose proof (chain_fuel_ok fs k G _ _ Hch) as Hfuel. pose proof (g_nf _ _ G).
  destruct (scan (add_slot e) (slots fs k pl)) as [S'|] eqn:HS.
  - destruct (add_dir_entry_go_room fs (S (chain_fuel fs)) k e pc pl S') as (k' & Hk' & Hu & Hsl);
      [done..|lia|done|done|].
    destruct (first_slot _ _ _ HS) as (a & s & b & HSl & -> & Hfree & Hnf).
    rewrite HSl in Hs. destruct (parse_dir_add a s b e Hs Hnf Hfree He0) as (Hs' & x & y & Hx & Hy).
    rewrite Hse in Hy. exists k', [], x, y. rewrite app_nil_r. unfold entries. rewrite Hsl, HSl.
    split; [done|]. split; [eapply upd_weaken; [done|set_solver..]|].
    split; [eapply chain_frame; [done|done|set_solver|done]|]. split; [done|]. split; [|split; [|split; [simpl; lia|done]]].
    + eapply used_frame; [done|done|set_solver|by eapply chain_range|done].
    + symmetry. eapply frees_same; [done|lia|set_solver].
  - destruct (add_dir_entry_go_full fs e He (S (chain_fuel fs)) k pc pl f rest)
      as (k' & Hk' & Hu & Hch' & (Z0 & HZ & HZ0) & Hfr'); [done..|lia|done|done|done|done|].
    assert (slots fs k' pl = slots fs k pl) as Hsl.
    { eapply slots_frame; [done| |by eapply chain_range]. intros z ->%list_elem_of_singleton Hz'.
      destruct (frees_head _ _ _ _ Hfr) as [_ H0]. unfold used in Hused. rewrite Forall_forall in Hused.
      by apply (Hused f). }
    assert (Forall (fun c => slot_free c = false) (slots fs k pl)) as Hnf.
    { apply scan_None in HS. eapply Forall_impl; [exact HS|]. unfold add_slot. intros c. simpl. by destruct (slot_free c). }
    apply not_free_nonzero in Hnf.
    exists k', [f], (entries fs k pl), []. unfold entries.
    rewrite slots_app, Hsl, HZ by apply Hu. rewrite app_nil_r.
    split; [done|]. split; [eapply upd_weaken; [done|set_solver..]|]. split; [done|].
    split; [|split; [|split; [by rewrite Hfr, Hfr'|split; [simpl; lia|split; [done|]]]]].
    + rewrite slots_wf_app, slots_wf_cons by done. by apply slots_wf_zeroed.
    + apply Forall_app. split.
      * apply Forall_forall. intros z Hz'. by eapply chain_inner_used.
      * repeat constructor. by eapply used_claimed.
    + rewrite (parse_dir_app (slots fs k pl) (e :: Z0)), parse_dir_cons by done. rewrite Hse, (parse_dir_zero Z0) by done.
      pose proof (parse_dir_app (slots fs k pl) [] Hnf) as Hp. rewrite !app_nil_r in Hp. by rewrite Hp.
Qed.

End dir_ops.

(** ** Directories on a path *)

Lemma find_entry_lookup name l e :
  NoDup (map lname l) -> e ∈ l -> lname e = map to_lower name -> find_entry name l = Some e.
Proof.
  unfold find_entry. induction l as [|x l IH]; intros Hnd He Hn; [by apply elem_of_nil in He|].
  simpl in *. apply NoDup_cons in Hnd as [Hx Hnd]. destruct (eq_ignore_case (de_name x) name) eqn:Heq.
  - apply eq_ignore_case_spec in Heq. apply elem_of_cons in He as [->|He]; [done|].
    exfalso. apply Hx. unfold lname at 1. rewrite Heq, <- Hn. by apply list_elem_of_fmap_2.
  - apply elem_of_cons in He as [->|He]; [|by apply IH].
    unfold lname in Hn. by rewrite <- eq_ignore_case_spec, Heq in Hn.
Qed.

(** Adding or removing an entry does not disturb the lookup of other names. *)
Lemma find_entry_other name x e y :
  lname e <> map to_lower name -> find_entry name (x ++ e :: y) = find_entry name (x ++ y).
Proof.
  intros Hn. rewrite !find_entry_app. destruct (find_entry name x); [done|].
  unfold find_entry. simpl. destruct (eq_ignore_case (de_name e) name) eqn:Heq; [|done].
  by apply eq_ignore_case_spec in Heq.
Qed.

Lemma find_entry_not_in name l : find_entry name l = None <-> map to_lower name ∉ map lname l.
Proof.
  rewrite find_entry_None, Forall_forall, list_elem_of_fmap. unfold lname. naive_solver.
Qed.

Lemma find_entry_name name l e : find_entry name l = Some e -> lname e = map to_lower name /\ e ∈ l.
Proof.
  intros H. apply List.find_some in H as [Hin He]. apply eq_ignore_case_spec in He.
  by apply list_elem_of_In in Hin.
Qed.

Section dir_paths.
Context (fs : FatFs) (k : Disk) (G : geom fs (nblocks k)) (Hwf : disk_wf k).
Context (segs : list str) (pc : Z) (pl anc : list Z) (Hd : dir_at fs k segs pc pl anc).

Lemma dir_chain : chain fs k pc pl.
Proof using Hd.
  by eapply walks_chain, d_walk.
Qed.

Lemma dir_range : Forall (fun x => 2 <= x < nclusters fs (nblocks k)) (anc ++ pl).
Proof using Hd.
  apply Forall_app. split; [by eapply walks_range, d_walk|eapply chain_range, dir_chain].
Qed.

Lemma dir_at_frame k' F C :
  upd fs k k' F C -> F ## anc ++ pl -> C ## anc ++ pl -> dir_at fs k' segs pc pl anc.
Proof using G Hwf Hd.
  intros Hu HF HC. pose proof dir_range as Hr. pose proof Hr as [Hra Hrp]%Forall_app.
  assert (slots fs k' pl = slots fs k pl) as Hs by (eapply slots_frame; [done|set_solver|done]).
  split.
  - eapply walks_frame; [done|done|apply Hd|set_solver|set_solver|].
    eapply chain_frame; [done|done|set_solver|apply dir_chain].
  - apply Hd.
  - eapply used_frame; [done|done|done|done|apply Hd].
  - apply Hd.
  - rewrite Hs. apply Hd.
  - unfold entries. rewrite Hs. apply Hd.
Qed.

Lemma dir_at_delete name e :
  plain_name name -> find_entry name (entries fs k pl) = Some e ->
  exists k' x y, delete_dir_entry fs pc name k = (Ok tt, k') /\ upd fs k k' [] pl /\
    dir_at fs k' segs pc pl anc /\ entries fs k pl = x ++ e :: y /\ entries fs k' pl = x ++ y /\
    find_entry name (x ++ y) = None.
Proof using G Hwf Hd.
  intros Hp Hf. pose proof dir_range as Hr. pose proof Hr as [Hra Hrp]%Forall_app.
  destruct (dir_delete_ok fs k G Hwf pc pl dir_chain (d_ne _ _ _ _ _ _ Hd) (d_wf _ _ _ _ _ _ Hd) name e Hp Hf)
    as (k' & x & y & Hk' & Hu & Hs & Hx & Hy).
  pose proof (d_uniq _ _ _ _ _ _ Hd) as Hnd. rewrite Hx, map_app in Hnd. simpl in Hnd.
  pose proof (d_disj _ _ _ _ _ _ Hd) as Hdj.
  exists k', x, y. split; [done|]. split; [done|]. split; [split|split; [done|split; [done|]]].
  - eapply walks_frame; [done|done|apply Hd|set_solver|set_solver|].
    eapply chain_frame; [done|done|set_solver|apply dir_chain].
  - apply Hd.
  - eapply used_frame; [done|done|set_solver|done|apply Hd].
  - apply Hd.
  - done.
  - rewrite Hy, map_app. rewrite <- Permutation_middle in Hnd. by apply NoDup_cons in Hnd as [_ Hnd].
  - apply find_entry_not_in. apply find_entry_name in Hf as [<- _]. rewrite map_app.
    rewrite <- Permutation_middle in Hnd. by apply NoDup_cons in Hnd as [Hnd _].
Qed.

Lemma dir_at_add name attrs cluster size f rest :
  plain_name name -> fits_83 name -> plain_attrs attrs ->
  0 <= cluster < 2 ^ 32 -> 0 <= size < 2 ^ 32 ->
  find_entry name (entries fs k pl) = None ->
  frees fs k = f :: rest -> f < nclusters fs (nblocks k) ->
  exists k' ext x y, add_dir_entry fs pc name attrs cluster size k = (Ok tt, k') /\
    upd fs k k' (pl ++ ext) (pl ++ ext) /\ dir_at fs k' segs pc (pl ++ ext) anc /\
    frees fs k = ext ++ frees fs k' /\ (length ext <= 1)%nat /\
    entries fs k pl = x ++ y /\
    entries fs k' (pl ++ ext) = x ++ new_entry name attrs cluster size :: y.
Proof using G Hwf Hd.
  intros Hn Hf Ha Hc Hz Hnone Hfr Hfn. pose proof dir_range as Hr. pose proof Hr as [Hra Hrp]%Forall_app.
  pose proof (d_used _ _ _ _ _ _ Hd) as [Hua Hup]%Forall_app.
  destruct (dir_add_ok fs k G Hwf pc pl dir_chain (d_ne _ _ _ _ _ _ Hd) (d_wf _ _ _ _ _ _ Hd)
    name attrs cluster size f rest) as (k' & ext & x & y & Hk' & Hu & Hch & Hs & Hus & Hfe & Hle & Hx & Hy); [done..|].
  assert (anc ## ext) as Hae.
  { intros z Hz1 Hz2. assert (z ∈ frees fs k) as [_ H0]%elem_of_frees by (rewrite Hfe; set_solver).
    rewrite Forall_forall in Hua. by apply (Hua z). }
  pose proof (d_disj _ _ _ _ _ _ Hd) as Hdj.
  assert (pl ++ ext ## anc) as Hdj' by set_solver.
  exists k', ext, x, y. split; [done|]. split; [done|]. split; [split|done].
  - eapply walks_frame; [done|done|apply Hd|done|done|done].
  - intros [Hnil _]%app_eq_nil. by apply (d_ne _ _ _ _ _ _ Hd).
  - apply Forall_app. split; [|done]. eapply used_frame; [done|done|done|done|done].
  - set_solver.
  - done.
  - rewrite Hy, map_app. simpl. rewrite <- Permutation_middle. apply NoDup_cons. split.
    + apply find_entry_not_in in Hnone. rewrite Hx, map_app in Hnone. unfold lname at 1, new_entry. simpl.
      by rewrite map_to_lower_idem.
    + rewrite <- map_app, <- Hx. apply Hd.
Qed.

End dir_paths.

(** ** Free space *)

(** Free clusters that lie on the disk (the FAT may have entries for clusters that do not). *)
Definition free_data (fs : FatFs) (k : Disk) : list Z :=
  filter (fun c => c < nclusters fs (nblocks k)) (frees fs k).

Lemma filter_seqZ_split (P : Z -> Prop) `{!forall x, Decision (P x)} N n a :
  exists rest, filter P (seqZ a (Z.of_nat n)) = filter (fun c => c < N) (filter P (seqZ a (Z.of_nat n))) ++ rest /\
    Forall (fun c => N <= c) rest.
Proof.
  revert a. induction n as [|n IH]; intros a; [by exists []|].
  rewrite seqZ_cons, filter_cons by lia. replace (Z.succ a) with (a + 1) by lia.
  replace (Z.pred (Z.of_nat (S n))) with (Z.of_nat n) by lia.
  destruct (decide (a < N)) as [Ha|Ha].
  - destruct (IH (a + 1)) as (rest & Hr & HN). exists rest. split; [|done].
    case_decide; [|done]. rewrite (filter_cons (fun c => c < N)), decide_True by done.
    simpl. by f_equal.
  - assert (Forall (fun c => N <= c) (filter P (seqZ (a + 1) (Z.of_nat n)))) as Hge.
    { apply Forall_forall. intros c [_ Hc%elem_of_seqZ]%list_elem_of_filter. lia. }
    assert (forall l, Forall (fun c => N <= c) l -> filter (fun c => c < N) l = []) as Hnil.
    { intros l. induction 1 as [|x l Hx _ IHl]; [done|]. rewrite filter_cons, decide_False by lia. done. }
    case_decide.
    + exists (a :: filter P (seqZ (a + 1) (Z.of_nat n))).
      assert (Forall (fun c => N <= c) (a :: filter P (seqZ (a + 1) (Z.of_nat n)))) by (constructor; [lia|done]).
      by rewrite Hnil.
    + exists (filter P (seqZ (a + 1) (Z.of_nat n))). by rewrite Hnil.
Qed.

(** The first [n] free clusters lie on the disk when [n] such clusters are free. *)
Lemma take_free fs k n :
  geom fs (nblocks k) -> (n <= length (free_data fs k))%nat ->
  exists rest, frees fs k = take n (free_data fs k) ++ rest /\
    Forall (fun c => c < nclusters fs (nblocks k)) (take n (free_data fs k)) /\
    filter (fun c => c < nclusters fs (nblocks k)) rest = drop n (free_data fs k).
Proof.
  intros G Hn. pose proof (nfat_bound fs _ G).
  destruct (filter_seqZ_split (fun c => fat_val fs k c = 0) (nclusters fs (nblocks k)) (Z.to_nat (nfat fs - 2)) 2)
    as (rest & Hr & HN).
  rewrite Z2Nat.id in Hr by lia. fold (frees fs k) in Hr. fold (free_data fs k) in Hr.
  assert (Forall (fun c => c < nclusters fs (nblocks k)) (free_data fs k)) as Hall.
  { apply Forall_forall. by intros c [Hc _]%list_elem_of_filter. }
  exists (drop n (free_data fs k) ++ rest). rewrite app_assoc, take_drop.
  split; [done|]. split; [by apply Forall_take|].
  rewrite filter_app, filter_id by (by apply Forall_drop).
  assert (filter (fun c => c < nclusters fs (nblocks k)) rest = []) as ->; [|by rewrite app_nil_r].
  clear Hr. induction HN as [|x l Hx _ IH]; [done|]. rewrite filter_cons, decide_False by lia. done.
Qed.

Lemma first_free fs k :
  geom fs (nblocks k) -> (1 <= length (free_data fs k))%nat ->
  exists f rest, frees fs k = f :: rest /\ f < nclusters fs (nblocks k).
Proof.
  intros G Hn. destruct (take_free fs k 1 G Hn) as (rest & Hf & Hr & _).
  destruct (free_data fs k) as [|f l]; [simpl in Hn; lia|]. simpl in *.
  apply Forall_cons in Hr as [Hr _]. by exists f, rest.
Qed.

(** Taking [l] from the free clusters costs at most its length. *)
Lemma free_data_taken fs k k' l :
  nblocks k' = nblocks k -> frees fs k = l ++ frees fs k' ->
  (length (free_data fs k) <= length (free_data fs k') + length l)%nat.
Proof.
  intros Hnb Hf. unfold free_data. rewrite Hf, Hnb, filter_app, length_app.
  pose proof (length_filter (fun c => c < nclusters fs (nblocks k)) l). lia.
Qed.

(** Freeing more entries cannot shrink the free space. *)
Lemma free_data_mono fs k k' F C :
  upd fs k k' F C -> 1 <= num_fats fs -> (forall x, x ∈ F -> fat_val fs k' x = 0) ->
  (length (free_data fs k) <= length (free_data fs k'))%nat.
Proof.
  intros Hu Hn HF. apply submseteq_length, NoDup_submseteq.
  - apply NoDup_filter, frees_NoDup.
  - intros x [Hx [Hr H0]%elem_of_frees]%list_elem_of_filter. apply list_elem_of_filter.
    rewrite (u_nb _ _ _ _ _ Hu). split; [done|]. apply elem_of_frees. split; [done|].
    destruct (decide (x ∈ F)) as [Hin|Hin]; [by apply HF|].
    unfold fat_val. by rewrite (u_fat _ _ _ _ _ Hu) by (lia || done).
Qed.

(** ** Storing a file's data *)

(** The allocation part of [write_file]. *)
Definition store (fs : FatFs) (data : bytes) : M Disk FsError Z :=
  if decide (data = []) then ret 0
  else
    let n_clusters := as_u32 (div_ceil (Z.of_nat (length data)) (Z.of_nat (cb fs))) in
    let* head := allocate_chain fs n_clusters in
    write_chain fs head data ;;; ret head.

(** Clusters a file of this size takes. *)
Definition clusters_for (fs : FatFs) (data : bytes) : nat :=
  Z.to_nat (div_ceil (Z.of_nat (length data)) (Z.of_nat (cb fs))).

Lemma clusters_for_spec fs nb data :
  geom fs nb -> Z.of_nat (length data) < 2 ^ 32 ->
  (length data <= clusters_for fs data * cb fs)%nat /\
  as_u32 (div_ceil (Z.of_nat (length data)) (Z.of_nat (cb fs))) = Z.of_nat (clusters_for fs data) /\
  (data <> [] -> (0 < clusters_for fs data)%nat).
Proof.
  intros G Hlen. assert (1 <= cb fs)%nat as Hcb by (unfold cb, BLOCK_SIZE; pose proof (g_spc _ _ G); lia).
  unfold clusters_for, div_ceil. set (n := length data) in *. set (c := cb fs) in *.
  pose proof (Z.div_mod (Z.of_nat n + Z.of_nat c - 1) (Z.of_nat c) ltac:(lia)) as Hdm.
  pose proof (Z.mod_pos_bound (Z.of_nat n + Z.of_nat c - 1) (Z.of_nat c) ltac:(lia)) as Hmb.
  set (q := (Z.of_nat n + Z.of_nat c - 1) / Z.of_nat c) in *.
  assert (0 <= q <= Z.of_nat n) by nia.
  split; [nia|]. split.
  - unfold as_u32. rewrite Z.mod_small by lia. lia.
  - intros Hne. assert (0 < n)%nat by (unfold n; destruct data; simpl; [done|lia]). nia.
Qed.

Lemma store_ok fs k data :
  geom fs (nblocks k) -> disk_wf k -> Z.of_nat (length data) < 2 ^ 32 ->
  (clusters_for fs data <= length (free_data fs k))%nat ->
  exists head fl k', store fs data k = (Ok head, k') /\ 0 <= head < 2 ^ 32 /\
    (data <> [] -> 2 <= head) /\ upd fs k k' fl fl /\ chain fs k' head fl /\
    take (length data) (contents fs k' fl) = data /\
    frees fs k = fl ++ frees fs k' /\ used fs k' fl /\ length fl = clusters_for fs data /\
    (length (free_data fs k') = length (free_data fs k) - clusters_for fs data)%nat.
Proof.
  intros G Hwf Hlen Hroom. destruct (clusters_for_spec fs (nblocks k) data G Hlen) as (Hc & Hn & Hpos).
  unfold store. case_decide as Hd.
  { subst data. exists 0, [], k. split; [done|]. split; [lia|]. split; [done|].
    split; [by apply upd_refl|]. split; [by apply chain_nil|]. split; [done|]. split; [done|].
    split; [constructor|]. assert (clusters_for fs [] = 0)%nat as ->; [|split; [done|lia]].
    unfold clusters_for, div_ceil. simpl. rewrite Z.div_small; [done|].
    unfold cb, BLOCK_SIZE. pose proof (g_spc _ _ G). lia. }
  rewrite Hn. destruct (take_free fs k _ G Hroom) as (rest & Hf & Hr & Hrest).
  set (fl := take (clusters_for fs data) (free_data fs k)) in *.
  assert (length fl = clusters_for fs data) as Hfl by (unfold fl; rewrite length_take; lia).
  specialize (Hpos Hd).
  destruct (allocate_chain_ok fs k (Z.of_nat (clusters_for fs data)) fl rest)
    as (head & k1 & Hk1 & Hh & Hu1 & Hch1 & _ & Hf1); [done|done|lia|lia|done|done|].
  pose proof (geom_upd _ _ _ _ _ Hu1 G) as G1. pose proof (u_wf _ _ _ _ _ Hu1) as Hwf1.
  destruct (write_chain_ok fs k1 head fl data) as (k2 & Hk2 & Hu2 & Hd2); [done|done|done|by rewrite Hfl|].
  pose proof (upd_trans _ _ _ _ _ _ _ _ Hu1 Hu2) as Hu. rewrite app_nil_r in Hu.
  assert (frees fs k2 = rest) as Hf2.
  { rewrite <- Hf1. eapply frees_same; [done| |set_solver]. pose proof (g_nf _ _ G). lia. }
  pose proof (chain_range _ _ _ _ Hch1) as Hrg. rewrite (u_nb _ _ _ _ _ Hu1) in Hrg.
  exists head, fl, k2. split; [|split; [|split; [done|split; [|split; [|split; [done|split; [|split; [|split; [done|]]]]]]]]].
  - by rewrite (bind_ok _ _ _ _ _ Hk1), (bind_ok _ _ _ _ _ Hk2).
  - destruct Hch1 as [? Hc1|c l Hcr _]; [simpl in *; lia|].
    pose proof (nfat_bound fs _ G). unfold nclusters, EOC_THRESHOLD in *. rewrite (u_nb _ _ _ _ _ Hu1) in Hcr. lia.
  - eapply upd_weaken; [done|set_solver..].
  - eapply chain_frame; [|exact Hu2|set_solver|done]. done.
  - by rewrite Hf, Hf2.
  - apply Forall_forall. intros x Hx H0. pose proof (frees_NoDup fs k) as Hnd. rewrite Hf in Hnd.
    apply NoDup_app in Hnd as (_ & Hnd & _). apply (Hnd x Hx). rewrite <- Hf2. apply elem_of_frees.
    rewrite Forall_forall in Hrg. specialize (Hrg x Hx). unfold nclusters in Hrg. split; [lia|done].
  - unfold free_data at 1. rewrite Hf2, (u_nb _ _ _ _ _ Hu), Hrest, length_drop. done.
Qed.

(** ** [write_file] *)

(** The chain of the file [name] names now, if any: a file whose clusters no directory on the path
    shares. *)
Definition old_file (fs : FatFs) (k : Disk) (pl anc : list Z) (name : str) (ol : list Z) : Prop :=
  match find_entry name (entries fs k pl) with
  | None => ol = []
  | Some old => de_is_dir old = false /\ chain fs k (de_cluster old) ol /\ ol ## anc ++ pl
  end.

(** Free the clusters an entry points to, if it points to any. *)
Lemma free_entry_ok fs k c ol :
  geom fs (nblocks k) -> disk_wf k -> chain fs k c ol ->
  exists k', (if 2 <=? c then free_chain fs c else ret tt) k = (Ok tt, k') /\ upd fs k k' ol [] /\
    (forall x, x ∈ ol -> fat_val fs k' x = 0).
Proof.
  intros G Hwf Hc. destruct (Z.leb_spec 2 c) as [H2|H2]; [by apply free_chain_ok|].
  exists k. inversion Hc; subst; [|lia]. split; [done|]. split; [by apply upd_refl|set_solver].
Qed.

(** Removing an entry and freeing what it points to. *)
Lemma drop_entry_ok fs k segs pc pl anc name old ol :
  geom fs (nblocks k) -> disk_wf k -> dir_at fs k segs pc pl anc -> plain_name name ->
  find_entry name (entries fs k pl) = Some old -> chain fs k (de_cluster old) ol -> ol ## anc ++ pl ->
  exists k', ((if 2 <=? de_cluster old then free_chain fs (de_cluster old) else ret tt) ;;;
      delete_dir_entry fs pc name) k = (Ok tt, k') /\
    upd fs k k' ol pl /\ dir_at fs k' segs pc pl anc /\ (forall x, x ∈ ol -> fat_val fs k' x = 0) /\
    find_entry name (entries fs k' pl) = None /\
    (forall name', map to_lower name' <> map to_lower name ->
       find_entry name' (entries fs k' pl) = find_entry name' (entries fs k pl)).
Proof.
  intros G Hwf Hd Hp Hf Hc Hdj.
  destruct (free_entry_ok fs k _ _ G Hwf Hc) as (k1 & Hk1 & Hu1 & Hz1). rewrite (bind_ok _ _ _ _ _ Hk1).
  pose proof (geom_upd _ _ _ _ _ Hu1 G) as G1. pose proof (u_wf _ _ _ _ _ Hu1) as Hwf1.
  assert (dir_at fs k1 segs pc pl anc) as Hd1 by (eapply (dir_at_frame fs k G Hwf); [done|done|done|set_solver]).
  assert (entries fs k1 pl = entries fs k pl) as Hen.
  { unfold entries. erewrite slots_frame; [done|done|set_solver|].
    by apply (dir_range fs k segs pc pl anc) in Hd as [_ ?]%Forall_app. }
  destruct (dir_at_delete fs k1 G1 Hwf1 segs pc pl anc Hd1 name old) as (k2 & x & y & Hk2 & Hu2 & Hd2 & Hx & Hy & Hn);
    [done|by rewrite Hen|].
  exists k2. split; [done|]. split; [|split; [done|split; [|split; [by rewrite Hy|]]]].
  - eapply upd_weaken; [by eapply upd_trans|set_solver..].
  - intros z Hz. unfold fat_val.
    pose proof (chain_range _ _ _ _ Hc) as Hr. rewrite Forall_forall in Hr. specialize (Hr z Hz).
    unfold nclusters in Hr. pose proof (g_nf _ _ G).
    rewrite (u_fat _ _ _ _ _ Hu2); [by apply Hz1|lia|lia|set_solver].
  - intros name' Hne. rewrite Hy, <- Hen, Hx. symmetry. apply find_entry_other.
    apply find_entry_name in Hf as [-> _]. done.
Qed.

(** Dropping the previous version of a file. *)
Lemma clear_old_ok fs k segs pc pl anc name ol :
  geom fs (nblocks k) -> disk_wf k -> dir_at fs k segs pc pl anc -> plain_name name ->
  old_file fs k pl anc name ol ->
  exists k', (match find_entry name (entries fs k pl) with
    | Some old =>
        if de_is_dir old then throw IsADir
        else
          (if 2 <=? de_cluster old then free_chain fs (de_cluster old) else ret tt) ;;;
          delete_dir_entry fs pc name
    | None => ret tt
    end) k = (Ok tt, k') /\
    upd fs k k' ol pl /\ dir_at fs k' segs pc pl anc /\ (forall x, x ∈ ol -> fat_val fs k' x = 0) /\
    find_entry name (entries fs k' pl) = None /\
    (forall name', map to_lower name' <> map to_lower name ->
       find_entry name' (entries fs k' pl) = find_entry name' (entries fs k pl)).
Proof.
  intros G Hwf Hd Hp Ho. unfold old_file in Ho. destruct (find_entry name (entries fs k pl)) as [old|] eqn:Hf.
  - destruct Ho as (-> & Hc & Hdj). by eapply drop_entry_ok.
  - subst ol. exists k. split; [done|]. split; [eapply upd_weaken; [by apply upd_refl|set_solver..]|].
    split; [done|]. split; [set_solver|done].
Qed.

(** ** Replacing one entry

    What an update of one name below a directory amounts to: the directory's chain went from [pl] to
    [pl'], the name, whose previous clusters were [ol], now has the entry and the clusters [new] (or
    none), and only the directory, the old clusters and free ones were touched. *)
Record replaced (fs : FatFs) (k k' : Disk) (segs : list str) (pc : Z) (pl pl' anc : list Z) (name : str)
    (ol : list Z) (new : option (DirEntry * list Z)) : Prop := {
  r_upd : exists T, upd fs k k' T T /\ Forall (fun z => z ∈ pl \/ z ∈ ol \/ fat_val fs k z = 0) T;
  r_dir : dir_at fs k' segs pc pl' anc;
  r_pl : Forall (fun z => z ∈ pl \/ z ∈ ol \/ fat_val fs k z = 0) pl';
  r_find : find_entry name (entries fs k' pl') = fst <$> new;
  r_new e fl : new = Some (e, fl) ->
    chain fs k' (de_cluster e) fl /\ used fs k' fl /\ fl ## pl' /\
    Forall (fun z => z ∈ ol \/ fat_val fs k z = 0) fl;
  r_other name' : map to_lower name' <> map to_lower name ->
    find_entry name' (entries fs k' pl') = find_entry name' (entries fs k pl);
  r_free : (length (free_data fs k) <=
    length (free_data fs k') + match new with Some (_, fl) => S (length fl) | None => 0 end)%nat;
}.

(** The end of every update that adds an entry: [k1] is the volume without the previous version, [k2]
    the one in which the new clusters [fl] are claimed. *)
Lemma add_claimed_ok fs k k1 k2 segs pc pl anc name ol attrs head size fl :
  geom fs (nblocks k) -> upd fs k k1 ol pl -> (forall x, x ∈ ol -> fat_val fs k1 x = 0) -> dir_at fs k1 segs pc pl anc ->
  find_entry name (entries fs k1 pl) = None ->
  (forall name', map to_lower name' <> map to_lower name ->
     find_entry name' (entries fs k1 pl) = find_entry name' (entries fs k pl)) ->
  upd fs k1 k2 fl fl -> chain fs k2 head fl -> used fs k2 fl -> frees fs k1 = fl ++ frees fs k2 ->
  (0 < length (free_data fs k2))%nat -> plain_name name -> fits_83 name -> plain_attrs attrs ->
  0 <= head < 2 ^ 32 -> 0 <= size < 2 ^ 32 ->
  exists k' pl', add_dir_entry fs pc name attrs head size k2 = (Ok tt, k') /\
    replaced fs k k' segs pc pl pl' anc name ol (Some (new_entry name attrs head size, fl)) /\
    upd fs k2 k' pl' pl' /\ pl' ## fl.
Proof.
  intros G Hu1 Hgone Hd1 Hn1 Ho1 Hu2 Hch2 Hus2 Hf2 Hroom Hp Hfit Ha Hh Hz. pose proof (g_nf _ _ G).
  pose proof (geom_upd _ _ _ _ _ Hu1 G) as G1. pose proof (u_wf _ _ _ _ _ Hu1) as Hwf1.
  pose proof (geom_upd _ _ _ _ _ Hu2 G1) as G2. pose proof (u_wf _ _ _ _ _ Hu2) as Hwf2.
  assert (forall z, z ∈ frees fs k1 -> z ∈ ol \/ fat_val fs k z = 0) as Hfz.
  { intros z [Hzr H0]%elem_of_frees. destruct (decide (z ∈ ol)) as [?|Hno]; [by left|]. right.
    unfold fat_val in *. by rewrite (u_fat _ _ _ _ _ Hu1) in H0 by (lia || done). }
  assert (fl ## anc ++ pl) as Hdj2.
  { intros x Hx1 Hx2. assert (x ∈ frees fs k1) as [_ H0]%elem_of_frees by (rewrite Hf2; set_solver).
    pose proof (d_used _ _ _ _ _ _ Hd1) as Hus. unfold used in Hus. rewrite Forall_forall in Hus. by apply (Hus x). }
  assert (dir_at fs k2 segs pc pl anc) as Hd2 by (by eapply (dir_at_frame fs k1 G1 Hwf1)).
  assert (entries fs k2 pl = entries fs k1 pl) as Hen2.
  { unfold entries. erewrite slots_frame; [done|done|set_solver|].
    by apply (dir_range fs k1 segs pc pl anc) in Hd1 as [_ ?]%Forall_app. }
  destruct (first_free fs k2 G2 Hroom) as (f & rest & Hfr & Hfn).
  destruct (dir_at_add fs k2 G2 Hwf2 segs pc pl anc Hd2 name attrs head size f rest)
    as (k3 & ext & x & y & Hk3 & Hu3 & Hd3 & Hf3 & Hle & Hx & Hy); [done..|by rewrite Hen2|done|done|].
  assert (pl ++ ext ## fl) as Hdj3.
  { intros z [Hz1|Hz1]%elem_of_app Hz2; [set_solver|].
    assert (z ∈ frees fs k2) as [_ H0]%elem_of_frees by (rewrite Hf3; set_solver).
    unfold used in Hus2. rewrite Forall_forall in Hus2. by apply (Hus2 z). }
  exists k3, (pl ++ ext). split; [done|]. split; [|done]. split.
  - exists (ol ++ pl ++ fl ++ ext). split.
    + eapply upd_weaken; [eapply upd_trans; [exact Hu1|eapply upd_trans; [exact Hu2|exact Hu3]]|set_solver..].
    + rewrite !Forall_app. repeat split; apply Forall_forall; intros z Hz'; [auto|auto|right; apply Hfz..].
      * rewrite Hf2. set_solver.
      * rewrite Hf2, Hf3. set_solver.
  - done.
  - apply Forall_app. split; apply Forall_forall; intros z Hz'; [auto|right; apply Hfz]. rewrite Hf2, Hf3. set_solver.
  - apply find_entry_lookup; [apply Hd3|rewrite Hy; set_solver|].
    unfold lname, new_entry. simpl. apply map_to_lower_idem.
  - intros e fl' [= <- <-]. cbn [new_entry de_cluster]. split; [by eapply chain_frame|]. split; [|split; [set_solver|]].
    + eapply used_frame; [done|done|done|by eapply chain_range|done].
    + apply Forall_forall. intros z Hz'. apply Hfz. rewrite Hf2. set_solver.
  - intros name' Hne. rewrite Hy, find_entry_other, <- Hx, Hen2 by (unfold lname; simpl; rewrite map_to_lower_idem; done).
    by apply Ho1.
  - pose proof (free_data_mono _ _ _ _ _ Hu1 ltac:(lia) Hgone).
    pose proof (free_data_taken fs k1 k2 fl (u_nb _ _ _ _ _ Hu2) Hf2).
    pose proof (free_data_taken fs k2 k3 ext (u_nb _ _ _ _ _ Hu3) Hf3). lia.
Qed.

(** What [write_file] leaves behind. *)
Lemma fat_write_file_ok fs k segs pc pl anc name data ol :
  geom fs (nblocks k) -> disk_wf k -> Forall valid_seg segs -> dir_at fs k segs pc pl anc ->
  valid_seg name -> plain_name name -> fits_83 name -> old_file fs k pl anc name ol ->
  Z.of_nat (length data) < 2 ^ 32 -> (clusters_for fs data < length (free_data fs k))%nat ->
  exists k' head fl pl',
    fat_write_file fs (abs_path (segs ++ [name])) data k = (Ok tt, k') /\
    replaced fs k k' segs pc pl pl' anc name ol (Some (new_entry name 0x20 head (Z.of_nat (length data)), fl)) /\
    (data <> [] -> 2 <= head) /\ take (length data) (contents fs k' fl) = data /\ length fl = clusters_for fs data.
Proof.
  intros G Hwf Hsegs Hd Hvn Hp Hfit Ho Hlen Hroom. pose proof (d_walk _ _ _ _ _ _ Hd) as Hw.
  pose proof (g_nf _ _ G).
  destruct (clear_old_ok fs k segs pc pl anc name ol G Hwf Hd Hp Ho)
    as (k1 & Hk1 & Hu1 & Hd1 & Hz1 & Hn1 & Hother1).
  pose proof (geom_upd _ _ _ _ _ Hu1 G) as G1. pose proof (u_wf _ _ _ _ _ Hu1) as Hwf1.
  pose proof (free_data_mono _ _ _ _ _ Hu1 ltac:(lia) Hz1) as Hmono.
  destruct (store_ok fs k1 data G1 Hwf1 Hlen ltac:(lia))
    as (head & fl & k2 & Hk2 & Hh & Hh2 & Hu2 & Hch2 & Hd2 & Hf2 & Hus2 & Hfl & Hfd2).
  destruct (add_claimed_ok fs k k1 k2 segs pc pl anc name ol 0x20 head (Z.of_nat (length data)) fl)
    as (k3 & pl' & Hk3 & HR & Hu3 & Hdj); [done..|lia|done|done|by right; right|done|lia|].
  exists k3, head, fl, pl'. split; [|split; [done|split; [done|split; [|done]]]].
  - unfold fat_write_file. rewrite fat_split_parent_ok by done. unfold lift at 1. unfold bind at 1.
    erewrite bind_ok by (by eapply fat_is_dir_ok). cbn [negb].
    erewrite bind_ok by (by eapply cluster_for_ok).
    erewrite bind_ok by (eapply find_in_dir_ok; [done|done|by eapply walks_chain]).
    rewrite (bind_ok _ _ _ _ _ Hk1). erewrite bind_ok by (by apply cluster_bytes_ok).
    rewrite (bind_ok _ _ _ _ _ Hk2). unfold as_u32. by rewrite Z.mod_small by lia.
  - erewrite contents_frame; [done|done|done|]. by eapply chain_range.
Qed.

(** Reading a file through its directory entry. *)
Definition file_bytes (fs : FatFs) (k : Disk) (e : DirEntry) (l : list Z) : bytes :=
  if (de_size e =? 0) || (de_cluster e <? 2) then []
  else take (Z.to_nat (de_size e)) (contents fs k l).

Lemma fat_read_file_ok fs k segs pc pl anc name e l :
  geom fs (nblocks k) -> disk_wf k -> Forall valid_seg segs -> valid_seg name ->
  walks fs k (root_cluster fs) segs pc pl anc -> find_entry name (entries fs k pl) = Some e ->
  de_is_dir e = false -> chain fs k (de_cluster e) l ->
  fat_read_file fs (abs_path (segs ++ [name])) k = (Ok (file_bytes fs k e l), k).
Proof.
  intros G Hwf Hs Hn Hw Hf Hd Hc. unfold fat_read_file, file_bytes.
  erewrite bind_ok by (erewrite fat_lookup_child, Hf by done; done). rewrite Hd.
  destruct (_ || _); [done|].
  destruct (read_chain_prefix fs k G Hwf _ _ (de_size e) Hc) as (out & Hr & Ht).
  rewrite (bind_ok _ _ _ _ _ Hr). unfold ret. by rewrite Ht.
Qed.

Lemma file_bytes_new fs k name head fl data :
  (data <> [] -> 2 <= head) -> take (length data) (contents fs k fl) = data ->
  file_bytes fs k (new_entry name 0x20 head (Z.of_nat (length data))) fl = data.
Proof.
  intros Hh Ht. unfold file_bytes. simpl. destruct (Z.eqb_spec (Z.of_nat (length data)) 0) as [H0|H0].
  - by destruct data.
  - destruct (Z.ltb_spec head 2); simpl; [|by rewrite Nat2Z.id].
    assert (2 <= head) by (apply Hh; by intros ->). lia.
Qed.

Lemma file_bytes_frame fs k k' F C e l :
  upd fs k k' F C -> C ## l -> Forall (fun x => 2 <= x < nclusters fs (nblocks k)) l ->
  file_bytes fs k' e l = file_bytes fs k e l.
Proof.
  intros Hu Hd Hr. unfold file_bytes. by erewrite contents_frame.
Qed.
