(* ===== verification/FatSpec.v ===== *)
(** * FAT32: theorems about the volume

    What the public operations of src/kernel/src/fs/fat.rs guarantee on a well-formed volume, stated
    on the abstract disk of Block.v, and a small formatted image they are tried on. *)

From S2P Require Import Prelude.
From S2P Require Import Vfs.
From S2P Require Import Block.
From S2P Require Import Fat.
From S2P Require Import FatName.
From S2P Require Import FatTable.
From S2P Require Import FatChain.
From S2P Require Import FatDir.
From S2P Require Import FatFile.

Open Scope Z_scope.

(** A path component FAT can store: typable, not a dot name, and 8.3. *)
Definition fat_name (name : str) : Prop := valid_seg name /\ plain_name name /\ fits_83 name.

(** Another file of the same directory, whose clusters are in use and disjoint from [pl] (the
    directory) and [ol] (the file being replaced). *)
Definition bystander (fs : FatFs) (k : Disk) (pl ol : list Z) (name : str) (e : DirEntry) (lo : list Z) : Prop :=
  valid_seg name /\ find_entry name (entries fs k pl) = Some e /\ de_is_dir e = false /\
  chain fs k (de_cluster e) lo /\ used fs k lo /\ lo ## pl ++ ol.

(** Everywhere on the volume, a chain of clusters in use that keeps clear of [t] is as before, link by
    link and byte by byte: the clusters of every file and every directory but those of [t]. *)
Definition untouched (fs : FatFs) (k k' : Disk) (t : list Z) : Prop :=
  forall c l, chain fs k c l -> used fs k l -> l ## t ->
    chain fs k' c l /\ used fs k' l /\ contents fs k' l = contents fs k l.

(** An update touches the directory, the clusters the name held, and free ones. *)
Lemma replaced_untouched fs k k' segs pc pl pl' anc name ol new :
  geom fs (nblocks k) -> replaced fs k k' segs pc pl pl' anc name ol new -> untouched fs k k' (pl ++ ol).
Proof.
  intros G HR c l Hc Hus Hdj. destruct (r_upd _ _ _ _ _ _ _ _ _ _ _ HR) as (T & Hu & HT).
  assert (T ## l) as HTl.
  { intros x Hx Hl. rewrite Forall_forall in HT. unfold used in Hus. rewrite Forall_forall in Hus.
    specialize (Hus x Hl). destruct (HT x Hx) as [?|[?|?]]; [set_solver|set_solver|done]. }
  pose proof (chain_range _ _ _ _ Hc) as Hr.
  split; [by eapply chain_frame|]. split; [by eapply used_frame|by eapply contents_frame].
Qed.

(** A bystander of an update reads as before. *)
Lemma bystander_reads fs k k' segs pc pl pl' anc name ol new name' e lo :
  geom fs (nblocks k) -> disk_wf k -> Forall valid_seg segs -> dir_at fs k segs pc pl anc ->
  replaced fs k k' segs pc pl pl' anc name ol new ->
  map to_lower name' <> map to_lower name -> bystander fs k pl ol name' e lo ->
  fat_read_file fs (abs_path (segs ++ [name'])) k' = (fst (fat_read_file fs (abs_path (segs ++ [name'])) k), k').
Proof.
  intros G Hwf Hs Hd HR Hne (Hn & Hf & Hde & Hc & Hus & Hdj).
  destruct (r_upd _ _ _ _ _ _ _ _ _ _ _ HR) as (T & Hu & HT). pose proof (r_dir _ _ _ _ _ _ _ _ _ _ _ HR) as Hd'.
  assert (T ## lo) as HTlo.
  { intros x Hx Hlo. rewrite Forall_forall in HT. unfold used in Hus. rewrite Forall_forall in Hus.
    specialize (Hus x Hlo). destruct (HT x Hx) as [?|[?|?]]; [set_solver|set_solver|done]. }
  assert (chain fs k' (de_cluster e) lo) as Hc' by (by eapply chain_frame).
  pose proof (geom_upd _ _ _ _ _ Hu G) as G'. pose proof (u_wf _ _ _ _ _ Hu) as Hwf'.
  rewrite (fat_read_file_ok fs k segs pc pl anc name' e lo) by (done || apply Hd).
  rewrite (fat_read_file_ok fs k' segs pc pl' anc name' e lo)
    by (done || apply Hd' || by rewrite (r_other _ _ _ _ _ _ _ _ _ _ _ HR)).
  erewrite file_bytes_frame; [done|done|done|by eapply chain_range].
Qed.

(** A file just written reads as its data. *)
Lemma written_reads fs k k' segs pc pl pl' anc name ol head fl data :
  geom fs (nblocks k) -> Forall valid_seg segs -> valid_seg name ->
  replaced fs k k' segs pc pl pl' anc name ol (Some (new_entry name 0x20 head (Z.of_nat (length data)), fl)) ->
  (data <> [] -> 2 <= head) -> take (length data) (contents fs k' fl) = data ->
  fat_read_file fs (abs_path (segs ++ [name])) k' = (Ok data, k').
Proof.
  intros G Hs Hn HR Hh Hdata. destruct (r_upd _ _ _ _ _ _ _ _ _ _ _ HR) as (T & Hu & _).
  pose proof (geom_upd _ _ _ _ _ Hu G) as G'. pose proof (u_wf _ _ _ _ _ Hu) as Hwf'.
  destruct (r_new _ _ _ _ _ _ _ _ _ _ _ HR _ _ eq_refl) as (Hch & _).
  rewrite (fat_read_file_ok fs k' segs pc pl' anc name (new_entry name 0x20 head (Z.of_nat (length data))) fl G' Hwf' Hs Hn
    (d_walk _ _ _ _ _ _ (r_dir _ _ _ _ _ _ _ _ _ _ _ HR)) (r_find _ _ _ _ _ _ _ _ _ _ _ HR)) by done.
  by rewrite file_bytes_new.
Qed.

(** C2: read-your-writes on FAT32, with framing. In a well-formed directory, with room for the data
    and one more cluster, [write_file] to an 8.3 name succeeds (replacing the previous version, if
    any), reading the file back returns exactly the data, the directory stays well-formed, FAT copies
    that agreed still agree, every other file of the directory reads as before, and anywhere on the
    volume the clusters of files and directories other than this directory and the previous version keep
    their links and their bytes. *)
Theorem fat_write_read fs k segs pc pl anc name data ol :
  geom fs (nblocks k) -> disk_wf k -> Forall valid_seg segs -> dir_at fs k segs pc pl anc ->
  fat_name name -> old_file fs k pl anc name ol ->
  Z.of_nat (length data) < 2 ^ 32 -> (clusters_for fs data < length (free_data fs k))%nat ->
  exists k' pl',
    fat_write_file fs (abs_path (segs ++ [name])) data k = (Ok tt, k') /\
    fat_read_file fs (abs_path (segs ++ [name])) k' = (Ok data, k') /\
    dir_at fs k' segs pc pl' anc /\ (mirrored fs k -> mirrored fs k') /\ untouched fs k k' (pl ++ ol) /\
    forall name' e lo, map to_lower name' <> map to_lower name -> bystander fs k pl ol name' e lo ->
      fat_read_file fs (abs_path (segs ++ [name'])) k' =
        (fst (fat_read_file fs (abs_path (segs ++ [name'])) k), k').
Proof.
  intros G Hwf Hs Hd (Hvn & Hp & Hfit) Ho Hlen Hroom.
  destruct (fat_write_file_ok fs k segs pc pl anc name data ol)
    as (k' & head & fl & pl' & Hk' & HR & Hh & Hdata & _); [done..|].
  destruct (r_upd _ _ _ _ _ _ _ _ _ _ _ HR) as (T & Hu & _). pose proof (r_dir _ _ _ _ _ _ _ _ _ _ _ HR) as Hd'.
  pose proof (replaced_untouched _ _ _ _ _ _ _ _ _ _ _ G HR) as Hun.
  exists k', pl'. split; [done|]. split; [|split; [done|split; [apply Hu|split; [done|]]]].
  - by eapply written_reads.
  - intros name' e lo Hne Hb. by eapply (bystander_reads fs k k' segs pc pl pl').
Qed.

(** [fat_lookup] of a name that is not there. *)
Lemma lookup_missing fs k segs pc pl anc name :
  geom fs (nblocks k) -> disk_wf k -> Forall valid_seg segs -> valid_seg name ->
  dir_at fs k segs pc pl anc -> find_entry name (entries fs k pl) = None ->
  fat_lookup fs (abs_path (segs ++ [name])) k = (Err NotFound, k).
Proof.
  intros G Hwf Hs Hn Hd Hf. erewrite fat_lookup_child by (done || apply Hd). by rewrite Hf.
Qed.

(** What [remove] leaves behind. *)
Lemma fat_remove_ok fs k segs pc pl anc name old ol :
  geom fs (nblocks k) -> disk_wf k -> Forall valid_seg segs -> dir_at fs k segs pc pl anc ->
  valid_seg name -> plain_name name -> find_entry name (entries fs k pl) = Some old ->
  chain fs k (de_cluster old) ol -> ol ## anc ++ pl ->
  (de_is_dir old = true -> entries fs k ol = []) ->
  exists k',
    fat_remove fs (abs_path (segs ++ [name])) k = (Ok tt, k') /\
    replaced fs k k' segs pc pl pl anc name ol None /\ upd fs k k' ol pl /\
    (forall x, x ∈ ol -> fat_val fs k' x = 0).
Proof.
  intros G Hwf Hs Hd Hvn Hp Hf Hc Hdj Hempty. pose proof (d_walk _ _ _ _ _ _ Hd) as Hw.
  destruct (drop_entry_ok fs k segs pc pl anc name old ol) as (k' & Hk' & Hu & Hd' & Hz & Hn & Hother); [done..|].
  exists k'. split; [|split; [|by split]].
  - unfold fat_remove. rewrite fat_split_parent_ok by done. unfold lift at 1. unfold bind at 1.
    erewrite bind_ok by (by eapply cluster_for_ok).
    erewrite bind_ok by (eapply find_in_dir_ok; [done|done|by eapply walks_chain]).
    fold (entries fs k pl). rewrite Hf. unfold lift, ok_or. unfold bind at 1.
    rewrite (bind_ok _ _ _ tt k); [done|].
    destruct (de_is_dir old); [|done]. erewrite bind_ok by (by eapply read_dir_ok).
    fold (entries fs k ol). by rewrite Hempty, decide_True.
  - split; [|done| |by rewrite Hn|done|done|].
    + exists (ol ++ pl). split; [eapply upd_weaken; [done|set_solver..]|].
      apply Forall_app. split; apply Forall_forall; auto.
    + apply Forall_forall. auto.
    + rewrite Nat.add_0_r. eapply free_data_mono; [done|by apply G|done].
Qed.

(** C9: [remove] on FAT32. Removing a file, or a directory without entries, succeeds; the name is
    gone, exactly its clusters became free, the directory stays well-formed, every other file of the
    directory reads as before, and anywhere on the volume the clusters of the other files and directories
    keep their links and their bytes. *)
Theorem fat_remove_gone fs k segs pc pl anc name old ol :
  geom fs (nblocks k) -> disk_wf k -> Forall valid_seg segs -> dir_at fs k segs pc pl anc ->
  fat_name name -> find_entry name (entries fs k pl) = Some old ->
  chain fs k (de_cluster old) ol -> ol ## anc ++ pl ->
  (de_is_dir old = true -> entries fs k ol = []) ->
  exists k',
    fat_remove fs (abs_path (segs ++ [name])) k = (Ok tt, k') /\
    fat_lookup fs (abs_path (segs ++ [name])) k' = (Err NotFound, k') /\
    dir_at fs k' segs pc pl anc /\ (mirrored fs k -> mirrored fs k') /\
    (forall c, 2 <= c < nfat fs -> fat_val fs k' c = if decide (c ∈ ol) then 0 else fat_val fs k c) /\
    untouched fs k k' (pl ++ ol) /\
    forall name' e lo, map to_lower name' <> map to_lower name -> bystander fs k pl ol name' e lo ->
      fat_read_file fs (abs_path (segs ++ [name'])) k' =
        (fst (fat_read_file fs (abs_path (segs ++ [name'])) k), k').
Proof.
  intros G Hwf Hs Hd (Hvn & Hp & _) Hf Hc Hdj Hempty. pose proof (g_nf _ _ G).
  destruct (fat_remove_ok fs k segs pc pl anc name old ol) as (k' & Hk' & HR & Hu & Hz); [done..|].
  pose proof (geom_upd _ _ _ _ _ Hu G) as G'. pose proof (u_wf _ _ _ _ _ Hu) as Hwf'.
  pose proof (r_dir _ _ _ _ _ _ _ _ _ _ _ HR) as Hd'.
  pose proof (replaced_untouched _ _ _ _ _ _ _ _ _ _ _ G HR) as Hun.
  exists k'. split; [done|]. split; [|split; [done|split; [apply Hu|split; [|split; [done|]]]]].
  - by eapply lookup_missing, (r_find _ _ _ _ _ _ _ _ _ _ _ HR).
  - intros c Hcr. unfold fat_val. case_decide as Hin; [by apply Hz|]. by apply (u_fat _ _ _ _ _ Hu); [lia|lia|].
  - intros name' e lo Hne Hb. by eapply (bystander_reads fs k k' segs pc pl pl).
Qed.

(** What [remove] refuses, without touching the disk: a missing name with [NotFound], a directory
    that has entries with [Io]. *)
Theorem fat_remove_refused fs k segs pc pl anc name :
  geom fs (nblocks k) -> disk_wf k -> Forall valid_seg segs -> dir_at fs k segs pc pl anc ->
  valid_seg name ->
  match find_entry name (entries fs k pl) with
  | None => fat_remove fs (abs_path (segs ++ [name])) k = (Err NotFound, k)
  | Some e => forall l, de_is_dir e = true -> chain fs k (de_cluster e) l -> entries fs k l <> [] ->
      fat_remove fs (abs_path (segs ++ [name])) k = (Err Io, k)
  end.
Proof.
  intros G Hwf Hs Hd Hvn. pose proof (d_walk _ _ _ _ _ _ Hd) as Hw.
  assert (fat_remove fs (abs_path (segs ++ [name])) k = (
    let* entry := lift (ok_or NotFound (find_entry name (entries fs k pl))) in
    (if de_is_dir entry then
       let* kids := read_dir fs (de_cluster entry) in
       if decide (kids = []) then ret tt else throw Io
     else ret tt) ;;;
    (if 2 <=? de_cluster entry then free_chain fs (de_cluster entry) else ret tt) ;;;
    delete_dir_entry fs pc name) k) as ->.
  { unfold fat_remove. rewrite fat_split_parent_ok by done. unfold lift at 1. unfold bind at 1.
    erewrite bind_ok by (by eapply cluster_for_ok).
    by erewrite bind_ok by (eapply find_in_dir_ok; [done|done|by eapply walks_chain]). }
  destruct (find_entry name (entries fs k pl)) as [e|]; [|done].
  intros l Hdir Hc Hne. unfold lift, ok_or. unfold bind at 1. rewrite Hdir.
  unfold bind at 1. erewrite bind_ok by (by eapply read_dir_ok).
  fold (entries fs k l). by rewrite decide_False.
Qed.

(** What [create_file] leaves behind; the attributes tell a truncated file from a new one. *)
Lemma fat_create_file_ok fs k segs pc pl anc name ol :
  geom fs (nblocks k) -> disk_wf k -> Forall valid_seg segs -> dir_at fs k segs pc pl anc ->
  fat_name name -> old_file fs k pl anc name ol -> (0 < length (free_data fs k))%nat ->
  let attrs := if find_entry name (entries fs k pl) is Some _ then 0x20 else 0 in
  exists k' pl',
    fat_create_file fs (abs_path (segs ++ [name])) k = (Ok tt, k') /\
    replaced fs k k' segs pc pl pl' anc name ol (Some (new_entry name attrs 0 0, [])).
Proof.
  intros G Hwf Hs Hd (Hvn & Hp & Hfit) Ho Hroom attrs.
  pose proof (d_walk _ _ _ _ _ _ Hd) as Hw. pose proof (g_nf _ _ G).
  destruct (clear_old_ok fs k segs pc pl anc name ol G Hwf Hd Hp Ho)
    as (k1 & Hk1 & Hu1 & Hd1 & Hz1 & Hn1 & Hother1).
  pose proof (free_data_mono _ _ _ _ _ Hu1 ltac:(lia) Hz1) as Hmono.
  destruct (add_claimed_ok fs k k1 k1 segs pc pl anc name ol attrs 0 0 []) as (k2 & pl' & Hk2 & HR & _ & _);
    [done..|apply upd_refl, Hu1|by apply chain_nil|constructor|done|lia|done|done| |lia|lia|].
  { unfold attrs, plain_attrs. destruct (find_entry _ _); auto. }
  exists k2, pl'. split; [|done].
  unfold fat_create_file. rewrite fat_split_parent_ok by done. unfold lift at 1. unfold bind at 1.
  erewrite bind_ok by (by eapply fat_is_dir_ok). cbn [negb].
  erewrite bind_ok by (by eapply cluster_for_ok).
  erewrite bind_ok by (eapply find_in_dir_ok; [done|done|by eapply walks_chain]).
  fold (entries fs k pl). unfold old_file in Ho. unfold attrs in Hk2.
  destruct (find_entry name (entries fs k pl)) as [old|] eqn:Hf.
  - unfold truncate_file. erewrite bind_ok by (eapply find_in_dir_ok; [done|done|by eapply walks_chain]).
    fold (entries fs k pl). rewrite Hf. unfold lift, ok_or. unfold bind at 1.
    destruct (de_is_dir old); [done|]. rewrite <- bind_bind. by rewrite (bind_ok _ _ _ _ _ Hk1).
  - unfold ret in Hk1. by simplify_eq.
Qed.

(** C38: [create_file] on FAT32 creates an empty file or truncates an existing one: afterwards the
    file reads as empty, and every other file of the directory reads as before. *)
Theorem fat_create_file_empty fs k segs pc pl anc name ol :
  geom fs (nblocks k) -> disk_wf k -> Forall valid_seg segs -> dir_at fs k segs pc pl anc ->
  fat_name name -> old_file fs k pl anc name ol -> (0 < length (free_data fs k))%nat ->
  exists k' pl',
    fat_create_file fs (abs_path (segs ++ [name])) k = (Ok tt, k') /\
    fat_read_file fs (abs_path (segs ++ [name])) k' = (Ok [], k') /\
    dir_at fs k' segs pc pl' anc /\ (mirrored fs k -> mirrored fs k') /\ untouched fs k k' (pl ++ ol) /\
    forall name' e lo, map to_lower name' <> map to_lower name -> bystander fs k pl ol name' e lo ->
      fat_read_file fs (abs_path (segs ++ [name'])) k' =
        (fst (fat_read_file fs (abs_path (segs ++ [name'])) k), k').
Proof.
  intros G Hwf Hs Hd Hname Ho Hroom. pose proof Hname as (Hvn & _ & _).
  destruct (fat_create_file_ok fs k segs pc pl anc name ol) as (k' & pl' & Hk' & HR); [done..|].
  destruct (r_upd _ _ _ _ _ _ _ _ _ _ _ HR) as (T & Hu & _). pose proof (r_dir _ _ _ _ _ _ _ _ _ _ _ HR) as Hd'.
  pose proof (geom_upd _ _ _ _ _ Hu G) as G'. pose proof (u_wf _ _ _ _ _ Hu) as Hwf'.
  pose proof (replaced_untouched _ _ _ _ _ _ _ _ _ _ _ G HR) as Hun.
  exists k', pl'. split; [done|]. split; [|split; [done|split; [apply Hu|split; [done|]]]].
  - rewrite (fat_read_file_ok fs k' segs pc pl' anc name _ [] G' Hwf' Hs Hvn (d_walk _ _ _ _ _ _ Hd')
      (r_find _ _ _ _ _ _ _ _ _ _ _ HR)); [done| |by apply chain_nil]. by destruct (find_entry _ _).
  - intros name' e lo Hne Hb. by eapply (bystander_reads fs k k' segs pc pl pl').
Qed.

(** The bytes a name holds now: nothing when it is missing. *)
Definition current_bytes (fs : FatFs) (k : Disk) (pl : list Z) (name : str) (ol : list Z) : bytes :=
  match find_entry name (entries fs k pl) with Some e => file_bytes fs k e ol | None => [] end.


(** ** Making directories *)

(** The slots of a fresh directory: the two dot entries, then unused ones. *)
Lemma dot_slot name cluster :
  name = s_ "." \/ name = s_ ".." ->
  length (write_short_entry name ATTR_DIRECTORY cluster 0) = 32%nat /\
  chunk_byte (write_short_entry name ATTR_DIRECTORY cluster 0) 0 <> 0 /\
  slot_entry (write_short_entry name ATTR_DIRECTORY cluster 0) = None.
Proof.
  intros [-> | ->]; (split; [reflexivity|]; split; [discriminate|reflexivity]).
Qed.

Lemma fresh_dir_slots n d1 d2 :
  length d1 = 32%nat -> length d2 = 32%nat -> (2 <= n)%nat ->
  exists Z0, chunks_exact 32 (splice 32 d2 (splice 0 d1 (zeros (n * 32)))) = d1 :: d2 :: Z0 /\ Forall zeroed Z0.
Proof.
  intros H1 H2 Hn. destruct n as [|[|n]]; [lia|lia|].
  assert (splice 32 d2 (splice 0 d1 (zeros (S (S n) * 32))) = d1 ++ d2 ++ zeros (n * 32)) as ->.
  { unfold splice. rewrite take_0, H1, H2, app_nil_l. unfold zeros. rewrite !drop_replicate.
    rewrite take_app_le, take_ge by lia. do 2 f_equal. rewrite drop_app_ge by lia.
    rewrite drop_replicate. f_equal. lia. }
  rewrite (chunks_exact_go (1 + (1 + n))) by (rewrite !length_app, zeros_length; lia).
  rewrite !chunks_go_app by lia. eexists. split; [cbn [chunks_go app]; by rewrite !take_ge by lia|].
  apply zero_chunks.
Qed.

Lemma walks_snoc fs k c segs pc pl anc name e l :
  walks fs k c segs pc pl anc -> find_entry name (entries fs k pl) = Some e -> de_is_dir e = true ->
  chain fs k (de_cluster e) l -> walks fs k c (segs ++ [name]) (de_cluster e) l (anc ++ pl).
Proof.
  intros Hw Hf Hd Hl. induction Hw as [c l0 Hc|c l0 seg e0 segs pc pl anc Hc He0 Hd0 Hw IH]; simpl.
  - rewrite <- (app_nil_r l0). econstructor; [done|done|done|by constructor].
  - rewrite <- app_assoc. econstructor; [done|done|done|by apply IH].
Qed.

(** The cluster a new directory gets: claimed, and filled with its dot entries. *)
Lemma make_dir_cluster fs k dotdot :
  geom fs (nblocks k) -> disk_wf k -> (0 < length (free_data fs k))%nat ->
  exists c k1 k2 buf1 buf2, frees fs k = c :: frees fs k2 /\ 2 <= c < nclusters fs (nblocks k) /\
    allocate_chain fs 1 k = (Ok c, k1) /\ nblocks k1 = nblocks k /\
    put (E:=FsError) 0 (write_short_entry (s_ ".") ATTR_DIRECTORY c 0) (zeros (cb fs)) k1 = (Ok buf1, k1) /\
    put (E:=FsError) 32 (write_short_entry (s_ "..") ATTR_DIRECTORY dotdot 0) buf1 k1 = (Ok buf2, k1) /\
    write_cluster fs c buf2 k1 = (Ok tt, k2) /\ upd fs k k2 [c] [c] /\
    chain fs k2 c [c] /\ slots_wf (slots fs k2 [c]) /\ entries fs k2 [c] = [] /\
    (length (free_data fs k2) = length (free_data fs k) - 1)%nat.
Proof.
  intros G Hwf Hroom. destruct (take_free fs k 1 G ltac:(lia)) as (rest & Hf & Hr & Hrest).
  destruct (free_data fs k) as [|c fd] eqn:Hfd; [simpl in Hroom; lia|]. cbn [take firstn] in Hf, Hr.
  destruct (allocate_chain_ok fs k 1 [c] rest) as (head & k1 & Hk1 & Hh & Hu1 & Hch1 & _ & Hf1); [done|done|done|lia|done|done|].
  assert (head = c) as -> by (by inversion Hch1).
  pose proof (chain_range _ _ _ _ Hch1) as Hc. apply Forall_cons in Hc as [Hc _]. rewrite (u_nb _ _ _ _ _ Hu1) in Hc.
  pose proof (geom_upd _ _ _ _ _ Hu1 G) as G1. pose proof (u_wf _ _ _ _ _ Hu1) as Hwf1.
  destruct (dot_slot (s_ ".") c ltac:(auto)) as (Hd1 & Hn1 & He1).
  destruct (dot_slot (s_ "..") dotdot ltac:(auto)) as (Hd2 & Hn2 & He2).
  set (d1 := write_short_entry (s_ ".") ATTR_DIRECTORY c 0) in *.
  set (d2 := write_short_entry (s_ "..") ATTR_DIRECTORY dotdot 0) in *.
  pose proof (g_spc _ _ G). set (n := (Z.to_nat (sectors_per_cluster fs) * 16)%nat).
  assert (cb fs = n * 32)%nat as Hcb by (unfold cb, BLOCK_SIZE, n; lia).
  assert (2 <= n)%nat as Hn by (unfold n; lia).
  set (buf1 := splice 0 d1 (zeros (cb fs))). set (buf2 := splice 32 d2 buf1).
  assert (length buf1 = cb fs) as Hb1 by (unfold buf1; rewrite length_splice; rewrite zeros_length; lia).
  assert (length buf2 = cb fs) as Hb2 by (unfold buf2; rewrite length_splice; lia).
  destruct (write_cluster_ok fs k1 G1 Hwf1 c buf2) as (k2 & Hk2 & Hu2 & Hdat); [by rewrite (u_nb _ _ _ _ _ Hu1)|done|].
  pose proof (upd_trans _ _ _ _ _ _ _ _ Hu1 Hu2) as Hu.
  assert (frees fs k2 = rest) as Hf2.
  { rewrite <- Hf1. pose proof (g_nf _ _ G). eapply frees_same; [done|lia|clear; set_solver]. }
  destruct (fresh_dir_slots n d1 d2 Hd1 Hd2 Hn) as (Z0 & HZ & HZ0).
  assert (slots fs k2 [c] = d1 :: d2 :: Z0) as Hsl.
  { rewrite slots_cons, Hdat by apply Hu2. unfold buf2, buf1. rewrite Hcb, HZ.
    change (slots fs k2 []) with (@nil bytes). by rewrite app_nil_r. }
  exists c, k1, k2, buf1, buf2. split; [by rewrite Hf, Hf2|]. split; [done|]. split; [done|].
  split; [apply Hu1|]. split; [apply put_ok; fold d1; rewrite zeros_length; lia|].
  split; [apply put_ok; fold d2; lia|]. split; [done|].
  split; [eapply upd_weaken; [done|clear; set_solver..]|]. split; [|split; [|split]].
  - eapply chain_frame; [|exact Hu2|clear; set_solver|done]. done.
  - rewrite Hsl, !slots_wf_cons by done. by apply slots_wf_zeroed.
  - unfold entries. rewrite Hsl, !parse_dir_cons, He1, He2, parse_dir_zero by done. done.
  - unfold free_data at 1. rewrite Hf2, (u_nb _ _ _ _ _ Hu), Hrest. apply length_drop.
Qed.

(** What [create_dir] leaves behind. *)
Lemma fat_create_dir_ok fs k segs pc pl anc name :
  geom fs (nblocks k) -> disk_wf k -> Forall valid_seg segs -> dir_at fs k segs pc pl anc ->
  fat_name name -> find_entry name (entries fs k pl) = None -> (1 < length (free_data fs k))%nat ->
  exists k' c pl',
    fat_create_dir fs (abs_path (segs ++ [name])) k = (Ok tt, k') /\
    replaced fs k k' segs pc pl pl' anc name [] (Some (new_entry name ATTR_DIRECTORY c 0, [c])) /\
    slots_wf (slots fs k' [c]) /\ entries fs k' [c] = [].
Proof.
  intros G Hwf Hs Hd (Hvn & Hp & Hfit) Hf Hroom. pose proof (d_walk _ _ _ _ _ _ Hd) as Hw.
  destruct (make_dir_cluster fs k (if decide (abs_path segs = s_ "/") then 0 else pc))
    as (c & k1 & k2 & buf1 & buf2 & Hfr & Hc & Hk1 & Hnb1 & Hb1 & Hb2 & Hk2 & Hu2 & Hch2 & Hsw2 & Hen2 & Hfd2); [done|done|lia|].
  destruct (frees_head _ _ _ _ Hfr) as [Hcr Hc0].
  destruct (add_claimed_ok fs k k k2 segs pc pl anc name [] ATTR_DIRECTORY c 0 [c])
    as (k3 & pl' & Hk3 & HR & Hu3 & Hdj); try done.
  { by intros x ?%elem_of_nil. }
  { apply Forall_singleton. by eapply used_claimed. }
  { lia. }
  { by right; left. }
  { pose proof (nfat_bound fs _ G). unfold EOC_THRESHOLD in *. lia. }
  assert (slots fs k3 [c] = slots fs k2 [c]) as Hsl by (eapply slots_frame; [done|done|by eapply chain_range]).
  exists k3, c, pl'. split; [|split; [done|unfold entries; by rewrite Hsl]].
  unfold fat_create_dir. rewrite fat_split_parent_ok by done. unfold lift at 1. unfold bind at 1.
  erewrite bind_ok by (by eapply fat_is_dir_ok). cbn [negb].
  erewrite bind_ok by (by eapply cluster_for_ok).
  erewrite bind_ok by (eapply find_in_dir_ok; [done|done|by eapply walks_chain]).
  fold (entries fs k pl). rewrite Hf, (bind_ok _ _ _ _ _ Hk1).
  erewrite bind_ok by (by apply (cluster_bytes_ok fs k1); rewrite Hnb1).
  rewrite (bind_ok _ _ _ _ _ Hb1), (bind_ok _ _ _ _ _ Hb2).
  by rewrite (bind_ok _ _ _ _ _ Hk2).
Qed.

(** C10: [create_dir] on FAT32. A fresh 8.3 name becomes an empty, well-formed directory, in which the
    other operations can then work, and every file of the parent reads as before. *)
Theorem fat_create_dir_fresh fs k segs pc pl anc name :
  geom fs (nblocks k) -> disk_wf k -> Forall valid_seg segs -> dir_at fs k segs pc pl anc ->
  fat_name name -> find_entry name (entries fs k pl) = None -> (1 < length (free_data fs k))%nat ->
  exists k' c pl',
    fat_create_dir fs (abs_path (segs ++ [name])) k = (Ok tt, k') /\
    dir_at fs k' (segs ++ [name]) c [c] (anc ++ pl') /\ entries fs k' [c] = [] /\
    fat_list_dir fs (abs_path (segs ++ [name])) k' = (Ok [], k') /\
    (mirrored fs k -> mirrored fs k') /\ untouched fs k k' pl /\
    forall name' e lo, map to_lower name' <> map to_lower name -> bystander fs k pl [] name' e lo ->
      fat_read_file fs (abs_path (segs ++ [name'])) k' =
        (fst (fat_read_file fs (abs_path (segs ++ [name'])) k), k').
Proof.
  intros G Hwf Hs Hd Hname Hf Hroom. pose proof Hname as (Hvn & _ & _).
  destruct (fat_create_dir_ok fs k segs pc pl anc name) as (k' & c & pl' & Hk' & HR & Hsw & Hen); [done..|].
  destruct (r_upd _ _ _ _ _ _ _ _ _ _ _ HR) as (T & Hu & HT). pose proof (r_dir _ _ _ _ _ _ _ _ _ _ _ HR) as Hd'.
  pose proof (geom_upd _ _ _ _ _ Hu G) as G'. pose proof (u_wf _ _ _ _ _ Hu) as Hwf'.
  destruct (r_new _ _ _ _ _ _ _ _ _ _ _ HR _ _ eq_refl) as (Hch & Hus & Hdj & Hfree). cbn [new_entry de_cluster] in Hch.
  assert (walks fs k' (root_cluster fs) (segs ++ [name]) c [c] (anc ++ pl')) as Hw'.
  { by apply (walks_snoc fs k' _ segs pc pl' anc name (new_entry name ATTR_DIRECTORY c 0) [c]); [apply Hd'|apply HR| |]. }
  assert (Forall valid_seg (segs ++ [name])) as Hs' by (apply Forall_app; auto).
  assert (c ∉ anc) as Hca.
  { intros Hin. apply Forall_singleton in Hfree as [Hbad|H0]; [by apply elem_of_nil in Hbad|].
    pose proof (d_used _ _ _ _ _ _ Hd) as [Hua _]%Forall_app. rewrite Forall_forall in Hua. by apply (Hua c). }
  pose proof (replaced_untouched _ _ _ _ _ _ _ _ _ _ _ G HR) as Hun. rewrite app_nil_r in Hun.
  exists k', c, pl'. split; [done|]. split; [|split; [done|split; [|split; [apply Hu|split; [done|]]]]].
  - split; [done|done| |set_solver|done|by rewrite Hen; constructor].
    apply Forall_app. split; [apply Hd'|done].
  - destruct (fat_lookup_dir fs k' G' Hwf' (segs ++ [name]) c [c] _ Hs' Hw') as (e & He & Hde & Hce).
    unfold fat_list_dir. rewrite (bind_ok _ _ _ _ _ He), Hde. cbn [negb].
    rewrite decide_False by (apply abs_path_not_root; [done|by destruct segs]). rewrite Hce.
    erewrite bind_ok by (by eapply read_dir_ok). fold (entries fs k' [c]). by rewrite Hen.
  - intros name' e lo Hne Hb. by eapply (bystander_reads fs k k' segs pc pl pl').
Qed.

(** ** Mounting *)

(** The BIOS parameter block fields [mount] reads. *)
Definition bpb (k : Disk) (n off : nat) : Z := le_val (sub_bytes off n (dget k 0)).

(** The volume [mount] describes. *)
Definition bpb_fs (k : Disk) : FatFs :=
  let data := bpb k 2 0x0E + bpb k 1 0x10 * bpb k 4 0x24 in
  mkFatFs (bpb k 2 0x0B) (bpb k 1 0x0D) (bpb k 2 0x0E) (bpb k 1 0x10) (bpb k 4 0x24) (bpb k 4 0x2C)
    (bpb k 2 0x0E) data.

(** The fields of an acceptable boot sector on a disk that holds the volume. *)
Definition formatted (k : Disk) : Prop :=
  bpb k 2 0x0B = 512 /\ 1 <= bpb k 1 0x0D /\ 1 <= bpb k 1 0x10 /\ 2 <= bpb k 2 0x0E /\
  1 <= bpb k 4 0x24 < 0x200000 /\ bpb k 2 0x0E + bpb k 1 0x10 * bpb k 4 0x24 <= nblocks k <= 0x10000000.

Lemma bpb_bound k n off : 0 <= bpb k n off < 256 ^ Z.of_nat n.
Proof.
  unfold bpb. pose proof (le_val_bound (sub_bytes off n (dget k 0))) as H.
  assert (length (sub_bytes off n (dget k 0)) <= n)%nat by (unfold sub_bytes; rewrite length_take; lia).
  pose proof (Z.pow_le_mono_r 256 (Z.of_nat (length (sub_bytes off n (dget k 0)))) (Z.of_nat n)). lia.
Qed.

(** C35: [mount] outcome, completely. On a readable disk, [mount] rejects a boot sector with a sector
    size other than 512, no sectors per cluster or no FAT with [Io], panics when the FAT area's end
    overflows [u32], and otherwise returns the geometry of the boot sector; it never writes. On a
    formatted disk that geometry is one all file-level theorems apply to. *)
Theorem fat_mount_outcome k :
  disk_wf k -> 0 < nblocks k ->
  fat_mount k =
    (if negb (bpb k 2 0x0B =? 512) || (bpb k 1 0x0D =? 0) || (bpb k 1 0x10 =? 0) then Err Io
     else if decide (bpb k 2 0x0E + bpb k 1 0x10 * bpb k 4 0x24 <= U32_MAX) then Ok (bpb_fs k)
     else Panic, k) /\
  (formatted k -> geom (bpb_fs k) (nblocks k)).
Proof.
  intros Hwf Hnb.
  pose proof (bpb_bound k 2 0x0E). pose proof (bpb_bound k 1 0x10). pose proof (bpb_bound k 4 0x24).
  pose proof (bpb_bound k 1 0x0D) as Hspc.
  split.
  - unfold fat_mount. erewrite bind_ok by (apply read_sector_ok; [done|lia]).
    do 6 (erewrite bind_ok by (apply get_le_ok; rewrite Hwf; unfold BLOCK_SIZE; lia)).
    fold (bpb k 2 0x0B) (bpb k 1 0x0D) (bpb k 2 0x0E) (bpb k 1 0x10) (bpb k 4 0x24) (bpb k 4 0x2C).
    change (Z.of_nat BLOCK_SIZE) with 512. destruct (negb _ || _ || _); [done|].
    unfold u32_mul, u32_add. case_decide as Hfit.
    + rewrite !checked_step by lia. done.
    + destruct (decide (bpb k 1 0x10 * bpb k 4 0x24 <= U32_MAX)) as [Hm|Hm].
      * rewrite checked_step by lia. unfold bind. by rewrite checked_panic by lia.
      * unfold bind at 1. by rewrite checked_panic by lia.
  - intros (? & ? & ? & ? & ? & ?). change (256 ^ Z.of_nat 1) with 256 in *. split; simpl; lia.
Qed.

(** ** A formatted image

    One-sector clusters, two reserved sectors, two FATs of one sector, an empty root directory in
    cluster 2, 130 sectors. *)

Module image.

Definition fs : FatFs := mkFatFs 512 1 2 2 1 2 2 4.

Definition fat_sector : bytes := concat (replicate 3 (le_bytes 4 EOC)) ++ zeros 500.

Definition boot_sector : bytes :=
  splice 0x0B (le_bytes 2 512) (splice 0x0D (le_bytes 1 1) (splice 0x0E (le_bytes 2 2)
    (splice 0x10 (le_bytes 1 2) (splice 0x24 (le_bytes 4 1) (splice 0x2C (le_bytes 4 2)
      (zeros 512)))))).

Definition disk : Disk :=
  dput (dput (dput (mkDisk 130 ∅) 0 boot_sector) 2 fat_sector) 3 fat_sector.

Lemma geometry : geom fs (nblocks disk).
Proof.
  split; vm_compute; intuition congruence.
Qed.

Lemma wf : disk_wf disk.
Proof.
  repeat apply disk_wf_dput; try reflexivity. intros lba. reflexivity.
Qed.

Lemma root_chain : chain fs disk 2 [2].
Proof.
  apply chain_cons; [vm_compute; intuition congruence|]. apply chain_nil. vm_compute. reflexivity.
Qed.

Lemma root : dir_at fs disk [] 2 [2] [].
Proof.
  split.
  - apply walks_nil, root_chain.
  - discriminate.
  - repeat constructor. vm_compute. discriminate.
  - set_solver.
  - apply slots_wf_zeroed. apply (bool_decide_unpack _). vm_compute. reflexivity.
  - apply (bool_decide_unpack _). vm_compute. reflexivity.
Qed.

Lemma notes_name : fat_name (s_ "notes.txt").
Proof.
  repeat split; try discriminate.
  - by apply (bool_decide_unpack _); vm_compute.
  - repeat constructor; vm_compute; discriminate.
  - vm_compute. lia.
  - vm_compute. lia.
Qed.

Lemma space : (1 + 100 <= length (free_data fs disk))%nat.
Proof.
  apply Nat.leb_le. vm_compute. reflexivity.
Qed.

Lemma fat_write_read_witness :
  exists k', fat_write_file fs (s_ "/notes.txt") (s_ "hello") disk = (Ok tt, k') /\
    fat_read_file fs (s_ "/notes.txt") k' = (Ok (s_ "hello"), k').
Proof.
  destruct (fat_write_read fs disk [] 2 [2] [] (s_ "notes.txt") (s_ "hello") [])
    as (k' & pl' & H1 & H2 & _).
  - exact geometry.
  - exact wf.
  - constructor.
  - exact root.
  - exact notes_name.
  - vm_compute. reflexivity.
  - reflexivity.
  - vm_compute. lia.
  - exists k'. exact (conj H1 H2).
Defined.

Lemma fat_mount_outcome_witness : fat_mount disk = (Ok fs, disk) /\ geom fs (nblocks disk).
Proof.
  destruct (fat_mount_outcome disk wf) as [H1 H2]; [reflexivity|]. split.
  - rewrite H1. vm_compute. reflexivity.
  - apply H2. vm_compute. intuition congruence.
Defined.

(** The image after one file was written: it lies in cluster 3. *)
Definition disk1 : Disk := snd (fat_write_file fs (s_ "/notes.txt") (s_ "hello") disk).

Lemma wf_blocks k : map_Forall (fun _ b => length b = BLOCK_SIZE) (blocks k) -> disk_wf k.
Proof.
  intros H lba. unfold dget. destruct (blocks k !! lba) as [b|] eqn:Hb; [|reflexivity]. by apply (H lba b).
Qed.

Lemma geometry1 : geom fs (nblocks disk1).
Proof.
  exact geometry.
Qed.

Lemma wf1 : disk_wf disk1.
Proof.
  apply wf_blocks. apply (bool_decide_unpack _). vm_compute. reflexivity.
Qed.

Lemma root1 : dir_at fs disk1 [] 2 [2] [].
Proof.
  split.
  - apply walks_nil, chain_cons; [vm_compute; intuition congruence|].
    apply chain_nil. vm_compute. reflexivity.
  - discriminate.
  - repeat constructor. vm_compute. discriminate.
  - set_solver.
  - vm_compute. apply (bool_decide_unpack _). vm_compute. reflexivity.
  - apply (bool_decide_unpack _). vm_compute. reflexivity.
Qed.

Lemma notes_chain : chain fs disk1 3 [3].
Proof.
  apply chain_cons; [vm_compute; intuition congruence|]. apply chain_nil. vm_compute. reflexivity.
Qed.

Definition notes_entry : DirEntry := mkDirEntry (s_ "notes.txt") false 3 5.

Lemma notes_found : find_entry (s_ "notes.txt") (entries fs disk1 [2]) = Some notes_entry.
Proof.
  vm_compute. reflexivity.
Qed.

Lemma notes_old : old_file fs disk1 [2] [] (s_ "notes.txt") [3].
Proof.
  unfold old_file. rewrite notes_found. split; [reflexivity|]. split; [exact notes_chain|set_solver].
Qed.

Lemma fat_remove_gone_witness :
  exists k', fat_remove fs (s_ "/notes.txt") disk1 = (Ok tt, k') /\
    fat_lookup fs (s_ "/notes.txt") k' = (Err NotFound, k') /\ fat_val fs k' 3 = 0.
Proof.
  destruct (fat_remove_gone fs disk1 [] 2 [2] [] (s_ "notes.txt") notes_entry [3])
    as (k' & H1 & H2 & _ & _ & H3 & _).
  - exact geometry1.
  - exact wf1.
  - constructor.
  - exact root1.
  - exact notes_name.
  - exact notes_found.
  - exact notes_chain.
  - set_solver.
  - discriminate.
  - exists k'. split; [exact H1|]. split; [exact H2|]. apply (H3 3). vm_compute. intuition congruence.
Defined.

Lemma fat_remove_refused_witness : fat_remove fs (s_ "/absent") disk1 = (Err NotFound, disk1).
Proof.
  apply (fat_remove_refused fs disk1 [] 2 [2] [] (s_ "absent") geometry1 wf1 (List.Forall_nil _) root1).
  apply (bool_decide_unpack _). vm_compute. reflexivity.
Defined.

Lemma fat_create_file_empty_witness :
  exists k', fat_create_file fs (s_ "/notes.txt") disk1 = (Ok tt, k') /\
    fat_read_file fs (s_ "/notes.txt") k' = (Ok [], k').
Proof.
  destruct (fat_create_file_empty fs disk1 [] 2 [2] [] (s_ "notes.txt") [3]) as (k' & pl' & H1 & H2 & _).
  - exact geometry1.
  - exact wf1.
  - constructor.
  - exact root1.
  - exact notes_name.
  - exact notes_old.
  - vm_compute. lia.
  - exists k'. exact (conj H1 H2).
Defined.


Lemma fat_create_dir_fresh_witness :
  exists k', fat_create_dir fs (s_ "/notes.txt") disk = (Ok tt, k') /\
    fat_list_dir fs (s_ "/notes.txt") k' = (Ok [], k').
Proof.
  destruct (fat_create_dir_fresh fs disk [] 2 [2] [] (s_ "notes.txt")) as (k' & c & pl' & H1 & _ & _ & H2 & _).
  - exact geometry.
  - exact wf.
  - constructor.
  - exact root.
  - exact notes_name.
  - vm_compute. reflexivity.
  - vm_compute. lia.
  - exists k'. exact (conj H1 H2).
Defined.

(** The same volume on a disk that ends after its second data cluster. *)
Definition tiny : Disk := mkDisk 6 (blocks disk).

(** The free-cluster search trusts the FAT's size, not the disk's. On a volume whose FAT has
    entries past the end of the disk, writing two clusters of data fails with [Io] halfway, and
    leaves a cluster that is not on the disk allocated in the FAT. *)
Theorem alloc_past_end :
  let r := fat_write_file fs (s_ "/a") (replicate 600 "x"%byte) tiny in
  fst r = Err Io /\ nclusters fs (nblocks tiny) = 4 /\ fat_val fs (snd r) 4 = EOC.
Proof.
  vm_compute. auto.
Qed.

(** [write_file] is not atomic. Overwriting a file with data that does not fit fails with [Io]
    after the previous version was deleted. *)
Theorem write_failure_loses_file :
  let k := snd (fat_write_file fs (s_ "/a") (s_ "old") tiny) in
  let r := fat_write_file fs (s_ "/a") (replicate 2000 "x"%byte) k in
  fst (fat_read_file fs (s_ "/a") k) = Ok (s_ "old") /\ fst r = Err Io /\
  fst (fat_read_file fs (s_ "/a") (snd r)) = Err NotFound.
Proof.
  vm_compute. auto.
Qed.

End image.
