(* ===== verification/FatDriver.v ===== *)
(** * FAT32 on a real driver

    The file-system code reaches the disk only through [read_block] and [write_block], so on a driver
    that keeps the contract [BlockDeviceSpec] every operation returns what it returns on the abstract
    disk, and leaves the driver related to the disk the abstract run leaves. *)

From S2P Require Import Prelude.
From S2P Require Import Vfs.
From S2P Require Import Block.
From S2P Require Import Fat.

Section driver.
Context {D : Type} `{BD : BlockDevice D} `{BS : !BlockDeviceSpec D}.

(** [m] on the driver behaves as [m'] on the disk. *)
Definition sim {E A} (m : M D E A) (m' : M Disk E A) : Prop :=
  forall d k, bd_rel d k -> exists d', m d = (fst (m' k), d') /\ bd_rel d' (snd (m' k)).

Lemma sim_pure {E A} (r : res E A) : sim (fun s => (r, s)) (fun s => (r, s)).
Proof.
  intros d k H. by exists d.
Qed.

Lemma sim_bind {E A B} (m : M D E A) m' (f : A -> M D E B) f' :
  sim m m' -> (forall a, sim (f a) (f' a)) -> sim (bind m f) (bind m' f').
Proof.
  intros Hm Hf d k H. destruct (Hm d k H) as (d1 & Hd1 & H1). unfold bind. rewrite Hd1.
  destruct (m' k) as [[a|e| |] k1]; simpl in *; [|by exists d1..]. by apply Hf.
Qed.

Lemma sim_mmap_err {E F A} (g : E -> F) (m : M D E A) m' : sim m m' -> sim (mmap_err g m) (mmap_err g m').
Proof.
  intros Hm d k H. destruct (Hm d k H) as (d1 & Hd1 & H1). unfold mmap_err. rewrite Hd1.
  exists d1. by destruct (m' k).
Qed.

Lemma sim_ignore {E F A} (m : M D E A) m' : sim m m' -> sim (ignore (F:=F) m) (ignore m').
Proof.
  intros Hm d k H. destruct (Hm d k H) as (d1 & Hd1 & H1). unfold ignore. rewrite Hd1.
  exists d1. by destruct (m' k) as [[] ?].
Qed.

Lemma sim_mcase {E F A B} (m : M D E A) m' (f : A -> M D F B) f' (g : E -> M D F B) g' :
  sim m m' -> (forall a, sim (f a) (f' a)) -> (forall e, sim (g e) (g' e)) -> sim (mcase m f g) (mcase m' f' g').
Proof.
  intros Hm Hf Hg d k H. destruct (Hm d k H) as (d1 & Hd1 & H1). unfold mcase. rewrite Hd1.
  destruct (m' k) as [[a|e| |] k1]; simpl in *; [by apply Hf|by apply Hg|by exists d1..].
Qed.

Lemma sim_for_each {E A} (l : list A) (f : A -> M D E unit) f' :
  (forall a, sim (f a) (f' a)) -> sim (for_each l f) (for_each l f').
Proof.
  intros Hf. induction l as [|x l IH]; simpl; [apply sim_pure|]. by apply sim_bind.
Qed.

Lemma sim_for_acc {E A B} (l : list A) (f : B -> A -> M D E B) f' acc :
  (forall b a, sim (f b a) (f' b a)) -> sim (for_acc l acc f) (for_acc l acc f').
Proof.
  intros Hf. revert acc. induction l as [|x l IH]; intros acc; simpl; [apply sim_pure|]. by apply sim_bind.
Qed.

Lemma sim_for_ret {E A R} (l : list A) (f : A -> M D E (option R)) f' :
  (forall a, sim (f a) (f' a)) -> sim (for_ret l f) (for_ret l f').
Proof.
  intros Hf. induction l as [|x l IH]; simpl; [apply sim_pure|]. apply sim_bind; [done|].
  intros [v|]; [apply sim_pure|done].
Qed.

Lemma sim_read lba buf : sim (read_block lba buf) (read_block lba buf).
Proof.
  intros d k H. destruct (bd_read lba buf d k H) as (d' & Hd & H'). exists d'. split; [done|].
  change (snd (read_block lba buf k)) with (snd (disk_read lba buf k)). unfold disk_read.
  by repeat case_match.
Qed.

Lemma sim_write lba buf : sim (write_block lba buf) (write_block lba buf).
Proof.
  intros d k H. apply (bd_write lba buf d k H).
Qed.

End driver.

#[export] Hint Resolve sim_pure sim_read sim_write : willo.

(** One step of a simulation proof: descend through a combinator or split a conditional. *)
Ltac sim_step :=
  match goal with
  | |- forall _, _ => intro
  | |- sim (bind _ _) (bind _ _) => apply sim_bind
  | |- sim (mmap_err _ _) _ => apply sim_mmap_err
  | |- sim (ignore _) _ => apply sim_ignore
  | |- sim (mcase _ _ _) _ => apply sim_mcase
  | |- sim (for_each _ _) _ => apply sim_for_each
  | |- sim (for_acc _ _ _) _ => apply sim_for_acc
  | |- sim (for_ret _ _) _ => apply sim_for_ret
  | |- sim (match ?x with _ => _ end) _ => destruct x
  | |- sim (slice _ _ _) _ => unfold slice
  | |- sim (put _ _ _) _ => unfold put
  | |- sim (get_le _ _ _) _ => unfold get_le
  | |- sim (i32_neg _) _ => unfold i32_neg
  | |- sim (u32_add _ _) _ => unfold u32_add
  | |- sim (u32_sub _ _) _ => unfold u32_sub
  | |- sim (u32_mul _ _) _ => unfold u32_mul
  | |- sim (checked _) _ => unfold checked
  | |- sim (ret _) _ => apply sim_pure
  | |- sim (throw _) _ => apply sim_pure
  | |- sim panic _ => apply sim_pure
  | |- sim diverge _ => apply sim_pure
  | |- sim (lift _) _ => apply sim_pure
  | |- _ => solve [eauto with willo]
  end.
Ltac sim_solve := repeat (cbv beta zeta; sim_step).

Section fat_sim.
Context {D : Type} `{BD : BlockDevice D} `{BS : !BlockDeviceSpec D}.
Implicit Types (fs : FatFs).

Lemma sim_read_into lba buf : sim (D:=D) (read_into lba buf) (read_into lba buf).
Proof.
  unfold read_into. sim_solve.
Qed.

Lemma sim_write_sector lba buf : sim (D:=D) (write_sector lba buf) (write_sector lba buf).
Proof.
  unfold write_sector. sim_solve.
Qed.
#[local] Hint Resolve sim_read_into sim_write_sector : willo.

Lemma sim_next_cluster fs c : sim (D:=D) (next_cluster fs c) (next_cluster fs c).
Proof.
  unfold next_cluster, read_sector. sim_solve.
Qed.

Lemma sim_cluster_to_lba fs c : sim (D:=D) (cluster_to_lba fs c) (cluster_to_lba fs c).
Proof.
  unfold cluster_to_lba. sim_solve.
Qed.

Lemma sim_cluster_bytes fs : sim (D:=D) (cluster_bytes fs) (cluster_bytes fs).
Proof.
  unfold cluster_bytes. sim_solve.
Qed.
#[local] Hint Resolve sim_next_cluster sim_cluster_to_lba sim_cluster_bytes : willo.

Lemma sim_read_chain fs c max : sim (D:=D) (read_chain fs c max) (read_chain fs c max).
Proof.
  unfold read_chain. sim_step; [sim_solve|]. intros cb. generalize (chain_fuel fs), (@nil byte).
  intros fuel. revert c. induction fuel as [|fuel IH]; intros c out; cbn [read_chain_go].
  - sim_solve.
  - unfold read_cluster. sim_solve.
Qed.
#[local] Hint Resolve sim_read_chain : willo.

Lemma sim_read_dir fs c : sim (D:=D) (read_dir fs c) (read_dir fs c).
Proof.
  unfold read_dir. sim_solve.
Qed.
#[local] Hint Resolve sim_read_dir : willo.

Lemma sim_lookup fs abs : sim (D:=D) (fat_lookup fs abs) (fat_lookup fs abs).
Proof.
  unfold fat_lookup. sim_step; [sim_solve|].
  generalize 0%nat, (root_cluster fs), (@None DirEntry).
  induction (segments abs) as [|s l IH]; intros i c found; cbn [lookup_go]; sim_solve.
Qed.
#[local] Hint Resolve sim_lookup : willo.

Lemma sim_is_dir fs abs : sim (D:=D) (fat_is_dir fs abs) (fat_is_dir fs abs).
Proof.
  unfold fat_is_dir. sim_solve.
Qed.
#[local] Hint Resolve sim_is_dir : willo.

Lemma sim_cluster_for fs abs : sim (D:=D) (cluster_for fs abs) (cluster_for fs abs).
Proof.
  unfold cluster_for. sim_solve.
Qed.
#[local] Hint Resolve sim_cluster_for : willo.

Lemma sim_find_in_dir fs c name : sim (D:=D) (find_in_dir fs c name) (find_in_dir fs c name).
Proof.
  unfold find_in_dir. sim_solve.
Qed.
#[local] Hint Resolve sim_find_in_dir : willo.

Lemma sim_read_file fs abs : sim (D:=D) (fat_read_file fs abs) (fat_read_file fs abs).
Proof.
  unfold fat_read_file. sim_solve.
Qed.
#[local] Hint Resolve sim_read_file : willo.

Lemma sim_list_dir fs abs : sim (D:=D) (fat_list_dir fs abs) (fat_list_dir fs abs).
Proof.
  unfold fat_list_dir. sim_solve.
Qed.
#[local] Hint Resolve sim_list_dir : willo.

Lemma sim_find_free fs : sim (D:=D) (find_free_cluster fs) (find_free_cluster fs).
Proof.
  unfold find_free_cluster. sim_step; [sim_solve|]. intros n. cbv zeta.
  generalize (zeros BLOCK_SIZE), U32_MAX. induction (seqZ 2 (n / 4 - 2)) as [|c l IH]; intros buf cur;
    cbn [find_free_go]; sim_solve.
Qed.
#[local] Hint Resolve sim_find_free : willo.

Lemma sim_write_fat_entry fs c v : sim (D:=D) (write_fat_entry fs c v) (write_fat_entry fs c v).
Proof.
  unfold write_fat_entry, write_fat_copy, read_sector. sim_solve.
Qed.
#[local] Hint Resolve sim_write_fat_entry : willo.

Lemma sim_update_fsinfo fs a b : sim (D:=D) (update_fsinfo fs a b) (update_fsinfo fs a b).
Proof.
  unfold update_fsinfo, read_sector. sim_solve.
Qed.
#[local] Hint Resolve sim_update_fsinfo : willo.

Lemma sim_free_chain fs c : sim (D:=D) (free_chain fs c) (free_chain fs c).
Proof.
  unfold free_chain. sim_step; [|sim_solve]. generalize (chain_fuel fs), 0%Z.
  intros fuel. revert c. induction fuel as [|fuel IH]; intros c freed; cbn [free_chain_go]; sim_solve.
Qed.
#[local] Hint Resolve sim_free_chain : willo.

Lemma sim_write_cluster fs c data : sim (D:=D) (write_cluster fs c data) (write_cluster fs c data).
Proof.
  unfold write_cluster. sim_solve.
Qed.
#[local] Hint Resolve sim_write_cluster : willo.

Lemma sim_zero_cluster fs c : sim (D:=D) (zero_cluster fs c) (zero_cluster fs c).
Proof.
  unfold zero_cluster. sim_solve.
Qed.
#[local] Hint Resolve sim_zero_cluster : willo.

Lemma sim_allocate_chain fs n : sim (D:=D) (allocate_chain fs n) (allocate_chain fs n).
Proof.
  unfold allocate_chain, alloc_step. sim_solve.
Qed.
#[local] Hint Resolve sim_allocate_chain : willo.

Lemma sim_write_chain fs c data : sim (D:=D) (write_chain fs c data) (write_chain fs c data).
Proof.
  unfold write_chain. sim_step; [sim_solve|]. intros cb. generalize (length data), 0%nat.
  intros fuel. revert c. induction fuel as [|fuel IH]; intros c off; cbn [write_chain_go]; sim_solve.
Qed.
#[local] Hint Resolve sim_write_chain : willo.

Lemma sim_add_dir_entry fs c name attrs cluster size : sim (D:=D) (add_dir_entry fs c name attrs cluster size) (add_dir_entry fs c name attrs cluster size).
Proof.
  unfold add_dir_entry. sim_step; [sim_solve|]. intros _. generalize (S (chain_fuel fs)).
  intros fuel. revert c. induction fuel as [|fuel IH]; intros c; cbn [add_dir_entry_go].
  - sim_solve.
  - unfold add_in_sector, read_sector. sim_solve.
Qed.
#[local] Hint Resolve sim_add_dir_entry : willo.

Lemma sim_delete_dir_entry fs c name : sim (D:=D) (delete_dir_entry fs c name) (delete_dir_entry fs c name).
Proof.
  unfold delete_dir_entry. generalize (chain_fuel fs).
  intros fuel. revert c. induction fuel as [|fuel IH]; intros c; cbn [delete_dir_entry_go].
  - sim_solve.
  - unfold delete_in_sector, read_sector. sim_solve.
Qed.
#[local] Hint Resolve sim_delete_dir_entry : willo.

Lemma sim_create_file fs abs : sim (D:=D) (fat_create_file fs abs) (fat_create_file fs abs).
Proof.
  unfold fat_create_file, truncate_file. sim_solve.
Qed.
#[local] Hint Resolve sim_create_file : willo.

Lemma sim_write_file fs abs data : sim (D:=D) (fat_write_file fs abs data) (fat_write_file fs abs data).
Proof.
  unfold fat_write_file. sim_solve.
Qed.
#[local] Hint Resolve sim_write_file : willo.

Lemma sim_append_file fs abs data : sim (D:=D) (fat_append_file fs abs data) (fat_append_file fs abs data).
Proof.
  unfold fat_append_file. sim_solve.
Qed.
#[local] Hint Resolve sim_append_file : willo.

Lemma sim_create_dir fs abs : sim (D:=D) (fat_create_dir fs abs) (fat_create_dir fs abs).
Proof.
  unfold fat_create_dir. sim_solve.
Qed.
#[local] Hint Resolve sim_create_dir : willo.

Lemma sim_remove fs abs : sim (D:=D) (fat_remove fs abs) (fat_remove fs abs).
Proof.
  unfold fat_remove. sim_solve.
Qed.
#[local] Hint Resolve sim_remove : willo.

End fat_sim.

(** ** Whole sessions *)

Inductive fat_op : Set :=
| FReadFile (abs : str)
| FListDir (abs : str)
| FIsDir (abs : str)
| FCreateFile (abs : str)
| FWriteFile (abs : str) (data : bytes)
| FAppendFile (abs : str) (data : bytes)
| FCreateDir (abs : str)
| FRemove (abs : str).

Inductive reply : Set :=
| RBytes (b : bytes)
| RNames (l : list str)
| RBool (b : bool)
| RUnit.

Definition fat_exec {D} `{BlockDevice D} (fs : FatFs) (o : fat_op) : M D FsError reply :=
  match o with
  | FReadFile abs => let* b := fat_read_file fs abs in ret (RBytes b)
  | FListDir abs => let* l := fat_list_dir fs abs in ret (RNames l)
  | FIsDir abs => let* b := fat_is_dir fs abs in ret (RBool b)
  | FCreateFile abs => fat_create_file fs abs ;;; ret RUnit
  | FWriteFile abs data => fat_write_file fs abs data ;;; ret RUnit
  | FAppendFile abs data => fat_append_file fs abs data ;;; ret RUnit
  | FCreateDir abs => fat_create_dir fs abs ;;; ret RUnit
  | FRemove abs => fat_remove fs abs ;;; ret RUnit
  end.

#[export] Hint Resolve sim_read_file sim_list_dir sim_is_dir sim_create_file sim_write_file
  sim_append_file sim_create_dir sim_remove : willo.

Lemma sim_exec {D} `{BlockDeviceSpec D} fs o : sim (D:=D) (fat_exec fs o) (fat_exec fs o).
Proof.
  destruct o; unfold fat_exec; sim_solve.
Qed.
