(* ===== verification/FatVolume.v ===== *)
(** * The FAT32 volume as a whole

    An invariant of the entire directory tree of src/kernel/src/fs/fat.rs, and the refinement of a
    flat, case-insensitive namespace by every sequence of its operations. *)

From S2P Require Import Prelude.
From S2P Require Import Vfs.
From S2P Require Import Block.
From S2P Require Import Tmp.
From S2P Require Import Fat.
From S2P Require Import FatName.
From S2P Require Import FatTable.
From S2P Require Import FatChain.
From S2P Require Import FatDir.
From S2P Require Import FatFile.
From S2P Require Import FatSpec.
From S2P Require Import FatDriver.

Open Scope Z_scope.

(** ** The tree *)

(** What a path names: a file with its directory entry, or a directory with its first cluster; and the
    chain of clusters. *)
Inductive vnode : Type :=
| VFile (e : DirEntry) (l : list Z)
| VDir (c : Z) (l : list Z).

Definition vclusters (n : vnode) : list Z := match n with VFile _ l => l | VDir _ l => l end.

(** The node an entry stands for. *)
Definition stands_for (e : DirEntry) (n : vnode) : Prop :=
  match n with
  | VFile e' _ => e' = e /\ de_is_dir e = false
  | VDir c _ => de_is_dir e = true /\ de_cluster e = c
  end.

(** Paths are keyed by their lower-cased segments. *)
Definition key (segs : list str) : list str := map (map to_lower) segs.
Abbreviation volume := (gmap (list str) vnode).

Section volume.
Context (fs : FatFs).

Definition node_ok (k : Disk) (n : vnode) : Prop :=
  used fs k (vclusters n) /\
  match n with
  | VFile e l => chain fs k (de_cluster e) l
  | VDir c l => chain fs k c l /\ l <> [] /\ slots_wf (slots fs k l) /\ NoDup (map lname (entries fs k l))
  end.

(** A directory's entries are exactly the nodes below it. *)
Definition kids_ok (k : Disk) (V : volume) (p : list str) (l : list Z) : Prop :=
  forall x, match find_entry x (entries fs k l), V !! (p ++ [map to_lower x]) with
            | Some e, Some n => stands_for e n
            | None, None => True
            | _, _ => False
            end.

Record vol (k : Disk) (V : volume) : Prop := {
  v_root : exists l, V !! [] = Some (VDir (root_cluster fs) l);
  v_node p n : V !! p = Some n -> node_ok k n;
  v_kids p c l : V !! p = Some (VDir c l) -> kids_ok k V p l;
  v_parent p x n : V !! (p ++ [x]) = Some n -> map to_lower x = x /\ exists c l, V !! p = Some (VDir c l);
  v_disj p q n m : V !! p = Some n -> V !! q = Some m -> p <> q -> vclusters n ## vclusters m;
}.

(** What the tree means: the namespace of Tmp.v. *)
Definition meaning (k : Disk) (n : vnode) : Entry :=
  match n with VFile e l => EFile (file_bytes fs k e l) | VDir _ _ => EDir end.
Definition meanings (k : Disk) (V : volume) : namespace := meaning k <$> V.

Lemma node_range k n : node_ok k n -> Forall (fun x => 2 <= x < nclusters fs (nblocks k)) (vclusters n).
Proof.
  intros [_ H]. destruct n as [e l|c l]; [by eapply chain_range|]. destruct H as [H _]. by eapply chain_range.
Qed.

(** A node away from what an update touched is as before. *)
Lemma node_frame k k' T n :
  geom fs (nblocks k) -> upd fs k k' T T -> T ## vclusters n -> node_ok k n ->
  node_ok k' n /\ meaning k' n = meaning k n /\
  match n with VDir _ l => entries fs k' l = entries fs k l | VFile _ _ => True end.
Proof.
  intros G Hu HT Hn. pose proof (node_range k n Hn) as Hr. destruct Hn as [Hus Hn].
  assert (used fs k' (vclusters n)) as Hus' by (by eapply used_frame).
  destruct n as [e l|c l]; cbn [vclusters] in *.
  - split; [split; [done|by eapply chain_frame]|]. split; [|done]. cbn [meaning]. f_equal. by eapply file_bytes_frame.
  - destruct Hn as (Hc & Hne & Hw & Hd). assert (slots fs k' l = slots fs k l) as Hs by (by eapply slots_frame).
    unfold node_ok, entries in *. rewrite Hs. split; [|done]. split; [done|]. split; [by eapply chain_frame|done].
Qed.

(** ** One entry replaced *)

Lemma find_entry_lower x y l : map to_lower x = map to_lower y -> find_entry x l = find_entry y l.
Proof.
  intros Hxy. unfold find_entry, eq_ignore_case. by rewrite Hxy.
Qed.

Lemma disj_sym (a b : list Z) : a ## b -> b ## a.
Proof.
  intros H z Hb Ha. by apply (H z).
Qed.

Lemma snoc_not_self {A} (q : list A) x : q ++ [x] <> q.
Proof.
  intros Heq%(f_equal length). rewrite length_app in Heq. simpl in Heq. lia.
Qed.

Section replace.
Context (k k' : Disk) (V : volume) (segs : list str) (p : list str) (c : Z) (pl pl' anc : list Z).
Context (name : str) (ol : list Z) (new : option (DirEntry * list Z)) (n' : option vnode).
Context (G : geom fs (nblocks k)) (HV : vol k V) (Hp : V !! p = Some (VDir c pl)).
Context (Hol : ol = match V !! (p ++ [map to_lower name]) with Some n => vclusters n | None => [] end).
Context (Hleaf : forall y, V !! (p ++ [map to_lower name; y]) = None).
Context (HR : replaced fs k k' segs c pl pl' anc name ol new).
(** The node that takes the name's place: a file, or a directory without entries. *)
Context (Hnew : match new, n' with
  | Some (e, fl), Some n => stands_for e n /\ vclusters n = fl /\
      match n with VDir _ l => l <> [] /\ slots_wf (slots fs k' l) /\ entries fs k' l = [] | VFile _ _ => True end
  | None, None => True
  | _, _ => False
  end).

Let q0 : list str := p ++ [map to_lower name].
Definition revised : volume := <[p := VDir c pl']> (partial_alter (fun _ => n') q0 V).

Lemma q0_not_p : q0 <> p.
Proof.
  apply snoc_not_self.
Qed.

Lemma revised_p : revised !! p = Some (VDir c pl').
Proof.
  apply lookup_insert_eq.
Qed.

Lemma revised_q0 : revised !! q0 = n'.
Proof.
  unfold revised. rewrite lookup_insert_ne by (symmetry; apply q0_not_p). apply lookup_partial_alter_eq.
Qed.

Lemma revised_other q : q <> p -> q <> q0 -> revised !! q = V !! q.
Proof.
  intros H1 H2. unfold revised. by rewrite lookup_insert_ne, lookup_partial_alter_ne by done.
Qed.

Lemma revised_cases q n :
  revised !! q = Some n ->
  (q = p /\ n = VDir c pl') \/ (q = q0 /\ n' = Some n) \/ (q <> p /\ q <> q0 /\ V !! q = Some n).
Proof.
  intros Hq. destruct (decide (q = p)) as [->|H1]; [left; rewrite revised_p in Hq; by simplify_eq|].
  destruct (decide (q = q0)) as [->|H2]; [right; left; by rewrite revised_q0 in Hq|].
  right. right. by rewrite revised_other in Hq.
Qed.

(** Nodes elsewhere keep clear of everything the update may touch. *)
Lemma elsewhere q n z :
  V !! q = Some n -> q <> p -> q <> q0 -> z ∈ pl \/ z ∈ ol \/ fat_val fs k z = 0 -> z ∉ vclusters n.
Proof.
  intros Hq H1 H2 Hz Hin. destruct Hz as [Hz|[Hz|Hz]].
  - exact (v_disj _ _ HV q p n _ Hq Hp H1 z Hin Hz).
  - fold q0 in Hol. rewrite Hol in Hz. destruct (V !! q0) as [m|] eqn:Hm; [|by apply elem_of_nil in Hz].
    exact (v_disj _ _ HV q q0 n m Hq Hm H2 z Hin Hz).
  - destruct (v_node _ _ HV q n Hq) as [Hus _]. unfold used in Hus. rewrite Forall_forall in Hus. by apply (Hus z).
Qed.

Lemma elsewhere_frame q n :
  V !! q = Some n -> q <> p -> q <> q0 ->
  node_ok k' n /\ meaning k' n = meaning k n /\
  match n with VDir _ l => entries fs k' l = entries fs k l | VFile _ _ => True end.
Proof.
  intros Hq H1 H2. destruct (r_upd _ _ _ _ _ _ _ _ _ _ _ HR) as (T & Hu & HT).
  eapply node_frame; [done|done| |by apply (v_node _ _ HV q)].
  intros z Hz Hin. rewrite Forall_forall in HT. by apply (elsewhere q n z Hq H1 H2 (HT z Hz)).
Qed.

Lemma revised_node q n : revised !! q = Some n -> node_ok k' n.
Proof.
  pose proof (r_dir _ _ _ _ _ _ _ _ _ _ _ HR) as Hd.
  intros [[-> ->]|[[-> Hn]|(H1 & H2 & Hq)]]%revised_cases; [| |by apply (elsewhere_frame q n)].
  - pose proof (d_used _ _ _ _ _ _ Hd) as [_ Hus]%Forall_app. split; [done|]. split; [by eapply dir_chain|].
    by split; [apply Hd|split; apply Hd].
  - rewrite Hn in Hnew. destruct new as [[e fl]|]; [|done]. destruct Hnew as (He & <- & Hx).
    destruct (r_new _ _ _ _ _ _ _ _ _ _ _ HR _ _ eq_refl) as (Hc & Hus & _). split; [done|].
    destruct n as [e' l|c' l]; cbn in He; destruct He as [He1 He2]; subst; [done|].
    destruct Hx as (Hne & Hsw & Hen). rewrite Hen. split; [done|]. by split; [|split; [|constructor]].
Qed.

Lemma revised_kids q c1 l : revised !! q = Some (VDir c1 l) -> kids_ok k' revised q l.
Proof.
  intros [[-> [= -> ->]]|[[-> Hn]|(H1 & H2 & Hq)]]%revised_cases x.
  - destruct (decide (map to_lower x = map to_lower name)) as [Hx|Hx].
    + rewrite Hx. fold q0. rewrite revised_q0, (find_entry_lower x name _ Hx), (r_find _ _ _ _ _ _ _ _ _ _ _ HR).
      destruct new as [[e fl]|], n'; cbn; try done. apply Hnew.
    + rewrite (r_other _ _ _ _ _ _ _ _ _ _ _ HR) by done.
      rewrite revised_other by (unfold q0; first [apply snoc_not_self|by intros [_ ?]%app_inj_tail]).
      by apply (v_kids _ _ HV p c pl).
  - rewrite Hn in Hnew. destruct new as [[e fl]|]; [|done]. destruct Hnew as (_ & _ & _ & _ & Hen).
    rewrite Hen. cbn [find_entry List.find]. unfold q0. rewrite <- app_assoc. cbn [app].
    rewrite revised_other, Hleaf; [done|..]; unfold q0; intros Heq%(f_equal length); rewrite !length_app in Heq; simpl in Heq; lia.
  - destruct (elsewhere_frame q _ Hq H1 H2) as (_ & _ & ->). pose proof (v_kids _ _ HV q c1 l Hq x) as Hk.
    destruct (decide (q ++ [map to_lower x] = p)) as [Heq|Hne].
    + rewrite Heq in *. rewrite revised_p. rewrite Hp in Hk. by destruct (find_entry _ _).
    + rewrite revised_other; [done|done|]. unfold q0. by intros [? _]%app_inj_tail.
Qed.

Lemma revised_parent q x n :
  revised !! (q ++ [x]) = Some n -> map to_lower x = x /\ exists c1 l, revised !! q = Some (VDir c1 l).
Proof.
  intros [[Heq ->]|[[[-> ->]%app_inj_tail Hn]|(H1 & H2 & Hq)]]%revised_cases.
  - pose proof Hp as Hp'. rewrite <- Heq in Hp'. apply (v_parent _ _ HV) in Hp' as (Hx & c1 & l1 & Hq). split; [done|].
    exists c1, l1. rewrite revised_other; [done|..].
    + intros ->. by apply snoc_not_self in Heq.
    + intros ->. unfold q0 in Heq. apply (f_equal length) in Heq. rewrite !length_app in Heq. simpl in Heq. lia.
  - split; [apply map_to_lower_idem|]. rewrite revised_p. eauto.
  - apply (v_parent _ _ HV) in Hq as Hx. destruct Hx as (Hx & c1 & l1 & Hq1). split; [done|].
    destruct (decide (q = p)) as [->|Hne]; [rewrite revised_p; eauto|].
    destruct (decide (q = q0)) as [->|Hne0]; [|exists c1, l1; by rewrite revised_other].
    exfalso. unfold q0 in Hq. rewrite <- app_assoc in Hq. cbn [app] in Hq. by rewrite Hleaf in Hq.
Qed.

(** The clusters of the directory and of the new node come from their previous ones and free space. *)
Lemma revised_fresh q n :
  revised !! q = Some n -> q = p \/ q = q0 -> Forall (fun z => z ∈ pl \/ z ∈ ol \/ fat_val fs k z = 0) (vclusters n).
Proof.
  intros [[-> ->]|[[-> Hn]|(H1 & H2 & Hq)]]%revised_cases Hor; [apply HR| |by destruct Hor].
  rewrite Hn in Hnew. destruct new as [[e fl]|]; [|done]. destruct Hnew as (_ & -> & _).
  destruct (r_new _ _ _ _ _ _ _ _ _ _ _ HR _ _ eq_refl) as (_ & _ & _ & Hf).
  eapply Forall_impl; [done|]. naive_solver.
Qed.

Lemma revised_disj q1 q2 n m :
  revised !! q1 = Some n -> revised !! q2 = Some m -> q1 <> q2 -> vclusters n ## vclusters m.
Proof.
  assert (forall q1 q2 n m, revised !! q1 = Some n -> revised !! q2 = Some m -> q1 = p \/ q1 = q0 ->
    q2 <> p -> q2 <> q0 -> vclusters n ## vclusters m) as Hfar.
  { intros r1 r2 a b Ha Hb Hr H1 H2 z Hz1 Hz2. pose proof (revised_fresh r1 a Ha Hr) as Hf.
    rewrite Forall_forall in Hf. rewrite revised_other in Hb by done.
    by apply (elsewhere r2 b z Hb H1 H2 (Hf z Hz1)). }
  assert (forall n, n' = Some n -> vclusters n ## pl') as Hnear.
  { intros a Ha. rewrite Ha in Hnew. destruct new as [[e fl]|]; [|done]. destruct Hnew as (_ & -> & _).
    by destruct (r_new _ _ _ _ _ _ _ _ _ _ _ HR _ _ eq_refl) as (_ & _ & Hf & _). }
  intros Hn Hm Hne. pose proof Hn as Hn0. pose proof Hm as Hm0.
  apply revised_cases in Hn0 as [[-> ->]|[[-> Hn1]|(A1 & A2 & Hq1)]];
  apply revised_cases in Hm0 as [[-> ->]|[[-> Hm1]|(B1 & B2 & Hq2)]]; try done.
  - apply disj_sym. by apply Hnear.
  - apply (Hfar p q2 _ _ Hn Hm); auto.
  - by apply Hnear.
  - apply (Hfar q0 q2 _ _ Hn Hm); auto.
  - apply disj_sym, (Hfar p q1 _ _ Hm Hn); auto.
  - apply disj_sym, (Hfar q0 q1 _ _ Hm Hn); auto.
  - by apply (v_disj _ _ HV q1 q2).
Qed.

Lemma vol_revised : vol k' revised.
Proof.
  split.
  - destruct (v_root _ _ HV) as [l Hl]. destruct (decide ([] = p)) as [Heq|Hne].
    + exists pl'. rewrite Heq, Hp in Hl. injection Hl as Hc _. rewrite <- Hc, Heq. apply revised_p.
    + exists l. rewrite revised_other; [done|done|]. unfold q0. apply app_cons_not_nil.
  - apply revised_node.
  - apply revised_kids.
  - apply revised_parent.
  - apply revised_disj.
Qed.

(** In the namespace, only the name itself changes. *)
Lemma meanings_revised :
  meanings k' revised =
    match n' with
    | Some n => <[q0 := meaning k' n]> (meanings k V)
    | None => delete q0 (meanings k V)
    end.
Proof.
  apply map_eq. intros q. unfold meanings. rewrite lookup_fmap.
  destruct (decide (q = q0)) as [->|H2].
  { rewrite revised_q0. destruct n'; [by rewrite lookup_insert_eq|by rewrite lookup_delete_eq]. }
  transitivity ((meaning k <$> V) !! q).
  - rewrite lookup_fmap. destruct (decide (q = p)) as [->|H1]; [by rewrite revised_p, Hp|].
    rewrite revised_other by done. destruct (V !! q) as [n|] eqn:Hq; [|done]. cbn. f_equal. by apply (elsewhere_frame q n).
  - destruct n'; [by rewrite lookup_insert_ne|by rewrite lookup_delete_ne].
Qed.

End replace.

(** ** Paths *)

Lemma key_snoc segs x : key (segs ++ [x]) = key segs ++ [map to_lower x].
Proof.
  unfold key. by rewrite map_app.
Qed.

(** A path that exists leads through directories. *)
Lemma vol_prefix k V p q n :
  vol k V -> V !! (p ++ q) = Some n -> q <> [] -> exists c l, V !! p = Some (VDir c l).
Proof.
  intros HV. revert n. induction q as [|x q IH] using rev_ind; intros n Hn Hne; [done|].
  rewrite app_assoc in Hn. apply (v_parent _ _ HV) in Hn as (_ & c & l & Hq).
  destruct q as [|y q]; [rewrite app_nil_r in Hq; eauto|]. by apply (IH _ Hq).
Qed.

(** A directory of the tree is a well-formed directory at its path, and the clusters on the way belong
    to shorter paths. *)
Lemma vol_dir_at k V segs c l :
  vol k V -> V !! key segs = Some (VDir c l) ->
  exists anc, dir_at fs k segs c l anc /\
    Forall (fun z => exists q m, V !! q = Some m /\ z ∈ vclusters m /\ (length q < length segs)%nat) anc.
Proof.
  intros HV. revert c l. induction segs as [|s segs IH] using rev_ind; intros c l Hl.
  - destruct (v_node _ _ HV _ _ Hl) as (Hus & Hc & Hne & Hsw & Hnd). exists []. split; [|constructor].
    destruct (v_root _ _ HV) as [l0 Hl0]. change (key []) with (@nil str) in Hl. rewrite Hl0 in Hl. injection Hl as <- ->.
    split; [by constructor|done|done|set_solver|done|done].
  - rewrite key_snoc in Hl. pose proof Hl as Hpar. apply (v_parent _ _ HV) in Hpar as (_ & c1 & l1 & Hp).
    destruct (IH c1 l1 Hp) as (anc & Hd & Hanc). pose proof (v_kids _ _ HV _ _ _ Hp s) as Hk. rewrite Hl in Hk.
    destruct (find_entry s (entries fs k l1)) as [e|] eqn:Hf; [|done]. destruct Hk as [Hde Hce].
    destruct (v_node _ _ HV _ _ Hl) as (Hus & Hc & Hne & Hsw & Hnd). cbn [vclusters] in Hus.
    exists (anc ++ l1). assert (length (key segs) = length segs) as Hlen by apply length_map. split; [split|].
    + rewrite <- Hce in Hc |- *. by apply (walks_snoc fs k _ segs c1 l1 anc s e l); [apply Hd| | |].
    + done.
    + apply Forall_app. split; [apply Hd|done].
    + intros z [Hz|Hz]%elem_of_app Hz2.
      * rewrite Forall_forall in Hanc. destruct (Hanc z Hz) as (q & m & Hq & Hzm & Hlt).
        refine (v_disj _ _ HV q _ m _ Hq Hl _ z Hzm Hz2). intros ->. rewrite length_app, Hlen in Hlt. simpl in Hlt. lia.
      * refine (v_disj _ _ HV _ _ _ _ Hp Hl _ z Hz Hz2). intros Heq. symmetry in Heq. by apply snoc_not_self in Heq.
    + done.
    + done.
    + apply Forall_app. split.
      * eapply Forall_impl; [exact Hanc|]. intros z (q & m & Hq & Hzm & Hlt). exists q, m. rewrite length_app. simpl.
        split; [done|]. split; [done|]. lia.
      * apply Forall_forall. intros z Hz. exists (key segs), (VDir c1 l1). rewrite length_app, Hlen. simpl.
        split; [done|]. split; [done|]. lia.
Qed.

(** Following a path in the tree. *)
Fixpoint vfind (V : volume) (pre rest : list str) : res FsError vnode :=
  match rest with
  | [] => ok_or NotFound (V !! pre)
  | s :: rest' =>
      match V !! pre with
      | Some (VDir _ _) => vfind V (pre ++ [map to_lower s]) rest'
      | Some (VFile _ _) => Err NotADir
      | None => Err NotFound
      end
  end.

Lemma resolve_meanings k V pre rest :
  spec.resolve (meanings k V) pre (key rest) = (let? n := vfind V pre rest in Ok (meaning k n)).
Proof.
  revert pre. induction rest as [|s rest IH]; intros pre; cbn [key map spec.resolve vfind]; unfold meanings; rewrite lookup_fmap.
  - by destruct (V !! pre).
  - destruct (V !! pre) as [[e l|c l]|]; cbn; [done|apply IH|done].
Qed.

Lemma vfind_Ok k V pre rest n : vol k V -> vfind V pre rest = Ok n <-> V !! (pre ++ key rest) = Some n.
Proof.
  intros HV. revert pre. induction rest as [|s rest IH]; intros pre; cbn [vfind key map].
  - rewrite app_nil_r. destruct (V !! pre); cbn; naive_solver.
  - specialize (IH (pre ++ [map to_lower s])). rewrite <- app_assoc in IH. cbn [app] in IH.
    destruct (V !! pre) as [[e l|c l]|] eqn:Hp; [|exact IH|].
    + split; [done|]. intros Hn. destruct (vol_prefix k V pre _ n HV Hn) as (c & l' & Hp'); [done|congruence].
    + split; [done|]. intros Hn. destruct (vol_prefix k V pre _ n HV Hn) as (c & l' & Hp'); [done|congruence].
Qed.

Lemma vfind_outcome V pre rest :
  (exists n, vfind V pre rest = Ok n) \/ vfind V pre rest = Err NotFound \/ vfind V pre rest = Err NotADir.
Proof.
  revert pre. induction rest as [|s rest IH]; intros pre; cbn [vfind].
  - destruct (V !! pre); cbn; eauto.
  - destruct (V !! pre) as [[e l|c l]|]; auto.
Qed.

(** ** Reading *)

(** An answer of the driver's lookup and one of the tree agree. *)
Definition found (r : res FsError DirEntry) (v : res FsError vnode) : Prop :=
  match r, v with
  | Ok e, Ok n => stands_for e n
  | Err e1, Err e2 => e1 = e2
  | _, _ => False
  end.

Lemma vol_lookup_go k V i pre c l rest cur fd :
  geom fs (nblocks k) -> disk_wf k -> vol k V -> V !! pre = Some (VDir c l) -> at_dir i cur fd c -> rest <> [] ->
  exists r, lookup_go fs i rest cur fd k = (r, k) /\ found r (vfind V pre rest).
Proof.
  intros G Hwf HV. revert i pre c l cur fd. induction rest as [|s rest IH]; intros i pre c l cur fd Hp Ha Hne; [done|].
  destruct (v_node _ _ HV _ _ Hp) as (_ & Hc & _). cbn [vfind]. rewrite Hp.
  rewrite (lookup_step fs k G Hwf i s rest cur fd c l Ha Hc). pose proof (v_kids _ _ HV _ _ _ Hp s) as Hk.
  destruct (find_entry s (entries fs k l)) as [e|], (V !! (pre ++ [map to_lower s])) as [n|] eqn:Hn; try done.
  - destruct rest as [|s' rest].
    { exists (Ok e). split; [done|]. cbn [vfind]. by rewrite Hn. }
    destruct n as [e' l'|c' l'].
    + destruct Hk as [-> Hde]. exists (Err NotADir). cbn [vfind]. rewrite Hn. split; [|done].
      cbn [lookup_go]. unfold bind, lift, ok_or. cbn [Nat.ltb Nat.leb]. by rewrite Hde.
    + destruct Hk as [Hde Hce]. apply (IH (S i) _ c' l' c (Some e) Hn); [|done].
      right. exists e. split; [lia|done].
  - exists (Err NotFound). split; [done|]. destruct rest; cbn [vfind]; by rewrite Hn.
Qed.

Lemma vol_lookup k V segs :
  geom fs (nblocks k) -> disk_wf k -> vol k V -> Forall valid_seg segs ->
  exists r, fat_lookup fs (abs_path segs) k = (r, k) /\ found r (vfind V [] segs).
Proof.
  intros G Hwf HV Hs. destruct (v_root _ _ HV) as [l Hl]. unfold fat_lookup.
  destruct (decide (segs = [])) as [->|Hne].
  - rewrite decide_True by (by left). eexists. split; [done|]. cbn [vfind]. by rewrite Hl.
  - destruct (abs_path_not_root segs Hs Hne) as [H1 H2]. rewrite decide_False by (by intros [?|?]).
    rewrite segments_abs_path by done. apply (vol_lookup_go k V 0 [] (root_cluster fs) l); auto. by left.
Qed.

Lemma vol_read k V segs :
  geom fs (nblocks k) -> disk_wf k -> vol k V -> Forall valid_seg segs ->
  fat_read_file fs (abs_path segs) k =
    (let? e := spec.resolve (meanings k V) [] (key segs) in
     match e with EFile b => Ok b | EDir => Err IsADir end, k).
Proof.
  intros G Hwf HV Hs. destruct (vol_lookup k V segs G Hwf HV Hs) as (r & Hr & Hf). rewrite resolve_meanings.
  unfold fat_read_file, bind at 1. rewrite Hr. destruct (vfind V [] segs) as [n|e| |] eqn:Hv, r as [e'|e'| |]; cbn in Hf; try done.
  2:{ by subst. }
  apply (vfind_Ok k) in Hv; [|done]. destruct (v_node _ _ HV _ _ Hv) as [_ Hn]. destruct n as [e l|c l]; cbn in Hf.
  - destruct Hf as [-> ->]. cbn [rbind meaning]. unfold file_bytes. destruct (_ || _); [done|].
    destruct (read_chain_prefix fs k G Hwf _ _ (de_size e') Hn) as (out & Ho & Ht).
    rewrite (bind_ok _ _ _ _ _ Ho). unfold ret. by rewrite Ht.
  - destruct Hf as [-> _]. done.
Qed.

Lemma vol_is_dir k V segs :
  geom fs (nblocks k) -> disk_wf k -> vol k V -> Forall valid_seg segs ->
  fat_is_dir fs (abs_path segs) k = (Ok (match vfind V [] segs with Ok (VDir _ _) => true | _ => false end), k).
Proof.
  intros G Hwf HV Hs. destruct (vol_lookup k V segs G Hwf HV Hs) as (r & Hr & Hf).
  unfold fat_is_dir, mcase. rewrite Hr. destruct (vfind V [] segs) as [[e l|c l]|e| |], r as [e'|e'| |]; cbn in Hf; try done.
  - destruct Hf as [_ Hd]. unfold ret. by rewrite Hd.
  - destruct Hf as [Hd _]. unfold ret. by rewrite Hd.
Qed.

Lemma vol_cluster_for k V segs :
  geom fs (nblocks k) -> disk_wf k -> vol k V -> Forall valid_seg segs ->
  cluster_for fs (abs_path segs) k =
    (let? n := vfind V [] segs in match n with VDir c _ => Ok c | VFile _ _ => Err NotADir end, k).
Proof.
  intros G Hwf HV Hs. unfold cluster_for. case_decide as Hroot.
  - destruct segs as [|s l]; [|by destruct (abs_path_not_root (s :: l) Hs)].
    destruct (v_root _ _ HV) as [l Hl]. cbn [vfind]. by rewrite Hl.
  - destruct (vol_lookup k V segs G Hwf HV Hs) as (r & Hr & Hf). unfold bind at 1. rewrite Hr.
    destruct (vfind V [] segs) as [[e l|c l]|e| |], r as [e'|e'| |]; cbn in Hf; try done.
    + destruct Hf as [_ Hd]. by rewrite Hd.
    + destruct Hf as [Hd Hc]. rewrite Hd. cbn. by rewrite Hc.
    + by subst.
Qed.

(** Names read from a directory are in lower case. *)
Lemma entries_lower k l e : e ∈ entries fs k l -> lname e = de_name e.
Proof.
  unfold entries. induction (slots fs k l) as [|s S IH]; [by intros ?%elem_of_nil|]. cbn [parse_dir].
  case_match; [by intros ?%elem_of_nil|]. case_match; [done|]. case_decide; [done|].
  intros [->|He]%elem_of_cons; [|by apply IH]. apply map_to_lower_idem.
Qed.

(** Listings agree up to order. *)
Definition same_names (r1 r2 : res FsError (list str)) : Prop :=
  match r1, r2 with
  | Ok a, Ok b => a ≡ₚ b
  | Err e1, Err e2 => e1 = e2
  | _, _ => False
  end.

(** The names below a directory of the tree. *)
Lemma vol_children k V p c l :
  vol k V -> V !! p = Some (VDir c l) -> map de_name (entries fs k l) ≡ₚ spec.children (meanings k V) p.
Proof.
  intros HV Hp. destruct (v_node _ _ HV _ _ Hp) as (_ & _ & _ & _ & Hnd).
  assert (map de_name (entries fs k l) = map lname (entries fs k l)) as ->.
  { apply map_ext_in. intros e He. symmetry. by eapply entries_lower, list_elem_of_In. }
  apply NoDup_Permutation; [done|apply btree_keys_NoDup|]. intros x. unfold spec.children.
  rewrite elem_of_btree_keys, children_keys. unfold meanings. rewrite lookup_fmap, fmap_is_Some.
  rewrite list_elem_of_fmap. split.
  - intros (e & -> & He). pose proof (v_kids _ _ HV _ _ _ Hp (lname e)) as Hk.
    rewrite (find_entry_lookup (lname e) _ e) in Hk by (done || by unfold lname; rewrite map_to_lower_idem).
    replace (map to_lower (lname e)) with (lname e) in Hk by (unfold lname; by rewrite map_to_lower_idem).
    by destruct (V !! (p ++ [lname e])).
  - intros [n Hn]. pose proof Hn as Hx. apply (v_parent _ _ HV) in Hx as [Hx _].
    pose proof (v_kids _ _ HV _ _ _ Hp x) as Hk. rewrite Hx, Hn in Hk.
    destruct (find_entry x (entries fs k l)) as [e|] eqn:Hf; [|done].
    apply find_entry_name in Hf as [Hl He]. exists e. by rewrite Hl.
Qed.

Lemma vol_list k V segs :
  geom fs (nblocks k) -> disk_wf k -> vol k V -> Forall valid_seg segs ->
  exists r, fat_list_dir fs (abs_path segs) k = (r, k) /\
    same_names r (let? e := spec.resolve (meanings k V) [] (key segs) in
                  match e with EDir => Ok (spec.children (meanings k V) (key segs)) | EFile _ => Err NotADir end).
Proof.
  intros G Hwf HV Hs. destruct (vol_lookup k V segs G Hwf HV Hs) as (r & Hr & Hf). rewrite resolve_meanings.
  unfold fat_list_dir, bind at 1. rewrite Hr.
  destruct (vfind V [] segs) as [n|e| |] eqn:Hv, r as [e'|e'| |]; cbn in Hf; try done.
  2:{ subst. by eexists. }
  apply (vfind_Ok k) in Hv; [|done]. cbn [app] in Hv. destruct n as [e l|c l]; cbn in Hf; destruct Hf as [Hf1 Hf2].
  { subst. rewrite Hf2. by eexists. }
  rewrite Hf1. cbn [negb]. destruct (v_node _ _ HV _ _ Hv) as (_ & Hc & _).
  replace (if decide (abs_path segs = s_ "/") then root_cluster fs else de_cluster e') with c.
  2:{ case_decide as Hroot; [|done]. destruct segs as [|s l0]; [|by destruct (abs_path_not_root (s :: l0) Hs)].
      destruct (v_root _ _ HV) as [l0 Hl0]. change (key []) with (@nil str) in Hv. rewrite Hl0 in Hv. by simplify_eq. }
  erewrite bind_ok by (by eapply read_dir_ok). eexists. split; [done|]. by eapply vol_children.
Qed.

(** ** Updating one name below a directory *)

Section target.
Context (k : Disk) (V : volume) (segs : list str) (name : str) (c : Z) (pl : list Z).
Context (G : geom fs (nblocks k)) (Hwf : disk_wf k) (HV : vol k V).
Context (Hs : Forall valid_seg segs) (Hname : fat_name name) (Hp : V !! key segs = Some (VDir c pl)).

Let q0 : list str := key segs ++ [map to_lower name].

Lemma target_valid : valid_seg name.
Proof using Hname.
  apply Hname.
Qed.

Lemma target_clear anc n :
  Forall (fun z => exists q m, V !! q = Some m /\ z ∈ vclusters m /\ (length q < length segs)%nat) anc ->
  V !! q0 = Some n -> vclusters n ## anc ++ pl.
Proof using HV Hp.
  intros Hanc Hn z Hz [Hza|Hzp]%elem_of_app.
  - rewrite Forall_forall in Hanc. destruct (Hanc z Hza) as (q & m & Hq & Hzm & Hlt).
    refine (v_disj _ _ HV q0 q n m Hn Hq _ z Hz Hzm). intros <-. unfold q0, key in Hlt.
    rewrite length_app, length_map in Hlt. simpl in Hlt. lia.
  - refine (v_disj _ _ HV q0 _ n _ Hn Hp _ z Hz Hzp). apply snoc_not_self.
Qed.

Lemma target_entry :
  match find_entry name (entries fs k pl), V !! q0 with
  | Some e, Some n => stands_for e n
  | None, None => True
  | _, _ => False
  end.
Proof using HV Hp.
  exact (v_kids _ _ HV _ _ _ Hp name).
Qed.

(** The clusters the name holds now. *)
Let ol : list Z := match V !! q0 with Some n => vclusters n | None => [] end.

Lemma target_old anc :
  Forall (fun z => exists q m, V !! q = Some m /\ z ∈ vclusters m /\ (length q < length segs)%nat) anc ->
  (forall c' l', V !! q0 <> Some (VDir c' l')) -> old_file fs k pl anc name ol.
Proof using HV Hp.
  intros Hanc Hnd. pose proof target_entry as He. unfold old_file, ol.
  destruct (find_entry name (entries fs k pl)) as [e|], (V !! q0) as [[e' l|c' l]|] eqn:Hq; try done.
  - destruct He as [-> Hd]. destruct (v_node _ _ HV _ _ Hq) as [_ Hc]. split; [done|]. split; [done|].
    by apply (target_clear anc (VFile e l)).
  - by destruct (Hnd c' l).
Qed.

Lemma target_leaf :
  (forall c' l', V !! q0 = Some (VDir c' l') -> entries fs k l' = []) ->
  forall y, V !! (key segs ++ [map to_lower name; y]) = None.
Proof using HV.
  intros Hempty y. destruct (V !! (key segs ++ [map to_lower name; y])) as [n|] eqn:Hn; [|done].
  replace (key segs ++ [map to_lower name; y]) with (q0 ++ [y]) in Hn by (unfold q0; by rewrite <- app_assoc).
  pose proof Hn as Hy. apply (v_parent _ _ HV) in Hy as (Hy & c' & l' & Hq).
  pose proof (v_kids _ _ HV _ _ _ Hq y) as Hk. by rewrite (Hempty _ _ Hq), Hy, Hn in Hk.
Qed.

(** What an update leads to: a tree again, with only the name's meaning changed. *)
Lemma vol_update k' pl' anc new n' :
  (forall c' l', V !! q0 = Some (VDir c' l') -> entries fs k l' = []) ->
  replaced fs k k' segs c pl pl' anc name ol new ->
  match new, n' with
  | Some (e, fl), Some n => stands_for e n /\ vclusters n = fl /\
      match n with VDir _ l => l <> [] /\ slots_wf (slots fs k' l) /\ entries fs k' l = [] | VFile _ _ => True end
  | None, None => True
  | _, _ => False
  end ->
  exists V', vol k' V' /\ nblocks k' = nblocks k /\ disk_wf k' /\
    meanings k' V' = match n' with
      | Some n => <[q0 := meaning k' n]> (meanings k V)
      | None => delete q0 (meanings k V)
      end.
Proof using G HV Hp.
  intros Hempty HR Hnew. pose proof (target_leaf Hempty) as Hleaf.
  destruct (r_upd _ _ _ _ _ _ _ _ _ _ _ HR) as (T & Hu & _).
  exists (revised V (key segs) c pl' name n'). split; [|split; [apply Hu|split; [apply Hu|]]].
  - by apply (vol_revised k k' V segs (key segs) c pl pl' anc name ol new n').
  - by apply (meanings_revised k k' V segs (key segs) c pl pl' anc name ol new n').
Qed.

Lemma vol_write data :
  (forall c' l', V !! q0 <> Some (VDir c' l')) ->
  Z.of_nat (length data) < 2 ^ 32 -> (clusters_for fs data < length (free_data fs k))%nat ->
  exists k' V', fat_write_file fs (abs_path (segs ++ [name])) data k = (Ok tt, k') /\
    vol k' V' /\ nblocks k' = nblocks k /\ disk_wf k' /\ meanings k' V' = <[q0 := EFile data]> (meanings k V) /\
    (length (free_data fs k) <= length (free_data fs k') + S (clusters_for fs data))%nat.
Proof using G Hwf HV Hs Hname Hp.
  intros Hnd Hlen Hroom. destruct (vol_dir_at k V segs c pl HV Hp) as (anc & Hd & Hanc).
  destruct Hname as (Hvn & Hpn & Hfit).
  destruct (fat_write_file_ok fs k segs c pl anc name data ol) as (k' & head & fl & pl' & Hk' & HR & Hh & Hdata & Hfl);
    [done..|by apply target_old|done|done|].
  destruct (vol_update k' pl' anc _ (Some (VFile (new_entry name 0x20 head (Z.of_nat (length data))) fl))
    ltac:(naive_solver) HR) as (V' & HV' & Hnb & Hwf' & Hm); [done|].
  pose proof (r_free _ _ _ _ _ _ _ _ _ _ _ HR) as Hfree. cbn beta iota in Hfree. rewrite Hfl in Hfree.
  exists k', V'. split_and!; try done. rewrite Hm. cbn [meaning]. by rewrite file_bytes_new.
Qed.

Lemma vol_create :
  (forall c' l', V !! q0 <> Some (VDir c' l')) -> (0 < length (free_data fs k))%nat ->
  exists k' V', fat_create_file fs (abs_path (segs ++ [name])) k = (Ok tt, k') /\
    vol k' V' /\ nblocks k' = nblocks k /\ disk_wf k' /\ meanings k' V' = <[q0 := EFile []]> (meanings k V) /\
    (length (free_data fs k) <= length (free_data fs k') + 1)%nat.
Proof using G Hwf HV Hs Hname Hp.
  intros Hnd Hroom. destruct (vol_dir_at k V segs c pl HV Hp) as (anc & Hd & Hanc).
  destruct (fat_create_file_ok fs k segs c pl anc name ol) as (k' & pl' & Hk' & HR); [done..|by apply target_old|done|].
  set (attrs := if find_entry name (entries fs k pl) is Some _ then 0x20 else 0) in *.
  destruct (vol_update k' pl' anc _ (Some (VFile (new_entry name attrs 0 0) []))
    ltac:(naive_solver) HR) as (V' & HV' & Hnb & Hwf' & Hm).
  { split; [|done]. split; [done|]. unfold attrs. by destruct (find_entry _ _). }
  pose proof (r_free _ _ _ _ _ _ _ _ _ _ _ HR). by exists k', V'.
Qed.

Lemma vol_create_dir :
  V !! q0 = None -> (1 < length (free_data fs k))%nat ->
  exists k' V', fat_create_dir fs (abs_path (segs ++ [name])) k = (Ok tt, k') /\
    vol k' V' /\ nblocks k' = nblocks k /\ disk_wf k' /\ meanings k' V' = <[q0 := EDir]> (meanings k V) /\
    (length (free_data fs k) <= length (free_data fs k') + 2)%nat.
Proof using G Hwf HV Hs Hname Hp.
  intros Hnone Hroom. destruct (vol_dir_at k V segs c pl HV Hp) as (anc & Hd & Hanc).
  pose proof target_entry as He. rewrite Hnone in He.
  destruct (find_entry name (entries fs k pl)) as [e|] eqn:Hf; [done|].
  destruct (fat_create_dir_ok fs k segs c pl anc name) as (k' & c' & pl' & Hk' & HR & Hsw & Hen); [done..|].
  destruct (vol_update k' pl' anc (Some (new_entry name ATTR_DIRECTORY c' 0, [c'])) (Some (VDir c' [c'])))
    as (V' & HV' & Hnb & Hwf' & Hm); [naive_solver|unfold ol; by rewrite Hnone|done|].
  pose proof (r_free _ _ _ _ _ _ _ _ _ _ _ HR). by exists k', V'.
Qed.

Lemma vol_remove n :
  V !! q0 = Some n -> (forall c' l', n = VDir c' l' -> entries fs k l' = []) ->
  exists k' V', fat_remove fs (abs_path (segs ++ [name])) k = (Ok tt, k') /\
    vol k' V' /\ nblocks k' = nblocks k /\ disk_wf k' /\ meanings k' V' = delete q0 (meanings k V) /\
    (length (free_data fs k) <= length (free_data fs k'))%nat.
Proof using G Hwf HV Hs Hname Hp.
  intros Hn Hempty. destruct (vol_dir_at k V segs c pl HV Hp) as (anc & Hd & Hanc). destruct Hname as (Hvn & Hpn & Hfit).
  pose proof target_entry as He. rewrite Hn in He.
  destruct (find_entry name (entries fs k pl)) as [e|] eqn:Hf; [|done].
  assert (chain fs k (de_cluster e) ol /\ (de_is_dir e = true -> entries fs k ol = [])) as [Hc Hkids].
  { unfold ol. rewrite Hn. destruct (v_node _ _ HV _ _ Hn) as [_ Hok].
    destruct n as [e' l|c' l]; cbn in He; destruct He as [He1 He2]; subst.
    - split; [done|]. by rewrite He2.
    - split; [apply Hok|]. intros _. by apply (Hempty _ _ eq_refl). }
  destruct (fat_remove_ok fs k segs c pl anc name e ol) as (k' & Hk' & HR & _); [done..| |done|].
  { unfold ol. rewrite Hn. by apply target_clear. }
  pose proof (r_free _ _ _ _ _ _ _ _ _ _ _ HR) as Hfree. rewrite Nat.add_0_r in Hfree.
  destruct (vol_update k' pl anc None None) as (V' & HV' & Hnb & Hwf' & Hm); [|done|done|by exists k', V'].
  intros c' l' Hq. rewrite Hn in Hq. injection Hq as ->. by apply (Hempty c' l').
Qed.

End target.

End volume.

(** ** The namespace the volume implements

    Paths are canonical and compared in lower case. In contrast to tmpfs, an update whose parent is not
    a directory is [NotADir] even when the parent is missing, except for [remove]. *)

Module fat_ns.

Definition at_key (abs : str) : list str := key (segments abs).

Definition read_file (abs : str) (σ : namespace) : res FsError bytes :=
  let? e := spec.resolve σ [] (at_key abs) in
  match e with EFile b => Ok b | EDir => Err IsADir end.

Definition list_dir (abs : str) (σ : namespace) : res FsError (list str) :=
  let? e := spec.resolve σ [] (at_key abs) in
  match e with EDir => Ok (spec.children σ (at_key abs)) | EFile _ => Err NotADir end.

Definition is_dir (abs : str) (σ : namespace) : bool :=
  match spec.resolve σ [] (at_key abs) with Ok EDir => true | _ => false end.

Definition update (abs : str)
    (upd : list str -> option Entry -> namespace -> res FsError unit * namespace)
    (σ : namespace) : res FsError unit * namespace :=
  match split_last (at_key abs) with
  | None => (Err Io, σ)
  | Some (parent, _) =>
      match spec.resolve σ [] parent with
      | Ok EDir => upd (at_key abs) (σ !! at_key abs) σ
      | _ => (Err NotADir, σ)
      end
  end.

Definition write_file (abs : str) (data : bytes) : namespace -> res FsError unit * namespace :=
  update abs (fun p e σ =>
    match e with Some EDir => (Err IsADir, σ) | _ => (Ok tt, <[p := EFile data]> σ) end).

Definition create_file (abs : str) : namespace -> res FsError unit * namespace := write_file abs [].

Definition append_file (abs : str) (data : bytes) (σ : namespace) : res FsError unit * namespace :=
  match read_file abs σ with
  | Ok b => write_file abs (b ++ data) σ
  | Err NotFound => write_file abs data σ
  | Err e => (Err e, σ)
  | Panic => (Panic, σ)
  | Diverge => (Diverge, σ)
  end.

Definition create_dir (abs : str) : namespace -> res FsError unit * namespace :=
  update abs (fun p e σ =>
    match e with Some _ => (Err Io, σ) | None => (Ok tt, <[p := EDir]> σ) end).

Definition remove (abs : str) (σ : namespace) : res FsError unit * namespace :=
  match split_last (at_key abs) with
  | None => (Err Io, σ)
  | Some (parent, _) =>
      match spec.resolve σ [] parent with
      | Ok EDir =>
          match σ !! at_key abs with
          | None => (Err NotFound, σ)
          | Some EDir =>
              if bool_decide (spec.children σ (at_key abs) = []) then (Ok tt, delete (at_key abs) σ) else (Err Io, σ)
          | Some (EFile _) => (Ok tt, delete (at_key abs) σ)
          end
      | Ok (EFile _) => (Err NotADir, σ)
      | Err e => (Err e, σ)
      | Panic => (Panic, σ)
      | Diverge => (Diverge, σ)
      end
  end.

(** An operation's answer and the namespace after it. *)
Definition unit_reply (r : res FsError unit * namespace) : res FsError reply * namespace :=
  (let? _ := fst r in Ok RUnit, snd r).

Definition exec (o : fat_op) (σ : namespace) : res FsError reply * namespace :=
  match o with
  | FReadFile abs => (let? b := read_file abs σ in Ok (RBytes b), σ)
  | FListDir abs => (let? l := list_dir abs σ in Ok (RNames l), σ)
  | FIsDir abs => (Ok (RBool (is_dir abs σ)), σ)
  | FCreateFile abs => unit_reply (create_file abs σ)
  | FWriteFile abs data => unit_reply (write_file abs data σ)
  | FAppendFile abs data => unit_reply (append_file abs data σ)
  | FCreateDir abs => unit_reply (create_dir abs σ)
  | FRemove abs => unit_reply (remove abs σ)
  end.

End fat_ns.

(** The path an operation works on. *)
Definition op_path (o : fat_op) : str :=
  match o with
  | FReadFile abs | FListDir abs | FIsDir abs | FCreateFile abs | FCreateDir abs | FRemove abs => abs
  | FWriteFile abs _ | FAppendFile abs _ => abs
  end.

(** The bytes an operation stores, and the free clusters that are enough for it. *)
Definition stored (o : fat_op) (σ : namespace) : bytes :=
  match o with
  | FWriteFile _ data => data
  | FAppendFile abs data => (if fat_ns.read_file abs σ is Ok b then b else []) ++ data
  | _ => []
  end.

Definition demand (fs : FatFs) (o : fat_op) (σ : namespace) : nat :=
  match o with
  | FWriteFile _ _ | FAppendFile _ _ => S (clusters_for fs (stored o σ))
  | FCreateFile _ => 1
  | FCreateDir _ => 2
  | _ => 0
  end.

(** The operation's path is canonical with 8.3 names, and [n] free clusters are room for what it stores. *)
Definition admissible (fs : FatFs) (σ : namespace) (n : nat) (o : fat_op) : Prop :=
  (Forall fat_name (segments (op_path o)) /\ op_path o = abs_path (segments (op_path o))) /\
  Z.of_nat (length (stored o σ)) < 2 ^ 32 /\ (demand fs o σ <= n)%nat.

#[global] Instance fat_name_dec name : Decision (fat_name name).
Proof.
  unfold fat_name, valid_seg, plain_name, fits_83, name_char. apply _.
Defined.

#[global] Instance admissible_dec fs σ n o : Decision (admissible fs σ n o).
Proof.
  unfold admissible. apply _.
Defined.

(** Answers agree; listings up to order. *)
Definition agrees (r1 r2 : res FsError reply) : Prop :=
  match r1, r2 with
  | Ok (RNames a), Ok (RNames b) => a ≡ₚ b
  | _, _ => r1 = r2
  end.

(** ** Refinement *)

Section refine.
Context (fs : FatFs) (k : Disk) (V : volume).
Context (G : geom fs (nblocks k)) (Hwf : disk_wf k) (HV : vol fs k V).

Let σ : namespace := meanings fs k V.

(** The driver's update does what the namespace's does, for at most [n] free clusters. *)
Definition implements (n : nat) (m : M Disk FsError unit) (s : namespace -> res FsError unit * namespace) : Prop :=
  exists k' V', m k = (fst (s σ), k') /\ vol fs k' V' /\ nblocks k' = nblocks k /\ disk_wf k' /\
    meanings fs k' V' = snd (s σ) /\ (length (free_data fs k) <= length (free_data fs k') + n)%nat.

Lemma implements_refused n m s e : m k = (Err e, k) -> s σ = (Err e, σ) -> implements n m s.
Proof using HV Hwf.
  intros Hm Hs. exists k, V. rewrite Hm, Hs. split_and!; (done || lia).
Qed.

Lemma fat_names_valid segs : Forall fat_name segs -> Forall valid_seg segs.
Proof.
  intros Hs. eapply Forall_impl; [exact Hs|]. by intros x [Hx _].
Qed.

Lemma at_key_path segs : Forall valid_seg segs -> fat_ns.at_key (abs_path segs) = key segs.
Proof.
  intros Hs. unfold fat_ns.at_key. by rewrite segments_abs_path.
Qed.

Lemma meanings_lookup q : σ !! q = meaning fs k <$> V !! q.
Proof.
  apply lookup_fmap.
Qed.

Section below.
Context (segs : list str) (name : str) (Hs : Forall valid_seg segs) (Hname : fat_name name).

Lemma update_path u :
  fat_ns.update (abs_path (segs ++ [name])) u σ =
    match vfind V [] segs with
    | Ok (VDir _ _) => u (key segs ++ [map to_lower name]) (meaning fs k <$> V !! (key segs ++ [map to_lower name])) σ
    | _ => (Err NotADir, σ)
    end.
Proof using Hs Hname.
  unfold fat_ns.update. rewrite at_key_path by (apply Forall_app; split; [done|repeat constructor; apply Hname]).
  rewrite key_snoc, split_last_snoc. unfold σ at 1. rewrite resolve_meanings, meanings_lookup.
  by destruct (vfind V [] segs) as [[|]| | |].
Qed.

(** The entry the driver finds under the name. *)
Lemma driver_finds c pl :
  V !! key segs = Some (VDir c pl) ->
  find_in_dir fs c name k = (Ok (find_entry name (entries fs k pl)), k) /\
  match find_entry name (entries fs k pl), V !! (key segs ++ [map to_lower name]) with
  | Some e, Some n => stands_for e n
  | None, None => True
  | _, _ => False
  end.
Proof using G Hwf HV.
  intros Hp. split; [|exact (v_kids _ _ _ HV _ _ _ Hp name)].
  destruct (v_node _ _ _ HV _ _ Hp) as (_ & Hc & _). by apply find_in_dir_ok.
Qed.

(** The common beginning of the updates. *)
Lemma enter_dir {A} (body : str -> str -> M Disk FsError A) c pl :
  vfind V [] segs = Ok (VDir c pl) ->
  (let* (parent, nm) := lift (fat_split_parent (abs_path (segs ++ [name]))) in
   let* isd := fat_is_dir fs parent in
   if negb isd then throw NotADir else body parent nm) k = body (abs_path segs) name k.
Proof using G Hwf HV Hs Hname.
  intros Hv. rewrite fat_split_parent_ok by apply Hname. unfold lift, bind.
  rewrite (vol_is_dir fs k V segs G Hwf HV Hs), Hv. done.
Qed.

Lemma enter_refused {A} (body : str -> str -> M Disk FsError A) :
  (forall c pl, vfind V [] segs <> Ok (VDir c pl)) ->
  (let* (parent, nm) := lift (fat_split_parent (abs_path (segs ++ [name]))) in
   let* isd := fat_is_dir fs parent in
   if negb isd then throw NotADir else body parent nm) k = (Err NotADir, k).
Proof using G Hwf HV Hs Hname.
  intros Hv. rewrite fat_split_parent_ok by apply Hname. unfold lift, bind.
  rewrite (vol_is_dir fs k V segs G Hwf HV Hs). destruct (vfind V [] segs) as [[e l|c l]| | |]; try done. by destruct (Hv c l).
Qed.

Lemma parent_cluster c pl : vfind V [] segs = Ok (VDir c pl) -> cluster_for fs (abs_path segs) k = (Ok c, k).
Proof using G Hwf HV Hs.
  intros Hv. by rewrite (vol_cluster_for fs k V segs G Hwf HV Hs), Hv.
Qed.

(** The parent is a directory of the tree, or the update is refused. *)
Lemma parent_cases :
  (exists c pl, vfind V [] segs = Ok (VDir c pl) /\ V !! key segs = Some (VDir c pl)) \/
  (forall c pl, vfind V [] segs <> Ok (VDir c pl)).
Proof using HV.
  destruct (vfind V [] segs) as [[e l|c pl]| | |] eqn:Hv; try (by right).
  left. exists c, pl. split; [done|]. by apply (vfind_Ok fs k V [] segs) in Hv.
Qed.

Lemma update_refused u :
  (forall c pl, vfind V [] segs <> Ok (VDir c pl)) -> fat_ns.update (abs_path (segs ++ [name])) u σ = (Err NotADir, σ).
Proof using Hs Hname.
  intros Hv. rewrite update_path. destruct (vfind V [] segs) as [[e l|c l]| | |]; try done. by destruct (Hv c l).
Qed.

(** What the name stands for: a directory with the entry the driver finds, or not a directory. *)
Lemma name_cases c pl :
  V !! key segs = Some (VDir c pl) ->
  (exists e c' l', V !! (key segs ++ [map to_lower name]) = Some (VDir c' l') /\
     find_in_dir fs c name k = (Ok (Some e), k) /\ de_is_dir e = true /\ de_cluster e = c') \/
  (forall c' l', V !! (key segs ++ [map to_lower name]) <> Some (VDir c' l')).
Proof using G Hwf HV.
  intros Hp. destruct (driver_finds c pl Hp) as [Hfd He].
  destruct (V !! (key segs ++ [map to_lower name])) as [[e l|c' l]|] eqn:Hq; [by right| |by right].
  left. destruct (find_entry name (entries fs k pl)) as [e|]; [|done]. destruct He as [Hd Hc]. by exists e, c', l.
Qed.

Lemma write_below data :
  Z.of_nat (length data) < 2 ^ 32 -> (clusters_for fs data < length (free_data fs k))%nat ->
  implements (S (clusters_for fs data)) (fat_write_file fs (abs_path (segs ++ [name])) data)
    (fat_ns.write_file (abs_path (segs ++ [name])) data).
Proof using G Hwf HV Hs Hname.
  intros Hlen Hroom. destruct parent_cases as [(c & pl & Hv & Hp)|Hv].
  2:{ apply (implements_refused _ _ _ NotADir); [by apply enter_refused|by apply update_refused]. }
  destruct (name_cases c pl Hp) as [(e & c' & l & Hq & Hfd & Hde & _)|Hq].
  - apply (implements_refused _ _ _ IsADir).
    + unfold fat_write_file. rewrite (enter_dir _ _ _ Hv), (bind_ok _ _ _ _ _ (parent_cluster _ _ Hv)), (bind_ok _ _ _ _ _ Hfd).
      cbn beta iota. unfold bind at 1. by rewrite Hde.
    + unfold fat_ns.write_file. by rewrite update_path, Hv, Hq.
  - destruct (vol_write fs k V segs name c pl G Hwf HV Hs Hname Hp data) as (k' & V' & Hk' & HV' & Hnb & Hwf' & Hm & Hfree);
      [done..|].
    exists k', V'. unfold fat_ns.write_file. rewrite update_path, Hv, Hk', Hm.
    destruct (V !! (key segs ++ [map to_lower name])) as [[e l|c' l]|]; [done| |done]. naive_solver.
Qed.

Lemma create_below :
  (0 < length (free_data fs k))%nat ->
  implements 1 (fat_create_file fs (abs_path (segs ++ [name]))) (fat_ns.create_file (abs_path (segs ++ [name]))).
Proof using G Hwf HV Hs Hname.
  intros Hroom. destruct parent_cases as [(c & pl & Hv & Hp)|Hv].
  2:{ apply (implements_refused _ _ _ NotADir); [by apply enter_refused|by apply update_refused]. }
  destruct (name_cases c pl Hp) as [(e & c' & l & Hq & Hfd & Hde & _)|Hq].
  - apply (implements_refused _ _ _ IsADir).
    + unfold fat_create_file. rewrite (enter_dir _ _ _ Hv), (bind_ok _ _ _ _ _ (parent_cluster _ _ Hv)), (bind_ok _ _ _ _ _ Hfd).
      unfold truncate_file. rewrite (bind_ok _ _ _ _ _ Hfd). unfold bind at 1. cbn. by rewrite Hde.
    + unfold fat_ns.create_file, fat_ns.write_file. by rewrite update_path, Hv, Hq.
  - destruct (vol_create fs k V segs name c pl G Hwf HV Hs Hname Hp) as (k' & V' & Hk' & HV' & Hnb & Hwf' & Hm & Hfree);
      [done..|].
    exists k', V'. unfold fat_ns.create_file, fat_ns.write_file. rewrite update_path, Hv, Hk', Hm.
    destruct (V !! (key segs ++ [map to_lower name])) as [[e l|c' l]|]; [done| |done]. naive_solver.
Qed.

Lemma create_dir_below :
  (1 < length (free_data fs k))%nat ->
  implements 2 (fat_create_dir fs (abs_path (segs ++ [name]))) (fat_ns.create_dir (abs_path (segs ++ [name]))).
Proof using G Hwf HV Hs Hname.
  intros Hroom. destruct parent_cases as [(c & pl & Hv & Hp)|Hv].
  2:{ apply (implements_refused _ _ _ NotADir); [by apply enter_refused|by apply update_refused]. }
  destruct (driver_finds c pl Hp) as [Hfd He].
  destruct (V !! (key segs ++ [map to_lower name])) as [n|] eqn:Hq.
  - destruct (find_entry name (entries fs k pl)) as [e|]; [|done]. apply (implements_refused _ _ _ Io).
    + unfold fat_create_dir. by rewrite (enter_dir _ _ _ Hv), (bind_ok _ _ _ _ _ (parent_cluster _ _ Hv)), (bind_ok _ _ _ _ _ Hfd).
    + unfold fat_ns.create_dir. by rewrite update_path, Hv, Hq.
  - destruct (vol_create_dir fs k V segs name c pl G Hwf HV Hs Hname Hp) as (k' & V' & Hk' & HV' & Hnb & Hwf' & Hm & Hfree);
      [done..|].
    exists k', V'. unfold fat_ns.create_dir. by rewrite update_path, Hv, Hq, Hk', Hm.
Qed.

(** [remove] in terms of the tree. *)
Lemma remove_path :
  fat_ns.remove (abs_path (segs ++ [name])) σ =
    match vfind V [] segs with
    | Ok (VDir _ _) =>
        let q := key segs ++ [map to_lower name] in
        match V !! q with
        | None => (Err NotFound, σ)
        | Some (VDir _ _) => if bool_decide (spec.children σ q = []) then (Ok tt, delete q σ) else (Err Io, σ)
        | Some (VFile _ _) => (Ok tt, delete q σ)
        end
    | Ok (VFile _ _) => (Err NotADir, σ)
    | Err e => (Err e, σ)
    | Panic => (Panic, σ)
    | Diverge => (Diverge, σ)
    end.
Proof using Hs Hname.
  unfold fat_ns.remove. rewrite at_key_path by (apply Forall_app; split; [done|repeat constructor; apply Hname]).
  rewrite key_snoc, split_last_snoc. unfold σ at 1. rewrite resolve_meanings, meanings_lookup.
  destruct (vfind V [] segs) as [[|]| | |]; try done. by destruct (V !! _) as [[|]|].
Qed.

(** A directory has no entries when it has no children. *)
Lemma no_children q c l :
  V !! q = Some (VDir c l) -> entries fs k l = [] <-> spec.children σ q = [].
Proof using HV.
  intros Hq. pose proof (vol_children fs k V q c l HV Hq) as Hc. fold σ in Hc. split.
  - intros Hl. rewrite Hl in Hc. by apply Permutation_nil_l in Hc.
  - intros Hl. rewrite Hl in Hc. apply Permutation_nil_r in Hc. by destruct (entries fs k l).
Qed.

Lemma remove_below :
  implements 0 (fat_remove fs (abs_path (segs ++ [name]))) (fat_ns.remove (abs_path (segs ++ [name]))).
Proof using G Hwf HV Hs Hname.
  pose proof (vol_cluster_for fs k V segs G Hwf HV Hs) as Hcl.
  destruct parent_cases as [(c & pl & Hv & Hp)|Hv].
  2:{ destruct (vfind_outcome V [] segs) as [[n Hn]|[Hn|Hn]]; [destruct n as [e l|c l]; [|by destruct (Hv c l)]|..];
        rewrite Hn in Hcl; (eapply implements_refused;
          [unfold fat_remove; rewrite fat_split_parent_ok by apply Hname; unfold lift, bind; by rewrite Hcl
          |rewrite remove_path; by rewrite Hn]). }
  rewrite Hv in Hcl. cbn in Hcl. destruct (driver_finds c pl Hp) as [Hfd He].
  assert (forall n, V !! (key segs ++ [map to_lower name]) = Some n ->
    (forall c' l', n = VDir c' l' -> entries fs k l' = []) ->
    fat_ns.remove (abs_path (segs ++ [name])) σ = (Ok tt, delete (key segs ++ [map to_lower name]) σ) ->
    implements 0 (fat_remove fs (abs_path (segs ++ [name]))) (fat_ns.remove (abs_path (segs ++ [name])))) as Hgone.
  { intros n Hq Hempty Hspec.
    destruct (vol_remove fs k V segs name c pl G Hwf HV Hs Hname Hp n Hq Hempty) as (k' & V' & Hk' & HV' & Hnb & Hwf' & Hm & Hfree).
    exists k', V'. rewrite Hspec, Hk', Hm, Nat.add_0_r. by split_and!. }
  pose proof remove_path as Hspec. rewrite Hv in Hspec. cbn zeta in Hspec.
  destruct (V !! (key segs ++ [map to_lower name])) as [[e l|c' l]|] eqn:Hq.
  - by apply (Hgone _ eq_refl).
  - case_bool_decide as Hc.
    { apply (Hgone _ eq_refl); [|done]. intros ?? [= <- <-]. by apply (no_children _ _ _ Hq). }
    destruct (find_entry name (entries fs k pl)) as [e|]; [|done]. destruct He as [Hde Hce].
    destruct (v_node _ _ _ HV _ _ Hq) as (_ & Hchain & _). rewrite <- Hce in Hchain.
    apply (implements_refused _ _ _ Io); [|done].
    unfold fat_remove. rewrite fat_split_parent_ok by apply Hname. unfold lift at 1. cbn [bind].
    rewrite (bind_ok _ _ _ _ _ Hcl), (bind_ok _ _ _ _ _ Hfd). unfold lift, bind at 1. cbn [ok_or]. rewrite Hde.
    unfold bind at 1. erewrite bind_ok by (by eapply read_dir_ok).
    rewrite decide_False; [done|]. by rewrite (no_children _ _ _ Hq).
  - destruct (find_entry name (entries fs k pl)) as [e|]; [done|]. apply (implements_refused _ _ _ NotFound); [|done].
    unfold fat_remove. rewrite fat_split_parent_ok by apply Hname. unfold lift at 1. cbn [bind].
    by rewrite (bind_ok _ _ _ _ _ Hcl), (bind_ok _ _ _ _ _ Hfd).
Qed.

End below.

(** An update at any path: below a directory, or at the root, where there is no name. *)
Lemma at_path (P : str -> Prop) segs :
  Forall fat_name segs -> P (abs_path []) ->
  (forall segs name, Forall valid_seg segs -> fat_name name -> P (abs_path (segs ++ [name]))) -> P (abs_path segs).
Proof.
  intros Hs H0 Hsnoc. destruct segs as [|name segs _] using rev_ind; [done|].
  apply Forall_app in Hs as [Hs Hn]. apply Hsnoc; [by apply fat_names_valid|by inv Hn].
Qed.

Lemma write_any segs data :
  Forall fat_name segs -> Z.of_nat (length data) < 2 ^ 32 -> (clusters_for fs data < length (free_data fs k))%nat ->
  implements (S (clusters_for fs data)) (fat_write_file fs (abs_path segs) data) (fat_ns.write_file (abs_path segs) data).
Proof using G Hwf HV.
  intros Hs Hlen Hroom. apply (at_path (fun a => implements _ (fat_write_file fs a data) (fat_ns.write_file a data))); [done| |].
  - by apply (implements_refused _ _ _ Io).
  - intros. by apply write_below.
Qed.

(** [append_file] is a read and a write. *)
Lemma append_any segs data :
  Forall fat_name segs -> let o := FAppendFile (abs_path segs) data in
  Z.of_nat (length (stored o σ)) < 2 ^ 32 -> (clusters_for fs (stored o σ) < length (free_data fs k))%nat ->
  implements (demand fs o σ) (fat_append_file fs (abs_path segs) data) (fat_ns.append_file (abs_path segs) data).
Proof using G Hwf HV.
  intros Hs o. cbn [stored demand o]. pose proof (fat_names_valid segs Hs) as Hv.
  pose proof (vol_read fs k V segs G Hwf HV Hv) as Hr. fold σ in Hr. rewrite <- (at_key_path segs Hv) in Hr.
  fold (fat_ns.read_file (abs_path segs) σ) in Hr.
  intros Hlen Hroom. unfold implements, fat_append_file, fat_ns.append_file, bind at 1, mcase. rewrite Hr.
  destruct (fat_ns.read_file (abs_path segs) σ) as [b|e| |] eqn:Hb; [by apply write_any| |..].
  2,3: exists k, V; split_and!; (done || lia).
  destruct e; try (exists k, V; split_and!; (done || lia)). cbn [app] in *. by apply write_any.
Qed.

(** Every operation answers as the namespace does. *)
Lemma update_reply n m s : implements n m s ->
  exists r k' V', (m ;;; ret RUnit) k = (r, k') /\ vol fs k' V' /\ nblocks k' = nblocks k /\ disk_wf k' /\
    agrees r (fst (fat_ns.unit_reply (s σ))) /\ meanings fs k' V' = snd (fat_ns.unit_reply (s σ)) /\
    (length (free_data fs k) <= length (free_data fs k') + n)%nat.
Proof.
  intros (k' & V' & Hm & HV' & Hnb & Hwf' & Hsnd & Hfree). exists (let? _ := fst (s σ) in Ok RUnit), k', V'.
  unfold bind. rewrite Hm. split_and!; try done; by destruct (s σ) as [[]].
Qed.

Lemma op_refines o :
  admissible fs σ (length (free_data fs k)) o ->
  exists r k' V', fat_exec fs o k = (r, k') /\ vol fs k' V' /\ nblocks k' = nblocks k /\ disk_wf k' /\
    agrees r (fst (fat_ns.exec o σ)) /\ meanings fs k' V' = snd (fat_ns.exec o σ) /\
    (length (free_data fs k) <= length (free_data fs k') + demand fs o σ)%nat.
Proof using G Hwf HV.
  intros ((Hs & Hpath) & Hlen & Hroom). set (segs := segments (op_path o)) in *. clearbody segs. pose proof (fat_names_valid segs Hs) as Hv.
  pose proof (at_key_path segs Hv) as Hk.
  destruct o; cbn [op_path] in Hpath; subst abs; cbn [fat_exec fat_ns.exec]; try apply update_reply.
  - exists (fst (fat_ns.exec (FReadFile (abs_path segs)) σ)), k, V. cbn [fat_ns.exec fst snd].
    unfold bind, fat_ns.read_file. rewrite (vol_read fs k V segs G Hwf HV Hv), Hk. fold σ.
    destruct (spec.resolve σ [] (key segs)) as [[|]| | |]; split_and!; (done || lia).
  - destruct (vol_list fs k V segs G Hwf HV Hv) as (r & Hr & Hsame). exists (let? l := r in Ok (RNames l)), k, V.
    unfold bind, fat_ns.list_dir. rewrite Hr, Hk. fold σ in Hsame |- *.
    destruct r, (spec.resolve σ [] (key segs)) as [[|]| | |]; cbn in Hsame; try done; split_and!; try done; cbn; (lia || congruence).
  - exists (Ok (RBool (fat_ns.is_dir (abs_path segs) σ))), k, V. unfold bind, fat_ns.is_dir.
    rewrite (vol_is_dir fs k V segs G Hwf HV Hv), Hk. unfold σ. rewrite resolve_meanings.
    destruct (vfind V [] segs) as [[|]| | |]; split_and!; (done || lia).
  - apply (at_path (fun a => implements _ (fat_create_file fs a) (fat_ns.create_file a))); [done| |].
    + by apply (implements_refused _ _ _ Io).
    + intros. by apply create_below.
  - by apply write_any.
  - by apply append_any.
  - apply (at_path (fun a => implements _ (fat_create_dir fs a) (fat_ns.create_dir a))); [done| |].
    + by apply (implements_refused _ _ _ Io).
    + intros. by apply create_dir_below.
  - apply (at_path (fun a => implements _ (fat_remove fs a) (fat_ns.remove a))); [done| |].
    + by apply (implements_refused _ _ _ Io).
    + intros. by apply remove_below.
Qed.

End refine.

(** ** Whole sessions *)

(** A freshly formatted volume: a root directory without entries. *)
Lemma vol_empty fs k l :
  dir_at fs k [] (root_cluster fs) l [] -> entries fs k l = [] ->
  vol fs k {[ [] := VDir (root_cluster fs) l ]}.
Proof.
  intros Hd He. split.
  - exists l. apply lookup_singleton_eq.
  - intros p n [<- <-]%lookup_singleton_Some. split; [apply (d_used _ _ _ _ _ _ Hd)|].
    split; [by eapply dir_chain|]. split_and!; apply Hd.
  - intros p c l' [<- [= <- <-]]%lookup_singleton_Some x. rewrite He. cbn [find_entry List.find app].
    by rewrite lookup_singleton_ne.
  - intros p x n [Hp _]%lookup_singleton_Some. by destruct p.
  - intros p q n m [<- _]%lookup_singleton_Some [<- _]%lookup_singleton_Some. done.
Qed.

Lemma meanings_empty fs k c l : meanings fs k {[ [] := VDir c l ]} = {[ [] := EDir ]}.
Proof.
  apply map_fmap_singleton.
Qed.

(** A session the namespace can afford with [n] free clusters: canonical paths of 8.3 names, files below
    4 GiB, and clusters enough for what each operation may take. *)
Fixpoint affordable (fs : FatFs) (ops : list fat_op) (σ : namespace) (n : nat) : Prop :=
  match ops with
  | [] => True
  | o :: ops => admissible fs σ n o /\ affordable fs ops (snd (fat_ns.exec o σ)) (n - demand fs o σ)
  end.

#[global] Instance affordable_dec fs ops σ n : Decision (affordable fs ops σ n).
Proof.
  revert σ n. induction ops as [|o ops IH]; intros σ n; cbn [affordable]; apply _.
Defined.

Lemma affordable_mono fs ops σ n m : (n <= m)%nat -> affordable fs ops σ n -> affordable fs ops σ m.
Proof.
  revert σ n m. induction ops as [|o ops IH]; intros σ n m Hle; [done|].
  intros [([Hp1 Hp2] & Hl & Hd) Ha]. split; [split_and!; (done || lia)|]. eapply IH; [|exact Ha]. lia.
Qed.

(** C1: the FAT32 driver refines the flat, case-insensitive namespace. On a volume whose directory tree
    is well formed, behind any driver that keeps the block-device contract, every sequence of operations
    on 8.3 paths that the free clusters pay for answers, operation by operation, what the namespace of
    the lower-cased paths answers - errors included, listings up to order - and leaves a volume that is
    well formed again and means the namespace reached. In particular no operation panics or diverges, and
    none changes what any other path means. *)
Theorem fat_refines_namespace {D} `{BD : BlockDevice D} `{BS : !BlockDeviceSpec D} fs ops (d : D) k V :
  bd_rel d k -> geom fs (nblocks k) -> disk_wf k -> vol fs k V ->
  affordable fs ops (meanings fs k V) (length (free_data fs k)) ->
  exists rs d' k' V',
    run_ops (fat_exec fs) ops d = (rs, d') /\ bd_rel d' k' /\ vol fs k' V' /\
    Forall2 agrees rs (fst (run_ops fat_ns.exec ops (meanings fs k V))) /\
    meanings fs k' V' = snd (run_ops fat_ns.exec ops (meanings fs k V)).
Proof.
  revert d k V. induction ops as [|o ops IH]; intros d k V Hrel G Hwf HV Hroom.
  { exists [], d, k, V. by split_and!. }
  destruct Hroom as [Hadm Hroom]. cbn [run_ops].
  destruct (op_refines fs k V G Hwf HV o Hadm) as (r & k1 & V1 & Hk1 & HV1 & Hnb & Hwf1 & Hr & Hm & Hfree).
  destruct (sim_exec fs o d k Hrel) as (d1 & Hd1 & Hrel1). rewrite Hd1. rewrite Hk1 in Hrel1 |- *.
  destruct (fat_ns.exec o (meanings fs k V)) as [r0 σ1]. cbn [fst snd] in *. subst σ1.
  eapply affordable_mono in Hroom; [|by apply Nat.le_sub_le_add_r].
  destruct (IH d1 k1 V1) as (rs & d2 & k2 & V2 & Hd2 & Hrel2 & HV2 & Hrs & Hm2); [done|by rewrite Hnb|done..|].
  rewrite Hd2. exists (r :: rs), d2, k2, V2.
  destruct (run_ops fat_ns.exec ops (meanings fs k1 V1)) as [rs0 σ2]. cbn [fst snd] in *.
  split_and!; [done..|by constructor|done].
Qed.
