(* ===== verification/Ata.v ===== *)
(** * ATA PIO driver (src/kernel/src/ata.rs)

    The polled 28-bit-LBA driver of the primary slave, over port I/O. The controller is hardware: its
    state [H] and the four port instructions are parameters ([PortIo]); [IdeSpec] states what the
    ATA/ATAPI-6 documents say about the task-file protocol, as laws on single port accesses. The
    driver is proved to keep the block-device contract on every controller with those laws. *)

From S2P Require Import Prelude.
From S2P Require Import Block.

Open Scope Z_scope.

Definition PRIMARY_BASE : Z := 0x1F0.
Definition PRIMARY_CTRL : Z := 0x3F6.

Definition REG_DATA : Z := 0.
Definition REG_SECTOR_COUNT : Z := 2.
Definition REG_LBA_LO : Z := 3.
Definition REG_LBA_MID : Z := 4.
Definition REG_LBA_HI : Z := 5.
Definition REG_DRIVE_HEAD : Z := 6.
Definition REG_STATUS : Z := 7.
Definition REG_COMMAND : Z := 7.

Definition STATUS_ERR : Z := 0x01.
Definition STATUS_DRQ : Z := 0x08.
Definition STATUS_DF : Z := 0x20.
Definition STATUS_BSY : Z := 0x80.

Definition CMD_READ_SECTORS : Z := 0x20.
Definition CMD_WRITE_SECTORS : Z := 0x30.
Definition CMD_IDENTIFY : Z := 0xEC.

Definition POLL_LIMIT : nat := Z.to_nat 100000.

(** The port instructions [in]/[out], byte and word sized, on the machine state [H]. *)
Class PortIo (H : Type) : Type := {
  inb : Z -> H -> Z * H;
  outb : Z -> Z -> H -> H;
  inw : Z -> H -> Z * H;
  outw : Z -> Z -> H -> H;
}.

(** [AtaDrive] (its ports are constants) with the hardware behind it, and the static
    [INITIALISED]. *)
Record AtaDrive (H : Type) : Type := mkAta { hw : H; sectors : Z; initialised : bool }.
Arguments mkAta {H} _ _ _.
Arguments hw {H} _.
Arguments sectors {H} _.
Arguments initialised {H} _.

Section ata.
Context {H : Type} `{PI : PortIo H}.
Abbreviation io := (M (AtaDrive H) BlockError).

Definition new_primary_slave (h : H) : AtaDrive H := mkAta h 0 false.

Definition port_read (p : Z) : io Z := fun d =>
  let '(v, h) := inb p (hw d) in (Ok v, mkAta h (sectors d) (initialised d)).
Definition port_write (p v : Z) : io unit := fun d =>
  (Ok tt, mkAta (outb p v (hw d)) (sectors d) (initialised d)).
Definition data_read : io Z := fun d =>
  let '(v, h) := inw (PRIMARY_BASE + REG_DATA) (hw d) in (Ok v, mkAta h (sectors d) (initialised d)).
Definition data_write (v : Z) : io unit := fun d =>
  (Ok tt, mkAta (outw (PRIMARY_BASE + REG_DATA) v (hw d)) (sectors d) (initialised d)).

Definition status_read : io Z := port_read (PRIMARY_BASE + REG_STATUS).

Definition delay_400ns : io unit := for_each (seq 0 4) (fun _ => status_read ;;; ret tt).

(** Is any of the bits of [mask] set? *)
Definition has (s mask : Z) : bool := negb (Z.land s mask =? 0).

Fixpoint wait_not_busy_go (n : nat) : io unit :=
  match n with
  | O => throw Timeout
  | S n' =>
      let* s := status_read in
      if negb (has s STATUS_BSY) then
        if has s STATUS_ERR || has s STATUS_DF then throw DriveError else ret tt
      else wait_not_busy_go n'
  end.

Definition wait_not_busy : io unit := wait_not_busy_go POLL_LIMIT.

Fixpoint wait_drq_go (n : nat) : io unit :=
  match n with
  | O => throw Timeout
  | S n' =>
      let* s := status_read in
      if has s STATUS_BSY then wait_drq_go n'
      else if has s STATUS_ERR || has s STATUS_DF then throw DriveError
      else if has s STATUS_DRQ then ret tt
      else wait_drq_go n'
  end.

Definition wait_drq : io unit := wait_drq_go POLL_LIMIT.

(** [as u8]. *)
Definition as_u8 (z : Z) : Z := z mod 256.

Definition select_lba28 (lba count : Z) : io unit :=
  port_write (PRIMARY_BASE + REG_DRIVE_HEAD) (Z.lor 0xF0 (as_u8 (Z.land (Z.shiftr lba 24) 0x0F))) ;;;
  delay_400ns ;;;
  port_write (PRIMARY_BASE + REG_SECTOR_COUNT) count ;;;
  port_write (PRIMARY_BASE + REG_LBA_LO) (as_u8 lba) ;;;
  port_write (PRIMARY_BASE + REG_LBA_MID) (as_u8 (Z.shiftr lba 8)) ;;;
  port_write (PRIMARY_BASE + REG_LBA_HI) (as_u8 (Z.shiftr lba 16)).

(** The word loop of [identify_inner], remembering words 60 and 61. *)
Definition identify_words : io (Z * Z) :=
  for_acc (seq 0 256) (0, 0) (fun acc i =>
    let* w := data_read in
    ret (if decide (i = 60%nat) then (w, snd acc)
         else if decide (i = 61%nat) then (fst acc, w) else acc)).

Definition identify_inner : io unit :=
  port_write PRIMARY_CTRL 0x02 ;;;
  port_write (PRIMARY_BASE + REG_DRIVE_HEAD) 0xB0 ;;;
  delay_400ns ;;;
  port_write (PRIMARY_BASE + REG_SECTOR_COUNT) 0 ;;;
  port_write (PRIMARY_BASE + REG_LBA_LO) 0 ;;;
  port_write (PRIMARY_BASE + REG_LBA_MID) 0 ;;;
  port_write (PRIMARY_BASE + REG_LBA_HI) 0 ;;;
  port_write (PRIMARY_BASE + REG_COMMAND) CMD_IDENTIFY ;;;
  delay_400ns ;;;
  let* s := status_read in
  if s =? 0 then throw DriveError
  else
    wait_not_busy ;;;
    let* mid := port_read (PRIMARY_BASE + REG_LBA_MID) in
    (if negb (mid =? 0) then throw DriveError
     else
       let* hi := port_read (PRIMARY_BASE + REG_LBA_HI) in
       if negb (hi =? 0) then throw DriveError else ret tt) ;;;
    wait_drq ;;;
    let* (sectors_lo, sectors_hi) := identify_words in
    fun d => (Ok tt, mkAta (hw d) (Z.lor sectors_lo (Z.shiftl sectors_hi 16)) (initialised d)).

Definition identify : io unit := identify_inner.

(** [init]: probe once. *)
Definition ata_init : io unit := fun d =>
  if initialised d then (Ok tt, d)
  else
    (identify ;;; fun d => (Ok tt, mkAta (hw d) (sectors d) true)) d.

(** [lba >= self.sectors as u64]; [lba] is a [u64], so no negative value occurs. *)
Definition out_of_range (d : AtaDrive H) (lba : Z) : bool := (lba <? 0) || (sectors d <=? lba).

(** The two bytes of a data word, low first. *)
Definition word_bytes (w : Z) : bytes := [of_u8 (as_u8 w); of_u8 (as_u8 (Z.shiftr w 8))].

Definition ata_read_block (lba : Z) (buf : bytes) : io (nat * bytes) := fun d =>
  (if out_of_range d lba then throw OutOfRange
   else if (length buf <? BLOCK_SIZE)%nat then throw OutOfRange
   else
     wait_not_busy ;;;
     select_lba28 (as_u32 lba) 1 ;;;
     port_write (PRIMARY_BASE + REG_COMMAND) CMD_READ_SECTORS ;;;
     delay_400ns ;;;
     wait_drq ;;;
     let* buf := for_acc (seq 0 (BLOCK_SIZE / 2)) buf (fun buf i =>
       let* word := data_read in put (2 * i) (word_bytes word) buf) in
     ret (BLOCK_SIZE, buf)) d.

(** The word a two-byte chunk is sent as. *)
Definition chunk_word (chunk : bytes) : Z :=
  Z.lor (u8 (chunk !!! 0%nat)) (Z.shiftl (u8 (chunk !!! 1%nat)) 8).

Definition ata_write_block (lba : Z) (buf : bytes) : io nat := fun d =>
  (if out_of_range d lba then throw OutOfRange
   else if (length buf <? BLOCK_SIZE)%nat then throw OutOfRange
   else
     wait_not_busy ;;;
     select_lba28 (as_u32 lba) 1 ;;;
     port_write (PRIMARY_BASE + REG_COMMAND) CMD_WRITE_SECTORS ;;;
     delay_400ns ;;;
     wait_drq ;;;
     for_each (chunks_exact 2 (take BLOCK_SIZE buf)) (fun chunk => data_write (chunk_word chunk)) ;;;
     wait_not_busy ;;;
     ret BLOCK_SIZE) d.

#[global] Instance ata_block_device : BlockDevice (AtaDrive H) := {
  num_blocks d := sectors d;
  read_block := ata_read_block;
  write_block := ata_write_block;
}.

End ata.

(** ** The controller's protocol

    What the documents say about a controller with a drive attached as primary slave: its task-file
    registers, how many more status reads find it busy, and the phase of the current command. *)

Record Regs : Type := mkRegs { r_head : Z; r_count : Z; r_lo : Z; r_mid : Z; r_hi : Z }.

Inductive phase : Type :=
| Idle
| In (ws : list Z)
| Out (lba : Z) (ws : list Z).

(** The sector the registers address in LBA mode. *)
Definition reg_lba (r : Regs) : Z :=
  r_lo r + 256 * r_mid r + 65536 * r_hi r + 16777216 * Z.land (r_head r) 0x0F.

(** Slave selected, LBA mode, one sector. *)
Definition lba_selected (r : Regs) : Prop := Z.land (r_head r) 0xF0 = 0xF0 /\ r_count r = 1.

(** Writing a task-file register. *)
Definition set_reg (p v : Z) (r : Regs) : Regs :=
  if decide (p = PRIMARY_BASE + REG_DRIVE_HEAD) then mkRegs v (r_count r) (r_lo r) (r_mid r) (r_hi r)
  else if decide (p = PRIMARY_BASE + REG_SECTOR_COUNT) then mkRegs (r_head r) v (r_lo r) (r_mid r) (r_hi r)
  else if decide (p = PRIMARY_BASE + REG_LBA_LO) then mkRegs (r_head r) (r_count r) v (r_mid r) (r_hi r)
  else if decide (p = PRIMARY_BASE + REG_LBA_MID) then mkRegs (r_head r) (r_count r) (r_lo r) v (r_hi r)
  else if decide (p = PRIMARY_BASE + REG_LBA_HI) then mkRegs (r_head r) (r_count r) (r_lo r) (r_mid r) v
  else r.

(** What a status read may show once the controller is no longer busy. *)
Definition status_ready (p : phase) (s : Z) : Prop :=
  has s STATUS_BSY = false /\ has s STATUS_ERR = false /\ has s STATUS_DF = false /\
  has s STATUS_DRQ = match p with Idle => false | _ => true end.

(** A block as 16-bit words and back. *)
Definition block_words (b : bytes) : list Z := map chunk_word (chunks_exact 2 b).
Definition words_block (ws : list Z) : bytes := concat (map word_bytes ws).

Class IdeSpec (H : Type) `{PortIo H} : Type := {
  (** The controller [h] shows registers [r], stays busy for [n] status reads, is in phase [p], and
      holds the disk [k]. *)
  ide : H -> Regs -> nat -> phase -> Disk -> Prop;
  (** Commands complete within this many status reads. *)
  ide_latency : nat;
  ide_fast : (ide_latency < POLL_LIMIT)%nat;
  ide_status h r n p k :
    ide h r n p k ->
    exists s h', inb (PRIMARY_BASE + REG_STATUS) h = (s, h') /\ ide h' r (pred n) p k /\
      match n with O => status_ready p s | S _ => has s STATUS_BSY = true end;
  ide_set_reg h r p v k :
    ide h r 0 Idle k -> PRIMARY_BASE + REG_SECTOR_COUNT <= p <= PRIMARY_BASE + REG_DRIVE_HEAD -> 0 <= v < 256 ->
    ide (outb p v h) (set_reg p v r) 0 Idle k;
  ide_control h r v k : ide h r 0 Idle k -> ide (outb PRIMARY_CTRL v h) r 0 Idle k;
  ide_get_mid h r n p k :
    ide h r n p k -> exists h', inb (PRIMARY_BASE + REG_LBA_MID) h = (r_mid r, h') /\ ide h' r n p k;
  ide_get_hi h r n p k :
    ide h r n p k -> exists h', inb (PRIMARY_BASE + REG_LBA_HI) h = (r_hi r, h') /\ ide h' r n p k;
  ide_read_cmd h r k :
    ide h r 0 Idle k -> lba_selected r -> 0 <= reg_lba r < nblocks k ->
    exists n, (n <= ide_latency)%nat /\
      ide (outb (PRIMARY_BASE + REG_COMMAND) CMD_READ_SECTORS h) r n (In (block_words (dget k (reg_lba r)))) k;
  ide_write_cmd h r k :
    ide h r 0 Idle k -> lba_selected r -> 0 <= reg_lba r < nblocks k ->
    exists n, (n <= ide_latency)%nat /\
      ide (outb (PRIMARY_BASE + REG_COMMAND) CMD_WRITE_SECTORS h) r n (Out (reg_lba r) []) k;
  ide_identify_cmd h r k :
    ide h r 0 Idle k -> Z.land (r_head r) 0xB0 = 0xB0 ->
    exists n ws, (n <= ide_latency)%nat /\ length ws = 256%nat /\
      ws !!! 60%nat = nblocks k mod 65536 /\ ws !!! 61%nat = nblocks k / 65536 /\
      ide (outb (PRIMARY_BASE + REG_COMMAND) CMD_IDENTIFY h) r n (In ws) k;
  ide_data_in h r w ws k :
    ide h r 0 (In (w :: ws)) k ->
    exists h', inw (PRIMARY_BASE + REG_DATA) h = (w, h') /\
      ide h' r 0 (if decide (ws = []) then Idle else In ws) k;
  ide_data_out h r lba ws w k :
    ide h r 0 (Out lba ws) k -> 0 <= w < 65536 -> (length ws < 255)%nat ->
    ide (outw (PRIMARY_BASE + REG_DATA) w h) r 0 (Out lba (ws ++ [w])) k;
  ide_data_last h r lba ws w k :
    ide h r 0 (Out lba ws) k -> 0 <= w < 65536 -> length ws = 255%nat ->
    exists n, (n <= ide_latency)%nat /\
      ide (outw (PRIMARY_BASE + REG_DATA) w h) r n Idle (dput k lba (words_block (ws ++ [w])));
}.

(** ** Words and registers *)

Lemma chunk_word_add c : chunk_word c = u8 (c !!! 0%nat) + u8 (c !!! 1%nat) * 256.
Proof.
  unfold chunk_word. pose proof (u8_range (c !!! 0%nat)).
  by rewrite lor_shiftl_add by (change (2 ^ 8) with 256; lia).
Qed.

Lemma chunk_word_range c : 0 <= chunk_word c < 65536.
Proof.
  rewrite chunk_word_add. pose proof (u8_range (c !!! 0%nat)). pose proof (u8_range (c !!! 1%nat)). lia.
Qed.

Lemma chunk_word_bytes c : length c = 2%nat -> word_bytes (chunk_word c) = c.
Proof.
  intros Hl. unfold word_bytes. rewrite chunk_word_add, Z.shiftr_div_pow2 by lia.
  destruct c as [|x [|y [|? ?]]]; try (simpl in Hl; lia). simpl lookup_total. unfold as_u8.
  pose proof (u8_range x). pose proof (u8_range y). change (2 ^ 8) with 256.
  assert ((u8 x + u8 y * 256) mod 256 = u8 x) as -> by (Z.to_euclidean_division_equations; lia).
  assert ((u8 x + u8 y * 256) / 256 = u8 y) as -> by (Z.to_euclidean_division_equations; lia).
  rewrite (Z.mod_small (u8 y)) by lia. by rewrite !of_u8_u8.
Qed.

Lemma words_chunks m l :
  length l = (m * 2)%nat -> words_block (map chunk_word (chunks_go m 2 l)) = l.
Proof.
  revert l. induction m as [|m IH]; intros l Hl; [by destruct l|].
  cbn [chunks_go map]. unfold words_block in *. cbn [map concat].
  rewrite chunk_word_bytes by (rewrite length_take; lia).
  rewrite IH by (rewrite length_drop; lia). apply take_drop.
Qed.

Lemma block_words_go b : length b = BLOCK_SIZE -> block_words b = map chunk_word (chunks_go 256 2 b).
Proof.
  intros Hb. unfold block_words, chunks_exact. by rewrite Hb.
Qed.

Lemma words_block_words b : length b = BLOCK_SIZE -> words_block (block_words b) = b.
Proof.
  intros Hb. rewrite block_words_go by done. by apply words_chunks.
Qed.

Lemma length_block_words b : length b = BLOCK_SIZE -> length (block_words b) = 256%nat.
Proof.
  intros Hb. rewrite block_words_go, length_map by done.
  assert (forall m l, length (chunks_go m 2 l) = m) as Hg; [|apply Hg].
  induction m as [|m IH]; intros l; simpl; [done|]. by rewrite IH.
Qed.

(** The registers [select_lba28] leaves. *)
Definition lba_regs (lba : Z) : Regs :=
  mkRegs (Z.lor 0xF0 (as_u8 (Z.land (Z.shiftr lba 24) 0x0F))) 1 (as_u8 lba)
    (as_u8 (Z.shiftr lba 8)) (as_u8 (Z.shiftr lba 16)).

Lemma lba_regs_head lba :
  0 <= lba < 0x10000000 -> r_head (lba_regs lba) = lba / 16777216 + 0xF0 /\ 0 <= lba / 16777216 < 16.
Proof.
  intros Hl. unfold lba_regs, as_u8. simpl. rewrite Z.shiftr_div_pow2 by lia.
  change (2 ^ 24) with 16777216. change 15 with (Z.ones 4). rewrite Z.land_ones by lia.
  assert (0 <= lba / 16777216 < 16) as Hd by (Z.to_euclidean_division_equations; lia).
  rewrite (Z.mod_small _ (2 ^ 4)), (Z.mod_small _ 256) by lia. split; [|done].
  rewrite Z.lor_comm. change 240 with (Z.shiftl 15 4). by rewrite lor_shiftl_add by lia.
Qed.

Lemma lba_regs_ok lba :
  0 <= lba < 0x10000000 -> lba_selected (lba_regs lba) /\ reg_lba (lba_regs lba) = lba.
Proof.
  intros Hl. destruct (lba_regs_head lba Hl) as [Hh Hd]. unfold lba_selected, reg_lba. rewrite Hh.
  replace (lba / 16777216 + 240) with (lba / 16777216 + 15 * 2 ^ 4) by lia.
  rewrite <- lor_shiftl_add, !Z.land_lor_distr_l by lia.
  change 240 with (Z.shiftl 15 4) at 1. rewrite land_shiftl_0 by lia.
  assert (Z.land (lba / 16777216) 15 = lba / 16777216) as ->.
  { change 15 with (Z.ones 4). rewrite Z.land_ones by lia. apply Z.mod_small. lia. }
  split; [done|]. change (Z.land (Z.shiftl 15 4) 15) with 0. rewrite Z.lor_0_r.
  unfold lba_regs, as_u8. simpl. rewrite !Z.shiftr_div_pow2 by lia.
  change (2 ^ 8) with 256. change (2 ^ 16) with 65536. clear. Z.to_euclidean_division_equations; lia.
Qed.

(** ** The driver on a controller that keeps the protocol *)

Section driver.
Context {H : Type} `{PI : PortIo H} `{IS : !IdeSpec H}.
Abbreviation io := (M (AtaDrive H) BlockError).
Implicit Types (d : AtaDrive H) (k : Disk) (r : Regs).

(** The controller behind [d], with [d]'s own fields as in [d0]. *)
Definition ctl (d0 d : AtaDrive H) (r : Regs) (n : nat) (p : phase) (k : Disk) : Prop :=
  ide (hw d) r n p k /\ sectors d = sectors d0 /\ initialised d = initialised d0.

Lemma status_read_ok d0 d r n p k :
  ctl d0 d r n p k ->
  exists s d', status_read d = (Ok s, d') /\ ctl d0 d' r (pred n) p k /\
    match n with O => status_ready p s | S _ => has s STATUS_BSY = true end.
Proof using IS.
  intros (Hi & Hs & Hn). destruct (ide_status _ _ _ _ _ Hi) as (s & h' & Hin & Hi' & Hst).
  unfold status_read, port_read. rewrite Hin. by exists s, (mkAta h' (sectors d) (initialised d)).
Qed.

Lemma delay_ok d0 d r n p k :
  ctl d0 d r n p k -> exists d', delay_400ns d = (Ok tt, d') /\ ctl d0 d' r (n - 4) p k.
Proof using IS.
  intros Hc. unfold delay_400ns.
  assert (forall l d n, ctl d0 d r n p k ->
    exists d', for_each l (fun _ : nat => status_read ;;; ret tt) d = (Ok tt, d') /\ ctl d0 d' r (n - length l) p k) as Hl.
  { clear d n Hc. induction l as [|x l IH]; intros d n Hc; cbn [for_each length].
    - exists d. by rewrite Nat.sub_0_r.
    - destruct (status_read_ok _ _ _ _ _ _ Hc) as (s & d1 & Hd1 & Hc1 & _). rewrite bind_bind.
      rewrite (bind_ok _ _ _ _ _ Hd1). destruct (IH d1 _ Hc1) as (d2 & Hd2 & Hc2). exists d2.
      split; [done|]. by replace (n - S (length l))%nat with (pred n - length l)%nat by lia. }
  apply (Hl (seq 0 4) d n Hc).
Qed.

Lemma wait_not_busy_ok d0 d r n p k :
  ctl d0 d r n p k -> (n < POLL_LIMIT)%nat ->
  exists d', wait_not_busy d = (Ok tt, d') /\ ctl d0 d' r 0 p k.
Proof using IS.
  unfold wait_not_busy. generalize POLL_LIMIT. intros m. revert d n.
  induction m as [|m IH]; intros d n Hc Hn; [lia|]. cbn [wait_not_busy_go].
  destruct (status_read_ok _ _ _ _ _ _ Hc) as (s & d1 & Hd1 & Hc1 & Hs). rewrite (bind_ok _ _ _ _ _ Hd1).
  destruct n as [|n].
  - destruct Hs as (-> & -> & -> & _). by exists d1.
  - rewrite Hs. cbn [negb]. apply (IH d1 n); [done|lia].
Qed.

Lemma wait_drq_ok d0 d r n p k :
  ctl d0 d r n p k -> p <> Idle -> (n < POLL_LIMIT)%nat ->
  exists d', wait_drq d = (Ok tt, d') /\ ctl d0 d' r 0 p k.
Proof using IS.
  unfold wait_drq. generalize POLL_LIMIT. intros m Hc Hp. revert d n Hc.
  induction m as [|m IH]; intros d n Hc Hn; [lia|]. cbn [wait_drq_go].
  destruct (status_read_ok _ _ _ _ _ _ Hc) as (s & d1 & Hd1 & Hc1 & Hs). rewrite (bind_ok _ _ _ _ _ Hd1).
  destruct n as [|n].
  - destruct Hs as (-> & -> & -> & ->). destruct p; [done|by exists d1..].
  - rewrite Hs. apply (IH d1 n); [done|lia].
Qed.

Lemma port_write_reg d0 d r p v k :
  ctl d0 d r 0 Idle k -> PRIMARY_BASE + REG_SECTOR_COUNT <= p <= PRIMARY_BASE + REG_DRIVE_HEAD -> 0 <= v < 256 ->
  exists d', port_write p v d = (Ok tt, d') /\ ctl d0 d' (set_reg p v r) 0 Idle k.
Proof using IS.
  intros (Hi & Hs & Hn) Hp Hv. eexists. split; [done|]. split; [|done]. by apply ide_set_reg.
Qed.

Lemma as_u8_range z : 0 <= as_u8 z < 256.
Proof using.
  apply Z.mod_pos_bound. lia.
Qed.

(** Step through a register write or a settle delay on an idle controller, keeping [Hc]. *)
Ltac io_step Hc :=
  let d1 := fresh "d" in let Hd := fresh "Hd" in let Hn := fresh "Hc" in
  match goal with
  | |- context [bind (port_write ?p ?v) _ ?d] =>
      destruct (port_write_reg _ d _ p v _ Hc) as (d1 & Hd & Hn);
      [unfold PRIMARY_BASE, REG_SECTOR_COUNT, REG_DRIVE_HEAD, REG_LBA_LO, REG_LBA_MID, REG_LBA_HI; lia
      |first [apply as_u8_range|lia]|]
  | |- context [bind delay_400ns _ ?d] => destruct (delay_ok _ d _ _ _ _ Hc) as (d1 & Hd & Hn)
  | |- context [port_write ?p ?v ?d] =>
      destruct (port_write_reg _ d _ p v _ Hc) as (d1 & Hd & Hn);
      [unfold PRIMARY_BASE, REG_SECTOR_COUNT, REG_DRIVE_HEAD, REG_LBA_LO, REG_LBA_MID, REG_LBA_HI; lia
      |first [apply as_u8_range|lia]|]
  end;
  first [rewrite (bind_ok _ _ _ _ _ Hd)|rewrite Hd]; clear Hc; rename Hn into Hc.

Lemma select_lba28_ok d0 d r lba k :
  ctl d0 d r 0 Idle k -> 0 <= lba < 0x10000000 ->
  exists d', select_lba28 lba 1 d = (Ok tt, d') /\ ctl d0 d' (lba_regs lba) 0 Idle k.
Proof using IS.
  intros Hc Hl. pose proof (lba_regs_head lba Hl) as [Hh Hq]. unfold lba_regs in Hh. simpl in Hh.
  unfold select_lba28. do 6 io_step Hc. eexists. split; [reflexivity|exact Hc].
Qed.

(** Reading the words of a block into a buffer. *)
Lemma read_words_ok d0 d r ws i buf k :
  ctl d0 d r 0 (In ws) k -> ws <> [] -> (2 * (i + length ws) <= length buf)%nat ->
  exists d', for_acc (seq i (length ws)) buf (fun buf i =>
      let* word := data_read in put (2 * i) (word_bytes word) buf) d =
    (Ok (take (2 * i) buf ++ words_block ws ++ drop (2 * (i + length ws)) buf), d') /\
    ctl d0 d' r 0 Idle k.
Proof using IS.
  revert d i buf. induction ws as [|w ws IH]; intros d i buf Hc Hne Hl; [done|].
  destruct Hc as (Hi & Hs & Hn). destruct (ide_data_in _ _ _ _ _ Hi) as (h' & Hin & Hi').
  cbn [length seq for_acc]. unfold data_read at 1. set (d1 := mkAta h' (sectors d) (initialised d)).
  simpl in Hl.
  rewrite (bind_ok _ _ _ (splice (2 * i) (word_bytes w) buf) d1).
  2:{ unfold bind at 1. rewrite Hin. apply put_ok. simpl. lia. }
  set (buf1 := splice (2 * i) (word_bytes w) buf).
  assert (take (2 * S i) buf1 = take (2 * i) buf ++ word_bytes w) as Ht.
  { unfold buf1, splice. rewrite app_assoc, take_app_le by (rewrite length_app, length_take; simpl; lia).
    apply take_ge. rewrite length_app, length_take. simpl. lia. }
  assert (forall m, (2 * S i <= m)%nat -> drop m buf1 = drop m buf) as Hdr.
  { intros m Hm. unfold buf1, splice. rewrite app_assoc, drop_app_ge by (rewrite length_app, length_take; simpl; lia).
    rewrite drop_drop. f_equal. rewrite length_app, length_take. simpl. lia. }
  assert (length buf1 = length buf) as Hlb by (apply length_splice; simpl; lia).
  assert (forall l, words_block (w :: l) = word_bytes w ++ words_block l) as Hwb by done.
  destruct (decide (ws = [])) as [->|Hw].
  - exists d1. simpl in Hi'. split; [|done]. cbn [length seq for_acc].
    unfold ret. do 2 f_equal. rewrite <- (take_drop (2 * S i) buf1), Ht, Hdr, Hwb, <- app_assoc by lia.
    do 2 f_equal. change (words_block []) with (@nil byte). f_equal. lia.
  - destruct (IH d1 (S i) buf1) as (d2 & Hd2 & Hc2); [done|done|lia|].
    exists d2. split; [|done]. rewrite Hd2. do 2 f_equal. rewrite Ht, Hwb, <- !app_assoc, Hdr by lia.
    do 4 f_equal. lia.
Qed.

(** Sending the words of a block. *)
Lemma write_words_ok d0 d r lba acc cs k :
  ctl d0 d r 0 (Out lba acc) k -> cs <> [] -> (length acc + length cs = 256)%nat ->
  exists n d', for_each cs (fun chunk => data_write (chunk_word chunk)) d = (Ok tt, d') /\
    (n <= ide_latency)%nat /\
    ctl d0 d' r n Idle (dput k lba (words_block (acc ++ map chunk_word cs))).
Proof using IS.
  revert d acc. induction cs as [|c cs IH]; intros d acc (Hi & Hs & Hn) Hne Hl; [done|].
  cbn [for_each map]. unfold data_write at 1. unfold bind at 1. simpl in Hl.
  set (d1 := mkAta _ _ _). pose proof (chunk_word_range c) as Hr.
  destruct cs as [|c2 cs].
  - destruct (ide_data_last _ _ _ _ (chunk_word c) _ Hi Hr) as (n & Hln & Hi'); [simpl in Hl; lia|].
    exists n, d1. done.
  - destruct (IH d1 (acc ++ [chunk_word c])) as (n & d2 & Hd2 & Hln & Hc2); [|done| |].
    + split; [|done]. apply ide_data_out; [done|done|simpl in Hl; lia].
    + rewrite length_app. simpl in *. lia.
    + exists n, d2. split; [done|]. split; [done|]. by rewrite <- app_assoc in Hc2.
Qed.

(** The driver holds the disk [k]: an idle controller in front of it, and the right size. *)
Definition ata_holds (d : AtaDrive H) (k : Disk) : Prop :=
  disk_wf k /\ nblocks k <= 0x10000000 /\ sectors d = nblocks k /\ exists r, ide (hw d) r 0 Idle k.

Lemma as_u32_lba lba : 0 <= lba < 0x10000000 -> as_u32 lba = lba.
Proof using.
  intros. unfold as_u32. apply Z.mod_small. lia.
Qed.

Lemma ata_read_ok d k lba buf :
  ata_holds d k -> 0 <= lba < nblocks k -> (BLOCK_SIZE <= length buf)%nat ->
  exists d', ata_read_block lba buf d = (Ok (BLOCK_SIZE, splice 0 (dget k lba) buf), d') /\ ata_holds d' k.
Proof using IS.
  intros (Hwf & Hnb & Hsec & r & Hi) Hl Hb. pose proof ide_fast as Hfast.
  assert (ctl d d r 0 Idle k) as Hc by (by split). unfold ata_read_block, out_of_range.
  replace ((lba <? 0) || (sectors d <=? lba)) with false by (symmetry; lia).
  replace (length buf <? BLOCK_SIZE)%nat with false by (symmetry; apply Nat.ltb_ge; lia).
  destruct (wait_not_busy_ok _ _ _ _ _ _ Hc ltac:(lia)) as (d1 & Hd1 & Hc1). rewrite (bind_ok _ _ _ _ _ Hd1).
  rewrite as_u32_lba by lia. destruct (select_lba28_ok _ _ _ lba _ Hc1 ltac:(lia)) as (d2 & Hd2 & (Hi2 & Hs2 & Hn2)).
  rewrite (bind_ok _ _ _ _ _ Hd2). destruct (lba_regs_ok lba ltac:(lia)) as [Hsel Hreg].
  destruct (ide_read_cmd _ _ _ Hi2 Hsel) as (n & Hln & Hi3); [by rewrite Hreg|]. rewrite Hreg in Hi3.
  unfold port_write at 1. unfold bind at 1. set (d3 := mkAta _ _ _).
  assert (ctl d d3 (lba_regs lba) n (In (block_words (dget k lba))) k) as Hc3 by done.
  destruct (delay_ok _ _ _ _ _ _ Hc3) as (d4 & Hd4 & Hc4). rewrite (bind_ok _ _ _ _ _ Hd4).
  destruct (wait_drq_ok _ _ _ _ _ _ Hc4 ltac:(done) ltac:(lia)) as (d5 & Hd5 & Hc5). rewrite (bind_ok _ _ _ _ _ Hd5).
  pose proof (length_block_words _ (Hwf lba)) as Hlw.
  destruct (read_words_ok d d5 (lba_regs lba) (block_words (dget k lba)) 0 buf k) as (d6 & Hd6 & (Hi6 & Hs6 & Hn6)).
  { done. }
  { intros Hnil. by rewrite Hnil in Hlw. }
  { rewrite Hlw. unfold BLOCK_SIZE in Hb. lia. }
  rewrite Hlw in Hd6. change (BLOCK_SIZE / 2)%nat with 256%nat. rewrite (bind_ok _ _ _ _ _ Hd6).
  exists d6. split.
  - unfold ret. do 3 f_equal. rewrite words_block_words by apply Hwf. unfold splice.
    by rewrite Hwf.
  - split; [done|]. split; [done|]. split; [congruence|]. eauto.
Qed.

Lemma ata_write_ok d k lba buf :
  ata_holds d k -> 0 <= lba < nblocks k -> (BLOCK_SIZE <= length buf)%nat ->
  exists d', ata_write_block lba buf d = (Ok BLOCK_SIZE, d') /\ ata_holds d' (dput k lba (take BLOCK_SIZE buf)).
Proof using IS.
  intros (Hwf & Hnb & Hsec & r & Hi) Hl Hb. pose proof ide_fast as Hfast.
  assert (ctl d d r 0 Idle k) as Hc by (by split). unfold ata_write_block, out_of_range.
  replace ((lba <? 0) || (sectors d <=? lba)) with false by (symmetry; lia).
  replace (length buf <? BLOCK_SIZE)%nat with false by (symmetry; apply Nat.ltb_ge; lia).
  destruct (wait_not_busy_ok _ _ _ _ _ _ Hc ltac:(lia)) as (d1 & Hd1 & Hc1). rewrite (bind_ok _ _ _ _ _ Hd1).
  rewrite as_u32_lba by lia. destruct (select_lba28_ok _ _ _ lba _ Hc1 ltac:(lia)) as (d2 & Hd2 & (Hi2 & Hs2 & Hn2)).
  rewrite (bind_ok _ _ _ _ _ Hd2). destruct (lba_regs_ok lba ltac:(lia)) as [Hsel Hreg].
  destruct (ide_write_cmd _ _ _ Hi2 Hsel) as (n & Hln & Hi3); [by rewrite Hreg|]. rewrite Hreg in Hi3.
  unfold port_write at 1. unfold bind at 1. set (d3 := mkAta _ _ _).
  assert (ctl d d3 (lba_regs lba) n (Out lba []) k) as Hc3 by done.
  destruct (delay_ok _ _ _ _ _ _ Hc3) as (d4 & Hd4 & Hc4). rewrite (bind_ok _ _ _ _ _ Hd4).
  destruct (wait_drq_ok _ _ _ _ _ _ Hc4 ltac:(done) ltac:(lia)) as (d5 & Hd5 & Hc5). rewrite (bind_ok _ _ _ _ _ Hd5).
  set (b := take BLOCK_SIZE buf).
  assert (length b = BLOCK_SIZE) as Hlb by (unfold b; rewrite length_take; lia).
  pose proof (length_block_words _ Hlb) as Hlw. unfold block_words in Hlw. rewrite length_map in Hlw.
  destruct (write_words_ok d d5 (lba_regs lba) lba [] (chunks_exact 2 b) k) as (m & d6 & Hd6 & Hlm & Hc6).
  { done. }
  { intros Hnil. by rewrite Hnil in Hlw. }
  { simpl. lia. }
  rewrite (bind_ok _ _ _ _ _ Hd6).
  destruct (wait_not_busy_ok _ _ _ _ _ _ Hc6 ltac:(lia)) as (d7 & Hd7 & (Hi7 & Hs7 & Hn7)).
  rewrite (bind_ok _ _ _ _ _ Hd7). exists d7. split; [done|].
  simpl in Hi7. fold (block_words b) in Hi7. rewrite words_block_words in Hi7 by done.
  split; [by apply disk_wf_dput|]. split; [done|]. split; [simpl; congruence|]. eauto.
Qed.

(** ** Probing *)

(** What the word loop of [identify_inner] keeps. *)
Definition keep_word (acc : Z * Z) (i : nat) (w : Z) : Z * Z :=
  if decide (i = 60%nat) then (w, snd acc) else if decide (i = 61%nat) then (fst acc, w) else acc.

Fixpoint keep_words (acc : Z * Z) (i : nat) (ws : list Z) : Z * Z :=
  match ws with [] => acc | w :: ws' => keep_words (keep_word acc i w) (S i) ws' end.

Lemma keep_words_after acc i ws : (61 < i)%nat -> keep_words acc i ws = acc.
Proof using.
  revert acc i. induction ws as [|w ws IH]; intros acc i Hi; simpl; [done|]. rewrite IH by lia.
  unfold keep_word. by rewrite !decide_False by lia.
Qed.

Lemma keep_words_spec acc i ws :
  (i <= 60)%nat -> (62 <= i + length ws)%nat ->
  keep_words acc i ws = (ws !!! (60 - i)%nat, ws !!! (61 - i)%nat).
Proof using.
  revert acc i. induction ws as [|w ws IH]; intros acc i Hi Hl; simpl in Hl; [lia|].
  destruct (decide (i = 60%nat)) as [->|Hne].
  - destruct ws as [|w2 ws]; simpl in Hl; [lia|]. cbn [keep_words]. rewrite keep_words_after by lia. done.
  - cbn [keep_words]. rewrite IH by lia.
    replace (60 - i)%nat with (S (60 - S i)) by lia. by replace (61 - i)%nat with (S (61 - S i)) by lia.
Qed.

Lemma identify_words_ok d0 d r ws k i acc :
  ctl d0 d r 0 (In ws) k -> ws <> [] ->
  exists d', for_acc (seq i (length ws)) acc (fun acc i =>
      let* w := data_read in
      ret (if decide (i = 60%nat) then (w, snd acc)
           else if decide (i = 61%nat) then (fst acc, w) else acc)) d = (Ok (keep_words acc i ws), d') /\
    ctl d0 d' r 0 Idle k.
Proof using IS.
  revert d i acc. induction ws as [|w ws IH]; intros d i acc (Hi & Hs & Hn) Hne; [done|].
  destruct (ide_data_in _ _ _ _ _ Hi) as (h' & Hin & Hi').
  cbn [length seq for_acc keep_words]. set (d1 := mkAta h' (sectors d) (initialised d)).
  rewrite (bind_ok _ _ _ (keep_word acc i w) d1).
  2:{ unfold data_read, bind. by rewrite Hin. }
  destruct (decide (ws = [])) as [->|Hw]; [by exists d1|]. by apply IH.
Qed.

(** [identify_inner] once the drive answered: signature check, data request, the 256 words. *)
Lemma identify_tail_ok d0 d r ws k :
  ctl d0 d r 0 (In ws) k -> r_mid r = 0 -> r_hi r = 0 -> length ws = 256%nat ->
  ws !!! 60%nat = nblocks k mod 65536 -> ws !!! 61%nat = nblocks k / 65536 ->
  exists d', (let* mid := port_read (PRIMARY_BASE + REG_LBA_MID) in
    (if negb (mid =? 0) then throw DriveError
     else
       let* hi := port_read (PRIMARY_BASE + REG_LBA_HI) in
       if negb (hi =? 0) then throw DriveError else ret tt) ;;;
    wait_drq ;;;
    let* (sectors_lo, sectors_hi) := identify_words in
    fun d => (Ok tt, mkAta (hw d) (Z.lor sectors_lo (Z.shiftl sectors_hi 16)) (initialised d))) d = (Ok tt, d') /\
    ide (hw d') r 0 Idle k /\ sectors d' = nblocks k /\ initialised d' = initialised d0.
Proof using IS.
  intros (Hi & Hs & Hn) Hmid Hhi Hlw Hw60 Hw61. pose proof ide_fast.
  destruct (ide_get_mid _ _ _ _ _ Hi) as (h1 & Hin1 & Hi1).
  unfold port_read at 1. unfold bind at 1. rewrite Hin1, Hmid. cbn [Z.eqb negb].
  destruct (ide_get_hi _ _ _ _ _ Hi1) as (h2 & Hin2 & Hi2).
  set (d2 := mkAta h2 (sectors d) (initialised d)).
  rewrite (bind_ok _ _ _ tt d2).
  2:{ unfold port_read, bind. cbn [hw]. by rewrite Hin2, Hhi. }
  assert (ctl d0 d2 r 0 (In ws) k) as Hc2 by done.
  destruct (wait_drq_ok _ _ _ _ _ _ Hc2 ltac:(done) ltac:(lia)) as (d3 & Hd3 & Hc3). rewrite (bind_ok _ _ _ _ _ Hd3).
  destruct (identify_words_ok d0 d3 r ws k 0 (0, 0) Hc3) as (d4 & Hd4 & (Hi4 & Hs4 & Hn4)); [by intros ->|].
  rewrite Hlw in Hd4. unfold identify_words. rewrite (bind_ok _ _ _ _ _ Hd4).
  rewrite keep_words_spec by lia. eexists. split; [reflexivity|]. split; [done|]. split; [|done].
  simpl. rewrite Hw60, Hw61, lor_shiftl_add by (lia || apply Z.mod_pos_bound; lia).
  change (2 ^ 16) with 65536. rewrite Z.mul_comm, Z.add_comm. symmetry. apply Z.div_mod. lia.
Qed.

(** C32: probing. On an idle controller with a drive of fewer than 2^28 sectors, [init] succeeds,
    learns the drive's size from IDENTIFY words 60 and 61, and leaves a driver that holds the disk; a
    second [init] does nothing. *)
Theorem ata_init_ok d r k :
  ide (hw d) r 0 Idle k -> initialised d = false -> disk_wf k -> 0 <= nblocks k <= 0x10000000 ->
  exists d', ata_init d = (Ok tt, d') /\ ata_holds d' k /\ ata_init d' = (Ok tt, d').
Proof using IS.
  intros Hi Hini Hwf Hnb. pose proof ide_fast as Hfast. unfold ata_init at 1. rewrite Hini.
  unfold identify, identify_inner. rewrite bind_bind. unfold port_write at 1. unfold bind at 1.
  set (d1 := mkAta _ _ _).
  assert (ctl d d1 r 0 Idle k) as Hc by (split; [by apply ide_control|done]). clearbody d1.
  do 6 (rewrite bind_bind; io_step Hc). rewrite bind_bind. unfold port_write at 1. unfold bind at 1.
  match type of Hc with ctl _ _ ?r _ _ _ => set (r1 := r) in Hc end.
  destruct Hc as (Hi1 & Hs1 & Hn1).
  destruct (ide_identify_cmd _ _ _ Hi1 eq_refl) as (n & ws & Hln & Hlw & Hw60 & Hw61 & Hi2).
  set (d7 := mkAta _ _ _). assert (ctl d d7 r1 n (In ws) k) as Hc by (by split). clearbody d7.
  assert (ws <> []) as Hws by (by intros ->).
  rewrite bind_bind. io_step Hc. rewrite bind_bind.
  destruct (status_read_ok _ _ _ _ _ _ Hc) as (s & d9 & Hd9 & Hc9 & Hst). rewrite (bind_ok _ _ _ _ _ Hd9).
  assert (s <> 0) as Hs0.
  { intros ->. destruct (n - 4)%nat; [by destruct Hst as (_ & _ & _ & Hdrq)|done]. }
  destruct (Z.eqb_spec s 0) as [|_]; [done|]. rewrite bind_bind.
  destruct (wait_not_busy_ok _ _ _ _ _ _ Hc9 ltac:(lia)) as (d10 & Hd10 & Hc10). rewrite (bind_ok _ _ _ _ _ Hd10).
  destruct (identify_tail_ok d d10 r1 ws k Hc10 eq_refl eq_refl Hlw Hw60 Hw61) as (d11 & Hd11 & Hi11 & Hs11 & Hn11).
  rewrite (bind_ok _ _ _ _ _ Hd11). eexists. split; [reflexivity|]. split; [|done].
  split; [done|]. split; [lia|]. split; [done|]. by exists r1.
Qed.

End driver.

(** Requests the driver refuses without touching the controller are those the disk refuses. *)
Lemma ata_refuses {H : Type} `{IS : IdeSpec H} (d : AtaDrive H) k lba (buf : bytes) :
  ata_holds d k -> ~ (0 <= lba < nblocks k /\ (BLOCK_SIZE <= length buf)%nat) ->
  ata_read_block lba buf d = (Err OutOfRange, d) /\ ata_write_block lba buf d = (Err OutOfRange, d) /\
  disk_read lba buf k = (Err OutOfRange, k) /\ disk_write lba buf k = (Err OutOfRange, k).
Proof.
  intros (_ & _ & Hsec & _) Hn. unfold ata_read_block, ata_write_block, disk_read, disk_write, out_of_range.
  rewrite Hsec. destruct (decide (0 <= lba < nblocks k)) as [Hl|Hl].
  - replace ((lba <? 0) || (nblocks k <=? lba)) with false by (symmetry; lia).
    replace ((0 <=? lba) && (lba <? nblocks k)) with true by (symmetry; lia).
    assert (length buf <? BLOCK_SIZE = true)%nat as -> by (apply Nat.ltb_lt; lia). done.
  - replace ((lba <? 0) || (nblocks k <=? lba)) with true by (symmetry; lia).
    replace ((0 <=? lba) && (lba <? nblocks k)) with false by (symmetry; lia). done.
Qed.

Lemma disk_accepts k lba (buf : bytes) :
  0 <= lba < nblocks k -> (BLOCK_SIZE <= length buf)%nat ->
  disk_read lba buf k = (Ok (BLOCK_SIZE, splice 0 (dget k lba) buf), k) /\
  disk_write lba buf k = (Ok BLOCK_SIZE, dput k lba (take BLOCK_SIZE buf)).
Proof.
  intros Hl Hb. unfold disk_read, disk_write.
  replace ((0 <=? lba) && (lba <? nblocks k)) with true by (symmetry; lia).
  replace (length buf <? BLOCK_SIZE)%nat with false by (symmetry; apply Nat.ltb_ge; lia). done.
Qed.

(** The driver keeps the block-device contract. *)
#[global] Program Instance ata_spec {H : Type} `{IS : IdeSpec H} : BlockDeviceSpec (AtaDrive H) := {
  bd_rel := ata_holds;
}.
Next Obligation.
  by intros H PI IS d k (Hwf & _).
Qed.
Next Obligation.
  by intros H PI IS d k (_ & _ & Hs & _).
Qed.
Next Obligation.
  intros H PI IS lba buf d k HR.
  destruct (decide (0 <= lba < nblocks k /\ (BLOCK_SIZE <= length buf)%nat)) as [[Hl Hb]|Hn].
  - destruct (disk_accepts k lba buf Hl Hb) as [-> _]. by apply ata_read_ok.
  - destruct (ata_refuses d k lba buf HR Hn) as (Hd & _ & -> & _). by exists d.
Qed.
Next Obligation.
  intros H PI IS lba buf d k HR.
  destruct (decide (0 <= lba < nblocks k /\ (BLOCK_SIZE <= length buf)%nat)) as [[Hl Hb]|Hn].
  - destruct (disk_accepts k lba buf Hl Hb) as [_ ->]. by apply ata_write_ok.
  - destruct (ata_refuses d k lba buf HR Hn) as (_ & Hd & _ & ->). by exists d.
Qed.

(** ** Sessions *)

Inductive blk_op : Set :=
| BRead (lba : Z) (buf : bytes)
| BWrite (lba : Z) (buf : bytes).

Definition blk_exec {D : Type} `{BlockDevice D} (o : blk_op) : M D BlockError (nat * bytes) :=
  match o with
  | BRead lba buf => read_block lba buf
  | BWrite lba buf => let* n := write_block lba buf in ret (n, [])
  end.

(** C5: the ATA driver refines the abstract disk. Behind a controller that keeps the documented
    protocol, any sequence of block reads and writes through the driver, in range or not and with any
    buffers, returns what the array of blocks returns, and the drive ends up holding that array. *)
Theorem ata_refines_disk {H : Type} `{IS : IdeSpec H} (ops : list blk_op) (d : AtaDrive H) k :
  ata_holds d k ->
  exists d', run_ops blk_exec ops d = (fst (run_ops blk_exec ops k), d') /\
    ata_holds d' (snd (run_ops blk_exec ops k)).
Proof.
  revert d k. induction ops as [|o ops IH]; intros d k HR; simpl; [by exists d|].
  assert (exists d1, blk_exec o d = (fst (blk_exec o k), d1) /\ ata_holds d1 (snd (blk_exec o k))) as (d1 & Hd1 & HR1).
  { destruct o as [lba buf|lba buf]; simpl.
    - destruct (bd_read (BlockDeviceSpec:=ata_spec) lba buf d k HR) as (d1 & Hd1 & HR1). exists d1. split; [exact Hd1|].
      replace (snd (disk_read lba buf k)) with k; [exact HR1|]. unfold disk_read. by repeat case_match.
    - destruct (bd_write (BlockDeviceSpec:=ata_spec) lba buf d k HR) as (d1 & Hd1 & HR1). exists d1. unfold bind.
      change (ata_write_block lba buf d) with (write_block lba buf d). rewrite Hd1.
      by destruct (disk_write lba buf k) as [[] ?]. }
  rewrite Hd1. destruct (blk_exec o k) as [x k1]. simpl in *.
  destruct (IH d1 k1 HR1) as (d2 & Hd2 & HR2). rewrite Hd2.
  destruct (run_ops blk_exec ops k1) as [rs k2]. by exists d2.
Qed.

(** C33: no hang. If the controller reports busy forever, reading or writing an in-range block
    returns [Timeout] (after [POLL_LIMIT] polls) and the driver's own state is unchanged. *)
Theorem ata_stuck_times_out {H : Type} `{PI : PortIo H} (stuck : H -> Prop) (d : AtaDrive H) lba buf :
  (forall h, stuck h -> has (fst (inb (PRIMARY_BASE + REG_STATUS) h)) STATUS_BSY = true /\
     stuck (snd (inb (PRIMARY_BASE + REG_STATUS) h))) ->
  stuck (hw d) -> 0 <= lba < sectors d -> (BLOCK_SIZE <= length buf)%nat ->
  exists d1 d2, ata_read_block lba buf d = (Err Timeout, d1) /\ ata_write_block lba buf d = (Err Timeout, d2) /\
    sectors d1 = sectors d /\ sectors d2 = sectors d.
Proof.
  intros Hst Hd Hl Hb.
  assert (forall m d, stuck (hw d) -> exists d', wait_not_busy_go m d = (Err Timeout, d') /\ sectors d' = sectors d) as Hw.
  { clear d Hd Hl. induction m as [|m IH]; intros d Hd; [by exists d|]. cbn [wait_not_busy_go].
    unfold status_read, port_read. unfold bind at 1. destruct (Hst _ Hd) as [Hb1 Hd1].
    destruct (inb _ (hw d)) as [s h]. simpl in *. rewrite Hb1. cbn [negb].
    destruct (IH (mkAta h (sectors d) (initialised d)) Hd1) as (d' & Hd' & Hs). by exists d'. }
  destruct (Hw POLL_LIMIT d Hd) as (d' & Hd' & Hs). exists d', d'.
  unfold ata_read_block, ata_write_block, out_of_range.
  replace ((lba <? 0) || (sectors d <=? lba)) with false by (symmetry; lia).
  replace (length buf <? BLOCK_SIZE)%nat with false by (symmetry; apply Nat.ltb_ge; lia).
  unfold wait_not_busy, bind. by rewrite Hd'.
Qed.

(** ** A reference controller

    The protocol laws can be kept: a controller that is busy for two status reads per command. *)

Module model.

Record Ide : Type := mkIde { i_regs : Regs; i_busy : nat; i_phase : phase; i_disk : Disk }.

Definition status_of (h : Ide) : Z :=
  match i_busy h with
  | S _ => 0x80
  | O => match i_phase h with Idle => 0x40 | _ => 0x48 end
  end.

Definition ide_inb (p : Z) (h : Ide) : Z * Ide :=
  if decide (p = PRIMARY_BASE + REG_STATUS) then
    (status_of h, mkIde (i_regs h) (pred (i_busy h)) (i_phase h) (i_disk h))
  else if decide (p = PRIMARY_BASE + REG_LBA_MID) then (r_mid (i_regs h), h)
  else if decide (p = PRIMARY_BASE + REG_LBA_HI) then (r_hi (i_regs h), h)
  else (0, h).

Definition identify_data (k : Disk) : list Z :=
  replicate 60 0 ++ [nblocks k mod 65536; nblocks k / 65536] ++ replicate 194 0.

Definition command (v : Z) (h : Ide) : Ide :=
  let r := i_regs h in let k := i_disk h in
  if decide (v = CMD_READ_SECTORS) then mkIde r 2 (In (block_words (dget k (reg_lba r)))) k
  else if decide (v = CMD_WRITE_SECTORS) then mkIde r 2 (Out (reg_lba r) []) k
  else if decide (v = CMD_IDENTIFY) then mkIde r 2 (In (identify_data k)) k
  else h.

Definition ide_outb (p v : Z) (h : Ide) : Ide :=
  if decide (p = PRIMARY_BASE + REG_COMMAND) then command v h
  else mkIde (set_reg p v (i_regs h)) (i_busy h) (i_phase h) (i_disk h).

Definition ide_inw (_ : Z) (h : Ide) : Z * Ide :=
  match i_phase h with
  | In (w :: ws) => (w, mkIde (i_regs h) (i_busy h) (if decide (ws = []) then Idle else In ws) (i_disk h))
  | _ => (0, h)
  end.

Definition ide_outw (_ w : Z) (h : Ide) : Ide :=
  match i_phase h with
  | Out lba ws =>
      if (length ws <? 255)%nat then mkIde (i_regs h) (i_busy h) (Out lba (ws ++ [w])) (i_disk h)
      else mkIde (i_regs h) 2 Idle (dput (i_disk h) lba (words_block (ws ++ [w])))
  | _ => h
  end.

#[global] Instance ide_ports : PortIo Ide := {
  inb := ide_inb; outb := ide_outb; inw := ide_inw; outw := ide_outw;
}.

#[global] Program Instance ide_spec : IdeSpec Ide := {
  ide h r n p k := h = mkIde r n p k;
  ide_latency := 2;
}.
Next Obligation.
  by apply Nat.ltb_lt; vm_compute.
Qed.
Next Obligation.
  intros h r n p k ->. do 2 eexists. split; [reflexivity|]. split; [reflexivity|].
  destruct n; [destruct p; by repeat split|reflexivity].
Qed.
Next Obligation.
  intros h r p v k -> Hp Hv. simpl. unfold ide_outb. rewrite decide_False; [done|].
  unfold PRIMARY_BASE, REG_COMMAND, REG_DRIVE_HEAD in *. lia.
Qed.
Next Obligation.
  by intros h r v k ->.
Qed.
Next Obligation.
  intros h r n p k ->. by eexists.
Qed.
Next Obligation.
  intros h r n p k ->. by eexists.
Qed.
Next Obligation.
  intros h r k -> _ _. by exists 2%nat.
Qed.
Next Obligation.
  intros h r k -> _ _. by exists 2%nat.
Qed.
Next Obligation.
  intros h r k -> _. exists 2%nat, (identify_data k). by repeat split.
Qed.
Next Obligation.
  intros h r w ws k ->. by eexists.
Qed.
Next Obligation.
  intros h r lba ws w k -> _ Hl. simpl. unfold ide_outw. simpl. apply Nat.ltb_lt in Hl. by rewrite Hl.
Qed.
Next Obligation.
  intros h r lba ws w k -> _ Hl. exists 2%nat. split; [done|]. simpl. unfold ide_outw. simpl.
  by rewrite Hl.
Qed.

Definition blank : Disk := mkDisk 100 ∅.
Definition start : AtaDrive Ide := new_primary_slave (mkIde (mkRegs 0 0 0 0 0) 0 Idle blank).
Definition ready : AtaDrive Ide := snd (ata_init start).

Lemma ready_holds : ata_holds ready blank.
Proof.
  split; [by intros lba|]. split; [vm_compute; discriminate|]. split; [vm_compute; reflexivity|].
  eexists. vm_compute. reflexivity.
Qed.

Lemma ata_init_ok_witness : exists d', ata_init start = (Ok tt, d') /\ ata_holds d' blank.
Proof.
  destruct (ata_init_ok start (mkRegs 0 0 0 0 0) blank) as (d' & H1 & H2 & _).
  - reflexivity.
  - reflexivity.
  - intros lba. reflexivity.
  - vm_compute. intuition congruence.
  - exists d'. exact (conj H1 H2).
Defined.

Lemma ata_refines_disk_witness :
  exists d', run_ops blk_exec [BWrite 3 (replicate 512 "w"%byte); BRead 3 (zeros 512)] ready =
    (fst (run_ops blk_exec [BWrite 3 (replicate 512 "w"%byte); BRead 3 (zeros 512)] blank), d').
Proof.
  destruct (ata_refines_disk [BWrite 3 (replicate 512 "w"%byte); BRead 3 (zeros 512)] ready blank ready_holds)
    as (d' & H1 & _).
  exists d'. exact H1.
Defined.

(** A machine whose status port always reads busy. *)
#[local] Instance dead_ports : PortIo unit := {
  inb _ h := (0x80, h); outb _ _ h := h; inw _ h := (0, h); outw _ _ h := h;
}.

Lemma ata_stuck_times_out_witness :
  exists d1 d2, ata_read_block 0 (zeros 512) (mkAta tt 10 true) = (Err Timeout, d1) /\
    ata_write_block 0 (zeros 512) (mkAta tt 10 true) = (Err Timeout, d2).
Proof.
  destruct (ata_stuck_times_out (fun _ => True) (mkAta tt 10 true) 0 (zeros 512)) as (d1 & d2 & H1 & H2 & _).
  - intros h _. split; reflexivity.
  - exact I.
  - simpl. lia.
  - apply Nat.leb_le. reflexivity.
  - exists d1, d2. exact (conj H1 H2).
Defined.

End model.
