(* ===== verification/Root.v ===== *)
(** * Assembling the root file system (src/kernel/src/fs/mod.rs, [mount_root])

    [Box<dyn FileSystem>] as the sum of the four backends, and the boot-time mount table. *)

From S2P Require Import Prelude.
From S2P Require Import Vfs.
From S2P Require Import Block.
From S2P Require Import Tmp.
From S2P Require Import Ram.
From S2P Require Import Dev.
From S2P Require Import Fat.
From S2P Require Import FatTable.
From S2P Require Import FatFile.
From S2P Require Import FatSpec.
From S2P Require Import FatDriver.
From S2P Require Import FatVolume.
From S2P Require Import Ata.

Section backend.
Context {D C : Type} `{BD : BlockDevice D} `{CO : Console C}.
Abbreviation W := (Devices D C).

Inductive Backend : Type :=
| BFat (f : FatFs)
| BRam (f : RamFs W)
| BTmp (f : TmpFs)
| BDev (f : DevFs).

(** Run a method on one alternative, putting its state back. *)
Definition on_backend {G A} (inj : G -> Backend) (m : M (G * W) FsError A) (g : G) (w : W)
    : res FsError A * (Backend * W) :=
  let '(r, (g', w')) := m (g, w) in (r, (inj g', w')).

(** Dynamic dispatch. *)
Definition dispatch {A} (op : forall G, FileSystem W G -> M (G * W) FsError A)
    : M (Backend * W) FsError A :=
  fun '(b, w) =>
    match b with
    | BFat f => on_backend BFat (op FatFs _) f w
    | BRam f => on_backend BRam (op (RamFs W) _) f w
    | BTmp f => on_backend BTmp (op TmpFs _) f w
    | BDev f => on_backend BDev (op DevFs _) f w
    end.

Definition backend_get {A} (op : forall G, FileSystem W G -> G -> A) (b : Backend) : A :=
  match b with
  | BFat f => op FatFs _ f
  | BRam f => op (RamFs W) _ f
  | BTmp f => op TmpFs _ f
  | BDev f => op DevFs _ f
  end.

#[global] Instance backend_filesystem : FileSystem W Backend := {
  fs_read_file rel := dispatch (fun _ _ => fs_read_file rel);
  fs_list_dir rel := dispatch (fun _ _ => fs_list_dir rel);
  fs_is_dir rel := dispatch (fun _ _ => fs_is_dir rel);
  fs_writable := backend_get (fun G _ => fs_writable (W:=W) (F:=G));
  fs_backing := backend_get (fun G _ => fs_backing (W:=W) (F:=G));
  fs_create_file rel := dispatch (fun _ _ => fs_create_file rel);
  fs_write_file rel data := dispatch (fun _ _ => fs_write_file rel data);
  fs_append_file rel data := dispatch (fun _ _ => fs_append_file rel data);
  fs_create_dir rel := dispatch (fun _ _ => fs_create_dir rel);
  fs_remove rel := dispatch (fun _ _ => fs_remove rel);
  fs_read_at rel off buf := dispatch (fun _ _ => fs_read_at rel off buf);
  fs_write_at rel off buf := dispatch (fun _ _ => fs_write_at rel off buf);
}.

(** The choice of the root backend; [ata_init] is [crate::ata::init]. *)
Definition root_backend (ata_init : M D BlockError unit) : M W FsError Backend :=
  mcase (with_drive ata_init)
    (fun _ =>
       mcase (with_drive fat_mount)
         (fun fat =>
            serial_print (s_ "[fs] mounted FAT32 on primary IDE slave" ++ NL) ;;; ret (BFat fat))
         (fun e =>
            serial_print (s_ "[fs] FAT mount failed (" ++ fs_error_debug e
                          ++ s_ "); falling back to ramfs" ++ NL) ;;;
            ret (BRam seed)))
    (fun e =>
       serial_print (s_ "[fs] no data disk on primary IDE slave (" ++ block_error_debug e
                     ++ s_ "); using ramfs" ++ NL) ;;;
       ret (BRam seed)).

(** [vfs.mount(p, fs).expect(..)]. *)
Definition mount_expect (p : str) (b : Backend) (vfs : Vfs Backend) : M W FsError (Vfs Backend) :=
  match vfs_mount p b vfs with
  | (Ok _, vfs') => ret vfs'
  | _ => panic
  end.

Definition mount_root (ata_init : M D BlockError unit) : M W FsError (Vfs Backend) :=
  let vfs := vfs_new in
  let* root := root_backend ata_init in
  let* vfs := mount_expect (s_ "/") root vfs in
  let* vfs := mount_expect (s_ "/tmp") (BTmp tmp_new) vfs in
  let* vfs := mount_expect (s_ "/dev") (BDev dev_new) vfs in
  mount_expect (s_ "/ram") (BRam seed) vfs.

(** The table [mount_root] builds over a given root backend. *)
Definition boot_table (root : Backend) : Vfs Backend :=
  mkVfs [mkMount [] root; mkMount (s_ "/tmp") (BTmp tmp_new);
         mkMount (s_ "/dev") (BDev dev_new); mkMount (s_ "/ram") (BRam seed)].

Lemma mount_root_boot init w :
  mount_root init w =
    match root_backend init w with
    | (Ok root, w') => (Ok (boot_table root), w')
    | (Err e, w') => (Err e, w')
    | (Panic, w') => (Panic, w')
    | (Diverge, w') => (Diverge, w')
    end.
Proof.
  unfold mount_root, bind at 1. destruct (root_backend init w) as [[root| | |] w']; done.
Qed.

End backend.
Arguments Backend : clear implicits.

(** ** Dispatch keeps the backends' promises

    FAT is left out: on a damaged volume its arithmetic can overflow, so what it promises needs a
    well-formed volume. *)

Section backend_answers.
Context {D C : Type} `{BD : BlockDevice D} `{BS : !BlockDeviceSpec D} `{CO : Console C} `{CS : !ConsoleSpec C}.
Abbreviation W := (Devices D C).

Definition not_fat (b : Backend D C) : Prop := match b with BFat _ => False | _ => True end.

Lemma dispatch_answers {A} now Q (op : forall G, FileSystem W G -> M (G * W) FsError A) :
  (forall G (FS : FileSystem W G) (SP : FileSystemSpec devices_ok), answers (fss_ok now) Q (op G FS)) ->
  answers (fun s => not_fat s.1 /\ devices_ok now s.2) Q (dispatch op).
Proof.
  intros Hop [b w] [Hb Hw]. 
  assert (forall G (FS : FileSystem W G) (SP : FileSystemSpec devices_ok) (inj : G -> Backend D C) g,
    (forall g, not_fat (inj g)) -> fss_inv g ->
    exists r s', on_backend inj (op G FS) g w = (r, s') /\ good Q r /\ not_fat s'.1 /\ devices_ok now s'.2) as Hgo.
  { intros G FS SP inj g Hinj Hg. destruct (Hop G FS SP (g, w)) as (r & [g' w'] & He & Hr & [_ Hw']); [done|].
    unfold on_backend. rewrite He. eexists _, _. split; [done|]. split; [done|].
    split; [apply Hinj|done]. }
  destruct b as [f|f|f|f]; [done|..]; simpl.
  - by apply (Hgo _ _ (ram_spec devices_ok) BRam).
  - by apply (Hgo _ _ (tmp_spec devices_ok) BTmp).
  - by apply (Hgo _ _ dev_spec BDev).
Qed.

#[global] Program Instance backend_spec : FileSystemSpec (F:=Backend D C) devices_ok :=
  { fss_inv := not_fat }.
Solve Obligations with (intros; apply dispatch_answers; intros; auto with answers).

End backend_answers.

(** ** Routing lemmas *)

Lemma owns_seg s rest x :
  Forall valid_seg (s :: rest) -> valid_seg x ->
  owns (abs_path (s :: rest)) ("/"%byte :: x) <-> s = x.
Proof.
  intros Hs Hx. pose proof (segments_abs_path _ Hs) as Hseg.
  assert (segments ("/"%byte :: x) = [x]) as Hsx.
  { rewrite <- (segments_slashed [x]) by (by constructor). unfold slashed. simpl. by rewrite app_nil_r. }
  split.
  - intros [Heq|[t Heq]]; rewrite Heq in Hseg.
    + rewrite Hsx in Hseg. by simplify_eq.
    + rewrite segments_slash, Hsx in Hseg. by simplify_eq/=.
  - intros ->. unfold abs_path. rewrite decide_False by done. destruct rest as [|r rest].
    + left. unfold slashed. simpl. by rewrite app_nil_r.
    + right. exists (r ++ slashed rest). unfold slashed. simpl. done.
Qed.

Lemma mount_matches_seg s rest x :
  Forall valid_seg (s :: rest) -> valid_seg x ->
  mount_matches (abs_path (s :: rest)) ("/"%byte :: x) = bool_decide (s = x).
Proof.
  intros Hs Hx. apply eq_bool_prop_intro.
  rewrite !Is_true_true, mount_matches_spec, bool_decide_eq_true. by apply owns_seg.
Qed.

(** What is left of a path after its mount's prefix. *)
Lemma tail_seg s rest :
  drop (S (length s)) (abs_path (s :: rest)) = slashed rest.
Proof.
  change (S (length s)) with (length ("/"%byte :: s)).
  unfold abs_path. rewrite decide_False by done.
  change (slashed (s :: rest)) with (("/"%byte :: s) ++ slashed rest). apply drop_app_length.
Qed.

Lemma slashed_nil rest : slashed rest = [] <-> rest = [].
Proof.
  by destruct rest.
Qed.

Section root_theorems.
Context {D C : Type} `{BD : BlockDevice D} `{CO : Console C}.
Abbreviation W := (Devices D C).

Lemma boot_table_wf root : vfs_wf (boot_table (D:=D) (C:=C) root).
Proof.
  split; [cbn; unfold MAX_MOUNTS; lia|]. split.
  - cbn. by apply (bool_decide_unpack _); vm_compute.
  - cbn. repeat (apply Forall_cons; split); [by left|right; done..|by apply Forall_nil].
Qed.

(** Which boot mount owns a path, by its first segment. *)
Definition boot_owner (segs : list str) : nat * str :=
  match segs with
  | s :: rest =>
      if decide (s = s_ "tmp") then (1%nat, abs_path rest)
      else if decide (s = s_ "dev") then (2%nat, abs_path rest)
      else if decide (s = s_ "ram") then (3%nat, abs_path rest)
      else (0%nat, abs_path segs)
  | [] => (0%nat, abs_path [])
  end.

Lemma boot_resolve root segs :
  Forall valid_seg segs ->
  resolve (boot_table (D:=D) (C:=C) root) (abs_path segs) = Ok (boot_owner segs).
Proof.
  intros Hs. destruct segs as [|s rest]; [done|]. unfold resolve.
  rewrite starts_with_abs_path. cbn [negb boot_table mounts resolve_loop prefix].
  assert (valid_seg (s_ "tmp") /\ valid_seg (s_ "dev") /\ valid_seg (s_ "ram")) as (H1 & H2 & H3).
  { repeat split; by apply (bool_decide_unpack _); vm_compute. }
  change (s_ "/tmp") with ("/"%byte :: s_ "tmp"). change (s_ "/dev") with ("/"%byte :: s_ "dev").
  change (s_ "/ram") with ("/"%byte :: s_ "ram").
  rewrite !mount_matches_seg by done. unfold boot_owner.
  rewrite (decide_True (P := @nil byte = [])), !(decide_False (P := _ :: _ = [])) by done.
  repeat case_bool_decide; repeat case_decide; subst; try done; cbn [length Nat.ltb Nat.leb ok_or rbind prefix].
  all: rewrite ?(decide_True (P := @nil byte = [])), ?(decide_False (P := _ :: _ = [])) by done; try done.
  all: rewrite tail_seg; unfold abs_path.
  all: by destruct (decide (rest = [])) as [->|];
    [|rewrite decide_False by (by rewrite slashed_nil)].
Qed.

(** Boot-time routing, completely. With the table [mount_root] builds, an operation on a path
    below [/tmp], [/dev] or [/ram] runs on tmpfs, devfs or the read-only tree with that segment
    removed, and on any other path on the root backend with the path unchanged. *)
Theorem boot_routes {A} root segs (op : str -> M (Backend D C * W) FsError A) (w : W) :
  Forall valid_seg segs ->
  routed (abs_path segs) op (boot_table root, w) =
    at_mount (fst (boot_owner segs)) (op (snd (boot_owner segs))) (boot_table root, w).
Proof.
  intros Hs. unfold routed. rewrite boot_resolve by done. by destruct (boot_owner segs).
Qed.

(** What the root turns out to be on a drive, and the drive after the probe and the mount. *)
Definition root_found (init : M D BlockError unit) (d : D) (root : Backend D C) (d' : D) : Prop :=
  (exists e, init d = (Err e, d') /\ root = BRam seed) \/
  (exists d1 e, init d = (Ok tt, d1) /\ fat_mount d1 = (Err e, d') /\ root = BRam seed) \/
  (exists d1 fat, init d = (Ok tt, d1) /\ fat_mount d1 = (Ok fat, d') /\ root = BFat fat).

(** The boot sequence never fails on its own. Whatever the drive answers, as long as neither
    the probe nor the mount itself panics, [mount_root] returns the four-entry table; its root is
    the FAT volume exactly when both succeed, and the read-only seed tree otherwise; only the drive and
    the serial log change. *)
Theorem mount_root_outcome init (w : W) root d' :
  root_found init (drive w) root d' ->
  exists log, mount_root init w = (Ok (boot_table root), mkDevices d' log (fb_writer w) (timer_ticks w)) /\
    (is_Some log <-> is_Some (serial1 w)).
Proof.
  rewrite mount_root_boot. unfold root_backend, mcase, with_drive.
  intros [(e & -> & ->)|[(d1 & e & -> & Hm & ->)|(d1 & fat & -> & Hm & ->)]]; cbn [drive]; rewrite ?Hm;
    unfold bind, serial_print; cbn; destruct (serial1 w); eexists; (split; [reflexivity|]); by split; intros [].
Qed.

End root_theorems.

(** ** The stack below the root mount *)

Section stack.
Context {H C : Type} `{IS : IdeSpec H} `{CO : Console C}.
Abbreviation W := (Devices (AtaDrive H) C).

(** A path that the boot-time table leaves to the root mount. *)
Definition on_root (segs : list str) : bool := (fst (boot_owner segs) =? 0)%nat.

Lemma on_root_owner segs : on_root segs = true -> boot_owner segs = (0%nat, abs_path segs).
Proof.
  unfold on_root, boot_owner. destruct segs as [|s rest]; [done|]. by repeat case_decide.
Qed.

(** A FAT operation reached through the boot-time table. *)
Lemma root_fat_op {A} (m : FatFs -> str -> M (AtaDrive H) FsError A)
    (op : str -> M (Backend (AtaDrive H) C * W) FsError A) fs segs (w : W) r d' :
  (forall rel, op rel (BFat fs, w) = on_backend BFat (on_drive (fun f => m f rel)) fs w) ->
  Forall valid_seg segs -> on_root segs = true -> m fs (abs_path segs) (drive w) = (r, d') ->
  routed (abs_path segs) op (boot_table (BFat fs), w) =
    (r, (boot_table (BFat fs), mkDevices d' (serial1 w) (fb_writer w) (timer_ticks w))).
Proof.
  intros Hop Hs Hr Hm. unfold routed. rewrite boot_resolve, (on_root_owner _ Hr) by done.
  unfold at_mount. cbn [boot_table mounts lookup list_lookup Vfs.fs prefix].
  rewrite Hop. unfold on_backend, on_drive, with_drive. by rewrite Hm.
Qed.

(** With the boot-time table over a FAT volume that an ATA controller keeping its protocol holds,
    [Vfs::write_file] of an 8.3 name that no other mount owns succeeds, and [Vfs::read_file] of the
    same path then returns the data; the mount table and the other devices stay as they were. *)
Lemma stack_write_read (w : W) fs k segs pc pl anc name data ol :
  ata_holds (drive w) k -> geom fs (nblocks k) ->
  Forall valid_seg segs -> on_root (segs ++ [name]) = true -> dir_at fs k segs pc pl anc ->
  fat_name name -> old_file fs k pl anc name ol ->
  Z.of_nat (length data) < 2 ^ 32 -> (clusters_for fs data < length (free_data fs k))%nat ->
  exists d1 d2,
    vfs_write_file (abs_path (segs ++ [name])) data (boot_table (BFat fs), w) =
      (Ok tt, (boot_table (BFat fs), mkDevices d1 (serial1 w) (fb_writer w) (timer_ticks w))) /\
    vfs_read_file (abs_path (segs ++ [name]))
        (boot_table (BFat fs), mkDevices d1 (serial1 w) (fb_writer w) (timer_ticks w)) =
      (Ok data, (boot_table (BFat fs), mkDevices d2 (serial1 w) (fb_writer w) (timer_ticks w))).
Proof.
  intros HR G Hs Hon Hd (Hvn & Hp & Hfit) Ho Hlen Hroom. pose proof HR as (Hwf & _).
  destruct (fat_write_file_ok fs k segs pc pl anc name data ol)
    as (k' & head & fl & pl' & Hk' & HRp & Hh & Hdata & _); [done..|].
  destruct (sim_write_file (D:=AtaDrive H) (BS:=ata_spec) fs (abs_path (segs ++ [name])) data (drive w) k HR) as (d1 & Hd1 & HR1).
  rewrite Hk' in Hd1, HR1. simpl in HR1.
  destruct (sim_read_file (D:=AtaDrive H) (BS:=ata_spec) fs (abs_path (segs ++ [name])) d1 k' HR1) as (d2 & Hd2 & _).
  rewrite (written_reads fs k k' segs pc pl pl' anc name ol head fl data) in Hd2 by done. simpl in Hd2.
  assert (Forall valid_seg (segs ++ [name])) by (apply Forall_app; auto).
  exists d1, d2. split.
  - by apply (root_fat_op (fun f p => fat_write_file f p data)).
  - by apply (root_fat_op fat_read_file _ _ _ (mkDevices d1 (serial1 w) (fb_writer w) (timer_ticks w))).
Qed.

End stack.

(** ** The theorems of the VFS layer at the boot-time table *)

Module demo.

#[local] Instance quiet_console : Console unit := {
  con_write_str _ := ret tt; con_clear := ret tt; con_viewport_rows _ := 0%Z;
  con_scroll_up _ := ret tt; con_scroll_down _ := ret tt; con_scroll_end := ret tt;
}.

Definition devices : Devices Disk unit := mkDevices (mkDisk 0 ∅) (Some []) None 0.
Definition table : Vfs (Backend Disk unit) := boot_table (BRam seed).

(** tmpfs after writing one file. *)
Definition written : Backend Disk unit :=
  fst (snd (fs_write_file (s_ "/a") (s_ "x") (BTmp tmp_new, devices))).

Lemma boot_routes_witness :
  routed (s_ "/tmp/a") fs_read_file (table, devices) = (Err NotFound, (table, devices)).
Proof.
  etransitivity.
  - apply (boot_routes (D:=Disk) (C:=unit) (BRam seed) [s_ "tmp"; s_ "a"]).
    apply (bool_decide_unpack _). vm_compute. reflexivity.
  - vm_compute. reflexivity.
Defined.

Lemma resolve_longest_prefix_witness :
  exists m, mounts table !! 1%nat = Some m /\ owns (s_ "/tmp/a") (prefix m) /\
    s_ "/a" = rel_of (s_ "/tmp/a") (prefix m).
Proof.
  destruct (proj1 (resolve_longest_prefix table (s_ "/tmp/a") 1 (s_ "/a") (boot_table_wf _)))
    as (_ & m & Hi & Ho & Hr & _); [vm_compute; reflexivity|].
  exists m. auto.
Defined.

Lemma resolve_order_independent_witness :
  exists i2, resolve (mkVfs (reverse (mounts table))) (s_ "/dev/null") = Ok (i2, s_ "/null") /\
    mounts (mkVfs (reverse (mounts table))) !! i2 = mounts table !! 2%nat.
Proof.
  apply (resolve_order_independent table).
  - apply (boot_table_wf (D:=Disk) (C:=unit) (BRam seed)).
  - simpl. symmetry. apply reverse_Permutation.
  - vm_compute. reflexivity.
Defined.

Lemma vfs_reachable_wf_witness : vfs_wf table.
Proof.
  apply (vfs_reachable_wf (table, devices)). exists devices.
  eapply rtc_l. { eapply (step_mount (s_ "/") (BRam seed)). reflexivity. }
  eapply rtc_l. { eapply (step_mount (s_ "/tmp") (BTmp tmp_new)). reflexivity. }
  eapply rtc_l. { eapply (step_mount (s_ "/dev") (BDev dev_new)). reflexivity. }
  eapply rtc_l. { eapply (step_mount (s_ "/ram") (BRam seed)). reflexivity. }
  apply rtc_refl.
Defined.

Lemma mount_unmount_roundtrip_witness :
  vfs_unmount (s_ "/mnt/") (snd (vfs_mount (s_ "/mnt/") (BTmp tmp_new) table)) = (Ok tt, table).
Proof.
  apply (mount_unmount_roundtrip (s_ "/mnt/") (BTmp tmp_new)). reflexivity.
Defined.

Lemma list_dir_surfaces_mounts_witness :
  exists out, vfs_list_dir (s_ "/") (table, devices) = (Ok out, (table, devices)) /\
    s_ "dev" ∈ out.
Proof.
  destruct (list_dir_surfaces_mounts (s_ "/") table devices
    [s_ "bin"; s_ "etc"; s_ "proc"; s_ "welcome.txt"] (table, devices)) as (out & Ho & _ & _ & Hin).
  { vm_compute. reflexivity. }
  exists out. split; [done|]. apply Hin. right.
  split; apply (bool_decide_unpack _); vm_compute; reflexivity.
Defined.

Lemma mount_routes_witness :
  exists f', routed (s_ "/mnt/a") (fun rel => fs_write_file rel (s_ "x"))
      (snd (vfs_mount (s_ "/mnt") (BTmp tmp_new) table), devices)
    = (Ok tt, (mkVfs (mounts table ++ [mkMount (s_ "/mnt") f']), devices)).
Proof.
  exists written.
  apply (mount_routes (s_ "/mnt") (BTmp tmp_new) table _ (s_ "a")
    (fun rel => fs_write_file rel (s_ "x")) devices (Ok tt) written devices (boot_table_wf _));
    [reflexivity| |vm_compute; reflexivity].
  intros m Hm. cbn in Hm. rewrite !elem_of_cons in Hm. 
  destruct Hm as [->|[->|[->|[->|Hm]]]]; [simpl; lia|..]; try (by apply elem_of_nil in Hm).
  all: intros [Ho|[t Ho]]; vm_compute in Ho; discriminate.
Defined.

(** A four-block drive. *)
Definition with_disk : Devices Disk unit := mkDevices (mkDisk 4 ∅) (Some []) None 0.

Lemma disk0_write_read_witness :
  exists w1 w2,
    dev_write_at (s_ "/disk0") (2 * 512) (replicate 512 "w"%byte) (dev_new, with_disk)
      = (Ok 512%nat, (dev_new, w1)) /\
    dev_read_at (s_ "/disk0") (2 * 512) (zeros 512) (dev_new, w1)
      = (Ok (512%nat, replicate 512 "w"%byte), (dev_new, w2)).
Proof.
  destruct (disk0_write_read dev_new with_disk (mkDisk 4 ∅) 2 (replicate 512 "w"%byte) (zeros 512))
    as (w1 & w2 & H1 & H2 & _).
  - split; [done|]. intros lba. reflexivity.
  - discriminate.
  - reflexivity.
  - reflexivity.
  - lia.
  - vm_compute. discriminate.
  - exists w1, w2. exact (conj H1 H2).
Defined.

Lemma disk0_misaligned_witness :
  dev_write_at (s_ "/disk0") 100 (zeros 512) (dev_new, with_disk) = (Err Io, (dev_new, with_disk)).
Proof.
  apply (disk0_misaligned dev_new with_disk 100 (zeros 512)); [discriminate|reflexivity].
Defined.

(** The formatted image behind the reference controller. *)
Definition ata_image : AtaDrive model.Ide :=
  mkAta (model.mkIde (mkRegs 0 0 0 0 0) 0 Idle image.disk) 130 true.

Lemma ata_image_holds : ata_holds ata_image image.disk.
Proof.
  split; [exact image.wf|]. split; [vm_compute; discriminate|]. split; [reflexivity|]. by eexists.
Qed.

(** A session with a directory, case-insensitive names and refused operations. *)
Definition session : list fat_op :=
  [FCreateDir (s_ "/docs"); FWriteFile (s_ "/docs/a.txt") (s_ "hi"); FAppendFile (s_ "/DOCS/A.TXT") (s_ "!");
   FReadFile (s_ "/docs/a.txt"); FRemove (s_ "/docs"); FListDir (s_ "/docs"); FCreateDir (s_ "/docs/a.txt/b");
   FRemove (s_ "/docs/A.txt"); FRemove (s_ "/docs"); FIsDir (s_ "/docs")].

Definition session_answers : list (res FsError reply) :=
  [Ok RUnit; Ok RUnit; Ok RUnit; Ok (RBytes (s_ "hi!")); Err Io; Ok (RNames [s_ "a.txt"]); Err NotADir;
   Ok RUnit; Ok RUnit; Ok (RBool false)].

Lemma image_volume : vol image.fs image.disk {[ [] := VDir 2 [2] ]}.
Proof.
  apply (vol_empty image.fs image.disk [2] image.root). vm_compute. reflexivity.
Qed.

Lemma session_affordable :
  affordable image.fs session (meanings image.fs image.disk {[ [] := VDir 2 [2] ]})
    (length (free_data image.fs image.disk)).
Proof.
  rewrite meanings_empty. apply (affordable_mono _ _ _ 101); [exact image.space|].
  apply (bool_decide_unpack _). vm_compute. reflexivity.
Qed.

Lemma fat_refines_namespace_witness :
  exists rs d', run_ops (fat_exec image.fs) session ata_image = (rs, d') /\ Forall2 agrees rs session_answers.
Proof.
  destruct (fat_refines_namespace (D:=AtaDrive model.Ide) (BS:=ata_spec) image.fs session ata_image image.disk
    {[ [] := VDir 2 [2] ]} ata_image_holds image.geometry image.wf image_volume session_affordable)
    as (rs & d' & k' & V' & H1 & _ & _ & H2 & _).
  exists rs, d'. split; [exact H1|]. rewrite meanings_empty in H2.
  replace session_answers with (fst (run_ops fat_ns.exec session {[ [] := EDir ]})); [exact H2|].
  vm_compute. reflexivity.
Defined.

End demo.
