(* ===== verification/Memory.v ===== *)
(** * Physical frames and the kernel heap (src/kernel/src/memory.rs, allocator.rs)

    The frame allocator over the bootloader's memory map, and the mapping of the heap's pages. The page
    tables ([x86_64]'s [Mapper]) are a parameter with the documented effect of [map_to]. Addresses are
    [u64] integers. *)

From S2P Require Import Prelude.

Open Scope Z_scope.

Definition PAGE_SIZE : Z := 4096.

(** ** The memory map *)

Inductive MemoryRegionKind : Set :=
| Usable
| Reserved.

#[global] Instance MemoryRegionKind_eq_dec : EqDecision MemoryRegionKind.
Proof.
  solve_decision.
Defined.

(** The bootloader's [MemoryRegion]: the range from [r_start] up to [r_end]. *)
Record MemoryRegion : Type := mkRegion { r_start : Z; r_end : Z; r_kind : MemoryRegionKind }.

Record BootInfoFrameAllocator : Type := mkFrames { memory_regions : list MemoryRegion; next : Z }.

Definition frames_new (rs : list MemoryRegion) : BootInfoFrameAllocator := mkFrames rs 0.

(** [(start..end).step_by(4096)]. *)
Definition region_addrs (r : MemoryRegion) : list Z :=
  map (fun i => r_start r + PAGE_SIZE * i) (seqZ 0 ((r_end r - r_start r + PAGE_SIZE - 1) / PAGE_SIZE)).

Definition is_usable (r : MemoryRegion) : bool := bool_decide (r_kind r = Usable).

(** The addresses [usable_frames] walks, before they become frames. *)
Definition usable_addrs (rs : list MemoryRegion) : list Z :=
  concat (map region_addrs (List.filter is_usable rs)).

(** [PhysFrame::containing_address]: the start of the frame. *)
Definition frame_of (addr : Z) : Z := addr - addr mod PAGE_SIZE.

(** [PhysAddr::new] panics on an address of more than 52 bits. *)
Definition phys_ok (addr : Z) : bool := (0 <=? addr) && (addr <? 2 ^ 52).

(** [usable_frames().nth(self.next)]: the iterator makes a frame of every address it passes. *)
Definition allocate_frame {E} : M BootInfoFrameAllocator E (option Z) := fun a =>
  let addrs := usable_addrs (memory_regions a) in
  let passed := take (Z.to_nat (next a + 1)) addrs in
  if forallb phys_ok passed then
    (let* n := usize_add (next a) 1 in
     fun a => (Ok (frame_of <$> addrs !! Z.to_nat (next a)), mkFrames (memory_regions a) n)) a
  else (Panic, a).

(** ** The heap *)

Definition HEAP_START : Z := 0x444444440000.
Definition HEAP_SIZE : Z := 256 * 1024.

Inductive PageTableFlags : Set :=
| PRESENT
| WRITABLE.

Inductive MapToError : Set :=
| FrameAllocationFailed
| ParentEntryHugePage
| PageAlreadyMapped.

(** [Mapper::map_to] with the frame allocator it takes page tables from. *)
Class Mapper (P : Type) : Type :=
  map_to : Z -> Z -> list PageTableFlags -> M (P * BootInfoFrameAllocator) MapToError unit.

(** Its documented effect: on success the page is mapped as asked and no other mapping changes; frames
    for the at most three missing page tables come from the allocator. *)
Class MapperSpec (P : Type) `{Mapper P} : Type := {
  translate : P -> Z -> option (Z * list PageTableFlags);
  map_to_ok page frame flags p a r p' a' :
    map_to page frame flags (p, a) = (r, (p', a')) ->
    r <> Panic /\ r <> Diverge /\ memory_regions a' = memory_regions a /\ next a <= next a' <= next a + 3 /\
    (r = Ok tt -> translate p' page = Some (frame, flags) /\
       forall page', page' <> page -> translate p' page' = translate p page');
}.

Section heap.
Context {P : Type} `{MP : Mapper P}.

(** Page tables, frame allocator, and what [ALLOCATOR] was initialised with. *)
Record Mem : Type := mkMem { pages : P; frames : BootInfoFrameAllocator; heap : option (Z * Z) }.

(** [Page::range_inclusive] from the page of the heap's first byte to that of its last. *)
Definition heap_pages : list Z :=
  let first := frame_of HEAP_START in
  let last := frame_of (HEAP_START + (HEAP_SIZE - 1)) in
  map (fun i => first + PAGE_SIZE * i) (seqZ 0 ((last - first) / PAGE_SIZE + 1)).

(** The loop body of [init_heap]. *)
Definition map_page (page : Z) : M Mem MapToError unit := fun m =>
  match allocate_frame (frames m) with
  | (Ok (Some frame), a) =>
      let '(r, (p, a')) := map_to page frame [PRESENT; WRITABLE] (pages m, a) in
      (r, mkMem p a' (heap m))
  | (Ok None, a) => (Err FrameAllocationFailed, mkMem (pages m) a (heap m))
  | (Err e, a) => (Err e, mkMem (pages m) a (heap m))
  | (Panic, a) => (Panic, mkMem (pages m) a (heap m))
  | (Diverge, a) => (Diverge, mkMem (pages m) a (heap m))
  end.

Definition init_heap : M Mem MapToError unit :=
  for_each heap_pages map_page ;;;
  fun m => (Ok tt, mkMem (pages m) (frames m) (Some (HEAP_START, HEAP_SIZE))).

End heap.
Arguments Mem : clear implicits.

(** ** Distinct frames *)

(** The two ranges do not meet. *)
Definition disjoint (r1 r2 : MemoryRegion) : Prop := r_end r1 <= r_start r2 \/ r_end r2 <= r_start r1.

(** What the bootloader guarantees: usable regions start at a page boundary, lie in physical memory and
    do not overlap. *)
Definition regions_ok (rs : list MemoryRegion) : Prop :=
  Forall (fun r => 0 <= r_start r /\ r_start r mod PAGE_SIZE = 0 /\ r_end r <= 2 ^ 52) (List.filter is_usable rs) /\
  ForallOrdPairs disjoint (List.filter is_usable rs).

Lemma region_addrs_elem r a :
  a ∈ region_addrs r -> r_start r <= a < r_end r /\ exists i, a = r_start r + PAGE_SIZE * i.
Proof.
  unfold region_addrs. intros (i & -> & Hi)%list_elem_of_fmap. apply elem_of_seqZ in Hi.
  unfold PAGE_SIZE in *. split; [|by exists i].
  assert (i + 1 <= (r_end r - r_start r + 4096 - 1) / 4096) as Hd by lia.
  pose proof (Z.mul_div_le (r_end r - r_start r + 4096 - 1) 4096 ltac:(lia)). lia.
Qed.

Lemma region_addrs_nodup r : NoDup (region_addrs r).
Proof.
  apply NoDup_fmap_2; [|apply NoDup_seqZ]. intros i j. unfold PAGE_SIZE. lia.
Qed.

Lemma concat_addrs_nodup rs : ForallOrdPairs disjoint rs -> NoDup (concat (map region_addrs rs)).
Proof.
  induction 1 as [|r rs Hr _ IH]; [constructor|]. cbn [map concat]. apply NoDup_app.
  split; [apply region_addrs_nodup|]. split; [|done].
  intros a Ha Hin. apply region_addrs_elem in Ha as [Ha _].
  apply list_elem_of_In, in_concat in Hin as (l & Hl & Hin). apply in_map_iff in Hl as (r' & <- & Hr').
  apply list_elem_of_In, region_addrs_elem in Hin as [Hin _].
  apply List.Forall_forall with (x := r') in Hr; [|done]. unfold disjoint in Hr. lia.
Qed.

(** Where a frame comes from. *)
Lemma usable_addrs_elem rs a :
  regions_ok rs -> a ∈ usable_addrs rs ->
  phys_ok a = true /\ frame_of a = a /\
  exists r, r ∈ rs /\ r_kind r = Usable /\ r_start r <= a < r_end r /\ (r_end r mod PAGE_SIZE = 0 -> a + PAGE_SIZE <= r_end r).
Proof.
  intros [Hf _] Ha. unfold usable_addrs in Ha.
  apply list_elem_of_In, in_concat in Ha as (l & Hl & Ha). apply in_map_iff in Hl as (r & <- & Hr).
  apply list_elem_of_In, region_addrs_elem in Ha as (Hb & i & Hi).
  apply List.Forall_forall with (x := r) in Hf; [|done]. destruct Hf as (H1 & H2 & H3).
  apply filter_In in Hr as [Hr Hu]. unfold is_usable in Hu. apply bool_decide_eq_true in Hu.
  assert (a mod PAGE_SIZE = 0) as Hm.
  { subst a. unfold PAGE_SIZE in *. rewrite Z.mul_comm, Z.mod_add; [done|lia]. }
  split; [unfold phys_ok; lia|]. split; [unfold frame_of; lia|].
  exists r. split; [by apply list_elem_of_In|]. split; [done|]. split; [done|]. intros He.
  unfold PAGE_SIZE in *. apply Z.mod_divide in He as [x Hx]; [|lia]. apply Z.mod_divide in Hm as [y Hy]; [|lia]. lia.
Qed.

Lemma allocate_frame_ok {E} a :
  regions_ok (memory_regions a) -> 0 <= next a < USIZE_MAX ->
  allocate_frame (E:=E) a =
    (Ok (usable_addrs (memory_regions a) !! Z.to_nat (next a)), mkFrames (memory_regions a) (next a + 1)).
Proof.
  intros Hr Hn. unfold allocate_frame.
  assert (forall x, x ∈ usable_addrs (memory_regions a) -> phys_ok x = true /\ frame_of x = x) as Hx
    by (intros x (? & ? & _)%(usable_addrs_elem _ _ Hr); done).
  rewrite (proj2 (forallb_forall _ _)).
  2:{ intros x Hin. apply Hx. apply list_elem_of_In in Hin. by eapply elem_of_take in Hin as (? & ? & ?); eapply list_elem_of_lookup_2. }
  erewrite bind_ok by (apply usize_checked_ok; lia).
  destruct (_ !! _) as [x|] eqn:Hl; [|done]. simpl. destruct (Hx x) as [_ ->]; [|done].
  by eapply list_elem_of_lookup_2.
Qed.

(** A page-aligned address inside a usable region. *)
Definition usable_frame (rs : list MemoryRegion) (f : Z) : Prop :=
  f mod PAGE_SIZE = 0 /\ exists r, r ∈ rs /\ r_kind r = Usable /\ r_start r <= f < r_end r.

(** The walk passes all of them. *)
Lemma region_addrs_all r a :
  r_start r mod PAGE_SIZE = 0 -> a mod PAGE_SIZE = 0 -> r_start r <= a < r_end r -> a ∈ region_addrs r.
Proof.
  unfold PAGE_SIZE. intros Hs Ha Hb. apply Z.mod_divide in Hs as [x Hx]; [|lia]. apply Z.mod_divide in Ha as [y Hy]; [|lia].
  apply list_elem_of_fmap. exists (y - x). unfold PAGE_SIZE. split; [lia|]. apply elem_of_seqZ. split; [lia|].
  assert (y - x + 1 <= (r_end r - r_start r + 4096 - 1) / 4096); [|lia].
  apply Z.div_le_lower_bound; lia.
Qed.

Lemma usable_addrs_iff rs a : regions_ok rs -> a ∈ usable_addrs rs <-> usable_frame rs a.
Proof.
  intros Hr. split.
  - intros Ha. destruct (usable_addrs_elem rs a Hr Ha) as (_ & H2 & r & H3 & H4 & H5 & _).
    split; [unfold frame_of in H2; lia|by exists r].
  - intros (Hm & r & Hin & Hu & Hb). destruct Hr as [Hf _].
    assert (In r (List.filter is_usable rs)) as Hin'.
    { apply filter_In. split; [by apply list_elem_of_In|]. by apply bool_decide_eq_true. }
    apply List.Forall_forall with (x := r) in Hf as (_ & Hs & _); [|done].
    apply list_elem_of_In, in_concat. exists (region_addrs r). split; [by apply in_map|].
    by apply list_elem_of_In, region_addrs_all.
Qed.

Lemma allocations_ok rs n :
  regions_ok rs -> Z.of_nat n <= USIZE_MAX ->
  run_ops (fun _ : unit => allocate_frame (E:=Empty_set)) (replicate n tt) (frames_new rs) =
    (map (fun i => Ok (usable_addrs rs !! i)) (seq 0 n), mkFrames rs (Z.of_nat n)).
Proof.
  intros Hr Hn. enough (forall i, Z.of_nat (i + n) <= USIZE_MAX ->
    run_ops (fun _ : unit => allocate_frame (E:=Empty_set)) (replicate n tt) (mkFrames rs (Z.of_nat i)) =
    (map (fun i => Ok (usable_addrs rs !! i)) (seq i n), mkFrames rs (Z.of_nat (i + n)))) as Hgo
    by (by apply (Hgo 0%nat)).
  clear Hn. induction n as [|n IH]; intros i Hi; cbn [replicate run_ops seq map]; [by rewrite Nat.add_0_r|].
  rewrite allocate_frame_ok by (cbn [next memory_regions]; first [done|lia]). cbn [memory_regions next].
  replace (Z.of_nat i + 1) with (Z.of_nat (S i)) by lia. rewrite IH by lia.
  rewrite Nat2Z.id. by replace (S i + n)%nat with (i + S n)%nat by lia.
Qed.

(** C28: every usable frame is handed out, and handed out once. Over a memory map whose usable regions
    start at a page boundary and do not overlap, the frames that allocations return, one after the
    other until there are none left, are exactly the page-aligned addresses inside usable regions,
    each once. *)
Theorem frames_handed_out_once rs :
  regions_ok rs ->
  exists frames : list Z, NoDup frames /\ (forall f, f ∈ frames <-> usable_frame rs f) /\
    forall n, Z.of_nat n <= USIZE_MAX ->
      run_ops (fun _ : unit => allocate_frame (E:=Empty_set)) (replicate n tt) (frames_new rs) =
        (map (fun i => Ok (frames !! i)) (seq 0 n), mkFrames rs (Z.of_nat n)).
Proof.
  intros Hr. exists (usable_addrs rs). split; [apply concat_addrs_nodup, Hr|].
  split; [intros f; by apply usable_addrs_iff|]. intros n Hn. by apply allocations_ok.
Qed.

(** ** The heap mapping *)

Section heap_mapping.
Context {P : Type} `{MP : Mapper P} `{MS : !MapperSpec P}.

(** The pages are mapped, writable, to the frames [fs]. *)
Definition mapped (p : P) (ps fs : list Z) : Prop :=
  Forall2 (fun page f => translate p page = Some (f, [PRESENT; WRITABLE])) ps fs.

(** Frames taken between two states of the allocator. *)
Definition taken (rs : list MemoryRegion) (lo hi : Z) (f : Z) : Prop :=
  exists j, lo <= Z.of_nat j < hi /\ usable_addrs rs !! j = Some f.

Lemma map_page_ok page m :
  regions_ok (memory_regions (frames m)) -> 0 <= next (frames m) < USIZE_MAX ->
  exists r m', map_page page m = (r, m') /\ good (fun _ => True) r /\ heap m' = heap m /\
    memory_regions (frames m') = memory_regions (frames m) /\
    next (frames m) + 1 <= next (frames m') <= next (frames m) + 4 /\
    (r = Ok tt -> exists f, usable_addrs (memory_regions (frames m)) !! Z.to_nat (next (frames m)) = Some f /\
       translate (pages m') page = Some (f, [PRESENT; WRITABLE]) /\
       forall page', page' <> page -> translate (pages m') page' = translate (pages m) page').
Proof.
  intros Hr Hn. unfold map_page. rewrite allocate_frame_ok by done.
  destruct (usable_addrs _ !! _) as [f|] eqn:Hf.
  - destruct (map_to page f [PRESENT; WRITABLE] _) as [r [p a]] eqn:Hm.
    pose proof (map_to_ok _ _ _ _ _ _ _ _ Hm) as (Hp & Hd & Hreg & Hnx & Hok). cbn [memory_regions next] in *.
    eexists _, _. split; [done|]. split; [by destruct r|]. split; [done|]. cbn. split; [done|]. split; [lia|].
    intros Hr'. exists f. split; [done|]. by apply Hok.
  - eexists _, _. split; [done|]. cbn. split; [done|]. split; [done|]. split; [done|]. split; [lia|done].
Qed.

Lemma map_pages_ok ps m :
  NoDup ps -> regions_ok (memory_regions (frames m)) ->
  0 <= next (frames m) -> next (frames m) + 4 * Z.of_nat (length ps) <= USIZE_MAX ->
  exists r m', for_each ps map_page m = (r, m') /\ good (fun _ => True) r /\ heap m' = heap m /\
    (r = Ok tt -> next (frames m) <= next (frames m') /\
       (forall page, (page ∉ ps) -> translate (pages m') page = translate (pages m) page) /\
       exists fs, mapped (pages m') ps fs /\ NoDup fs /\
         Forall (taken (memory_regions (frames m)) (next (frames m)) (next (frames m'))) fs).
Proof.
  intros Hps. revert m. induction Hps as [|page ps Hpage Hps IH]; intros m Hr Hn Hb; cbn [for_each length] in *.
  { exists (Ok tt), m. do 3 (split; [done|]). intros _. split; [done|]. split; [done|].
    exists []. repeat split; constructor. }
  destruct (map_page_ok page m Hr) as (r1 & m1 & E1 & G1 & H1 & R1 & N1 & O1); [lia|].
  destruct r1 as [[]|e| |]; try done; cycle 1.
  { exists (Err e), m1. split; [by apply bind_err|]. by repeat split. }
  destruct (O1 eq_refl) as (f & Hf & Ht & Hfr).
  destruct (IH m1) as (r2 & m2 & E2 & G2 & H2 & O2); [by rewrite R1|lia|lia|].
  exists r2, m2. split; [by rewrite (bind_ok _ _ _ _ _ E1)|]. split; [done|]. split; [congruence|].
  intros ->. destruct (O2 eq_refl) as (N2 & F2 & fs & M2 & D2 & T2). rewrite R1 in T2. split; [lia|]. split.
  - intros page' Hp. apply not_elem_of_cons in Hp as [Hp1 Hp2]. rewrite F2 by done. by apply Hfr.
  - exists (f :: fs). split; [|split].
    + constructor; [|done]. by rewrite F2.
    + constructor; [|done]. intros Hin%list_elem_of_In. apply (proj1 (List.Forall_forall _ _) T2) in Hin as (j & Hj & Hl).
      assert (Z.to_nat (next (frames m)) = j); [|lia].
      eapply NoDup_lookup; [apply concat_addrs_nodup, (proj2 Hr)|exact Hf|exact Hl].
    + constructor.
      * exists (Z.to_nat (next (frames m))). split; [lia|done].
      * eapply Forall_impl; [done|]. intros f' (j & Hj & Hl). exists j. split; [lia|done].
Qed.

Lemma init_heap_good m :
  regions_ok (memory_regions (frames m)) -> 0 <= next (frames m) < 2 ^ 32 -> good (fun _ => True) (fst (init_heap m)).
Proof.
  intros Hr Hn. assert (NoDup heap_pages) as Hnd by (apply (bool_decide_unpack _); vm_compute; reflexivity).
  assert (length heap_pages = 64%nat) as Hlen by (vm_compute; reflexivity).
  destruct (map_pages_ok heap_pages m Hnd Hr) as (r & m' & E & Gd & _); [lia|rewrite Hlen; unfold USIZE_MAX; lia|].
  unfold init_heap. destruct r as [[]|e| |]; try done.
  - by rewrite (bind_ok _ _ _ _ _ E).
  - by rewrite (bind_err _ _ _ _ _ E).
Qed.

(** C17: the heap is backed page by page. On a sound memory map [init_heap] returns normally; when it
    succeeds, all 64 pages of the heap range are mapped present and writable, each to a frame of its
    own out of usable memory, no mapping outside the heap has changed, and only then is the allocator
    given the range; when it fails, the allocator stays as it was. *)
Theorem heap_is_backed m :
  regions_ok (memory_regions (frames m)) -> 0 <= next (frames m) < 2 ^ 32 ->
  exists r m', init_heap m = (r, m') /\ good (fun _ => True) r /\
    (r = Ok tt -> heap m' = Some (HEAP_START, HEAP_SIZE) /\
       (forall page, (page ∉ heap_pages) -> translate (pages m') page = translate (pages m) page) /\
       exists fs, mapped (pages m') heap_pages fs /\ NoDup fs /\ length fs = 64%nat /\
         Forall (fun f => f ∈ usable_addrs (memory_regions (frames m))) fs) /\
    (r <> Ok tt -> heap m' = heap m).
Proof.
  intros Hr Hn.
  assert (NoDup heap_pages) as Hnd by (apply (bool_decide_unpack _); vm_compute; reflexivity).
  assert (length heap_pages = 64%nat) as Hlen by (vm_compute; reflexivity).
  destruct (map_pages_ok heap_pages m Hnd Hr) as (r & m' & E & G & Hh & O); [lia|rewrite Hlen; unfold USIZE_MAX; lia|].
  unfold init_heap. destruct r as [[]|e| |]; try done.
  - rewrite (bind_ok _ _ _ _ _ E). destruct (O eq_refl) as (_ & F & fs & M & D & T).
    eexists _, _. split; [done|]. split; [done|]. split; [|done]. intros _. cbn. split; [done|]. split; [done|].
    exists fs. split; [done|]. split; [done|]. split; [by rewrite <- (Forall2_length _ _ _ M)|].
    eapply Forall_impl; [done|]. intros f (j & _ & Hl). by eapply list_elem_of_lookup_2.
  - eexists _, _. split; [by apply bind_err|]. split; [done|]. split; [done|]. by intros _.
Qed.

End heap_mapping.

(** ** A memory map *)

Module map_example.

(** Page tables as a function from pages, with no tables to allocate. *)
#[local] Instance flat_mapper : Mapper (gmap Z (Z * list PageTableFlags)) := fun page frame flags '(p, a) =>
  match p !! page with
  | Some _ => (Err PageAlreadyMapped, (p, a))
  | None => (Ok tt, (<[page := (frame, flags)]> p, a))
  end.

#[local] Program Instance flat_mapper_spec : MapperSpec (gmap Z (Z * list PageTableFlags)) := {
  translate p page := p !! page;
}.
Next Obligation.
  intros page frame flags p a r p' a'. unfold map_to, flat_mapper.
  destruct (p !! page) eqn:E; intros [= <- <- <-]; repeat split; try done; try lia.
  - by rewrite lookup_insert_eq.
  - intros page' Hne. by rewrite lookup_insert_ne.
Qed.

(** Two usable regions around a reserved one. *)
Definition ram_map : list MemoryRegion :=
  [mkRegion 0 0x9000 Usable; mkRegion 0x9000 0x100000 Reserved; mkRegion 0x100000 0x180000 Usable].

Lemma ram_map_ok : regions_ok ram_map.
Proof.
  split.
  - repeat constructor; vm_compute; discriminate.
  - repeat constructor. vm_compute. discriminate.
Qed.

Lemma frames_handed_out_once_witness :
  exists frames : list Z, (0x8000 ∈ frames) /\ (0x9000 ∉ frames) /\
    run_ops (fun _ : unit => allocate_frame (E:=Empty_set)) [tt; tt] (frames_new ram_map) =
      ([Ok (frames !! 0%nat); Ok (frames !! 1%nat)], mkFrames ram_map 2).
Proof.
  destruct (frames_handed_out_once ram_map ram_map_ok) as (frames & _ & Hin & Hrun). exists frames. split; [|split].
  - apply Hin. split; [reflexivity|]. exists (mkRegion 0 0x9000 Usable). split; [by left|]. split; [reflexivity|]. cbn. lia.
  - intros (_ & r & Hr & Hu & Hb)%Hin. unfold ram_map in Hr. rewrite !elem_of_cons in Hr.
    destruct Hr as [->|[->|[->|Hr%elem_of_nil]]]; cbn in *; first [lia|discriminate|done].
  - apply (Hrun 2%nat). vm_compute. discriminate.
Defined.

Definition fresh_mem : Mem (gmap Z (Z * list PageTableFlags)) := mkMem ∅ (frames_new ram_map) None.

Lemma heap_is_backed_witness :
  exists r m', init_heap fresh_mem = (r, m') /\ good (fun _ => True) r /\
    (r = Ok tt -> heap m' = Some (HEAP_START, HEAP_SIZE)).
Proof.
  destruct (heap_is_backed fresh_mem ram_map_ok) as (r & m' & E & G & O & _).
  - vm_compute. split; [discriminate|reflexivity].
  - exists r, m'. split; [exact E|]. split; [exact G|]. intros Hr. apply (O Hr).
Defined.

End map_example.
