(* ===== verification/Gdt.v ===== *)
(** * Segments and the task state segment (src/kernel/src/gdt.rs)

    The selectors [GDT] hands out, the TSS, and the loading of the segment registers. The descriptor
    table itself is the [x86_64] crate's: [append] is a parameter with its documented law. *)

From S2P Require Import Prelude.

Open Scope Z_scope.

Definition DOUBLE_FAULT_IST_INDEX : Z := 0.
Definition KERNEL_RSP0_STACK_SIZE : Z := 4096 * 5.
Definition STACK_SIZE : Z := 4096 * 5.

(** ** The TSS *)

Record TaskStateSegment : Type := mkTss {
  interrupt_stack_table : list Z;
  privilege_stack_table : list Z;
}.

(** [TaskStateSegment::new]: seven interrupt stacks and three privilege stacks, all null. *)
Definition tss_new : TaskStateSegment := mkTss (replicate 7 0) (replicate 3 0).

(** [TSS], given where the two stacks were placed. *)
Definition TSS (ist_stack rsp0_stack : Z) : TaskStateSegment :=
  let tss := tss_new in
  mkTss (<[Z.to_nat DOUBLE_FAULT_IST_INDEX := ist_stack + STACK_SIZE]> (interrupt_stack_table tss))
        (<[0%nat := rsp0_stack + KERNEL_RSP0_STACK_SIZE]> (privilege_stack_table tss)).

Definition set_kernel_stack (rsp : Z) (tss : TaskStateSegment) : TaskStateSegment :=
  mkTss (interrupt_stack_table tss) (<[0%nat := rsp]> (privilege_stack_table tss)).

(** ** The descriptor table *)

Inductive Descriptor : Type :=
| KernelCode
| KernelData
| UserCode32
| UserData
| UserCode64
| TssSegment (tss : TaskStateSegment).

(** Descriptor privilege level, and eight-byte slots taken. *)
Definition dpl (d : Descriptor) : Z :=
  match d with UserCode32 | UserData | UserCode64 => 3 | _ => 0 end.
Definition slots (d : Descriptor) : Z := match d with TssSegment _ => 2 | _ => 1 end.

(** [GlobalDescriptorTable::new] and [append], which returns the new descriptor's selector. *)
Class GdtOps (G : Type) : Type := {
  gdt_new : G;
  gdt_append : Descriptor -> G -> Z * G;
}.

(** The crate's documentation: the table starts with the null descriptor, a descriptor goes to the next
    free slots, and its selector is eight times its index with its privilege level as the requested one. *)
Class GdtSpec (G : Type) `{GdtOps G} : Type := {
  gdt_len : G -> Z;
  gdt_get : G -> Z -> option Descriptor;
  gdt_new_len : gdt_len gdt_new = 1;
  gdt_append_ok d g :
    gdt_len g + slots d <= 8 ->
    fst (gdt_append d g) = 8 * gdt_len g + dpl d /\
    gdt_len (snd (gdt_append d g)) = gdt_len g + slots d /\
    gdt_get (snd (gdt_append d g)) (gdt_len g) = Some d /\
    forall i, 0 <= i < gdt_len g -> gdt_get (snd (gdt_append d g)) i = gdt_get g i;
}.

Record Selectors : Type := mkSelectors {
  code_selector : Z;
  data_selector : Z;
  user_code_32_selector : Z;
  user_data_selector : Z;
  user_code_selector : Z;
  tss_selector : Z;
}.

(** The segment registers and the task register. *)
Record SegRegs : Type := mkSegs { CS : Z; SS : Z; DS : Z; ES : Z; FS : Z; GS : Z; TR : Z }.

Section gdt.
Context {G : Type} `{GO : GdtOps G}.

Definition GDT (tss : TaskStateSegment) : G * Selectors :=
  let gdt := gdt_new in
  let '(code_selector, gdt) := gdt_append KernelCode gdt in
  let '(data_selector, gdt) := gdt_append KernelData gdt in
  let '(user_code_32_selector, gdt) := gdt_append UserCode32 gdt in
  let '(user_data_selector, gdt) := gdt_append UserData gdt in
  let '(user_code_selector, gdt) := gdt_append UserCode64 gdt in
  let '(tss_selector, gdt) := gdt_append (TssSegment tss) gdt in
  (gdt, mkSelectors code_selector data_selector user_code_32_selector user_data_selector
                    user_code_selector tss_selector).

(** The table the CPU looks selectors up in, and its registers. *)
Record Cpu : Type := mkCpu { GDTR : option G; regs : SegRegs }.

(** [GDT.0.load()], [CS::set_reg] and its siblings, [load_tss]. *)
Definition lgdt (g : G) (c : Cpu) : Cpu := mkCpu (Some g) (regs c).
Definition set_cs (v : Z) (c : Cpu) : Cpu :=
  let r := regs c in mkCpu (GDTR c) (mkSegs v (SS r) (DS r) (ES r) (FS r) (GS r) (TR r)).
Definition set_ss (v : Z) (c : Cpu) : Cpu :=
  let r := regs c in mkCpu (GDTR c) (mkSegs (CS r) v (DS r) (ES r) (FS r) (GS r) (TR r)).
Definition set_ds (v : Z) (c : Cpu) : Cpu :=
  let r := regs c in mkCpu (GDTR c) (mkSegs (CS r) (SS r) v (ES r) (FS r) (GS r) (TR r)).
Definition set_es (v : Z) (c : Cpu) : Cpu :=
  let r := regs c in mkCpu (GDTR c) (mkSegs (CS r) (SS r) (DS r) v (FS r) (GS r) (TR r)).
Definition set_fs (v : Z) (c : Cpu) : Cpu :=
  let r := regs c in mkCpu (GDTR c) (mkSegs (CS r) (SS r) (DS r) (ES r) v (GS r) (TR r)).
Definition set_gs (v : Z) (c : Cpu) : Cpu :=
  let r := regs c in mkCpu (GDTR c) (mkSegs (CS r) (SS r) (DS r) (ES r) (FS r) v (TR r)).
Definition load_tss (v : Z) (c : Cpu) : Cpu :=
  let r := regs c in mkCpu (GDTR c) (mkSegs (CS r) (SS r) (DS r) (ES r) (FS r) (GS r) v).

(** [gdt::init]. *)
Definition gdt_init (tss : TaskStateSegment) (c : Cpu) : Cpu :=
  let '(gdt, s) := GDT tss in
  let c := lgdt gdt c in
  let c := set_cs (code_selector s) c in
  let c := set_ss (data_selector s) c in
  let c := set_ds (data_selector s) c in
  let c := set_es (data_selector s) c in
  let c := set_fs (data_selector s) c in
  let c := set_gs (data_selector s) c in
  load_tss (tss_selector s) c.

End gdt.

(** ** Layout *)

(** The selectors SYSCALL and SYSRET compute from the two halves of the STAR register. *)
Definition syscall_cs (star_kernel : Z) : Z := star_kernel.
Definition syscall_ss (star_kernel : Z) : Z := star_kernel + 8.
Definition sysret_cs (star_user : Z) : Z := Z.lor (star_user + 16) 3.
Definition sysret_ss (star_user : Z) : Z := Z.lor (star_user + 8) 3.

Section layout.
Context {G : Type} `{GO : GdtOps G} `{GSP : !GdtSpec G}.

(** The six descriptors sit in slots one to seven, with selectors made from them. *)
Lemma gdt_layout tss :
  snd (GDT (G:=G) tss) = mkSelectors 0x08 0x10 0x1B 0x23 0x2B 0x30 /\
  map (gdt_get (fst (GDT (G:=G) tss))) [1; 2; 3; 4; 5; 6] =
    map Some [KernelCode; KernelData; UserCode32; UserData; UserCode64; TssSegment tss].
Proof.
  unfold GDT. pose proof gdt_new_len as L0.
  destruct (gdt_append_ok KernelCode gdt_new) as (S1 & L1 & G1 & F1); [rewrite L0; simpl; lia|].
  destruct (gdt_append KernelCode gdt_new) as [s1 g1]. cbn [fst snd] in *.
  destruct (gdt_append_ok KernelData g1) as (S2 & L2 & G2 & F2); [rewrite L1, L0; simpl; lia|].
  destruct (gdt_append KernelData g1) as [s2 g2]. cbn [fst snd] in *.
  destruct (gdt_append_ok UserCode32 g2) as (S3 & L3 & G3 & F3); [rewrite L2, L1, L0; simpl; lia|].
  destruct (gdt_append UserCode32 g2) as [s3 g3]. cbn [fst snd] in *.
  destruct (gdt_append_ok UserData g3) as (S4 & L4 & G4 & F4); [rewrite L3, L2, L1, L0; simpl; lia|].
  destruct (gdt_append UserData g3) as [s4 g4]. cbn [fst snd] in *.
  destruct (gdt_append_ok UserCode64 g4) as (S5 & L5 & G5 & F5); [rewrite L4, L3, L2, L1, L0; simpl; lia|].
  destruct (gdt_append UserCode64 g4) as [s5 g5]. cbn [fst snd] in *.
  destruct (gdt_append_ok (TssSegment tss) g5) as (S6 & L6 & G6 & F6); [rewrite L5, L4, L3, L2, L1, L0; simpl; lia|].
  destruct (gdt_append (TssSegment tss) g5) as [s6 g6]. cbn [fst snd slots dpl] in *.
  assert (gdt_len g1 = 2 /\ gdt_len g2 = 3 /\ gdt_len g3 = 4 /\ gdt_len g4 = 5 /\ gdt_len g5 = 6)
    as (E1 & E2 & E3 & E4 & E5) by lia.
  rewrite L0 in S1, G1. rewrite E1 in S2, G2, F2. rewrite E2 in S3, G3, F3.
  rewrite E3 in S4, G4, F4. rewrite E4 in S5, G5, F5. rewrite E5 in S6, G6, F6.
  split; [by subst|]. cbn [map].
  rewrite G6, !F6 by lia. rewrite G5, !F5 by lia. rewrite G4, !F4 by lia. rewrite G3, !F3 by lia.
  by rewrite G2, !F2, G1 by lia.
Qed.

(** What a selector names in the loaded table. *)
Definition named (c : Cpu (G:=G)) (sel : Z) : option Descriptor := g ← GDTR c; gdt_get g (sel / 8).

(** C29: the descriptor order fits SYSCALL and SYSRET. With the STAR register loaded with the kernel code
    selector and the 32-bit user code selector, SYSCALL enters with exactly the kernel's code and stack
    selectors and SYSRET leaves with exactly the user's; the six selectors name, in the table [init]
    loads, the descriptors they are called after; and [init] leaves the code register naming the kernel's
    code segment, every data register, stack included, naming its data segment, and the task register
    naming the TSS, whatever the bootloader had left in them. *)
Theorem selectors_fit_syscall tss c :
  let s := snd (GDT (G:=G) tss) in let c' := gdt_init (G:=G) tss c in
  syscall_cs (code_selector s) = code_selector s /\ syscall_ss (code_selector s) = data_selector s /\
  sysret_cs (user_code_32_selector s) = user_code_selector s /\
  sysret_ss (user_code_32_selector s) = user_data_selector s /\
  map (named c') [code_selector s; data_selector s; user_code_32_selector s; user_data_selector s;
                  user_code_selector s; tss_selector s] =
    map Some [KernelCode; KernelData; UserCode32; UserData; UserCode64; TssSegment tss] /\
  map (named c') [CS (regs c'); SS (regs c'); DS (regs c'); ES (regs c'); FS (regs c'); GS (regs c'); TR (regs c')] =
    map Some [KernelCode; KernelData; KernelData; KernelData; KernelData; KernelData; TssSegment tss].
Proof.
  destruct (gdt_layout tss) as [Hs Hg]. unfold gdt_init, named. cbv zeta.
  destruct (GDT tss) as [g s]. cbn [fst snd] in *. subst s. cbn in *.
  do 4 (split; [done|]). split; [exact Hg|]. injection Hg as E1 E2 _ _ _ E6.
  repeat (apply f_equal2; [first [exact E1|exact E2|exact E6]|]). reflexivity.
Qed.

End layout.

(** The double-fault stack and the ring-0 stack are set up to their tops, and replacing the ring-0 stack
    leaves the double-fault stack alone. *)
Lemma set_kernel_stack_keeps_ist rsp i r :
  privilege_stack_table (set_kernel_stack rsp (TSS i r)) !! 0%nat = Some rsp /\
  interrupt_stack_table (set_kernel_stack rsp (TSS i r)) !! Z.to_nat DOUBLE_FAULT_IST_INDEX = Some (i + STACK_SIZE) /\
  privilege_stack_table (TSS i r) !! 0%nat = Some (r + KERNEL_RSP0_STACK_SIZE).
Proof.
  done.
Qed.

(** ** A list of slots *)

Module slot_list.

(** The slots of the table; a TSS fills two. *)
#[local] Instance list_gdt : GdtOps (list (option Descriptor)) := {
  gdt_new := [None];
  gdt_append d g :=
    (8 * Z.of_nat (length g) + dpl d, g ++ Some d :: match d with TssSegment _ => [None] | _ => [] end);
}.

#[local] Program Instance list_gdt_spec : GdtSpec (list (option Descriptor)) := {
  gdt_len g := Z.of_nat (length g);
  gdt_get g i := mjoin (g !! Z.to_nat i);
}.
Next Obligation.
  done.
Qed.
Next Obligation.
  intros d g _. cbn. split; [done|]. split; [|split].
  - rewrite length_app. destruct d; simpl; lia.
  - by rewrite Nat2Z.id, list_lookup_middle.
  - intros i Hi. by rewrite lookup_app_l by lia.
Qed.

(** What the bootloader may leave: no table of ours, and 0x10 everywhere. *)
Definition boot_cpu : Cpu (G:=list (option Descriptor)) := mkCpu None (mkSegs 8 16 16 16 16 16 0).

Lemma selectors_fit_syscall_witness :
  sysret_cs (user_code_32_selector (snd (GDT (G:=list (option Descriptor)) tss_new))) = 0x2B /\
  regs (gdt_init tss_new boot_cpu) = mkSegs 0x08 0x10 0x10 0x10 0x10 0x10 0x30 /\
  named (gdt_init tss_new boot_cpu) 0x2B = Some UserCode64.
Proof.
  destruct (selectors_fit_syscall tss_new boot_cpu) as (_ & _ & H1 & _ & H2 & _).
  split; [exact H1|]. split; [reflexivity|]. exact (f_equal (fun l => mjoin (l !! 4%nat)) H2).
Defined.

End slot_list.
