(* ===== verification/Keyboard.v ===== *)
(** * The keyboard (src/kernel/src/task/keyboard.rs)

    The scancode queue between the interrupt handler and the shell, its waker slot, and the routing of
    raw keys to the console's scrollback. [ArrayQueue], [AtomicWaker] and [OnceCell] are modelled by
    their documented behaviour: a bounded FIFO whose [push] fails when full, a slot for one waker,
    and a cell written once. *)

From S2P Require Import Prelude.
From S2P Require Import Block.

(** ** Bounded queues ([crossbeam_queue::ArrayQueue]) *)

(** [push]: the queue afterwards, and whether the value was accepted. *)
Definition queue_push {A} (cap : nat) (x : A) (q : list A) : bool * list A :=
  if decide (length q < cap) then (true, q ++ [x]) else (false, q).

Definition queue_pop {A} (q : list A) : option A * list A :=
  match q with
  | [] => (None, [])
  | x :: q' => (Some x, q')
  end.

(** Capacity of the scancode queue and of the executor's run queue. *)
Definition QUEUE_CAP : nat := 100.

(** ** Wakers *)

(** A task's identifier. *)
Abbreviation TaskId := Z.

(** The wakers the kernel makes: [TaskWaker], which pushes its task on the run queue, and the no-op
    waker of [SimpleExecutor]. *)
Inductive Waker : Type :=
| TaskWaker (task_id : TaskId)
| DummyWaker.

(** [TaskWaker::wake_task]: a full run queue drops the wake-up. *)
Definition wake (wk : Waker) (run_queue : list TaskId) : list TaskId :=
  match wk with
  | TaskWaker id => snd (queue_push QUEUE_CAP id run_queue)
  | DummyWaker => run_queue
  end.

(** ** The scancode stream *)

(** [SCANCODE_QUEUE] and [WAKER]. *)
Record Keyboard : Type := mkKeyboard {
  scancode_queue : option (list Z);
  waker : option Waker;
}.

Definition keyboard_init : Keyboard := mkKeyboard None None.

(** [ScancodeStream::new]: panics when called twice. *)
Definition stream_new {E} : M Keyboard E unit := fun k =>
  match scancode_queue k with
  | Some _ => (Panic, k)
  | None => (Ok tt, mkKeyboard (Some []) (waker k))
  end.

(** Called by the keyboard interrupt: push, dropping the scancode when the queue is full, and wake. *)
Definition add_scancode (scancode : Z) (k : Keyboard) (run_queue : list TaskId)
    : Keyboard * list TaskId :=
  match scancode_queue k with
  | None => (k, run_queue)
  | Some q =>
      let q' := snd (queue_push QUEUE_CAP scancode q) in
      (mkKeyboard (Some q') None,
       match waker k with Some wk => wake wk run_queue | None => run_queue end)
  end.

Inductive Poll (A : Type) : Type :=
| Ready (a : A)
| Pending.
Arguments Ready {A} _.
Arguments Pending {A}.

(** The atomic pieces of [poll_next], between which an interrupt may fire. *)
Definition poll_pop {E} : M Keyboard E (option Z) := fun k =>
  match scancode_queue k with
  | None => (Panic, k)
  | Some q => let '(r, q') := queue_pop q in (Ok r, mkKeyboard (Some q') (waker k))
  end.
Definition poll_register {E} (wk : Waker) : M Keyboard E unit := fun k =>
  (Ok tt, mkKeyboard (scancode_queue k) (Some wk)).
Definition poll_take {E} : M Keyboard E unit := fun k =>
  (Ok tt, mkKeyboard (scancode_queue k) None).

Definition poll_next {E} (wk : Waker) : M Keyboard E (Poll Z) :=
  let* first := poll_pop in
  match first with
  | Some sc => ret (Ready sc)
  | None =>
      poll_register wk ;;;
      let* second := poll_pop in
      match second with
      | Some sc => poll_take ;;; ret (Ready sc)
      | None => ret Pending
      end
  end.

(** ** Raw keys *)

(** The [KeyCode]s the kernel looks at, and all others. *)
Inductive KeyCode : Set :=
| PageUp
| PageDown
| EndKey
| OtherKey (n : Z).

Inductive DecodedKey : Set :=
| RawKey (k : KeyCode)
| Unicode (c : Z).

#[global] Instance KeyCode_eq_dec : EqDecision KeyCode.
Proof.
  solve_decision.
Defined.

#[global] Instance DecodedKey_eq_dec : EqDecision DecodedKey.
Proof.
  solve_decision.
Defined.

Section route.
Context {D C : Type} `{CO : Console C}.

(** Run an operation on the framebuffer writer, if there is one. *)
Definition with_console {E} (op : C -> M C unit unit) : M (Devices D C) E unit := fun w =>
  match fb_writer w with
  | None => (Ok tt, w)
  | Some c =>
      let '(r, c') := op c c in
      (match r with Ok _ => Ok tt | Err _ => Ok tt | Panic => Panic | Diverge => Diverge end,
       mkDevices (drive w) (serial1 w) (Some c') (timer_ticks w))
  end.

Definition route_rawkey {E} (k : KeyCode) : M (Devices D C) E unit :=
  with_console (fun c =>
    let step := Z.max (saturating_sub (con_viewport_rows c) 1) 1 in
    match k with
    | PageUp => con_scroll_up step
    | PageDown => con_scroll_down step
    | EndKey => con_scroll_end
    | OtherKey _ => ret tt
    end).

End route.
