(* ===== verification/Interrupts.v ===== *)
(** * Exceptions and interrupts (src/kernel/src/interrupts.rs, lib.rs)

    The interrupt descriptor table and its handlers, as functions of the saved frame and the globals
    they use. A handler returns to the (possibly rewritten) frame, stops the CPU, or leaves through
    [exit_qemu]. In [Wakeup] the effects of the two hardware handlers, [add_scancode] and [count_tick],
    act on the state of the running kernel. *)

From S2P Require Import Prelude.
From S2P Require Import Block.
From S2P Require Import Keyboard.
From S2P Require Import Gdt.

Open Scope Z_scope.

(** ** Vectors *)

Definition PIC_1_OFFSET : Z := 32.
Definition PIC_2_OFFSET : Z := PIC_1_OFFSET + 8.

Inductive Irq : Set :=
| Timer
| KeyboardIrq.

Definition irq_as_u8 (i : Irq) : Z :=
  match i with
  | Timer => PIC_1_OFFSET
  | KeyboardIrq => PIC_1_OFFSET + 1
  end.

(** The handlers the table names. *)
Inductive Handler : Set :=
| BreakpointHandler
| DoubleFaultHandler
| PageFaultHandler
| GpHandler
| UdHandler
| TimerHandler
| KeyboardHandler.

(** A gate: its handler, the privilege level that may raise it by software, and its own stack, if any. *)
Record Gate : Type := mkGate { g_handler : Handler; g_dpl : Z; g_stack : option Z }.

(** [set_handler_fn]. *)
Definition gate (h : Handler) : Gate := mkGate h 0 None.

(** The architecture's vectors of the exceptions the table names. *)
Definition VEC_BREAKPOINT : Z := 3.
Definition VEC_INVALID_OPCODE : Z := 6.
Definition VEC_DOUBLE_FAULT : Z := 8.
Definition VEC_GENERAL_PROTECTION : Z := 13.
Definition VEC_PAGE_FAULT : Z := 14.

Definition IDT : gmap Z Gate :=
  let idt : gmap Z Gate := ∅ in
  let idt := <[VEC_BREAKPOINT := mkGate BreakpointHandler 3 None]> idt in
  let idt := <[VEC_DOUBLE_FAULT := mkGate DoubleFaultHandler 0 (Some DOUBLE_FAULT_IST_INDEX)]> idt in
  let idt := <[VEC_PAGE_FAULT := gate PageFaultHandler]> idt in
  let idt := <[VEC_GENERAL_PROTECTION := gate GpHandler]> idt in
  let idt := <[VEC_INVALID_OPCODE := gate UdHandler]> idt in
  let idt := <[irq_as_u8 Timer := gate TimerHandler]> idt in
  <[irq_as_u8 KeyboardIrq := gate KeyboardHandler]> idt.

(** ** Handlers *)

Inductive QemuExitCode : Set :=
| Success
| Failed.

Definition qemu_code (c : QemuExitCode) : Z := match c with Success => 0x10 | Failed => 0x11 end.

(** What becomes of the interrupted computation. *)
Inductive Outcome (A : Type) : Type :=
| Return (a : A)
| ExitQemu (port value : Z)
| HaltForever
| HookTakesOver
| KernelPanic.
Arguments Return {A} _.
Arguments ExitQemu {A} _ _.
Arguments HaltForever {A}.
Arguments HookTakesOver {A}.
Arguments KernelPanic {A}.

(** [exit_qemu]: a write to the debug-exit port. *)
Definition exit_qemu {A} (c : QemuExitCode) : Outcome A := ExitQemu 0xf4 (qemu_code c).

(** The saved interrupt frame. *)
Record Frame : Type := mkFrame {
  instruction_pointer : Z;
  code_segment : Z;
  cpu_flags : Z;
  stack_pointer : Z;
  stack_segment : Z;
}.

(** The globals: the serial log, the fault fixup, whether a breakpoint hook is installed, the tick
    counter, the interrupts acknowledged, and the keyboard with the run queue. *)
Record Globals : Type := mkGlobals {
  serial_log : option bytes;
  expected_fault_fixup : Z;
  bp_hook : bool;
  timer : Z;
  acknowledged : list Z;
  keyboard : Keyboard;
  run_queue : list TaskId;
}.

(** [serial_println!]. *)
Definition serial_println (s : str) (g : Globals) : Globals :=
  mkGlobals ((fun log => log ++ s ++ NL) <$> serial_log g) (expected_fault_fixup g) (bp_hook g) (timer g)
            (acknowledged g) (keyboard g) (run_queue g).
Definition set_fixup (f : Z) (g : Globals) : Globals :=
  mkGlobals (serial_log g) f (bp_hook g) (timer g) (acknowledged g) (keyboard g) (run_queue g).
(** [PICS.lock().notify_end_of_interrupt(v)]. *)
Definition notify_end_of_interrupt (v : Z) (g : Globals) : Globals :=
  mkGlobals (serial_log g) (expected_fault_fixup g) (bp_hook g) (timer g) (acknowledged g ++ [v])
            (keyboard g) (run_queue g).

(** [{:#x}]: lower-case digits without leading zeros; sixteen digits are enough for a [u64]. *)
Definition hex_digit (d : Z) : byte := of_u8 (if d <? 10 then 48 + d else 87 + d).
Fixpoint hex_go (fuel : nat) (z : Z) (acc : str) : str :=
  match fuel with
  | O => acc
  | S fuel' => let acc' := hex_digit (z mod 16) :: acc in if z <? 16 then acc' else hex_go fuel' (z / 16) acc'
  end.
Definition hex (z : Z) : str := s_ "0x" ++ hex_go 16 z [].

(** [VirtAddr::new] panics unless bits 48 to 63 repeat bit 47. *)
Definition canonical_addr (a : Z) : bool := (0 <=? a) && (a <? 2 ^ 47) || (2 ^ 64 - 2 ^ 47 <=? a) && (a <? 2 ^ 64).

Section handlers.
(** [{:?}] of the page-fault error code, the [x86_64] crate's. *)
Context (err_debug : Z -> str).

Definition breakpoint_handler (f : Frame) (g : Globals) : Outcome Frame * Globals :=
  if bp_hook g then (HookTakesOver, g)
  else (Return f, serial_println (s_ "EXCEPTION: BREAKPOINT (rip recorded in interrupt frame)") g).

Definition double_fault_handler (f : Frame) (error_code : Z) (g : Globals) : Outcome Frame * Globals :=
  (exit_qemu Failed, serial_println (s_ "EXCEPTION: DOUBLE FAULT") g).

(** The three-part message of a page fault. *)
Definition pf_message (who : str) (cr2 error_code : Z) (f : Frame) : str :=
  who ++ s_ " #PF: cr2=" ++ hex cr2 ++ s_ " err=" ++ err_debug error_code ++ s_ " rip="
      ++ hex (instruction_pointer f).

Definition page_fault_handler (cr2 : Z) (f : Frame) (error_code : Z) (g : Globals)
    : Outcome Frame * Globals :=
  let from_user := Z.land (code_segment f) 3 =? 3 in
  if from_user then (HaltForever, serial_println (pf_message (s_ "USER") cr2 error_code f) g)
  else
    let fixup := expected_fault_fixup g in
    let g := set_fixup 0 g in
    if negb (fixup =? 0) then
      if canonical_addr fixup
      then (Return (mkFrame fixup (code_segment f) (cpu_flags f) (stack_pointer f) (stack_segment f)), g)
      else (KernelPanic, g)
    else (exit_qemu Failed, serial_println (pf_message (s_ "KERNEL") cr2 error_code f) g).

Definition gp_handler (f : Frame) (error_code : Z) (g : Globals) : Outcome Frame * Globals :=
  (exit_qemu Failed,
   serial_println (s_ "EXCEPTION: #GP err=" ++ hex error_code ++ s_ " cs=" ++ hex (code_segment f)
                   ++ s_ " rip=" ++ hex (instruction_pointer f)) g).

Definition ud_handler (f : Frame) (g : Globals) : Outcome Frame * Globals :=
  (exit_qemu Failed,
   serial_println (s_ "EXCEPTION: #UD cs=" ++ hex (code_segment f)
                   ++ s_ " rip=" ++ hex (instruction_pointer f)) g).

Definition timer_handler (f : Frame) (g : Globals) : Outcome Frame * Globals :=
  (Return f,
   notify_end_of_interrupt (irq_as_u8 Timer)
     (mkGlobals (serial_log g) (expected_fault_fixup g) (bp_hook g) (count_tick (timer g))
                (acknowledged g) (keyboard g) (run_queue g))).

(** [scancode] is what port 0x60 delivers. *)
Definition keyboard_handler (scancode : Z) (f : Frame) (g : Globals) : Outcome Frame * Globals :=
  let '(k, q) := add_scancode scancode (keyboard g) (run_queue g) in
  (Return f,
   notify_end_of_interrupt (irq_as_u8 KeyboardIrq)
     (mkGlobals (serial_log g) (expected_fault_fixup g) (bp_hook g) (timer g) (acknowledged g) k q)).

(** What the CPU hands a handler besides the frame. *)
Record Cause : Type := mkCause { vector : Z; error : Z; fault_addr : Z; port_60 : Z }.

(** Delivery through the table; a vector without a gate escalates to the double fault. *)
Definition run_handler (h : Handler) (c : Cause) (f : Frame) (g : Globals) : Outcome Frame * Globals :=
  match h with
  | BreakpointHandler => breakpoint_handler f g
  | DoubleFaultHandler => double_fault_handler f 0 g
  | PageFaultHandler => page_fault_handler (fault_addr c) f (error c) g
  | GpHandler => gp_handler f (error c) g
  | UdHandler => ud_handler f g
  | TimerHandler => timer_handler f g
  | KeyboardHandler => keyboard_handler (port_60 c) f g
  end.

Definition deliver (c : Cause) (f : Frame) (g : Globals) : Outcome Frame * Globals :=
  match IDT !! vector c with
  | Some gt => run_handler (g_handler gt) c f g
  | None => double_fault_handler f 0 g
  end.

(** ** Correctness *)

(** C21: the fault fixup is used once. A page fault in kernel mode with a fixup address pending resumes
    there, with the rest of the frame as saved, nothing printed and the fixup consumed; a second kernel
    fault is then fatal, as is any without a fixup. A fault in user mode stops the CPU and leaves the
    fixup alone. *)
Theorem fault_fixup_is_one_shot c f g :
  vector c = VEC_PAGE_FAULT ->
  let pf := deliver c f g in
  (Z.land (code_segment f) 3 = 3 ->
     fst pf = HaltForever /\ expected_fault_fixup (snd pf) = expected_fault_fixup g) /\
  (Z.land (code_segment f) 3 <> 3 -> expected_fault_fixup g <> 0 -> canonical_addr (expected_fault_fixup g) = true ->
     exists f', pf = (Return f', set_fixup 0 g) /\ instruction_pointer f' = expected_fault_fixup g /\
       code_segment f' = code_segment f /\ cpu_flags f' = cpu_flags f /\
       stack_pointer f' = stack_pointer f /\ stack_segment f' = stack_segment f /\
       fst (deliver c f' (snd pf)) = exit_qemu Failed) /\
  (Z.land (code_segment f) 3 <> 3 -> expected_fault_fixup g = 0 -> fst pf = exit_qemu Failed).
Proof.
  intros Hv. unfold deliver. rewrite Hv. change (IDT !! VEC_PAGE_FAULT) with (Some (gate PageFaultHandler)).
  cbn [g_handler gate run_handler]. unfold page_fault_handler. split; [|split].
  - intros Hu. by rewrite (proj2 (Z.eqb_eq _ _) Hu).
  - intros Hu Hf Hc. rewrite (proj2 (Z.eqb_neq _ _) Hu), (proj2 (Z.eqb_neq _ _) Hf), Hc. cbn [negb].
    eexists. split; [reflexivity|]. do 5 (split; [reflexivity|]).
    cbn [code_segment snd]. by rewrite (proj2 (Z.eqb_neq _ _) Hu).
  - intros Hu Hf. by rewrite (proj2 (Z.eqb_neq _ _) Hu), Hf.
Qed.

End handlers.

Definition quiet : Globals := mkGlobals (Some []) 0x1000 false 5 [] keyboard_init [].

Lemma fault_fixup_is_one_shot_witness :
  exists f', deliver (fun _ => []) (mkCause VEC_PAGE_FAULT 0 0 0) (mkFrame 7 8 2 100 16) quiet
    = (Return f', set_fixup 0 quiet) /\ instruction_pointer f' = 0x1000.
Proof.
  destruct (fault_fixup_is_one_shot (fun _ => []) (mkCause VEC_PAGE_FAULT 0 0 0) (mkFrame 7 8 2 100 16) quiet eq_refl)
    as (_ & H & _).
  destruct H as (f' & H1 & H2 & _); [discriminate|discriminate|reflexivity|].
  exists f'. split; [exact H1|exact H2].
Defined.
