(* ===== verification/Executor.v ===== *)
(** * Task executors (src/kernel/src/task/mod.rs, executor.rs, simple_executor.rs)

    Task identifiers, the waker-driven [Executor] with its run queue and waker cache, and the polling
    [SimpleExecutor]. A future is a state with a [poll] method that may use the devices and, through
    wakers, push on the shared run queue; which futures there are is a parameter. *)

From S2P Require Import Prelude.
From S2P Require Import Block.
From S2P Require Import Keyboard.

(** [Future::poll]: the poll's outcome and the suspended future, over the world and the run queue. *)
Class Future (W Fut : Type) : Type :=
  fut_poll : Waker -> Fut -> M (W * list TaskId) Empty_set (Poll unit * Fut).

(** ** Tasks *)

Record Task (Fut : Type) : Type := mkTask { task_id : TaskId; future : Fut }.
Arguments mkTask {Fut} _ _.
Arguments task_id {Fut} _.
Arguments future {Fut} _.

(** [Task::new] draws from the [AtomicU64] counter, which wraps. *)
Definition task_new {Fut E} (f : Fut) : M Z E (Task Fut) := fun next_id =>
  (Ok (mkTask next_id f), ((next_id + 1) mod 2 ^ 64)%Z).

(** [Task::poll]. *)
Definition task_poll {W Fut} `{Future W Fut} (wk : Waker) (t : Task Fut)
    : M (W * list TaskId) Empty_set (Poll unit * Task Fut) :=
  let* (p, f') := fut_poll wk (future t) in ret (p, mkTask (task_id t) f').

(** ** The executor *)

Record Executor (Fut : Type) : Type := mkExecutor {
  tasks : gmap TaskId (Task Fut);
  task_queue : list TaskId;
  waker_cache : gmap TaskId Waker;
}.
Arguments mkExecutor {Fut} _ _ _.
Arguments tasks {Fut} _.
Arguments task_queue {Fut} _.
Arguments waker_cache {Fut} _.

Section executor.
Context {W Fut : Type} `{FT : Future W Fut}.

Definition exec_op (A : Type) : Type := M (Executor Fut * W) Empty_set A.

Definition executor_new : Executor Fut := mkExecutor ∅ [] ∅.

(** Panics on a duplicate identifier and on a full run queue. *)
Definition spawn (t : Task Fut) : M (Executor Fut) Empty_set unit := fun ex =>
  let ex1 := mkExecutor (<[task_id t := t]> (tasks ex)) (task_queue ex) (waker_cache ex) in
  match tasks ex !! task_id t with
  | Some _ => (Panic, ex1)
  | None =>
      match queue_push QUEUE_CAP (task_id t) (task_queue ex) with
      | (true, q) => (Ok tt, mkExecutor (tasks ex1) q (waker_cache ex))
      | (false, _) => (Panic, ex1)
      end
  end.

(** Poll the task [id], which is [t]: the body of the loop in [run_ready_tasks]. *)
Definition poll_task (id : TaskId) (t : Task Fut) : exec_op unit := fun '(ex, w) =>
  let wk := default (TaskWaker id) (waker_cache ex !! id) in
  let cache := <[id := wk]> (waker_cache ex) in
  match task_poll wk t (w, task_queue ex) with
  | (Ok (Ready _, _), (w', q')) =>
      (Ok tt, (mkExecutor (delete id (tasks ex)) q' (delete id cache), w'))
  | (Ok (Pending, t'), (w', q')) => (Ok tt, (mkExecutor (<[id := t']> (tasks ex)) q' cache, w'))
  | (Err e, _) => match e with end
  | (Panic, (w', q')) => (Panic, (mkExecutor (tasks ex) q' cache, w'))
  | (Diverge, (w', q')) => (Diverge, (mkExecutor (tasks ex) q' cache, w'))
  end.

(** One iteration: false when the queue is empty. *)
Definition ready_step : exec_op bool := fun '(ex, w) =>
  match queue_pop (task_queue ex) with
  | (None, _) => (Ok false, (ex, w))
  | (Some id, q) =>
      let ex1 := mkExecutor (tasks ex) q (waker_cache ex) in
      match tasks ex !! id with
      | None => (Ok true, (ex1, w))
      | Some t => (poll_task id t ;;; ret true) (ex1, w)
      end
  end.

(** [run_ready_tasks]; the fuel bounds the iterations, which tasks that keep waking themselves can
    make unbounded. *)
Fixpoint run_ready_tasks (fuel : nat) : exec_op unit :=
  match fuel with
  | O => diverge
  | S fuel' => let* more := ready_step in if more then run_ready_tasks fuel' else ret tt
  end.

End executor.

(** ** The polling executor *)

Section simple_executor.
Context {W Fut : Type} `{FT : Future W Fut}.

(** [SimpleExecutor::task_queue]; the world includes a run queue no task of its own uses. *)
Definition simple_new : list (Task Fut) := [].
Definition simple_spawn (t : Task Fut) (q : list (Task Fut)) : list (Task Fut) := q ++ [t].

(** [run]; the fuel bounds the number of polls. *)
Fixpoint simple_run (fuel : nat) : M (list (Task Fut) * (W * list TaskId)) Empty_set unit := fun '(q, s) =>
  match q with
  | [] => (Ok tt, ([], s))
  | t :: q' =>
      match fuel with
      | O => (Diverge, (q, s))
      | S fuel' =>
          match task_poll DummyWaker t s with
          | (Ok (Ready _, _), s') => simple_run fuel' (q', s')
          | (Ok (Pending, t'), s') => simple_run fuel' (q' ++ [t'], s')
          | (Err e, _) => match e with end
          | (Panic, s') => (Panic, (q', s'))
          | (Diverge, s') => (Diverge, (q', s'))
          end
      end
  end.

End simple_executor.

(** ** The executor's invariant *)

Section invariant.
Context {W Fut : Type} `{FT : Future W Fut}.

(** Tasks sit under their own identifier, drawn from the counter [n]; a cached waker wakes the task
    it is cached for, and only live tasks have one. *)
Definition exec_inv (n : Z) (ex : Executor Fut) : Prop :=
  (forall id t, tasks ex !! id = Some t -> task_id t = id /\ (id < n)%Z) /\
  (forall id wk, waker_cache ex !! id = Some wk -> wk = TaskWaker id /\ is_Some (tasks ex !! id)).

(** The executor's life: creating and spawning a task, and iterations of [run_ready_tasks]. *)
Inductive exec_step : Z * (Executor Fut * W) -> Z * (Executor Fut * W) -> Prop :=
| step_spawn f t n n' ex ex' w :
    (n < 2 ^ 64 - 1)%Z -> task_new (E:=Empty_set) f n = (Ok t, n') -> spawn t ex = (Ok tt, ex') ->
    exec_step (n, (ex, w)) (n', (ex', w))
| step_ready n s b s' : ready_step s = (Ok b, s') -> exec_step (n, s) (n, s').

Definition exec_reachable (s : Z * (Executor Fut * W)) : Prop :=
  exists w, rtc exec_step (0%Z, (executor_new, w)) s.

Lemma task_new_inv (f : Fut) t n n' :
  (0 <= n < 2 ^ 64 - 1)%Z -> task_new (E:=Empty_set) f n = (Ok t, n') -> t = mkTask n f /\ n' = (n + 1)%Z.
Proof.
  intros Hn [= <- <-]. split; [done|]. apply Z.mod_small. lia.
Qed.

Lemma spawn_inv t n ex ex' :
  exec_inv n ex -> (task_id t = n)%Z -> spawn t ex = (Ok tt, ex') -> exec_inv (n + 1) ex'.
Proof.
  intros [Ht Hc] Hid. unfold spawn, queue_push. destruct (tasks ex !! task_id t) eqn:Hl; [done|].
  case_decide; [|done]. intros [= <-]. split; simpl.
  - intros id t' [[<- <-]|[Hne Hl']]%lookup_insert_Some; [by split; [|lia]|].
    destruct (Ht _ _ Hl'). split; [done|lia].
  - intros id wk [-> [t' Ht']]%Hc. split; [done|]. destruct (decide (id = task_id t)) as [->|Hne].
    + rewrite lookup_insert_eq. by eexists.
    + rewrite lookup_insert_ne by done. by eexists.
Qed.

Lemma task_poll_id wk (t : Task Fut) s p t' s' :
  task_poll wk t s = (Ok (p, t'), s') -> task_id t' = task_id t.
Proof.
  unfold task_poll. intros H. apply bind_inv_ok in H as ([p0 f0] & s0 & _ & [= _ <- _]). done.
Qed.

Lemma poll_task_inv n id t ex w b s' :
  exec_inv n ex -> tasks ex !! id = Some t -> poll_task id t (ex, w) = (Ok b, s') -> exec_inv n (fst s').
Proof.
  intros [Ht Hc] Hl. destruct (Ht _ _ Hl) as [Hid Hn]. unfold poll_task.
  set (wk := default (TaskWaker id) (waker_cache ex !! id)).
  assert (wk = TaskWaker id) as Hwk.
  { unfold wk. destruct (waker_cache ex !! id) eqn:E; [|done]. by apply Hc in E as [-> _]. }
  destruct (task_poll wk t (w, task_queue ex)) as [[[[u|] t']|e| |] [w' q']] eqn:Hp; [..|by destruct e|done|done];
    intros [= _ <-]; split; cbn [fst tasks waker_cache].
  - intros id' t0 [_ Hl']%lookup_delete_Some. by apply Ht.
  - intros id' wk' [Hne Hl']%lookup_delete_Some. rewrite lookup_insert_ne in Hl' by done.
    destruct (Hc _ _ Hl') as [-> Hs]. split; [done|]. by rewrite lookup_delete_ne.
  - intros id' t0 [[<- <-]|[Hne Hl']]%lookup_insert_Some; [|by apply Ht].
    apply task_poll_id in Hp. by rewrite Hp.
  - intros id' wk' [[<- <-]|[Hne Hl']]%lookup_insert_Some.
    + split; [done|]. rewrite lookup_insert_eq. by eexists.
    + destruct (Hc _ _ Hl') as [-> Hs]. split; [done|]. by rewrite lookup_insert_ne.
Qed.

Lemma ready_step_inv n s b s' : exec_inv n (fst s) -> ready_step s = (Ok b, s') -> exec_inv n (fst s').
Proof.
  destruct s as [ex w]. intros Hi. unfold ready_step. destruct (queue_pop (task_queue ex)) as [[id|] q].
  - destruct (tasks ex !! id) as [t|] eqn:Hl; [|by intros [= _ <-]].
    intros H. apply bind_inv_ok in H as (u & s1 & H & [= _ <-]).
    by eapply (poll_task_inv n id t (mkExecutor (tasks ex) q (waker_cache ex))).
  - by intros [= _ <-].
Qed.

Lemma exec_reachable_inv s : exec_reachable s -> (0 <= fst s)%Z /\ exec_inv (fst s) (fst (snd s)).
Proof.
  intros [w H]. remember (0%Z, (executor_new, w)) as s0 eqn:Hs0.
  assert (0 <= fst s0 /\ exec_inv (fst s0) (fst (snd s0)))%Z as Hi.
  { rewrite Hs0. split; [done|]. by split; intros ? ? Hl. }
  clear Hs0. induction H as [s|s1 s2 s3 Hstep _ IH]; [done|]. apply IH. destruct Hi as [Hn Hi].
  destruct Hstep as [f t n n' ex ex' w' Hlt Hnew Hsp|n s b s' Hr]; cbn [fst snd] in *.
  - apply task_new_inv in Hnew as [-> ->]; [|lia]. split; [lia|].
    by apply (spawn_inv (mkTask n f) n ex ex').
  - split; [done|]. by apply (ready_step_inv n s b s').
Qed.

(** C20: the executor's tables stay consistent, and a fresh task never collides. In every state reached
    by spawning tasks made by [Task::new] and running ready tasks, each task is filed under its own
    identifier and every cached waker belongs to a live task and wakes exactly it; spawning a new task
    panics only when the run queue already holds 100 entries, never on a duplicate identifier. *)
Theorem executor_consistent n ex (w : W) (f : Fut) :
  exec_reachable (n, (ex, w)) -> (n < 2 ^ 64 - 1)%Z ->
  exec_inv n ex /\
  exists t n', task_new (E:=Empty_set) f n = (Ok t, n') /\
    (length (task_queue ex) < QUEUE_CAP -> exists ex', spawn t ex = (Ok tt, ex') /\
       tasks ex' = <[n := t]> (tasks ex) /\ task_queue ex' = task_queue ex ++ [n]) /\
    (QUEUE_CAP <= length (task_queue ex) -> exists ex', spawn t ex = (Panic, ex')).
Proof.
  intros [Hn Hi]%exec_reachable_inv Hlt. cbn [fst snd] in *. split; [done|].
  eexists _, _. split; [done|]. unfold spawn, queue_push. cbn [task_id].
  destruct (tasks ex !! n) as [t|] eqn:Hl; [destruct Hi as [Ht _]; apply Ht in Hl as [_ ?]; lia|].
  split; intros Hq.
  - rewrite decide_True by done. eexists. split; [reflexivity|]. by split.
  - rewrite decide_False by lia. by eexists.
Qed.

End invariant.

(** ** The polling executor finishes *)

Section completion.
Context {W Fut : Type} `{FT : Future W Fut}.

(** [mu] bounds the remaining polls: every poll returns, and a pending one makes progress. *)
Definition progresses (mu : Fut -> nat) : Prop :=
  forall wk f s, exists p f' s', fut_poll wk f s = (Ok (p, f'), s') /\ (p = Pending -> mu f' < mu f).

(** Polls a queue still needs. *)
Definition budget (mu : Fut -> nat) (q : list (Task Fut)) : nat :=
  sum_list (map (fun t => S (mu (future t))) q).

Lemma budget_app mu q1 q2 : budget mu (q1 ++ q2) = budget mu q1 + budget mu q2.
Proof.
  unfold budget. by rewrite map_app, sum_list_with_app.
Qed.

(** [Q f s]: in [s], what [f] was spawned for is done. A poll that is ready has done it, a pending one
    leaves it to the future that remains, and no poll undoes it. *)
Record achieves (Q : Fut -> W * list TaskId -> Prop) : Prop := {
  a_ready wk f s u f' s' : fut_poll wk f s = (Ok (Ready u, f'), s') -> Q f s';
  a_pending wk f s f' s' s'' : fut_poll wk f s = (Ok (Pending, f'), s') -> Q f' s'' -> Q f s'';
  a_stable wk g s r s' f : fut_poll wk g s = (Ok r, s') -> Q f s -> Q f s';
}.

(** What is done stays done during a run. *)
Lemma simple_run_stable (Q : Fut -> W * list TaskId -> Prop) fuel q s q' s' f :
  achieves Q -> simple_run fuel (q, s) = (Ok tt, (q', s')) -> Q f s -> Q f s'.
Proof.
  intros HQ. revert q s. induction fuel as [|fuel IH]; intros [|t q] s Hr Hf; simpl in Hr; try (by simplify_eq).
  unfold task_poll, bind in Hr. destruct (fut_poll DummyWaker (future t) s) as [[[p f']|e| |] s1] eqn:He; try done.
  pose proof (a_stable Q HQ _ _ _ _ _ f He Hf) as Hf1. cbn in Hr. by destruct p; apply IH in Hr.
Qed.

(** C27: [SimpleExecutor::run] runs every task to completion. If every poll returns and a task makes
    progress at every pending poll, the round-robin loop ends with an empty queue after at most as many
    polls as the tasks need in total, and then everything the tasks were spawned for has been done. *)
Theorem simple_executor_completes (mu : Fut -> nat) (Q : Fut -> W * list TaskId -> Prop) fuel q (s : W * list TaskId) :
  progresses mu -> achieves Q -> budget mu q <= fuel ->
  exists s', simple_run fuel (q, s) = (Ok tt, ([], s')) /\ Forall (fun t => Q (future t) s') q.
Proof.
  intros Hp HQ. revert q s. induction fuel as [|fuel IH]; intros [|t q] s Hb; simpl; try (by exists s).
  - unfold budget in Hb. simpl in Hb. lia.
  - unfold task_poll. destruct (Hp DummyWaker (future t) s) as (p & f' & s' & He & Hmu).
    erewrite bind_ok by done. simpl. unfold budget in Hb. simpl in Hb. fold (budget mu q) in Hb.
    destruct p as [u|].
    + destruct (IH q s') as (s2 & Hs2 & Hq); [lia|]. exists s2. split; [done|]. constructor; [|done].
      eapply simple_run_stable; [done|done|]. by eapply a_ready.
    + destruct (IH (q ++ [mkTask (task_id t) f']) s') as (s2 & Hs2 & Hq).
      { rewrite budget_app. specialize (Hmu eq_refl). unfold budget at 2. simpl. lia. }
      apply Forall_app in Hq as [Hq Ht]. apply Forall_cons in Ht as [Ht _]. cbn [future] in Ht. exists s2. split; [done|].
      constructor; [|done]. exact (a_pending Q HQ _ _ _ _ _ _ He Ht).
Qed.

End completion.

(** ** Countdown futures *)

Module countdown.

(** Ready after [n] polls; a pending poll wakes itself. *)
#[local] Instance countdown_future : Future unit nat := fun wk n '(u, q) =>
  match n with
  | O => (Ok (Ready tt, O), (u, q))
  | S n' => (Ok (Pending, n'), (u, wake wk q))
  end.

(** Ready after [n] more polls, when it leaves its mark in the world. *)
#[local] Instance marking_future : Future (list Z) (Z * nat) := fun wk '(m, n) '(w, q) =>
  match n with
  | O => (Ok (Ready tt, (m, O)), (w ++ [m], q))
  | S n' => (Ok (Pending, (m, n')), (w, wake wk q))
  end.

Definition marked (f : Z * nat) (s : list Z * list TaskId) : Prop := fst f ∈ fst s.

Lemma marked_achieves : achieves marked.
Proof.
  split.
  - intros wk [m [|n]] [w q] u f' s' [= <- <- <-]. unfold marked. cbn. set_solver.
  - intros wk [m [|n]] [w q] f' s' s'' [= <- <-]. done.
  - intros wk [m [|n]] [w q] r s' [m' n'] [= <- <-]; unfold marked; cbn; set_solver.
Qed.

Lemma simple_executor_completes_witness :
  exists s', simple_run 6 ([mkTask 0 (7%Z, 2); mkTask 1 (8%Z, 0); mkTask 2 (9%Z, 1)], ([], [])) = (Ok tt, ([], s')) /\
    (7%Z ∈ fst s') /\ (8%Z ∈ fst s') /\ (9%Z ∈ fst s').
Proof.
  destruct (simple_executor_completes (W:=list Z) snd marked 6
    [mkTask 0 (7%Z, 2); mkTask 1 (8%Z, 0); mkTask 2 (9%Z, 1)] ([], [])) as (s' & H & Hq).
  - intros wk [m [|n]] [w q]; eexists _, _, _; (split; [reflexivity|]); [discriminate|intros _; cbn; lia].
  - exact marked_achieves.
  - vm_compute. lia.
  - exists s'. split; [exact H|]. rewrite !Forall_cons in Hq. destruct Hq as (H1 & H2 & H3 & _).
    split; [exact H1|]. split; [exact H2|exact H3].
Defined.

(** Two tasks spawned, the first polled once. *)
Definition after : Executor nat :=
  mkExecutor {[0%Z := mkTask 0%Z 1; 1%Z := mkTask 1%Z 0]} [1%Z; 0%Z] {[0%Z := TaskWaker 0]}.

Lemma after_reachable : exec_reachable (2%Z, (after, tt)).
Proof.
  exists tt. eapply rtc_l. { eapply (step_spawn 2); [done|reflexivity|reflexivity]. }
  eapply rtc_l. { eapply (step_spawn 0); [done|reflexivity|reflexivity]. }
  eapply rtc_l. { eapply step_ready. vm_compute. reflexivity. }
  apply rtc_refl.
Qed.

Lemma executor_consistent_witness :
  exec_inv 2 after /\
  exists t n', task_new (E:=Empty_set) 5 2%Z = (Ok t, n') /\
    (length (task_queue after) < QUEUE_CAP -> exists ex', spawn t after = (Ok tt, ex') /\
       tasks ex' = <[2%Z := t]> (tasks after) /\ task_queue ex' = [1%Z; 0%Z; 2%Z]) /\
    (QUEUE_CAP <= length (task_queue after) -> exists ex', spawn t after = (Panic, ex')).
Proof.
  apply (executor_consistent 2%Z after tt 5 after_reachable). reflexivity.
Defined.

End countdown.
