(* ===== verification/Wakeup.v ===== *)
(** * Keyboard, executor and interrupts together (task/executor.rs, task/keyboard.rs, interrupts.rs)

    The kernel's main loop as a step relation: one CPU runs [Executor::run] with the shell as its only
    task, and the keyboard and timer interrupts may fire between any two of its atomic steps while
    interrupts are enabled. An interrupt handler runs to completion with interrupts off. What the shell
    does when it starts and with a scancode, and what a timer tick does to the state the shell reads, are
    parameters; if the shell's code panics, so does the kernel.

    Processing one scancode is one step. The code it stands for can be interrupted, but a keyboard
    interrupt touches only the queues, which that code does not use, and it reads the tick counter at
    most once, so a tick during the step is as good as one before or after it. *)

From S2P Require Import Prelude.
From S2P Require Import Block.
From S2P Require Import Keyboard.
From S2P Require Import Executor.

(** ** State *)

(** Where a poll of the shell's future is: before [ScancodeStream::new], and inside [poll_next] or the
    loop body. *)
Inductive Point : Type :=
| AtStart
| AtFirst
| AtRegister
| AtSecond
| AtTake (sc : Z)
| AtHandle (sc : Z).

(** [Hung] is a command that does not return. *)
Inductive Pc : Type :=
| RunPop
| Polling (id : TaskId) (at_ : Point)
| SleepCli
| SleepCheck
| Halted
| Panicked
| Hung.

(** What has happened to the shell's state: it started, it processed a scancode, the clock ticked. *)
Inductive Event : Set :=
| Started
| Handled (sc : Z)
| Ticked.

#[global] Instance Event_eq_dec : EqDecision Event.
Proof.
  solve_decision.
Defined.

(** The scancodes processed, and everything but the ticks. *)
Definition keys (h : list Event) : list Z := omap (fun e => if e is Handled sc then Some sc else None) h.
Definition untimed (h : list Event) : list Event := filter (fun e => e <> Ticked) h.
Arguments keys _ : simpl never.
Arguments untimed _ : simpl never.

(** The future of a task is whether it has been started. [accepted] and [history] are ghosts: the
    scancodes the queue took, and the events so far. *)
Record Kernel (X : Type) : Type := mkKernel {
  kb : Keyboard;
  ex : Executor bool;
  state : X;
  pc : Pc;
  interrupts_on : bool;
  accepted : list Z;
  history : list Event;
}.
Arguments mkKernel {X} _ _ _ _ _ _ _.
Arguments kb {X} _.
Arguments ex {X} _.
Arguments state {X} _.
Arguments pc {X} _.
Arguments interrupts_on {X} _.
Arguments accepted {X} _.
Arguments history {X} _.

Definition handled {X} (k : Kernel X) : list Z := keys (history k).

Section wakeup.
Context {X : Type} (start : M X Empty_set unit) (handle : Z -> M X Empty_set unit) (tick : X -> X).
Implicit Types k : Kernel X.

Definition goto (p : Pc) k : Kernel X :=
  mkKernel (kb k) (ex k) (state k) p (interrupts_on k) (accepted k) (history k).
Definition with_kb (b : Keyboard) k : Kernel X :=
  mkKernel b (ex k) (state k) (pc k) (interrupts_on k) (accepted k) (history k).
Definition with_ex (e : Executor bool) k : Kernel X :=
  mkKernel (kb k) e (state k) (pc k) (interrupts_on k) (accepted k) (history k).
Definition set_if (b : bool) k : Kernel X :=
  mkKernel (kb k) (ex k) (state k) (pc k) b (accepted k) (history k).
(** The shell's state after an event. *)
Definition record (e : Event) (x : X) k : Kernel X :=
  mkKernel (kb k) (ex k) x (pc k) (interrupts_on k) (accepted k) (history k ++ [e]).

(** One step of the keyboard's code. *)
Definition kb_step {A} (m : M Keyboard Empty_set A) (next : A -> Kernel X -> Kernel X) k : Kernel X :=
  match m (kb k) with
  | (Ok a, b) => next a (with_kb b k)
  | (_, b) => goto Panicked (with_kb b k)
  end.

(** One step of the shell's own code. *)
Definition shell_step (e : Event) (m : M X Empty_set unit) (next : Pc) k : Kernel X :=
  match m (state k) with
  | (Ok _, x) => goto next (record e x k)
  | (Diverge, x) => goto Hung (record e x k)
  | (_, x) => goto Panicked (record e x k)
  end.

(** A poll of the shell, step by step; [pc] goes back to the executor when the poll is pending. *)
Definition poll_step (id : TaskId) (at_ : Point) k : Kernel X :=
  match at_ with
  | AtStart =>
      kb_step stream_new (fun _ k =>
        let e := ex k in
        shell_step Started start (Polling id AtFirst)
          (with_ex (mkExecutor (<[id := mkTask id true]> (tasks e)) (task_queue e) (waker_cache e)) k)) k
  | AtFirst =>
      kb_step poll_pop (fun r =>
        match r with
        | Some sc => goto (Polling id (AtHandle sc))
        | None => goto (Polling id AtRegister)
        end) k
  | AtRegister =>
      kb_step (poll_register (default (TaskWaker id) (waker_cache (ex k) !! id)))
        (fun _ => goto (Polling id AtSecond)) k
  | AtSecond =>
      kb_step poll_pop (fun r =>
        match r with
        | Some sc => goto (Polling id (AtTake sc))
        | None => goto RunPop
        end) k
  | AtTake sc => kb_step poll_take (fun _ => goto (Polling id (AtHandle sc))) k
  | AtHandle sc => shell_step (Handled sc) (handle sc) (Polling id AtFirst) k
  end.

(** One step of the CPU in [Executor::run]; none while halted. *)
Definition cpu_step k : option (Kernel X) :=
  let e := ex k in
  match pc k with
  | RunPop =>
      match queue_pop (task_queue e) with
      | (None, _) => Some (goto SleepCli k)
      | (Some id, q) =>
          match (tasks e !! id : option (Task bool)) with
          | None => Some (with_ex (mkExecutor (tasks e) q (waker_cache e)) k)
          | Some t =>
              let cache := <[id := default (TaskWaker id) (waker_cache e !! id)]> (waker_cache e) in
              Some (goto (Polling id (if future t then AtFirst else AtStart))
                         (with_ex (mkExecutor (tasks e) q cache) k))
          end
      end
  | Polling id at_ => Some (poll_step id at_ k)
  | SleepCli => Some (goto SleepCheck (set_if false k))
  | SleepCheck =>
      if decide (task_queue e = []) then Some (goto Halted (set_if true k))
      else Some (goto RunPop (set_if true k))
  | Halted => None
  | Panicked => None
  | Hung => None
  end.

(** Returning from an interrupt leaves [hlt]. *)
Definition resume k : Kernel X := match pc k with Halted => goto RunPop k | _ => k end.

(** The body of [keyboard_handler] with the scancode it reads. *)
Definition latch_key (sc : Z) k : Kernel X :=
  let '(b, q) := add_scancode sc (kb k) (task_queue (ex k)) in
  let taken := match scancode_queue (kb k) with
               | Some q => fst (queue_push QUEUE_CAP sc q)
               | None => false
               end in
  let e := mkExecutor (tasks (ex k)) q (waker_cache (ex k)) in
  mkKernel b e (state k) (pc k) (interrupts_on k) (if taken then accepted k ++ [sc] else accepted k) (history k).
Definition keyboard_irq (sc : Z) k : Kernel X := resume (latch_key sc k).

(** [timer_handler]. *)
Definition timer_irq k : Kernel X := resume (record Ticked (tick (state k)) k).

(** [run n k k']: [n] CPU steps, with interrupts in between. *)
Inductive run : nat -> Kernel X -> Kernel X -> Prop :=
| run_here k : run 0 k k
| run_cpu n k k1 k' : cpu_step k = Some k1 -> run n k1 k' -> run (S n) k k'
| run_key n sc k k' : interrupts_on k = true -> run n (keyboard_irq sc k) k' -> run n k k'
| run_tick n k k' : interrupts_on k = true -> run n (timer_irq k) k' -> run n k k'.

(** [kernel_main] once the shell is spawned: interrupts are on, nothing has been polled. *)
Definition boot (x : X) : Kernel X :=
  mkKernel keyboard_init (mkExecutor {[0%Z := mkTask 0%Z false]} [0%Z] ∅) x RunPop true [] [].

Definition reachable (x : X) k : Prop := exists n, run n (boot x) k.

(** The state after a history. *)
Definition happen (x : X) (e : Event) : X :=
  match e with
  | Started => snd (start x)
  | Handled sc => snd (handle sc x)
  | Ticked => tick x
  end.
Definition replay (h : list Event) (x : X) : X := fold_left happen h x.
Arguments replay _ _ : simpl never.

(** ** Invariant *)

(** Scancodes taken off the queue and not yet processed. *)
Definition in_flight (p : Pc) : list Z :=
  match p with
  | Polling _ (AtTake sc) | Polling _ (AtHandle sc) => [sc]
  | _ => []
  end.

Definition queued k : list Z := default [] (scancode_queue (kb k)).
Definition pending k : list Z := in_flight (pc k) ++ queued k.

(** The shell will be polled again without a new interrupt. *)
Definition scheduled k : Prop := 0%Z ∈ task_queue (ex k).

(** A key press will schedule the shell, unless it already is. *)
Definition armed k : Prop := waker (kb k) = Some (TaskWaker 0) \/ scheduled k.

(** What holds at each point, [st] being whether the shell has started. *)
Definition pc_inv (st : bool) k : Prop :=
  match pc k with
  | RunPop | SleepCli | SleepCheck =>
      (st = false -> scheduled k) /\ (st = true -> armed k) /\ (queued k <> [] -> scheduled k)
  | Halted => st = true /\ armed k /\ queued k = [] /\ task_queue (ex k) = []
  | Polling id AtStart => id = 0%Z /\ st = false
  | Polling id AtSecond => id = 0%Z /\ st = true /\ armed k
  | Polling id _ => id = 0%Z /\ st = true
  | Panicked | Hung => False
  end.

(** The shell's code returns on the states that satisfy [ok] and keeps them; so does a tick. *)
Context (ok : X -> Prop) (Hstart : total_on ok start) (Hhandle : forall sc, total_on ok (handle sc)).
Context (Htick : forall x, ok x -> ok (tick x)).

Record kinv (x0 : X) (st : bool) k : Prop := {
  k_tasks : tasks (ex k) = {[0%Z := mkTask 0%Z st]};
  k_queue : Forall (fun id => id = 0%Z) (task_queue (ex k));
  k_cache : forall id wk, waker_cache (ex k) !! id = Some wk -> wk = TaskWaker id;
  k_waker : waker (kb k) = None \/ waker (kb k) = Some (TaskWaker 0);
  k_stream : is_Some (scancode_queue (kb k)) <-> st = true;
  k_if : interrupts_on k = false <-> pc k = SleepCheck;
  k_fifo : accepted k = handled k ++ pending k;
  k_state : state k = replay (history k) x0;
  k_ok : ok (state k);
  k_pc : pc_inv st k;
  k_once : untimed (history k) = if st then Started :: map Handled (handled k) else [];
}.

Lemma keys_app h1 h2 : keys (h1 ++ h2) = keys h1 ++ keys h2.
Proof.
  apply omap_app.
Qed.

Lemma untimed_app h1 h2 : untimed (h1 ++ h2) = untimed h1 ++ untimed h2.
Proof.
  apply filter_app.
Qed.

Lemma untimed_keys h : keys (untimed h) = keys h.
Proof.
  induction h as [|e h IH]; [done|]. unfold untimed. rewrite filter_cons. fold (untimed h).
  change (e :: h) with ([e] ++ h). rewrite keys_app. destruct e; cbn [decide]; (case_decide; [|done]).
  - exact IH.
  - change (keys (Handled sc :: untimed h)) with (sc :: keys (untimed h)). by rewrite IH.
  - done.
Qed.

Lemma replay_snoc h e x : replay (h ++ [e]) x = happen (replay h x) e.
Proof.
  apply fold_left_app.
Qed.

(** A step of the shell's code that returns. *)
Lemma shell_step_ok e m next k :
  total_on ok m -> ok (state k) -> snd (m (state k)) = happen (state k) e ->
  shell_step e m next k = goto next (record e (happen (state k) e) k) /\ ok (happen (state k) e).
Proof.
  intros Hm Hk He. destruct (Hm _ Hk) as ([] & x & Ex & Hx). unfold shell_step.
  rewrite Ex in He |- *. cbn [snd] in He. by rewrite <- He.
Qed.

Lemma boot_inv x : ok x -> kinv x false (boot x).
Proof.
  intros Hx. split.
  - done.
  - by constructor.
  - done.
  - by left.
  - split; [by intros [? [=]]|done].
  - done.
  - done.
  - done.
  - done.
  - split; [intros _; by left|]. split; [done|]. intros Hq. by destruct Hq.
  - done.
Qed.

(** Waking the shell schedules it: on a full run queue it already is. *)
Lemma wake_scheduled q : Forall (fun id => id = 0%Z) q ->
  (0%Z ∈ wake (TaskWaker 0) q) /\ Forall (fun id => id = 0%Z) (wake (TaskWaker 0) q).
Proof.
  intros Hq. unfold wake, queue_push. case_decide as Hl; cbn [snd].
  - split; [set_solver|]. apply Forall_app. by split; [|constructor].
  - split; [|done]. destruct q as [|id q]; [simpl in Hl; unfold QUEUE_CAP in Hl; lia|].
    apply Forall_cons in Hq as [-> _]. by left.
Qed.

(** The keyboard interrupt keeps what is scheduled, schedules an armed shell and queues at the back. *)
Lemma latch_key_spec x0 st sc k :
  kinv x0 st k ->
  Forall (fun id => id = 0%Z) (task_queue (ex (latch_key sc k))) /\
  (waker (kb (latch_key sc k)) = None \/ waker (kb (latch_key sc k)) = Some (TaskWaker 0)) /\
  (is_Some (scancode_queue (kb (latch_key sc k))) <-> st = true) /\
  (exists t, queued (latch_key sc k) = queued k ++ t /\ accepted (latch_key sc k) = accepted k ++ t) /\
  (scheduled k -> scheduled (latch_key sc k)) /\ (st = true -> armed k -> scheduled (latch_key sc k)) /\
  (st = false -> queued (latch_key sc k) = []).
Proof.
  intros [I1 I2 I3 I4 I5 I6 I7 I8 Iok I9 I10]. destruct k as [[sq wk] e x p i acc han]. cbn in *.
  unfold latch_key, add_scancode, queued, armed, scheduled. cbn. destruct sq as [q|]; cbn.
  - assert (st = true) as -> by (apply I5; by eexists).
    set (q' := match wk with Some w => wake w (task_queue e) | None => task_queue e end).
    assert (Forall (fun id => id = 0%Z) q' /\ (0%Z ∈ task_queue e -> 0%Z ∈ q') /\
            (wk = Some (TaskWaker 0) -> 0%Z ∈ q')) as (W1 & W2 & W3).
    { unfold q'. destruct I4 as [->| ->]; [by split|]. by destruct (wake_scheduled _ I2). }
    split; [done|]. split; [by left|]. split; [done|]. split.
    + unfold queue_push. case_decide; cbn; [by exists [sc]|exists []; by rewrite !app_nil_r].
    + split; [done|]. split; [|done]. intros _ [Ha|Ha]; auto.
  - assert (st <> true) by (intros Hst; apply I5 in Hst as [? ?]; done).
    split; [done|]. split; [done|]. split; [done|]. split; [exists []; by rewrite app_nil_r|]. by destruct st.
Qed.

(** An interrupt that leaves the program counter alone keeps the invariant; so does waking from [hlt]. *)
Lemma resume_inv x0 st k k1 :
  kinv x0 st k -> interrupts_on k = true ->
  tasks (ex k1) = tasks (ex k) -> waker_cache (ex k1) = waker_cache (ex k) ->
  state k1 = replay (history k1) x0 -> ok (state k1) ->
  pc k1 = pc k -> interrupts_on k1 = interrupts_on k -> untimed (history k1) = untimed (history k) ->
  Forall (fun id => id = 0%Z) (task_queue (ex k1)) ->
  (waker (kb k1) = None \/ waker (kb k1) = Some (TaskWaker 0)) ->
  (is_Some (scancode_queue (kb k1)) <-> st = true) ->
  (exists t, queued k1 = queued k ++ t /\ accepted k1 = accepted k ++ t) ->
  (scheduled k -> scheduled k1) -> (st = true -> armed k -> armed k1 /\ (queued k1 <> [] -> queued k <> [] \/ scheduled k1)) ->
  (st = false -> queued k1 = []) -> kinv x0 st (resume k1).
Proof.
  intros [I1 I2 I3 I4 I5 I6 I7 I8 Iok I9 I10] Hi T1 T2 T3 T3' T4 T5 T6' Q1 Q2 Q3 (t & Q4 & Q5) Q6 Q7 Q8.
  assert (handled k1 = handled k) as T6 by (unfold handled; by rewrite <- (untimed_keys (history k1)), T6', untimed_keys).
  assert (forall k2, kb k2 = kb k1 -> ex k2 = ex k1 -> state k2 = state k1 -> interrupts_on k2 = interrupts_on k1 ->
    history k2 = history k1 -> accepted k2 = accepted k1 -> in_flight (pc k2) = in_flight (pc k) ->
    pc k2 <> SleepCheck -> pc_inv st k2 -> kinv x0 st k2) as Hgo.
  { intros k2 E1 E2 E3 E4 E5 E6 E7 E8 E9. split; rewrite ?E1, ?E2, ?E3, ?E5; try congruence.
    - by rewrite T2.
    - rewrite E4, T5, Hi. split; [done|]. intros ?. done.
    - rewrite E6, Q5, I7. unfold pending, handled. rewrite E7, E5. fold (handled k1). unfold queued in *.
      rewrite E1, Q4, T6. by rewrite !app_assoc.
    - rewrite T6', I10. unfold handled. rewrite E5. fold (handled k1). by rewrite T6. }
  assert (pc k <> SleepCheck) as Hsc by (intros Hsc; apply I6 in Hsc; congruence).
  assert ((st = false -> scheduled k) /\ (st = true -> armed k) /\ (queued k <> [] -> scheduled k) ->
    (st = false -> scheduled k1) /\ (st = true -> armed k1) /\ (queued k1 <> [] -> scheduled k1)) as Hidle.
  { intros (J1 & J2 & J3). split; [auto|]. split; [intros Hst; by apply Q7; auto|]. intros Hq.
    destruct st; [|by rewrite Q8 in Hq]. destruct (proj2 (Q7 eq_refl (J2 eq_refl)) Hq); auto. }
  unfold pc_inv in I9. unfold resume. rewrite T4. destruct (pc k) as [|id at_| | | | |] eqn:Hp; try done.
  - apply Hgo; try done; [by rewrite T4|by rewrite T4|]. unfold pc_inv. rewrite T4. auto.
  - apply Hgo; try done; [by rewrite T4|by rewrite T4|]. unfold pc_inv. rewrite T4.
    destruct at_; try done. destruct I9 as (-> & -> & Ha). split; [done|]. split; [done|]. by apply Q7.
  - apply Hgo; try done; [by rewrite T4|by rewrite T4|]. unfold pc_inv. rewrite T4. auto.
  - destruct I9 as (-> & Ha & Hq & Ht). apply Hgo; try done. unfold pc_inv. cbn [pc goto].
    change (scheduled (goto RunPop k1)) with (scheduled k1). change (armed (goto RunPop k1)) with (armed k1).
    change (queued (goto RunPop k1)) with (queued k1). apply Hidle. by rewrite Hq.
Qed.

Lemma keyboard_irq_inv x0 st sc k : kinv x0 st k -> interrupts_on k = true -> kinv x0 st (keyboard_irq sc k).
Proof.
  intros I Hi. destruct (latch_key_spec x0 st sc k I) as (A1 & A2 & A3 & A4 & A5 & A6 & A7).
  pose proof I as [_ _ _ _ _ _ _ I8 Iok _ _].
  apply (resume_inv x0 st k (latch_key sc k) I Hi); try done; try (unfold latch_key; by destruct (add_scancode _ _ _)).
  intros Hst Ha. split; [by right; auto|]. intros _. right. auto.
Qed.

Lemma timer_irq_inv x0 st k : kinv x0 st k -> interrupts_on k = true -> kinv x0 st (timer_irq k).
Proof.
  intros I Hi. pose proof I as [I1 I2 I3 I4 I5 I6 I7 I8 Iok I9 I10].
  apply (resume_inv x0 st k _ I Hi); try done.
  - cbn [state record history]. by rewrite replay_snoc, <- I8.
  - by apply Htick.
  - cbn [record history]. rewrite untimed_app. by rewrite app_nil_r.
  - exists []. by rewrite !app_nil_r.
  - intros _ Ha. split; [done|]. intros Hq. by left.
  - intros ->. unfold queued. cbn [kb record]. destruct (scancode_queue (kb k)) eqn:E; [|done].
    assert (false = true) by (apply I5; by eexists). done.
Qed.

(** Steps of the shell's poll. *)
Lemma poll_step_inv x0 st id at_ k :
  kinv x0 st k -> pc k = Polling id at_ -> exists st', kinv x0 st' (poll_step id at_ k).
Proof.
  intros I Hpc. destruct k as [[sq wk] [ts tq wc] x p ie acc han]. cbn in Hpc. subst p.
  destruct I as [I1 I2 I3 I4 I5 I6 I7 I8 Iok I9 I10].
  unfold pc_inv, pending, queued, armed, scheduled, handled in *. cbn in *.
  assert (ie = true) as -> by (destruct ie; [done|]; discriminate (proj1 I6 eq_refl)).
  destruct at_ as [| | | |sc|sc]; cbn.
  - destruct I9 as [-> ->]. exists true. destruct sq as [q|]; [assert (false = true) by (apply I5; by eexists); done|].
    assert (keys han = []) as Hnk by (by rewrite <- untimed_keys, I10). rewrite Hnk in I7.
    cbn in *. unfold kb_step, stream_new. cbn. match goal with |- context [shell_step _ _ _ ?kk] => set (k1 := kk) end.
    destruct (shell_step_ok Started start (Polling 0 AtFirst) k1 Hstart Iok eq_refl) as [-> Hok].
    split; unfold pc_inv, pending, queued, handled; cbn; try done.
    + by rewrite I1, insert_singleton_eq.
    + by rewrite keys_app, Hnk.
    + by rewrite replay_snoc, <- I8.
    + by rewrite untimed_app, keys_app, I10, Hnk.
  - destruct I9 as [-> ->]. exists true. destruct (proj2 I5 eq_refl) as [q ->]. unfold kb_step, poll_pop. cbn.
    destruct q as [|sc q]; cbn; split; unfold pc_inv, pending, queued; cbn; try done.
  - destruct I9 as [-> ->]. exists true. unfold kb_step, poll_register. cbn.
    assert (default (TaskWaker 0) (wc !! 0%Z) = TaskWaker 0) as ->
      by (destruct (wc !! 0%Z) eqn:E; [by apply I3 in E as ->|done]).
    split; unfold pc_inv, pending, queued, armed; cbn; auto; done.
  - destruct I9 as (-> & -> & Ha). exists true. destruct (proj2 I5 eq_refl) as [q ->]. unfold kb_step, poll_pop. cbn.
    destruct q as [|sc q]; cbn; split; unfold pc_inv, pending, queued, armed, scheduled; cbn; try done.
  - destruct I9 as [-> ->]. exists true. unfold kb_step, poll_take. cbn.
    split; unfold pc_inv, pending, queued; cbn; auto; done.
  - destruct I9 as [-> ->]. exists true. match goal with |- context [shell_step _ _ _ ?kk] => set (k1 := kk) end.
    destruct (shell_step_ok (Handled sc) (handle sc) (Polling 0 AtFirst) k1 (Hhandle sc) Iok eq_refl) as [-> Hok].
    split; unfold pc_inv, pending, queued, handled; cbn; try done.
    + rewrite I7, keys_app. cbn. by rewrite <- app_assoc.
    + by rewrite replay_snoc, <- I8.
    + rewrite untimed_app, keys_app, I10, map_app. done.
Qed.

Lemma cpu_step_inv x0 st k k1 : kinv x0 st k -> cpu_step k = Some k1 -> exists st', kinv x0 st' k1.
Proof.
  intros I Hs. destruct (pc k) as [|id at_| | | | |] eqn:Hpc; unfold cpu_step in Hs; rewrite Hpc in Hs; try done.
  2:{ injection Hs as <-. by apply (poll_step_inv x0 st). }
  all: exists st; destruct k as [b [ts tq wc] x p ie acc han]; cbn in Hpc; subst p;
    destruct I as [I1 I2 I3 I4 I5 I6 I7 I8 Iok I9 I10]; unfold pc_inv, pending in *; cbn in *.
  - assert (ie = true) as -> by (destruct ie; [done|]; discriminate (proj1 I6 eq_refl)).
    destruct tq as [|id q]; cbn in Hs; [injection Hs as <-; by split|].
    apply Forall_cons in I2 as [-> I2]. rewrite I1, lookup_singleton_eq in Hs. injection Hs as <-.
    split; unfold pc_inv, pending; cbn; try done.
    + intros id wk' [[<- <-]|[_ Hl]]%lookup_insert_Some; [|by apply I3].
      destruct (wc !! 0%Z) eqn:E; [by apply I3 in E as ->|done].
    + by destruct st.
    + by destruct st.
  - injection Hs as <-. by split.
  - case_decide as Hq; injection Hs as <-; split; unfold pc_inv, pending; cbn; try done.
    subst tq. unfold armed, scheduled in *. cbn in *. destruct I9 as (J1 & J2 & J3).
    destruct st; [|by specialize (J1 eq_refl); apply elem_of_nil in J1]. split; [done|]. split; [by apply J2|].
    split; [|done]. unfold queued in *. cbn in *. destruct (default [] (scancode_queue b)) eqn:E; [done|].
    by specialize (J3 ltac:(done)); apply elem_of_nil in J3.
Qed.

Lemma run_inv x0 st n k k' : kinv x0 st k -> run n k k' -> exists st', kinv x0 st' k'.
Proof.
  intros I H. revert st I. induction H as [k|n k k1 k' Hc _ IH|n sc k k' Hi _ IH|n k k' Hi _ IH]; intros st I.
  - by exists st.
  - destruct (cpu_step_inv _ _ _ _ I Hc) as [st' I']. by apply (IH st').
  - apply (IH st). by apply keyboard_irq_inv.
  - apply (IH st). by apply timer_irq_inv.
Qed.

(** ** Progress *)

(** CPU steps until a pending scancode is processed, at most. *)
Definition rank (p : Pc) : nat :=
  match p with
  | Polling _ (AtHandle _) => 1
  | Polling _ (AtTake _) => 2
  | Polling _ AtFirst => 2
  | Polling _ AtStart => 3
  | Polling _ AtSecond => 3
  | Polling _ AtRegister => 4
  | RunPop => 4
  | SleepCheck => 5
  | SleepCli => 6
  | Halted | Panicked | Hung => 0
  end.

Lemma rank_bound p : rank p <= 6.
Proof.
  destruct p as [|? []| | | | |]; simpl; lia.
Qed.

Lemma shell_step_fields e m next k :
  accepted (shell_step e m next k) = accepted k /\ history (shell_step e m next k) = history k ++ [e].
Proof.
  unfold shell_step. by destruct (m (state k)) as [[]].
Qed.

(** While something is pending the CPU is awake, and each of its steps brings it closer. *)
Lemma cpu_progress x0 st k :
  kinv x0 st k -> pending k <> [] ->
  exists k1, cpu_step k = Some k1 /\ accepted k1 = accepted k /\
    (length (handled k1) = S (length (handled k)) \/ (handled k1 = handled k /\ rank (pc k1) < rank (pc k))).
Proof.
  intros [I1 I2 I3 I4 I5 I6 I7 I8 Iok I9 I10] Hp. destruct k as [[sq wk] [ts tq wc] x p ie acc han].
  unfold pending, queued, pc_inv, armed, scheduled, cpu_step in *. cbn in *.
  destruct p as [|id at_| | | | |]; cbn in *; try done.
  - destruct I9 as (_ & _ & J3). destruct tq as [|id q]; [by destruct (not_elem_of_nil 0%Z (J3 Hp))|].
    apply Forall_cons in I2 as [-> I2]. cbn. rewrite I1, lookup_singleton_eq. eexists. split; [done|].
    split; [done|]. right. split; [done|]. by destruct st; cbn; lia.
  - destruct at_ as [| | | |sc|sc]; cbn in *.
    + destruct I9 as [-> ->]. destruct sq as [q|]; [|done]. assert (false = true) by (apply I5; by eexists). done.
    + destruct I9 as [-> ->]. destruct (proj2 I5 eq_refl) as [q ->]. destruct q as [|sc q]; [done|].
      eexists. split; [done|]. split; [done|]. right. split; [done|cbn; lia].
    + eexists. split; [done|]. split; [done|]. right. split; [done|cbn; lia].
    + destruct I9 as (-> & -> & _). destruct (proj2 I5 eq_refl) as [q ->]. destruct q as [|sc q]; [done|].
      eexists. split; [done|]. split; [done|]. right. split; [done|cbn; lia].
    + eexists. split; [done|]. split; [done|]. right. split; [done|cbn; lia].
    + eexists. split; [done|]. destruct (shell_step_fields (Handled sc) (handle sc) (Polling id AtFirst)
        (mkKernel (mkKeyboard sq wk) (mkExecutor ts tq wc) x (Polling id (AtHandle sc)) ie acc han)) as [-> Hh].
      split; [done|]. left. unfold handled. rewrite Hh, keys_app, length_app. change (length (keys [Handled sc])) with 1. cbn [history]. lia.
  - eexists. split; [done|]. split; [done|]. right. split; [done|cbn; lia].
  - destruct I9 as (_ & _ & J3). rewrite decide_False by (intros ->; by destruct (not_elem_of_nil 0%Z (J3 Hp))).
    eexists. split; [done|]. split; [done|]. right. split; [done|cbn; lia].
  - by destruct I9 as (_ & _ & Hq & _).
Qed.

Lemma resume_fields k :
  accepted (resume k) = accepted k /\ handled (resume k) = handled k /\
  (pc k <> Halted -> resume k = k).
Proof.
  unfold resume. by destruct (pc k).
Qed.

Lemma latch_fields sc k :
  accepted k `prefix_of` accepted (latch_key sc k) /\ handled (latch_key sc k) = handled k /\
  pc (latch_key sc k) = pc k.
Proof.
  unfold latch_key. destruct (add_scancode _ _ _) as [b q]. cbn. split; [|done].
  set (taken := match _ with Some _ => _ | None => _ end). destruct taken; [by eexists|done].
Qed.

Lemma keyboard_irq_fields sc k :
  accepted k `prefix_of` accepted (keyboard_irq sc k) /\ handled (keyboard_irq sc k) = handled k /\
  (pc k <> Halted -> pc (keyboard_irq sc k) = pc k).
Proof.
  unfold keyboard_irq. destruct (latch_fields sc k) as (L1 & L2 & L3).
  destruct (resume_fields (latch_key sc k)) as (-> & -> & R3). split; [done|]. split; [done|].
  intros Hp. by rewrite R3 by (by rewrite L3).
Qed.

Lemma timer_irq_fields k :
  accepted (timer_irq k) = accepted k /\ handled (timer_irq k) = handled k /\
  (pc k <> Halted -> pc (timer_irq k) = pc k).
Proof.
  assert (handled (record Ticked (tick (state k)) k) = handled k) as Hh.
  { unfold handled. cbn [record history]. by rewrite keys_app, app_nil_r. }
  unfold timer_irq, resume. cbn [pc record]. destruct (pc k) eqn:Hp; (split; [done|split; [exact Hh|by intros ?]]).
Qed.

Lemma shell_step_mono e m next k :
  accepted (shell_step e m next k) = accepted k /\ handled k `prefix_of` handled (shell_step e m next k).
Proof.
  destruct (shell_step_fields e m next k) as [-> Hh]. split; [done|]. unfold handled. rewrite Hh, keys_app. by eexists.
Qed.

Lemma kb_step_fields {A} (m : M Keyboard Empty_set A) next k :
  (forall a k, accepted (next a k) = accepted k /\ handled k `prefix_of` handled (next a k)) ->
  accepted (kb_step m next k) = accepted k /\ handled k `prefix_of` handled (kb_step m next k).
Proof.
  intros Hn. unfold kb_step. destruct (m (kb k)) as [[a|e| |] b]; try done. apply (Hn a (with_kb b k)).
Qed.

Lemma cpu_step_mono k k1 :
  cpu_step k = Some k1 -> accepted k1 = accepted k /\ handled k `prefix_of` handled k1.
Proof.
  unfold cpu_step. intros H. destruct (pc k) as [|id at_| | | | |]; [..|done|done|done].
  - destruct (queue_pop _) as [[id|] q]; [destruct (_ !! _)|]; by simplify_eq/=.
  - injection H as <-. destruct at_ as [| | | |sc|sc]; [apply kb_step_fields..|apply shell_step_mono];
      intros a k0; [apply (shell_step_mono Started start (Polling id AtFirst) (with_ex _ k0))|by try destruct a..].
  - by simplify_eq/=.
  - case_decide; by simplify_eq/=.
Qed.

Lemma run_mono n k k' : run n k k' -> accepted k `prefix_of` accepted k' /\ handled k `prefix_of` handled k'.
Proof.
  induction 1 as [k|n k k1 k' Hc _ [IH1 IH2]|n sc k k' _ _ [IH1 IH2]|n k k' _ _ [IH1 IH2]]; [done|..].
  - destruct (cpu_step_mono k k1 Hc) as [Ha Hh]. rewrite Ha in IH1. split; [done|by etrans].
  - destruct (keyboard_irq_fields sc k) as (F1 & F2 & _). rewrite F2 in IH2. split; [by etrans|done].
  - destruct (timer_irq_fields k) as (F1 & F2 & _). by rewrite F1, F2 in *.
Qed.

(** CPU steps until [t] scancodes are processed, at most. *)
Definition distance (t : nat) k : nat :=
  if decide (t <= length (handled k)) then 0 else 6 * (t - length (handled k) - 1) + rank (pc k).

Lemma behind_pending x0 st t k :
  kinv x0 st k -> t <= length (accepted k) -> ~ t <= length (handled k) -> pending k <> [].
Proof.
  intros I Ht Hh Hp. pose proof (k_fifo _ _ _ I) as Hf. rewrite Hp, app_nil_r in Hf. rewrite Hf in Ht. lia.
Qed.

Lemma pending_awake x0 st k : kinv x0 st k -> pending k <> [] -> pc k <> Halted /\ 1 <= rank (pc k).
Proof.
  intros I Hp. pose proof (k_pc _ _ _ I) as Hpc. unfold pc_inv, pending in *.
  destruct (pc k) as [|? []| | | | |]; simpl in *; try (split; [done|lia]).
  by destruct Hpc as (_ & _ & Hq & _).
Qed.

Lemma run_reaches x0 st t n k k' :
  kinv x0 st k -> t <= length (accepted k) -> run n k k' -> distance t k <= n -> t <= length (handled k').
Proof.
  intros I Ht H. revert st I Ht. induction H as [k|n k k1 k' Hc Hr IH|n sc k k' Hi Hr IH|n k k' Hi Hr IH];
    intros st I Ht Hd; unfold distance in Hd;
    (destruct (decide (t <= length (handled k))) as [Hh|Hh]; [|pose proof (behind_pending _ _ _ _ I Ht Hh) as Hp;
      destruct (pending_awake _ _ _ I Hp) as [Hnh Hrk]]).
  - done.
  - lia.
  - destruct (run_mono _ _ _ Hr) as [_ [t2 E2]]. destruct (cpu_step_mono _ _ Hc) as [_ [t1 E1]].
    rewrite E2, E1, !length_app. lia.
  - destruct (cpu_progress _ _ _ I Hp) as (k2 & Hc2 & Ha & Hor). rewrite Hc in Hc2. injection Hc2 as <-.
    destruct (cpu_step_inv _ _ _ _ I Hc) as [st' I']. apply (IH st' I'); [by rewrite Ha|].
    unfold distance. pose proof (rank_bound (pc k1)). case_decide; [lia|]. destruct Hor as [Hl|[-> Hlt]]; lia.
  - destruct (run_mono _ _ _ Hr) as [_ [t2 E2]]. destruct (keyboard_irq_fields sc k) as (_ & F2 & _).
    rewrite E2, F2, length_app. lia.
  - destruct (keyboard_irq_fields sc k) as ([t1 F1] & F2 & F3).
    apply (IH st); [by apply keyboard_irq_inv|rewrite F1, length_app; lia|].
    unfold distance. rewrite F2, F3, decide_False by done. done.
  - destruct (run_mono _ _ _ Hr) as [_ [t2 E2]]. destruct (timer_irq_fields k) as (_ & F2 & _).
    rewrite E2, F2, length_app. lia.
  - destruct (timer_irq_fields k) as (F1 & F2 & F3).
    apply (IH st); [by apply timer_irq_inv|by rewrite F1|].
    unfold distance. rewrite F2, F3, decide_False by done. done.
Qed.

(** ** Correctness *)

(** C6: no key is lost or reordered, and no wake-up is missed. With a shell whose code returns, whenever
    and however often interrupts fire, the kernel loop never panics or hangs; the scancodes the queue
    took are the processed ones, the one in flight and the queued ones, in order of arrival; the shell
    starts once, before it processes anything, and its state is that of its events, ticks included, in
    the order they happened; and the CPU halts only with every accepted scancode processed. *)
Theorem no_lost_wakeup x k :
  ok x -> reachable x k ->
  pc k <> Panicked /\ pc k <> Hung /\ accepted k = handled k ++ pending k /\
  state k = replay (history k) x /\
  (untimed (history k) = [] \/ untimed (history k) = Started :: map Handled (handled k)) /\
  (pc k = Halted -> handled k = accepted k).
Proof.
  intros Hx [n H]. destruct (run_inv x false n _ _ (boot_inv x Hx) H) as [st I].
  pose proof I as [I1 I2 I3 I4 I5 I6 I7 I8 Iok I9 I10]. split_and!; [..|done|done|destruct st; auto|].
  - intros Hp. unfold pc_inv in I9. by rewrite Hp in I9.
  - intros Hp. unfold pc_inv in I9. by rewrite Hp in I9.
  - intros Hp. unfold pc_inv, pending in *. rewrite Hp in *. destruct I9 as (_ & _ & Hq & _).
    by rewrite I7, Hq, app_nil_r.
Qed.

(** C16: bounded response. With a shell whose code returns, from any reachable state, within six CPU steps per pending scancode every
    scancode accepted so far has been processed, no matter how many interrupts fire in between; and
    as long as one is pending, the CPU can take a step. *)
Theorem bounded_response x k n k' :
  ok x -> reachable x k -> run n k k' -> 6 * length (pending k) <= n ->
  accepted k `prefix_of` handled k' /\ (pending k <> [] -> exists k1, cpu_step k = Some k1).
Proof.
  intros Hx [m H] Hr Hn. destruct (run_inv x false m _ _ (boot_inv x Hx) H) as [st I].
  destruct (run_inv x st n _ _ I Hr) as [st' I']. split.
  - assert (length (accepted k) <= length (handled k')) as Hle.
    { eapply (run_reaches x st); [done|done|done|]. unfold distance. case_decide as Hd; [lia|].
      pose proof (k_fifo _ _ _ I) as Hf. rewrite Hf, length_app in Hd |- *. pose proof (rank_bound (pc k)). lia. }
    destruct (run_mono _ _ _ Hr) as [Hp _].
    destruct (prefix_weak_total (accepted k) (handled k') (accepted k')) as [Hw|Hw];
      [done|rewrite (k_fifo _ _ _ I'); by eexists|done|].
    by rewrite (prefix_length_eq _ _ Hw).
  - intros Hp. destruct (cpu_progress _ _ _ I Hp) as (k1 & Hk1 & _). by exists k1.
Qed.

End wakeup.

(** ** A schedule *)

Module schedule.

Inductive event : Set :=
| Cpu
| Key (sc : Z)
| Tick.

(** A shell that collects scancodes, with the clock at which each came. *)
Abbreviation log := (Z * list (Z * Z))%type.
Definition start : M log Empty_set unit := ret tt.
Definition handle (sc : Z) : M log Empty_set unit := fun '(t, l) => (Ok tt, (t, l ++ [(t, sc)])).
Definition tick (x : log) : log := (fst x + 1, snd x)%Z.
Definition anything (_ : log) : Prop := True.

Lemma start_total : total_on anything start.
Proof.
  intros x _. by exists tt, x.
Qed.

Lemma handle_total sc : total_on anything (handle sc).
Proof.
  intros [t l] _. by exists tt, (t, l ++ [(t, sc)]).
Qed.

(** Play a sequence of events; none if one of them cannot happen. *)
Fixpoint play (evs : list event) (k : Kernel log) : option (Kernel log) :=
  match evs with
  | [] => Some k
  | Cpu :: evs' => k1 ← cpu_step start handle k; play evs' k1
  | Key sc :: evs' => if interrupts_on k then play evs' (keyboard_irq sc k) else None
  | Tick :: evs' => if interrupts_on k then play evs' (timer_irq tick k) else None
  end.

Definition cpu_steps (evs : list event) : nat :=
  length (List.filter (fun e => match e with Cpu => true | _ => false end) evs).

Lemma play_run evs k k' : play evs k = Some k' -> run start handle tick (cpu_steps evs) k k'.
Proof.
  revert k. induction evs as [|[|sc|] evs IH]; intros k H; cbn in H.
  - injection H as <-. constructor.
  - apply bind_Some in H as (k1 & Hc & H). econstructor; [done|by apply IH].
  - destruct (interrupts_on k) eqn:Hi; [|done]. apply run_key with sc; [done|by apply IH].
  - destruct (interrupts_on k) eqn:Hi; [|done]. apply run_tick; [done|by apply IH].
Qed.

(** The key arrives between the shell's first look at the queue and its registration for wake-ups. *)
Definition race : list event := [Cpu; Cpu; Cpu; Key 30; Tick; Key 31].

Definition raced : Kernel log := default (boot (0, [])%Z) (play race (boot (0, [])%Z)).

Lemma raced_reachable : reachable start handle tick (0, [])%Z raced.
Proof.
  exists (cpu_steps race). apply play_run. vm_compute. reflexivity.
Qed.

Lemma no_lost_wakeup_witness :
  pc raced <> Panicked /\ accepted raced = handled raced ++ pending raced /\
  state raced = replay start handle tick [Started; Ticked] (0, [])%Z.
Proof.
  destruct (no_lost_wakeup start handle tick anything start_total handle_total (fun _ _ => I) (0, [])%Z raced I raced_reachable)
    as (H1 & _ & H2 & H3 & _).
  split; [exact H1|]. split; [exact H2|exact H3].
Defined.

Lemma bounded_response_witness :
  exists k', play (replicate 12 Cpu) raced = Some k' /\ [30; 31]%Z `prefix_of` handled k'.
Proof.
  eexists. split; [vm_compute; reflexivity|].
  eapply (proj1 (bounded_response start handle tick anything start_total handle_total (fun _ _ => I) (0, [])%Z raced 12 _ I
    raced_reachable (play_run (replicate 12 Cpu) raced _ ltac:(vm_compute; reflexivity)) ltac:(vm_compute; lia))).
Defined.

End schedule.
