(* ===== verification/Shell.v ===== *)
(** * The shell (src/kernel/src/shell.rs)

    The command interpreter [Shell::execute_line], with every built-in command, and the key loop of
    [shell_loop]: line editing, echo, dispatch on Enter and scrollback keys. The scancode decoder
    (crate [pc_keyboard]) is a parameter. *)

From S2P Require Import Prelude.
From S2P Require Import Vfs.
From S2P Require Import Block.
From S2P Require Import Keyboard.

Definition HELP_TEXT : str := s_ "willo shell — built-in commands:
  pwd                  print working directory
  ls [path]            list entries in path (or cwd)
  cd <path>            change directory
  cat <path>           print file contents
  echo <text>          echo arguments
  clear                clear the screen
  mount                show what is mounted at /
  uptime               show timer ticks since boot
  touch <path>         create empty file (or truncate)
  mkdir <path>         create directory
  rm <path>            delete file or empty directory
  write <path> <text>  overwrite file with text
  help                 show this help
".

(** ["\x1bCLR"]. *)
Definition CLEAR_SENTINEL : str := Byte.x1b :: s_ "CLR".

(** [u8::is_ascii_whitespace]. *)
Definition is_ascii_ws (b : byte) : bool :=
  bool_decide (b ∈ [Byte.x20; Byte.x09; Byte.x0a; Byte.x0c; Byte.x0d]).

(** [str::split_ascii_whitespace]. *)
Fixpoint split_ws (s : str) (word : str) : list str :=
  match s with
  | [] => if decide (word = []) then [] else [word]
  | b :: s' =>
      if is_ascii_ws b then (if decide (word = []) then [] else [word]) ++ split_ws s' []
      else split_ws s' (word ++ [b])
  end.
Definition split_ascii_whitespace (s : str) : list str := split_ws s [].

Record Shell (F : Type) : Type := mkShell { vfs : Vfs F; cwd : str }.
Arguments mkShell {F} _ _.
Arguments vfs {F} _.
Arguments cwd {F} _.

Definition shell_new {F} (v : Vfs F) : Shell F := mkShell v (s_ "/").
Definition prompt {F} (sh : Shell F) : str := s_ "willo:" ++ cwd sh ++ s_ "$ ".

Section shell.
Context {D C F : Type} `{CO : Console C} `{FS : FileSystem (Devices D C) F}.
Abbreviation W := (Devices D C).

(** Commands return their output; they have no error of their own. *)
Definition sh_op (A : Type) : Type := M (Shell F * W) Empty_set A.

(** [match self.vfs.op(..) { Ok(a) => .., Err(e) => .. }]. *)
Definition on_vfs {A B} (op : M (Vfs F * W) FsError A) (kok : A -> sh_op B) (kerr : FsError -> sh_op B)
    : sh_op B := fun '(sh, w) =>
  let '(r, (v', w')) := op (vfs sh, w) in
  let s' := (mkShell v' (cwd sh), w') in
  match r with
  | Ok a => kok a s'
  | Err e => kerr e s'
  | Panic => (Panic, s')
  | Diverge => (Diverge, s')
  end.

Definition get_cwd : sh_op str := fun s => (Ok (cwd (fst s)), s).
Definition set_cwd (p : str) : sh_op unit := fun '(sh, w) => (Ok tt, (mkShell (vfs sh) p, w)).

(** [self.vfs.is_dir(p)]; the method has no error. *)
Definition sh_is_dir (p : str) : sh_op bool := on_vfs (vfs_is_dir p) ret (fun _ => ret false).

(** The path argument, or the text for a missing one. *)
Definition with_path (path : option str) (missing : str) (k : str -> sh_op str) : sh_op str :=
  match path with
  | Some p => let* cw := get_cwd in k (normalize cw p)
  | None => ret missing
  end.

(** The listing loop of [cmd_ls]. *)
Fixpoint ls_entries (target : str) (names : list str) (out : str) : sh_op str :=
  match names with
  | [] => ret out
  | name :: rest =>
      let child := trim_end "/" target ++ s_ "/" ++ name in
      let* isd := sh_is_dir child in
      ls_entries target rest (out ++ name ++ (if isd then s_ "/" else []) ++ NL)
  end.

Definition cmd_ls (path : option str) : sh_op str :=
  let* cw := get_cwd in
  let target := match path with Some p => normalize cw p | None => cw end in
  on_vfs (vfs_list_dir target)
    (fun entries => ls_entries target (sort_strs entries) [])
    (fun e =>
       match e with
       | NotFound => ret (s_ "ls: not found: " ++ target ++ NL)
       | NotADir => ret (s_ "ls: not a directory: " ++ target ++ NL)
       | IsADir => panic
       | Io => ret (s_ "ls: i/o error: " ++ target ++ NL)
       | Unsupported => ret (s_ "ls: unsupported: " ++ target ++ NL)
       end).

Definition cmd_cd (path : option str) : sh_op str :=
  let* cw := get_cwd in
  let p := match path with Some p => normalize cw p | None => s_ "/" end in
  let* isd := sh_is_dir p in
  if negb isd then ret (s_ "cd: not a directory: " ++ p ++ NL)
  else set_cwd p ;;; ret [].

(** File contents as text: UTF-8 as it is, anything else byte by byte as Latin-1, newline-ended. *)
Definition cat_text (b : bytes) : str :=
  let s := if utf8_decode b is Some _ then b else concat (map latin1 b) in
  if ends_with Byte.x0a s then s else s ++ NL.

Definition cmd_cat (path : option str) : sh_op str :=
  with_path path (s_ "cat: missing operand" ++ NL) (fun p =>
    on_vfs (vfs_read_file p)
      (fun b => ret (cat_text b))
      (fun e =>
         match e with
         | NotFound => ret (s_ "cat: not found: " ++ p ++ NL)
         | IsADir => ret (s_ "cat: is a directory: " ++ p ++ NL)
         | NotADir => ret (s_ "cat: not a directory: " ++ p ++ NL)
         | Io => ret (s_ "cat: i/o error: " ++ p ++ NL)
         | Unsupported => ret (s_ "cat: unsupported: " ++ p ++ NL)
         end)).

(** The common shape of [touch], [mkdir], [rm] and [write]. *)
Definition report (name p : str) (op : M (Vfs F * W) FsError unit) : sh_op str :=
  on_vfs op
    (fun _ => ret [])
    (fun e =>
       match e with
       | Unsupported => ret (name ++ s_ ": read-only filesystem" ++ NL)
       | _ => ret (name ++ s_ ": " ++ p ++ s_ ": " ++ fs_error_debug e ++ NL)
       end).

Definition cmd_touch (path : option str) : sh_op str :=
  with_path path (s_ "touch: missing operand" ++ NL) (fun p => report (s_ "touch") p (vfs_create_file p)).

Definition cmd_mkdir (path : option str) : sh_op str :=
  with_path path (s_ "mkdir: missing operand" ++ NL) (fun p => report (s_ "mkdir") p (vfs_create_dir p)).

Definition cmd_rm (path : option str) : sh_op str :=
  with_path path (s_ "rm: missing operand" ++ NL) (fun p => report (s_ "rm") p (vfs_remove p)).

Definition cmd_write (args : list str) : sh_op str :=
  with_path (head args) (s_ "write: missing operand: <path> <text...>" ++ NL) (fun p =>
    let content := join (s_ " ") (tail args) ++ NL in
    report (s_ "write") p (vfs_write_file p content)).

Definition cmd_mount : sh_op str := fun s =>
  (Ok (concat (map (fun '(p, backing) => p ++ s_ " on " ++ backing ++ NL)
                   (vfs_mounts (W:=W) (vfs (fst s))))), s).

Definition cmd_uptime : sh_op str := fun s => (Ok (dec (timer_ticks (snd s)) ++ s_ " ticks" ++ NL), s).

Definition execute_line (line : str) : sh_op str :=
  match split_ascii_whitespace line with
  | [] => ret []
  | cmd :: args =>
      if decide (cmd = s_ "pwd") then let* cw := get_cwd in ret (cw ++ NL)
      else if decide (cmd = s_ "ls") then cmd_ls (head args)
      else if decide (cmd = s_ "cd") then cmd_cd (head args)
      else if decide (cmd = s_ "cat") then cmd_cat (head args)
      else if decide (cmd = s_ "echo") then ret (join (s_ " ") args ++ NL)
      else if decide (cmd = s_ "clear") then ret CLEAR_SENTINEL
      else if decide (cmd = s_ "mount") then cmd_mount
      else if decide (cmd = s_ "uptime") then cmd_uptime
      else if decide (cmd = s_ "touch") then cmd_touch (head args)
      else if decide (cmd = s_ "mkdir") then cmd_mkdir (head args)
      else if decide (cmd = s_ "rm") then cmd_rm (head args)
      else if decide (cmd = s_ "write") then cmd_write args
      else if decide (cmd = s_ "help") then ret HELP_TEXT
      else ret (s_ "willo: command not found: " ++ cmd ++ NL)
  end.

(** ** The key loop *)

(** The line buffer next to the shell. *)
Record Loop : Type := mkLoop { shell : Shell F; line : str }.

Definition MAX_INPUT : Z := 120.

Definition loop_op : Type := M (Loop * W) Empty_set unit.

(** An operation on the devices, leaving the loop's variables alone. *)
Definition on_world {X E A} (m : M W E A) : M (X * W) E A := fun '(x, w) =>
  let '(r, w') := m w in (r, (x, w')).

(** [print!] and [serial_print!] of the same text. *)
Definition emit {X} (s : str) : M (X * W) Empty_set unit :=
  on_world (print s) ;;; on_world (serial_print s).

(** [shell.execute_line(&line)]. *)
Definition run_line : M (Loop * W) Empty_set str := fun '(l, w) =>
  let '(r, (sh', w')) := execute_line (line l) (shell l, w) in (r, (mkLoop sh' (line l), w')).

Definition set_line (s : str) : loop_op := fun '(l, w) => (Ok tt, (mkLoop (shell l) s, w)).

Definition show_output (out : str) : loop_op :=
  if decide (out = CLEAR_SENTINEL) then
    on_world (with_console (fun _ => con_clear)) ;;;
    on_world (serial_print (Byte.x1b :: s_ "[2J" ++ Byte.x1b :: s_ "[H"))
  else if decide (out = []) then ret tt
  else emit out.

Definition emit_prompt : loop_op := fun '(l, w) => emit (prompt (shell l)) (l, w).

Definition on_enter : loop_op :=
  emit NL ;;;
  let* out := run_line in
  show_output out ;;;
  set_line [] ;;;
  emit_prompt.

(** ["\u{8} \u{8}"]. *)
Definition ERASE : str := Byte.x08 :: s_ " " ++ [Byte.x08].

(** [line.pop()]: the line holds ASCII only, so the last character is the last byte. *)
Definition on_backspace : loop_op := fun '(l, w) =>
  (if decide (line l = []) then ret tt
   else set_line (removelast (line l)) ;;; emit ERASE) (l, w).

Definition on_char (c : Z) : loop_op := fun '(l, w) =>
  (if (32 <=? c)%Z && (c <=? 126)%Z && (Z.of_nat (length (line l)) <? MAX_INPUT)%Z
   then set_line (line l ++ utf8_encode c) ;;; emit (utf8_encode c)
   else ret tt) (l, w).

Definition on_key (key : DecodedKey) : loop_op :=
  match key with
  | RawKey k => on_world (route_rawkey k)
  | Unicode c =>
      if decide (c = 10)%Z then on_enter
      else if decide (c = 8 \/ c = 127)%Z then on_backspace
      else on_char c
  end.

(** The start of [shell_loop]: a fresh shell at the root, an empty line, and the prompt. *)
Definition loop_start (v : Vfs F) (w : W) : res Empty_set unit * (Loop * W) :=
  emit_prompt (mkLoop (shell_new v) [], w).

(** The body of the [while let] loop: decode the scancode, then act on the key if there is one. *)
Definition on_scancode {K : Type} (decode : K -> Z -> option DecodedKey * K) (scancode : Z)
    : M (K * (Loop * W)) Empty_set unit := fun '(k, s) =>
  let '(key, k') := decode k scancode in
  match key with
  | None => (Ok tt, (k', s))
  | Some key => let '(r, s') := on_key key s in (r, (k', s'))
  end.

End shell.
Arguments Loop : clear implicits.

(** ** Words of a command line *)

Lemma split_ws_words s word :
  Forall (fun b => is_ascii_ws b = false) word ->
  Forall (fun w => w <> [] /\ Forall (fun b => is_ascii_ws b = false) w) (split_ws s word).
Proof.
  revert word. induction s as [|b s IH]; intros word Hw; simpl.
  - case_decide; repeat constructor; auto.
  - destruct (is_ascii_ws b) eqn:Hb.
    + apply Forall_app. split; [case_decide; repeat constructor; auto|apply IH; constructor].
    + apply IH, Forall_app. repeat constructor; auto.
Qed.

Lemma split_ws_word w s word :
  Forall (fun b => is_ascii_ws b = false) w -> split_ws (w ++ s) word = split_ws s (word ++ w).
Proof.
  intros Hw. revert word. induction Hw as [|b w Hb _ IH]; intros word; simpl; [by rewrite app_nil_r|].
  rewrite Hb, IH. by rewrite <- app_assoc.
Qed.

(** Splitting undoes joining with single blanks. *)
Lemma split_join_words ws :
  Forall (fun w => w <> [] /\ Forall (fun b => is_ascii_ws b = false) w) ws ->
  split_ascii_whitespace (join (s_ " ") ws) = ws.
Proof.
  unfold split_ascii_whitespace. induction 1 as [|w ws [Hne Hw] Hws IH]; [done|].
  destruct ws as [|w' ws]; cbn [join].
  - rewrite <- (app_nil_r w) at 1. rewrite split_ws_word by done. simpl. by rewrite decide_False.
  - rewrite split_ws_word by done. cbn [app s_ split_ws is_ascii_ws].
    change (s_ " ") with [Byte.x20]. cbn [app split_ws].
    replace (is_ascii_ws Byte.x20) with true by done.
    rewrite decide_False by done. simpl. f_equal. exact IH.
Qed.

(** ** What commands print *)

(** Empty or newline-terminated. *)
Definition lines_of_text (out : str) : Prop := out = [] \/ last out = Some Byte.x0a.

Lemma lines_nl s : lines_of_text (s ++ NL).
Proof.
  right. apply last_snoc.
Qed.

Lemma lines_nl1 a s : lines_of_text (a ++ s ++ NL).
Proof.
  rewrite app_assoc. apply lines_nl.
Qed.

Lemma lines_nl2 a b s : lines_of_text (a ++ b ++ s ++ NL).
Proof.
  rewrite app_assoc. apply lines_nl1.
Qed.

Lemma lines_nl3 a b c s : lines_of_text (a ++ b ++ c ++ s ++ NL).
Proof.
  rewrite app_assoc. apply lines_nl2.
Qed.

Lemma lines_app a b : lines_of_text a -> lines_of_text b -> lines_of_text (a ++ b).
Proof.
  intros Ha [->|Hb]; [by rewrite app_nil_r|]. right. by rewrite last_app, Hb.
Qed.

Create HintDb shell.
#[export] Hint Resolve lines_nl lines_nl1 lines_nl2 lines_nl3 : shell.

Section output.
Context {D C F : Type} `{CO : Console C} `{FS : FileSystem (Devices D C) F}.

(** Every normal return of [m] satisfies [Q]. *)
Definition returns {A} (Q : A -> Prop) (m : sh_op (D:=D) (C:=C) (F:=F) A) : Prop :=
  forall s a s', m s = (Ok a, s') -> Q a.

Lemma returns_ret {A} (Q : A -> Prop) a : Q a -> returns Q (ret a).
Proof.
  by intros HQ s a' s' [= <- <-].
Qed.

Lemma returns_bind {A B} (Q : B -> Prop) (m : sh_op A) (k : A -> sh_op B) :
  (forall a, returns Q (k a)) -> returns Q (bind m k).
Proof.
  intros Hk s b s' H. apply bind_inv_ok in H as (a & s1 & _ & H). by eapply Hk.
Qed.

Lemma returns_on_vfs {A B} (Q : B -> Prop) (op : M (Vfs F * Devices D C) FsError A) kok kerr :
  (forall a, returns Q (kok a)) -> (forall e, returns Q (kerr e)) -> returns Q (on_vfs op kok kerr).
Proof.
  intros Hk He [sh w] b s' H. unfold on_vfs in H. destruct (op (vfs sh, w)) as [r [v' w']].
  destruct r; [by eapply Hk|by eapply He|done..].
Qed.

Lemma returns_path (Q : str -> Prop) path missing k :
  Q missing -> (forall p, returns Q (k p)) -> returns Q (with_path path missing k).
Proof.
  intros Hm Hk. destruct path as [p|]; simpl; [|by apply returns_ret].
  apply returns_bind. intros. apply Hk.
Qed.

Lemma returns_report name p op : returns lines_of_text (report name p op).
Proof.
  apply returns_on_vfs; intros []; apply returns_ret; try (by left); auto with shell.
  all: rewrite (app_assoc name); auto with shell.
Qed.

Lemma returns_ls target names out :
  lines_of_text out -> returns lines_of_text (ls_entries target names out).
Proof.
  revert out. induction names as [|n names IH]; intros out Ho; simpl; [by apply returns_ret|].
  apply returns_bind. intros isd. apply IH. auto with shell.
Qed.

Lemma cat_text_lines b : lines_of_text (cat_text b).
Proof.
  unfold cat_text. set (s := if utf8_decode b is Some _ then b else _).
  unfold ends_with. case_bool_decide; [by right|apply lines_nl].
Qed.

Lemma mount_lines (l : list (str * str)) :
  lines_of_text (concat (map (fun '(p, backing) => p ++ s_ " on " ++ backing ++ NL) l)).
Proof.
  induction l as [|[p b] l IH]; [by left|]. cbn [map concat]. apply lines_app; auto with shell.
Qed.

(** C31: a command prints whole lines. Whatever the command line, the file systems and the devices, the
    output of [execute_line] is empty or ends in a newline, except for the request to clear the
    screen, which only [clear] makes. *)
Theorem output_is_lines cmdline s out s' :
  execute_line cmdline s = (Ok out, s') ->
  lines_of_text out \/ (out = CLEAR_SENTINEL /\ head (split_ascii_whitespace cmdline) = Some (s_ "clear")).
Proof.
  unfold execute_line. destruct (split_ascii_whitespace cmdline) as [|cmd args].
  { intros [= <- _]. by left; left. }
  intros H. destruct (decide (cmd = s_ "clear")) as [->|Hne].
  { vm_compute in H. injection H as <- _. by right. }
  left. revert s out s' H.
  match goal with |- forall s out s', ?m s = _ -> _ => change (returns lines_of_text m) end.
  repeat case_decide; subst; try done; auto using returns_ret with shell.
  - apply returns_bind. intros. apply returns_ret. auto with shell.
  - apply returns_bind. intros. apply returns_on_vfs; [intros; apply returns_ls; by left|].
    intros []; try (intros ? ? ? ?; done); apply returns_ret; auto with shell.
  - apply returns_bind. intros. apply returns_bind. intros []; cbn [negb].
    + apply returns_bind. intros. apply returns_ret. by left.
    + apply returns_ret. auto with shell.
  - apply returns_path; [apply lines_nl|]. intros p. apply returns_on_vfs.
    + intros. apply returns_ret, cat_text_lines.
    + intros []; apply returns_ret; auto with shell.
  - intros s out s' [= <- _]. apply mount_lines.
  - intros s out s' Hu. injection Hu as <- _. apply (lines_nl1 _ (s_ " ticks")).
  - apply returns_path; [apply lines_nl|]. intros. apply returns_report.
  - apply returns_path; [apply lines_nl|]. intros. apply returns_report.
  - apply returns_path; [apply lines_nl|]. intros. apply returns_report.
  - apply returns_path; [apply lines_nl|]. intros. apply returns_report.
  - apply returns_ret. right. vm_compute. reflexivity.
Qed.

End output.

(** ** The shell always answers *)

Section survival.
Context {D C F : Type} `{BD : BlockDevice D} `{BS : !BlockDeviceSpec D} `{CO : Console C} `{CS : !ConsoleSpec C}.
Context `{FS : FileSystem (Devices D C) F} `{SP : !FileSystemSpec devices_ok}.
(** What the clock shows: the shell's code never sets it. *)
Context (now : Z).
Abbreviation W := (Devices D C).

(** Working backends and a canonical working directory. *)
Definition shell_ok (sh : Shell F) : Prop :=
  Forall (fun m => fss_inv (fs m)) (mounts (vfs sh)) /\ canonical_path (cwd sh).
Definition sh_ok (s : Shell F * W) : Prop := shell_ok (fst s) /\ devices_ok now (snd s).

Lemma on_vfs_total {A B} (Q : FsError -> Prop) (op : M (Vfs F * W) FsError A)
    (kok : A -> sh_op B) (kerr : FsError -> sh_op B) :
  answers (vfs_ok devices_ok now) Q op -> (forall a, total_on sh_ok (kok a)) ->
  (forall e, Q e -> total_on sh_ok (kerr e)) -> total_on sh_ok (on_vfs op kok kerr).
Proof using SP.
  intros Hop Hok Herr [sh w] [[Hm Hc] Hw].
  destruct (Hop (vfs sh, w)) as (r & [v' w'] & He & Hr & [Hm' Hw']); [done|].
  unfold on_vfs. rewrite He. destruct r; try done; [by apply Hok|by apply Herr].
Qed.

Lemma get_cwd_total {B} (k : str -> sh_op B) :
  (forall cw, canonical_path cw -> total_on sh_ok (k cw)) -> total_on sh_ok (bind get_cwd k).
Proof using SP.
  intros Hk s Hs. unfold bind, get_cwd. apply Hk; [apply Hs|done].
Qed.

Lemma sh_is_dir_total p : total_on sh_ok (sh_is_dir p).
Proof using SP.
  apply (on_vfs_total (fun _ => True)); auto using vfs_is_dir_answers with answers.
Qed.

Lemma ls_entries_total target names out : total_on sh_ok (ls_entries target names out).
Proof using SP.
  revert out. induction names as [|n names IH]; intros out; simpl; auto with answers.
  apply total_bind; auto using sh_is_dir_total.
Qed.

Lemma with_path_total path missing k :
  (forall p, total_on sh_ok (k p)) -> total_on sh_ok (with_path path missing k).
Proof using SP.
  intros Hk. destruct path; simpl; [by apply get_cwd_total|apply total_ret].
Qed.

Lemma report_total name p (op : str -> M (F * W) FsError unit) :
  (forall rel, answers (fss_ok now) (fun _ => True) (op rel)) -> total_on sh_ok (report name p (routed p op)).
Proof using SP.
  intros Hop. apply (on_vfs_total (fun _ => True)); [by apply routed_answers|auto with answers|].
  intros []; auto with answers.
Qed.

Lemma cmd_cd_total path : total_on sh_ok (cmd_cd path).
Proof using SP.
  apply get_cwd_total. intros cw Hcw.
  set (p := match path with Some p => normalize cw p | None => s_ "/" end).
  assert (canonical_path p) as Hp.
  { unfold p. destruct path; [by apply normalize_canonical|]. by exists []. }
  apply total_bind; [apply sh_is_dir_total|]. intros []; cbn [negb]; auto with answers.
  intros [sh w] [[Hm _] Hw]. by eexists _, _.
Qed.

Lemma execute_line_total cmdline : total_on sh_ok (execute_line cmdline).
Proof using SP.
  unfold execute_line. destruct (split_ascii_whitespace cmdline) as [|cmd args]; auto with answers.
  repeat case_decide; auto with answers.
  - by apply get_cwd_total; auto with answers.
  - apply get_cwd_total. intros cw _. apply (on_vfs_total (fun e => e <> IsADir)).
    + apply vfs_list_dir_answers.
    + intros. apply ls_entries_total.
    + intros []; auto with answers. done.
  - apply cmd_cd_total.
  - apply with_path_total. intros p. apply (on_vfs_total (fun _ => True)).
    + apply routed_answers; auto with answers.
    + auto with answers.
    + intros []; auto with answers.
  - intros s Hs. by eexists _, _.
  - intros s Hs. by eexists _, _.
  - apply with_path_total. intros p. apply report_total. auto with answers.
  - apply with_path_total. intros p. apply report_total. auto with answers.
  - apply with_path_total. intros p. apply report_total. auto with answers.
  - apply with_path_total. intros p. apply report_total. auto with answers.
Qed.

(** ** The key loop *)

(** Printable ASCII, as the loop accepts it. *)
Definition printable (b : byte) : Prop := (32 <= u8 b <= 126)%Z.

Definition line_ok (l : str) : Prop := (Z.of_nat (length l) <= MAX_INPUT)%Z /\ Forall printable l.

Definition vars_ok (l : Loop F) : Prop := shell_ok (shell l) /\ line_ok (line l).
Definition loop_ok (s : Loop F * W) : Prop := vars_ok (fst s) /\ devices_ok now (snd s).

Lemma on_world_total {X A} (P : X -> Prop) (m : M W Empty_set A) :
  total_on (devices_ok now) m -> total_on (fun s : X * W => P (fst s) /\ devices_ok now (snd s)) (on_world m).
Proof.
  intros Hm [x w] [Hx Hw]. destruct (Hm w Hw) as (a & w' & He & Hw'). unfold on_world. rewrite He.
  by eexists _, _.
Qed.

Lemma emit_total {X} (P : X -> Prop) s :
  total_on (fun s : X * W => P (fst s) /\ devices_ok now (snd s)) (emit s).
Proof.
  apply total_bind; [|intros _]; apply on_world_total; auto with answers.
Qed.

Lemma with_console_total (op : C -> M C unit unit) :
  (forall c, con_inv c -> total_on con_inv (op c)) -> total_on (E:=Empty_set) (devices_ok now) (with_console (D:=D) op).
Proof.
  intros Hop w (Hd & Hc & Ht). unfold with_console. destruct (fb_writer w) as [c|] eqn:Hw.
  - destruct (Hop c Hc c Hc) as (a & c' & He & Hc'). rewrite He. by eexists _, _.
  - exists tt, w. split; [done|]. split; [done|]. by rewrite Hw.
Qed.

Lemma show_output_total out : total_on loop_ok (show_output out).
Proof.
  unfold show_output. repeat case_decide; auto with answers; [|apply (emit_total vars_ok)].
  apply total_bind; [|intros _]; apply (on_world_total vars_ok); auto with answers.
  apply with_console_total. intros. apply con_clear_total.
Qed.

Lemma run_line_total : total_on loop_ok run_line.
Proof using SP.
  intros [l w] [[Hs Hl] Hw]. destruct (execute_line_total (line l) (shell l, w)) as (out & [sh' w'] & He & [Hs' Hw']).
  { done. }
  unfold run_line. rewrite He. by eexists _, _.
Qed.

Lemma on_enter_total : total_on loop_ok on_enter.
Proof using SP.
  apply total_bind; [apply (emit_total vars_ok)|]. intros _.
  apply total_bind; [apply run_line_total|]. intros out.
  apply total_bind; [apply show_output_total|]. intros _.
  apply total_bind.
  - intros [l w] [[Hs _] Hw]. eexists _, _. split; [done|]. repeat split; try apply Hs; try apply Hw; [done|constructor].
  - intros _ [l w] Hl. by apply (emit_total vars_ok).
Qed.

(** The reference editor: what one key does to the line. *)
Definition edit (l : str) (k : DecodedKey) : str :=
  match k with
  | RawKey _ => l
  | Unicode c =>
      if decide (c = 8 \/ c = 127)%Z then removelast l
      else if decide (32 <= c <= 126 /\ Z.of_nat (length l) < MAX_INPUT)%Z then l ++ [of_u8 c]
      else l
  end.

(** What it echoes. *)
Definition echo (l : str) (k : DecodedKey) : str :=
  match k with
  | RawKey _ => []
  | Unicode c =>
      if decide (c = 8 \/ c = 127)%Z then (if decide (l = []) then [] else ERASE)
      else if decide (32 <= c <= 126 /\ Z.of_nat (length l) < MAX_INPUT)%Z then [of_u8 c]
      else []
  end.

Fixpoint echoes (l : str) (ks : list DecodedKey) : str :=
  match ks with
  | [] => []
  | k :: ks' => echo l k ++ echoes (edit l k) ks'
  end.

Lemma line_ok_removelast l : line_ok l -> line_ok (removelast l).
Proof.
  intros [H1 H2]. split; [|by apply Forall_removelast].
  destruct l as [|b l]; [done|]. rewrite removelast_firstn_len, length_firstn. simpl in *. lia.
Qed.

Lemma edit_ok l k : line_ok l -> line_ok (edit l k).
Proof.
  intros [H1 H2]. destruct k as [k|c]; simpl; [done|].
  case_decide; [by apply line_ok_removelast|]. case_decide; [|done].
  split; [rewrite length_app; simpl; lia|]. apply Forall_app. split; [done|]. constructor; [|done].
  unfold printable. rewrite u8_of_u8, Z.mod_small; lia.
Qed.

(** The devices after printing [s] on both consoles: only console state and the serial log differ. *)
Definition printed_on (w w' : W) (s : str) : Prop :=
  drive w' = drive w /\ timer_ticks w' = timer_ticks w /\ serial1 w' = (fun log => log ++ s) <$> serial1 w.

Lemma printed_nil w w' : 
  drive w' = drive w -> timer_ticks w' = timer_ticks w -> serial1 w' = serial1 w -> printed_on w w' [].
Proof.
  intros H1 H2 H3. repeat split; [done..|]. rewrite H3. destruct (serial1 w); simpl; by rewrite ?app_nil_r.
Qed.

Lemma printed_app w1 w2 w3 s t : printed_on w1 w2 s -> printed_on w2 w3 t -> printed_on w1 w3 (s ++ t).
Proof.
  intros (A1 & A2 & A3) (B1 & B2 & B3). repeat split; [congruence..|].
  rewrite B3, A3. destruct (serial1 w1); simpl; by rewrite ?app_assoc.
Qed.

Lemma emit_ok {X} (x : X) w s :
  devices_ok now w -> exists w', emit s (x, w) = (Ok tt, (x, w')) /\ devices_ok now w' /\ printed_on w w' s.
Proof.
  intros Hw. destruct (emit_total (X:=X) (fun _ => True) s (x, w)) as (a & [x' w'] & He & [_ Hw']); [done|].
  exists w'. revert He. unfold emit, bind, on_world, print, serial_print.
  destruct (fb_writer w) as [c|] eqn:Hc; simpl.
  - destruct (con_write_str s c) as [r c'].
    destruct r; destruct (serial1 w) as [log|] eqn:Hl; simpl; intros He; simplify_eq/=; 
      repeat split; try apply Hw'; simpl; rewrite ?Hl; done.
  - destruct (serial1 w) as [log|] eqn:Hl; simpl; intros He; simplify_eq/=; 
      repeat split; try apply Hw'; simpl; rewrite ?Hl; done.
Qed.

Lemma with_console_ok (op : C -> M C unit unit) w :
  (forall c, con_inv c -> total_on con_inv (op c)) -> devices_ok now w ->
  exists w', with_console (E:=Empty_set) op w = (Ok tt, w') /\ devices_ok now w' /\ printed_on w w' [].
Proof.
  intros Hop Hw. destruct (with_console_total op Hop w Hw) as (a & w' & He & Hw').
  exists w'. destruct a. split; [done|]. split; [done|]. revert He. unfold with_console.
  destruct (fb_writer w) as [c|]; [|intros [= <-]; by apply printed_nil].
  destruct (op c c) as [r c']. destruct r; intros He; simplify_eq/=; by apply printed_nil.
Qed.

Lemma route_rawkey_ok k w :
  devices_ok now w ->
  exists w', route_rawkey (E:=Empty_set) k w = (Ok tt, w') /\ devices_ok now w' /\ printed_on w w' [].
Proof.
  apply with_console_ok. intros c Hc. pose proof (con_rows_bound c Hc).
  assert (0 <= Z.max (saturating_sub (con_viewport_rows c) 1) 1 < 2 ^ 63)%Z by (unfold saturating_sub; lia).
  destruct k; auto using con_scroll_up_total, con_scroll_down_total, con_scroll_end_total with answers.
Qed.

Lemma utf8_encode_ascii c : (32 <= c <= 126)%Z -> utf8_encode c = [of_u8 c].
Proof.
  intros Hc. unfold utf8_encode. by rewrite (proj2 (Z.ltb_lt _ _)) by lia.
Qed.

(** Every key but Enter edits the line as the reference editor does, and echoes it. *)
Lemma on_key_edit k (l : Loop F) w :
  loop_ok (l, w) -> k <> Unicode 10 ->
  exists w', on_key k (l, w) = (Ok tt, (mkLoop (shell l) (edit (line l) k), w')) /\
    loop_ok (mkLoop (shell l) (edit (line l) k), w') /\ printed_on w w' (echo (line l) k).
Proof using SP.
  intros [[Hs Hl] Hw] Hk. pose proof (edit_ok (line l) k Hl) as Hed.
  assert (forall l' w', line_ok l' -> devices_ok now w' -> loop_ok (mkLoop (shell l) l', w')) as Hok by done.
  assert (mkLoop (shell l) (line l) = l) as El by (by destruct l).
  destruct k as [k|c]; cbn [on_key edit echo] in *.
  - destruct (route_rawkey_ok k w Hw) as (w' & He & Hw' & Hp). exists w'. unfold on_world.
    rewrite He, El. split; [done|]. split; [|done]. by rewrite <- El; auto.
  - rewrite decide_False by congruence. revert Hed. case_decide as Hb; [|case_decide as Hc]; intros Hed.
    + unfold on_backspace. case_decide as Hn.
      * exists w. rewrite Hn. cbn [removelast].
        split; [by rewrite <- Hn, El|]. split; [by rewrite Hn in Hed; apply Hok|by apply printed_nil].
      * destruct (emit_ok (mkLoop (shell l) (removelast (line l))) w ERASE Hw) as (w' & He & Hw' & Hp).
        exists w'. erewrite bind_ok by done. rewrite He. split; [done|]. split; [by apply Hok|done].
    + unfold on_char. replace (_ && _ && _)%Z with true by (symmetry; rewrite !andb_true_iff; lia).
      rewrite utf8_encode_ascii by lia.
      destruct (emit_ok (mkLoop (shell l) (line l ++ [of_u8 c])) w [of_u8 c] Hw) as (w' & He & Hw' & Hp).
      exists w'. erewrite bind_ok by done. rewrite He. split; [done|]. split; [by apply Hok|done].
    + unfold on_char. replace (_ && _ && _)%Z with false
        by (symmetry; apply not_true_is_false; rewrite !andb_true_iff, !Z.leb_le, Z.ltb_lt; lia).
      exists w. rewrite El. split; [done|]. split; [|by apply printed_nil]. rewrite <- El. by apply Hok.
Qed.

(** What reaches the terminal for a command's output. *)
Definition shown (out : str) : str :=
  if decide (out = CLEAR_SENTINEL) then Byte.x1b :: s_ "[2J" ++ Byte.x1b :: s_ "[H" else out.

Lemma serial_print_ok w s :
  devices_ok now w -> exists w', serial_print (E:=Empty_set) s w = (Ok tt, w') /\ devices_ok now w' /\ printed_on w w' s.
Proof.
  intros Hw. unfold serial_print. destruct (serial1 w) as [log|] eqn:Hl; eexists; (split; [done|]);
    (split; [done|]); repeat split; simpl; by rewrite ?Hl.
Qed.

Lemma show_output_ok out (l : Loop F) w :
  devices_ok now w -> exists w', show_output out (l, w) = (Ok tt, (l, w')) /\ devices_ok now w' /\ printed_on w w' (shown out).
Proof.
  intros Hw. unfold show_output, shown. case_decide.
  - destruct (with_console_ok (fun _ => con_clear) w) as (w1 & E1 & H1 & P1); [intros; apply con_clear_total|done|].
    destruct (serial_print_ok w1 (Byte.x1b :: s_ "[2J" ++ Byte.x1b :: s_ "[H") H1) as (w2 & E2 & H2 & P2).
    exists w2. erewrite bind_ok by (unfold on_world; by rewrite E1). unfold on_world. rewrite E2.
    split; [done|]. split; [done|]. apply (printed_app _ _ _ _ _ P1 P2).
  - case_decide as Hn; [|by apply emit_ok]. exists w. subst. split; [done|]. split; [done|]. by apply printed_nil.
Qed.

(** Enter runs the line and prints its output and the next prompt. *)
Lemma on_key_enter (l : Loop F) w :
  loop_ok (l, w) -> exists w1 out sh' w2 w3,
    printed_on w w1 NL /\ execute_line (line l) (shell l, w1) = (Ok out, (sh', w2)) /\
    on_key (Unicode 10) (l, w) = (Ok tt, (mkLoop sh' [], w3)) /\ loop_ok (mkLoop sh' [], w3) /\
    printed_on w2 w3 (shown out ++ prompt sh').
Proof using SP.
  intros [[Hs Hl] Hw]. destruct (emit_ok l w NL Hw) as (w1 & E1 & H1 & P1).
  destruct (execute_line_total (line l) (shell l, w1)) as (out & [sh' w2] & E2 & [Hs2 H2]); [done|].
  destruct (show_output_ok out (mkLoop sh' (line l)) w2 H2) as (w2' & E3 & H3 & P3).
  destruct (emit_ok (mkLoop sh' []) w2' (prompt sh') H3) as (w3 & E4 & H4 & P4).
  exists w1, out, sh', w2, w3. split; [done|]. split; [done|]. split.
  - cbn [on_key]. rewrite decide_True by done. unfold on_enter. erewrite bind_ok by done.
    erewrite bind_ok by (unfold run_line; by rewrite E2). erewrite bind_ok by done. erewrite bind_ok by done.
    unfold emit_prompt. exact E4.
  - split; [|by eapply printed_app]. split; [|done]. split; [done|]. split; [done|constructor].
Qed.

Lemma on_key_total k (s : Loop F * W) : loop_ok s -> exists s1, on_key k s = (Ok tt, s1) /\ loop_ok s1.
Proof using SP.
  destruct s as [l w]. intros Hok. destruct (decide (k = Unicode 10)) as [->|Hk].
  - destruct (on_key_enter l w Hok) as (? & ? & ? & ? & ? & _ & _ & E & H & _). by eexists.
  - destruct (on_key_edit k l w Hok Hk) as (? & E & H & _). by eexists.
Qed.

Lemma keys_edit ks (l : Loop F) w :
  loop_ok (l, w) -> (Unicode 10 ∉ ks) ->
  exists w', run_ops on_key ks (l, w) =
      (replicate (length ks) (Ok tt), (mkLoop (shell l) (fold_left edit ks (line l)), w')) /\
    loop_ok (mkLoop (shell l) (fold_left edit ks (line l)), w') /\ printed_on w w' (echoes (line l) ks).
Proof using SP.
  revert l w. induction ks as [|k ks IH]; intros l w Hok Hk; cbn [run_ops fold_left echoes length replicate].
  - exists w. destruct l. split; [done|]. split; [done|]. by apply printed_nil.
  - apply not_elem_of_cons in Hk as [Hk Hks].
    destruct (on_key_edit k l w Hok) as (w1 & E1 & H1 & P1); [done|].
    destruct (IH _ _ H1 Hks) as (w2 & E2 & H2 & P2). exists w2. rewrite E1, E2.
    split; [done|]. split; [done|]. by eapply printed_app.
Qed.

(** C22: the shell survives the keyboard. On a mount table whose backends answer, with a drive and a
    console that keep their contracts, every key returns normally: no built-in command, no line
    editing and no scrolling panics, [unreachable!] in [cmd_ls] included. The line stays printable
    ASCII of at most 120 bytes and the working directory canonical. *)
Theorem shell_survives_keys ks (s : Loop F * W) :
  loop_ok s -> exists s', run_ops on_key ks s = (replicate (length ks) (Ok tt), s') /\ loop_ok s'.
Proof using SP.
  revert s. induction ks as [|k ks IH]; intros [l w] Hok; cbn [run_ops length replicate]; [by exists (l, w)|].
  destruct (on_key_total k (l, w) Hok) as (s1 & E1 & H1).
  destruct (IH s1 H1) as (s2 & E2 & H2). exists s2. by rewrite E1, E2.
Qed.

(** C23: typing a line and pressing Enter runs exactly that line. From an empty line, keys other than
    Enter leave the line the reference editor computes and echo it; Enter then executes that line
    once, and the terminal shows the echo, the output and the new prompt, in this order. *)
Theorem typed_line_runs ks (sh : Shell F) w :
  loop_ok (mkLoop sh [], w) -> (Unicode 10 ∉ ks) ->
  exists w1 out sh' w2 w3,
    printed_on w w1 (echoes [] ks ++ NL) /\
    execute_line (fold_left edit ks []) (sh, w1) = (Ok out, (sh', w2)) /\
    run_ops on_key (ks ++ [Unicode 10]) (mkLoop sh [], w) =
      (replicate (S (length ks)) (Ok tt), (mkLoop sh' [], w3)) /\
    printed_on w2 w3 (shown out ++ prompt sh').
Proof using SP.
  intros Hok Hk. destruct (keys_edit ks _ _ Hok Hk) as (w0 & E0 & H0 & P0).
  destruct (on_key_enter _ _ H0) as (w1 & out & sh' & w2 & w3 & P1 & E1 & E2 & _ & P2).
  exists w1, out, sh', w2, w3. split; [by eapply printed_app|]. split; [done|]. split; [|done].
  rewrite (run_ops_app _ _ _ _ _ _ E0). cbn [run_ops]. rewrite E2. cbn [fst snd].
  by rewrite <- replicate_S_end.
Qed.

End survival.
