(* ===== verification/System.v ===== *)
(** * The assembled system (src/kernel/src/main.rs, shell.rs)

    The shell on the boot-time mount table: what a user sees of the file systems, from the command
    line down to the controller's ports, and the shell on the fallback configuration without a data
    disk. *)

From S2P Require Import Prelude.
From S2P Require Import Vfs.
From S2P Require Import Block.
From S2P Require Import Framebuffer.
From S2P Require Import Tmp.
From S2P Require Import Ram.
From S2P Require Import Dev.
From S2P Require Import Fat.
From S2P Require Import FatTable.
From S2P Require Import FatFile.
From S2P Require Import FatSpec.
From S2P Require Import FatDriver.
From S2P Require Import Ata.
From S2P Require Import Root.
From S2P Require Import Keyboard.
From S2P Require Import Wakeup.
From S2P Require Import Shell.

Section system.
Context {H C : Type} `{IS : IdeSpec H} `{CO : Console C}.
Abbreviation W := (Devices (AtaDrive H) C).

(** A shell on the boot-time table over the FAT volume [fs]. *)
Definition fat_shell (fs : FatFs) (cwd : str) : Shell (Backend (AtaDrive H) C) :=
  mkShell (boot_table (BFat fs)) cwd.

(** A text file that ends in a newline is printed as it is. *)
Lemma cat_text_id b : is_Some (utf8_decode (b ++ NL)) -> cat_text (b ++ NL) = b ++ NL.
Proof.
  intros [cs Hcs]. unfold cat_text. rewrite Hcs. unfold ends_with.
  by rewrite bool_decide_eq_true_2 by apply last_snoc.
Qed.

(** C15: the whole stack, from the command line to the I/O ports. On the boot-time table over a FAT
    volume that an ATA controller keeping its protocol holds, the command [write p words] prints
    nothing and [cat p] afterwards prints the words, separated by single blanks, and a newline; for
    any working directory, any spelling of the path and any 8.3 name on the root mount, as long as
    the volume has room. *)
Theorem shell_write_then_cat (w : W) fs k segs pc pl anc name ol cwd wline cline p words :
  ata_holds (drive w) k -> geom fs (nblocks k) ->
  Forall valid_seg segs -> on_root (segs ++ [name]) = true -> dir_at fs k segs pc pl anc ->
  fat_name name -> old_file fs k pl anc name ol ->
  normalize cwd p = abs_path (segs ++ [name]) ->
  split_ascii_whitespace wline = s_ "write" :: p :: words ->
  split_ascii_whitespace cline = [s_ "cat"; p] ->
  is_Some (utf8_decode (join (s_ " ") words ++ NL)) ->
  Z.of_nat (length (join (s_ " ") words ++ NL)) < 2 ^ 32 ->
  (clusters_for fs (join (s_ " ") words ++ NL) < length (free_data fs k))%nat ->
  exists w1 w2,
    execute_line wline (fat_shell fs cwd, w) = (Ok [], (fat_shell fs cwd, w1)) /\
    execute_line cline (fat_shell fs cwd, w1) = (Ok (join (s_ " ") words ++ NL), (fat_shell fs cwd, w2)).
Proof.
  intros HR G Hs Hon Hd Hn Ho Hp Hw Hc Hu Hlen Hroom.
  destruct (stack_write_read w fs k segs pc pl anc name (join (s_ " ") words ++ NL) ol)
    as (d1 & d2 & H1 & H2); [done..|].
  eexists _, _. split.
  - unfold execute_line. rewrite Hw. repeat (rewrite decide_False by (by intros ?)).
    rewrite decide_True by done. cbn [cmd_write with_path head tail]. unfold bind, get_cwd. cbn [fst Shell.cwd fat_shell].
    rewrite Hp. unfold report, on_vfs. cbn [vfs fat_shell]. rewrite H1. reflexivity.
  - unfold execute_line. rewrite Hc. repeat (rewrite decide_False by (by intros ?)).
    rewrite decide_True by done. cbn [cmd_cat with_path head]. unfold bind, get_cwd. cbn [fst Shell.cwd fat_shell].
    rewrite Hp. unfold on_vfs. cbn [vfs fat_shell]. rewrite H2. by rewrite cat_text_id.
Qed.

End system.

(** ** The running kernel

    The main loop of [Wakeup] with the shell's own code as the handler of scancodes. *)

Section running.
Context {D C F : Type} `{BD : BlockDevice D} `{BS : !BlockDeviceSpec D} `{CO : Console C} `{CS : !ConsoleSpec C}.
Context `{FS : FileSystem (Devices D C) F} `{SP : !FileSystemSpec devices_ok}.
Context {K : Type} (decode : K -> Z -> option DecodedKey * K).

(** The decoder, the shell loop's variables and the devices. *)
Definition sys : Type := K * (Loop F * Devices D C).
Definition sys_start : M sys Empty_set unit := fun x =>
  let '(r, s) := emit_prompt (snd x) in (r, (fst x, s)).
Definition sys_handle (sc : Z) : M sys Empty_set unit := on_scancode decode sc.
(** A timer interrupt advances the counter [uptime] and [/proc/uptime] read. *)
Definition sys_tick (x : sys) : sys := (fst x, (fst (snd x), tick_devices (snd (snd x)))).

Abbreviation reaches := (reachable sys_start sys_handle sys_tick).

(** Everything is well-formed and the clock shows [now]. *)
Definition sys_ok (now : Z) (x : sys) : Prop := loop_ok now (snd x).

Lemma sys_handle_total now sc : total_on (sys_ok now) (sys_handle sc).
Proof using SP.
  intros [kd s] Hok. unfold sys_handle, on_scancode. destruct (decode kd sc) as [[key|] kd']; [|by eexists _, _].
  destruct (on_key_total now key s Hok) as (s1 & E & H). rewrite E. by eexists _, _.
Qed.

Lemma sys_start_total now : total_on (sys_ok now) sys_start.
Proof using SP.
  intros [kd [l w]] [Hv Hw]. unfold sys_start. cbn [fst snd emit_prompt].
  destruct (emit_ok now l w (prompt (shell l)) Hw) as (w' & E & Hw' & _). rewrite E. by eexists _, _.
Qed.

Lemma sys_tick_ok now x : sys_ok now x -> sys_ok (count_tick now) (sys_tick x).
Proof.
  destruct x as [kd [l w]]. intros [Hv Hw]. split; [done|]. by apply tick_devices_ok.
Qed.

(** The clock after a history. *)
Definition clock (h : list Event) (now : Z) : Z :=
  fold_left (fun t e => match e with Ticked => count_tick t | _ => t end) h now.

Lemma clock_counts h now :
  0 <= now < 2 ^ 64 -> clock h now = (now + Z.of_nat (length (filter (fun e => e = Ticked) h))) mod 2 ^ 64.
Proof.
  unfold clock. revert now. induction h as [|e h IH]; intros now Hn; cbn [fold_left].
  { cbn. by rewrite Z.add_0_r, Z.mod_small. }
  rewrite filter_cons. case_decide as He; [subst e|destruct e; try done; by apply IH].
  rewrite IH by (apply Z.mod_pos_bound; lia). cbn [length]. unfold count_tick.
  rewrite Zplus_mod_idemp_l. f_equal. lia.
Qed.

Lemma replay_ok h x now : sys_ok now x -> sys_ok (clock h now) (replay sys_start sys_handle sys_tick h x).
Proof using SP.
  revert x now. induction h as [|e h IH]; intros x now Hok; [done|]. apply IH.
  destruct e as [|sc|]; cbn [happen].
  - by destruct (sys_start_total now x Hok) as (a & x' & -> & Hx').
  - by destruct (sys_handle_total now sc x Hok) as (a & x' & -> & Hx').
  - by apply sys_tick_ok.
Qed.

(** The invariant of the main loop, whatever the clock shows. *)
Lemma running_inv x now (k : Kernel sys) :
  sys_ok now x -> reaches x k ->
  exists st, kinv sys_start sys_handle sys_tick (fun x => exists t, sys_ok t x) x st k.
Proof using SP.
  intros Hok [n H]. eapply (run_inv _ _ _ (fun x => exists t, sys_ok t x) _ _ _ x false n); [|exact H].
  apply boot_inv. by exists now.
  Unshelve.
  - intros y [t Hy]. destruct (sys_start_total t y Hy) as (a & y' & E & Hy'). eexists _, _. split; [exact E|by exists t].
  - intros sc y [t Hy]. destruct (sys_handle_total t sc y Hy) as (a & y' & E & Hy'). eexists _, _. split; [exact E|by exists t].
  - intros y [t Hy]. exists (count_tick t). by apply sys_tick_ok.
Qed.

Lemma running_ok x now (k : Kernel sys) :
  sys_ok now x -> reaches x k ->
  pc k <> Panicked /\ pc k <> Hung /\ state k = replay sys_start sys_handle sys_tick (history k) x /\
  sys_ok (clock (history k) now) (state k).
Proof using SP.
  intros Hok Hr. destruct (running_inv x now k Hok Hr) as [st I].
  pose proof (k_pc _ _ _ _ _ _ _ I) as Hpc. pose proof (k_state _ _ _ _ _ _ _ I) as Hst. unfold pc_inv in Hpc.
  split_and!; [intros Hp; by rewrite Hp in Hpc..|done|]. rewrite Hst. by apply replay_ok.
Qed.

(** C7: from the interrupt to the prompt. On backends, drive and console that keep their contracts, the
    running kernel never panics or hangs under any interleaving of keyboard and timer interrupts: the
    shell's own code always returns. In every reachable state the shell is well-formed, the clock that
    [uptime] reads shows the timer interrupts so far, modulo 2^64, and the state is that of the recorded
    events in the order they happened; and when the CPU halts, the shell has started once and then
    processed exactly the accepted scancodes, in order of arrival. *)
Theorem kernel_never_panics (x : sys) now (k : Kernel sys) :
  sys_ok now x -> 0 <= now < 2 ^ 64 -> reaches x k ->
  pc k <> Panicked /\ pc k <> Hung /\
  sys_ok ((now + Z.of_nat (length (filter (fun e => e = Ticked) (history k)))) mod 2 ^ 64) (state k) /\
  state k = replay sys_start sys_handle sys_tick (history k) x /\
  (pc k = Halted -> untimed (history k) = Started :: map Handled (accepted k)).
Proof using SP.
  intros Hok Hn Hr. destruct (running_ok x now k Hok Hr) as (H1 & H2 & H3 & H4).
  rewrite clock_counts in H4 by done. split_and!; try done.
  intros Hh. destruct (running_inv x now k Hok Hr) as [st [_ _ _ _ _ _ Hf _ _ Hpc Ho]].
  unfold pc_inv, pending in *. rewrite Hh in *. destruct Hpc as (-> & _ & Hq & _).
  by rewrite Hf, Hq, !app_nil_r.
Qed.

End running.

(** ** A machine *)

Module machine.

(** The formatted image behind the reference controller, no framebuffer. *)
#[local] Instance quiet_console : Console unit := {
  con_write_str _ := ret tt; con_clear := ret tt; con_viewport_rows _ := 0;
  con_scroll_up _ := ret tt; con_scroll_down _ := ret tt; con_scroll_end := ret tt;
}.

Definition disk_machine : Devices (AtaDrive model.Ide) unit := mkDevices demo.ata_image (Some []) None 0.

Lemma shell_write_then_cat_witness :
  exists w1 w2,
    execute_line (s_ "write  notes.txt hello   world") (fat_shell image.fs (s_ "/"), disk_machine)
      = (Ok [], (fat_shell image.fs (s_ "/"), w1)) /\
    execute_line (s_ "cat notes.txt") (fat_shell image.fs (s_ "/"), w1)
      = (Ok (s_ "hello world" ++ NL), (fat_shell image.fs (s_ "/"), w2)).
Proof.
  apply (shell_write_then_cat disk_machine image.fs image.disk [] 2 [2] [] (s_ "notes.txt") []
    (s_ "/") _ _ (s_ "notes.txt") [s_ "hello"; s_ "world"]).
  - exact demo.ata_image_holds.
  - exact image.geometry.
  - constructor.
  - reflexivity.
  - exact image.root.
  - exact image.notes_name.
  - vm_compute. reflexivity.
  - reflexivity.
  - reflexivity.
  - reflexivity.
  - by eexists.
  - reflexivity.
  - vm_compute. lia.
Defined.

(** No data disk: the read-only tree as the root, an empty drive, and the small screen as console. *)
#[local] Existing Instance screen.tiny_font.
#[local] Existing Instance screen.tiny_font_spec.

Definition fb_machine : Devices Disk FrameBufferWriter :=
  mkDevices (mkDisk 0 ∅) (Some []) (Some (fb_new screen.tiny_buf screen.tiny_info)) 7.
Definition fallback : Loop (Backend Disk FrameBufferWriter) := mkLoop (shell_new (boot_table (BRam seed))) [].

Lemma fallback_ok : loop_ok 7 (fallback, fb_machine).
Proof.
  split.
  - split; [split|].
    + repeat constructor.
    + by exists [].
    + split; [vm_compute; discriminate|constructor].
  - split.
    + exists (mkDisk 0 ∅). split; [done|]. intros lba. reflexivity.
    + split; [|reflexivity]. apply (fb_new_inv screen.tiny_buf screen.tiny_info screen.tiny_geom).
Qed.

(** Typing [s]. *)
Definition typed (s : str) : list DecodedKey := map (fun b => Unicode (u8 b)) s.

Lemma shell_survives_keys_witness :
  exists s', run_ops on_key (typed (s_ "ls /dev" ++ NL) ++ [RawKey PageUp; RawKey EndKey; Unicode 8]) (fallback, fb_machine)
    = (replicate 11 (Ok tt), s') /\ loop_ok 7 s'.
Proof.
  apply (shell_survives_keys 7 (typed (s_ "ls /dev" ++ NL) ++ [RawKey PageUp; RawKey EndKey; Unicode 8]) _ fallback_ok).
Defined.

(** Typing [pwx], backspace, [d], Enter runs [pwd]. *)
Lemma typed_line_runs_witness :
  exists w1 out sh' w2 w3,
    printed_on fb_machine w1 (s_ "pwx" ++ ERASE ++ s_ "d" ++ NL) /\
    execute_line (s_ "pwd") (shell_new (boot_table (BRam seed)), w1) = (Ok out, (sh', w2)) /\
    run_ops on_key ([Unicode 112; Unicode 119; Unicode 120; Unicode 8; Unicode 100] ++ [Unicode 10]) (fallback, fb_machine)
      = (replicate 6 (Ok tt), (mkLoop sh' [], w3)) /\
    printed_on w2 w3 (shown out ++ prompt sh').
Proof.
  apply (typed_line_runs 7 [Unicode 112; Unicode 119; Unicode 120; Unicode 8; Unicode 100]
    (shell_new (boot_table (BRam seed))) fb_machine fallback_ok).
  apply (bool_decide_unpack _). vm_compute. reflexivity.
Defined.

Lemma output_is_lines_witness :
  lines_of_text (s_ "/" ++ NL) \/
  (s_ "/" ++ NL = CLEAR_SENTINEL /\ head (split_ascii_whitespace (s_ "pwd")) = Some (s_ "clear")).
Proof.
  apply (output_is_lines (s_ "pwd") (shell_new (boot_table (BRam seed)), fb_machine) (s_ "/" ++ NL)
    (shell_new (boot_table (BRam seed)), fb_machine)).
  reflexivity.
Defined.

(** A decoder that takes scancodes for character codes. *)
Definition plain_decode (u : unit) (sc : Z) : option DecodedKey * unit := (Some (Unicode sc), u).

Abbreviation Small := (@sys Disk FrameBufferWriter (Backend Disk FrameBufferWriter) unit).
Definition initial : Small := (tt, (fallback, fb_machine)).

(** The kernel after its first two steps, a key press and a tick. *)
Definition step (k : Kernel Small) : Kernel Small := default k (cpu_step sys_start (sys_handle plain_decode) k).
Definition stepped : Kernel Small := timer_irq sys_tick (keyboard_irq 104 (step (step (boot initial)))).

Lemma step_ok k :
  (if cpu_step sys_start (sys_handle plain_decode) k is Some _ then true else false) = true ->
  cpu_step sys_start (sys_handle plain_decode) k = Some (step k).
Proof.
  unfold step. by destruct (cpu_step _ _ k).
Qed.

Lemma stepped_reachable : reachable sys_start (sys_handle plain_decode) sys_tick initial stepped.
Proof.
  unfold stepped. exists 2%nat. eapply run_cpu; [apply step_ok; vm_compute; reflexivity|].
  eapply run_cpu; [apply step_ok; vm_compute; reflexivity|].
  apply run_key with 104; [vm_compute; reflexivity|]. apply run_tick; [vm_compute; reflexivity|]. apply run_here.
Qed.

Lemma kernel_never_panics_witness :
  pc stepped <> Panicked /\ sys_ok 8 (state stepped) /\
  state stepped = replay sys_start (sys_handle plain_decode) sys_tick [Started; Ticked] initial.
Proof.
  assert (history stepped = [Started; Ticked]) as Hh by (vm_compute; reflexivity).
  destruct (kernel_never_panics plain_decode initial 7 stepped fallback_ok ltac:(lia) stepped_reachable)
    as (H1 & _ & H2 & H3 & _).
  rewrite Hh in H2, H3. split; [exact H1|]. split; [exact H2|exact H3].
Defined.

End machine.
