(* ===== verification/Boot.v ===== *)
(** * Boot (src/kernel/src/main.rs, lib.rs, serial.rs, memory.rs)

    [kernel_main] from the bootloader's hand-over to the executor's loop: serial port, segments and
    interrupts, heap, framebuffer, root file system, and the shell as the first task; and the panic
    handler that ends a boot which fails. *)

From S2P Require Import Prelude.
From S2P Require Import Vfs.
From S2P Require Import Block.
From S2P Require Import Framebuffer.
From S2P Require Import Ram.
From S2P Require Import Fat.
From S2P Require Import Root.
From S2P Require Import Memory.
From S2P Require Import Gdt.
From S2P Require Import Keyboard.
From S2P Require Import Interrupts.
From S2P Require Import Executor.
From S2P Require Import Wakeup.
From S2P Require Import Shell.
From S2P Require Import System.

Open Scope Z_scope.

(** What the bootloader hands over: the offset of the physical-memory mapping, the memory map, and a
    framebuffer with its description. *)
Record BootInfo : Type := mkBootInfo {
  physical_memory_offset : option Z;
  bi_memory_regions : list MemoryRegion;
  bi_framebuffer : option (bytes * FrameBufferInfo);
}.

(** Everything [kernel_main] touches. [task_ids] is the counter behind [TaskId::new], [tables] the page
    tables once [memory::init] has run. *)
Record Machine (G P D : Type) : Type := mkMachine {
  cpu : Cpu (G:=G);
  idtr : option (gmap Z Gate);
  pics : option (Z * Z);
  int_flag : bool;
  mem : option (Mem P);
  dev : Devices D FrameBufferWriter;
  task_ids : Z;
}.
Arguments mkMachine {G P D} _ _ _ _ _ _ _.
Arguments cpu {G P D} _.
Arguments idtr {G P D} _.
Arguments pics {G P D} _.
Arguments int_flag {G P D} _.
Arguments mem {G P D} _.
Arguments dev {G P D} _.
Arguments task_ids {G P D} _.

(** How a boot ends: in the executor's loop, through the debug-exit port, or not at all. *)
Inductive Fate (X : Type) : Type :=
| Runs (k : Kernel X)
| Exits (port value : Z)
| Hangs.
Arguments Runs {X} _.
Arguments Exits {X} _ _.
Arguments Hangs {X}.

(** [Result::expect]. *)
Definition expect {S E F A} (m : M S E A) : M S F A := mcase m ret (fun _ => panic).

Section boot.
Context {G P D K : Type} `{GO : GdtOps G} `{MP : Mapper P} `{BD : BlockDevice D} `{FT : Font}.
(** The two interrupt stacks' addresses, CR3, [OffsetPageTable::new] of the level-4 table at an address
    with an offset, the drive's probe, the keyboard decoder's initial state, and the text core formats
    for a panic. *)
Context (ist_stack rsp0_stack cr3 : Z) (offset_page_table : Z -> Z -> P).
Context (ata_init : M D BlockError unit) (decoder : K) (panic_text : str).

Abbreviation Mach := (Machine G P D).
Abbreviation Dv := (Devices D FrameBufferWriter).
Abbreviation Back := (Backend D FrameBufferWriter).
Abbreviation Sys := (@sys D FrameBufferWriter Back K).

Definition on_dev {E A} (op : M Dv E A) : M Mach E A := fun m =>
  let '(r, w) := op (dev m) in
  (r, mkMachine (cpu m) (idtr m) (pics m) (int_flag m) (mem m) w (task_ids m)).

(** [serial_println!]. *)
Definition boot_println (s : str) : M Mach Empty_set unit := on_dev (serial_print (s ++ NL)).

(** [serial::init]: once. *)
Definition serial_init : M Mach Empty_set unit := on_dev (fun w =>
  match serial1 w with
  | Some _ => (Ok tt, w)
  | None => (Ok tt, mkDevices (drive w) (Some []) (fb_writer w) (timer_ticks w))
  end).

(** [interrupts::init]: load the table, remap the controllers, enable. *)
Definition interrupts_init : M Mach Empty_set unit := fun m =>
  (Ok tt, mkMachine (cpu m) (Some IDT) (Some (PIC_1_OFFSET, PIC_2_OFFSET)) true (mem m) (dev m) (task_ids m)).

(** [kernel::init]. *)
Definition kernel_init : M Mach Empty_set unit :=
  serial_init ;;;
  (fun m => (Ok tt, mkMachine (gdt_init (TSS ist_stack rsp0_stack) (cpu m)) (idtr m) (pics m) (int_flag m)
                              (mem m) (dev m) (task_ids m))) ;;;
  interrupts_init.

(** [VirtAddr::new] and [VirtAddr + u64], which panic outside the canonical addresses. *)
Definition virt_addr {S E} (a : Z) : M S E Z := if canonical_addr a then ret a else panic.

(** [memory::init] with [active_level_4_table]. *)
Definition memory_init {S E} (offset : Z) : M S E P :=
  let* virt := virt_addr (offset + cr3) in ret (offset_page_table virt offset).

(** [allocator::init_heap] on the machine's page tables and frame allocator. *)
Definition heap_up (p : P) (rs : list MemoryRegion) : M Mach MapToError unit := fun m =>
  let '(r, mm) := init_heap (mkMem p (frames_new rs) None) in
  (r, mkMachine (cpu m) (idtr m) (pics m) (int_flag m) (Some mm) (dev m) (task_ids m)).

(** [init_framebuffer]: once. *)
Definition init_framebuffer (fb : bytes * FrameBufferInfo) : M Mach Empty_set unit := on_dev (fun w =>
  match fb_writer w with
  | Some _ => (Ok tt, w)
  | None => (Ok tt, mkDevices (drive w) (serial1 w) (Some (fb_new (fst fb) (snd fb))) (timer_ticks w))
  end).

(** [executor.spawn(Task::new(shell_loop(vfs)))] on a new executor, and the state its [run] starts in. *)
Definition start_executor (v : Vfs Back) : M Mach Empty_set (Kernel Sys) := fun m =>
  let '(t, ids) := task_new (E:=Empty_set) false (task_ids m) in
  let m := mkMachine (cpu m) (idtr m) (pics m) (int_flag m) (mem m) (dev m) ids in
  match t with
  | Ok t =>
      match spawn t executor_new with
      | (Ok _, ex) =>
          (Ok (mkKernel keyboard_init ex (decoder, (mkLoop (shell_new v) [], dev m)) RunPop (int_flag m) [] []), m)
      | _ => (Panic, m)
      end
  | _ => (Panic, m)
  end.

Definition kernel_main (bi : BootInfo) : M Mach Empty_set (Kernel Sys) :=
  kernel_init ;;;
  boot_println [] ;;;
  boot_println (s_ "============================================") ;;;
  boot_println (s_ "  Willo kernel — M10 multi-mount + scrollback") ;;;
  boot_println (s_ "============================================") ;;;
  let* offset := (match physical_memory_offset bi with Some o => virt_addr o | None => panic end) in
  let* p := memory_init offset in
  expect (heap_up p (bi_memory_regions bi)) ;;;
  boot_println (s_ "[stage] heap up @ " ++ hex HEAP_START ++ s_ " (" ++ dec (HEAP_SIZE / 1024) ++ s_ " KiB)") ;;;
  (match bi_framebuffer bi with
   | Some fb => init_framebuffer fb ;;; on_dev (print (s_ "Willo M10 — type `help`" ++ NL))
   | None => ret tt
   end) ;;;
  let* v := expect (on_dev (mount_root ata_init)) in
  start_executor v.

(** [kernel_main] under the panic handler. *)
Definition kernel_boot (bi : BootInfo) (m : Mach) : Fate Sys * Mach :=
  match kernel_main bi m with
  | (Ok k, m') => (Runs k, m')
  | (Err e, m') => match e with end
  | (Panic, m') => (Exits 0xf4 (qemu_code Failed), snd (boot_println (s_ "PANIC: " ++ panic_text) m'))
  | (Diverge, m') => (Hangs, m')
  end.

End boot.

(** ** A boot that succeeds, and one that fails *)

Section outcome.
Context {G P D K : Type} `{GO : GdtOps G} `{MPS : MapperSpec P} `{BS : BlockDeviceSpec D} `{FS : FontSpec}.
Context (ist_stack rsp0_stack cr3 : Z) (offset_page_table : Z -> Z -> P).
Context (ata_init : M D BlockError unit) (decoder : K) (panic_text : str).
Context (decode : K -> Z -> option DecodedKey * K).

Abbreviation Mach := (Machine G P D).
Abbreviation main := (kernel_main ist_stack rsp0_stack cr3 offset_page_table ata_init decoder).

(** The statics before anything ran. *)
Definition power_on (m : Mach) : Prop :=
  serial1 (dev m) = None /\ fb_writer (dev m) = None /\ timer_ticks (dev m) = 0 /\ task_ids m = 0.

(** A sound hand-over: physical memory mapped at canonical addresses, a sound memory map, and a
    framebuffer, if any, whose description fits its buffer. *)
Record boot_info_ok (bi : BootInfo) (off : Z) : Prop := {
  bi_off : physical_memory_offset bi = Some off;
  bi_canonical : canonical_addr off = true;
  bi_table : canonical_addr (off + cr3) = true;
  bi_regions : regions_ok (bi_memory_regions bi);
  bi_fb : match bi_framebuffer bi with Some (buf, i) => fb_geom i (length buf) | None => True end;
}.

Definition with_dev (w : Devices D FrameBufferWriter) (m : Mach) : Mach :=
  mkMachine (cpu m) (idtr m) (pics m) (int_flag m) (mem m) w (task_ids m).

Lemma on_dev_ok {E A} (op : M (Devices D FrameBufferWriter) E A) (m : Mach) r w :
  op (dev m) = (r, w) -> on_dev op m = (r, with_dev w m).
Proof.
  unfold on_dev. by intros ->.
Qed.

Lemma kernel_init_ok (m : Mach) :
  power_on m ->
  kernel_init ist_stack rsp0_stack m =
    (Ok tt, mkMachine (gdt_init (TSS ist_stack rsp0_stack) (cpu m)) (Some IDT) (Some (PIC_1_OFFSET, PIC_2_OFFSET))
                      true (mem m) (mkDevices (drive (dev m)) (Some []) None 0) 0).
Proof.
  destruct m as [c i p f mm [d se fb t] ids]. intros (Hs & Hf & Ht & Hi). cbn in Hs, Hf, Ht, Hi. subst.
  unfold kernel_init, interrupts_init, serial_init, on_dev, bind.
  cbn [dev serial1 drive fb_writer timer_ticks cpu idtr pics int_flag mem task_ids]. by f_equal.
Qed.

(** Up to the hand-over's offset: everything is up that does not need memory. *)
Lemma kernel_main_start bi (m : Mach) :
  power_on m -> exists log,
  main bi m =
    (let* offset := (match physical_memory_offset bi with Some o => virt_addr o | None => panic end) in
     let* p := memory_init cr3 offset_page_table offset in
     expect (heap_up p (bi_memory_regions bi)) ;;;
     boot_println (s_ "[stage] heap up @ " ++ hex HEAP_START ++ s_ " (" ++ dec (HEAP_SIZE / 1024) ++ s_ " KiB)") ;;;
     (match bi_framebuffer bi with
      | Some fb => init_framebuffer fb ;;; on_dev (print (s_ "Willo M10 — type `help`" ++ NL))
      | None => ret tt
      end) ;;;
     let* v := expect (on_dev (mount_root ata_init)) in
     start_executor decoder v)
    (mkMachine (gdt_init (TSS ist_stack rsp0_stack) (cpu m)) (Some IDT) (Some (PIC_1_OFFSET, PIC_2_OFFSET))
               true (mem m) (mkDevices (drive (dev m)) (Some log) None 0) 0).
Proof.
  intros Hp. unfold kernel_main. rewrite (bind_ok _ _ _ _ _ (kernel_init_ok m Hp)). eexists. reflexivity.
Qed.

(** The framebuffer's stage cannot fail, and leaves a console that keeps its invariant. *)
Lemma screen_up fbo (m : Mach) :
  fb_writer (dev m) = None ->
  match fbo with Some (buf, i) => fb_geom i (length buf) | None => True end ->
  exists w, (match fbo with
   | Some fb => init_framebuffer fb ;;; on_dev (print (s_ "Willo M10 — type `help`" ++ NL))
   | None => ret tt
   end) m = (Ok tt, with_dev w m) /\
   drive w = drive (dev m) /\ serial1 w = serial1 (dev m) /\ timer_ticks w = timer_ticks (dev m) /\
   match fb_writer w with Some c => con_inv c | None => True end.
Proof.
  destruct m as [c i p f mm [d se fb t] ids]. cbn [dev fb_writer]. intros -> Hg.
  destruct fbo as [[buf info]|]; [|by eexists].
  assert (con_inv (ConsoleSpec:=fb_console_spec) (fb_new buf info)) as Hi by apply (fb_new_inv buf info Hg).
  destruct (con_write_str_total (s_ "Willo M10 — type `help`" ++ NL) (fb_new buf info) Hi) as (a & c' & He & Hc).
  exists (mkDevices d se (Some c') t). split; [|done].
  unfold bind, init_framebuffer, on_dev. cbn [dev fb_writer fst snd]. unfold print. cbn [fb_writer].
  by rewrite He.
Qed.

(** The shell's loop as [kernel_main] hands it to the executor. *)
Definition first_state (root : Backend D FrameBufferWriter) (w : Devices D FrameBufferWriter)
    : sys (K:=K) := (decoder, (mkLoop (shell_new (boot_table root)) [], w)).

Lemma start_executor_boot root (m : Mach) :
  task_ids m = 0 -> int_flag m = true ->
  exists m', start_executor decoder (boot_table root) m = (Ok (boot (first_state root (dev m))), m') /\
    dev m' = dev m /\ cpu m' = cpu m /\ idtr m' = idtr m /\ int_flag m' = true /\ mem m' = mem m.
Proof.
  destruct m as [c i p f mm w ids]. cbn. intros -> ->. unfold start_executor. cbn.
  eexists. split; [reflexivity|done].
Qed.

Lemma boot_loop_ok root w b :
  not_fat root -> bd_rel (drive w) b -> match fb_writer w with Some c => con_inv c | None => True end ->
  sys_ok (timer_ticks w) (first_state root w).
Proof.
  intros Hr Hb Hc. split; [split; [split|]|split; [|split]].
  - by repeat constructor.
  - by exists [].
  - split; [vm_compute; discriminate|constructor].
  - by exists b.
  - done.
  - done.
Qed.

Lemma memory_init_ok off (m : Mach) :
  canonical_addr (off + cr3) = true ->
  memory_init (E:=Empty_set) cr3 offset_page_table off m = (Ok (offset_page_table (off + cr3) off), m).
Proof.
  intros Hc. unfold memory_init, virt_addr. by rewrite Hc.
Qed.


End outcome.

(** ** A small machine *)

Module small_boot.
#[local] Existing Instances slot_list.list_gdt map_example.flat_mapper map_example.flat_mapper_spec.
#[local] Existing Instances screen.tiny_font screen.tiny_font_spec.

Definition off : Machine (list (option Descriptor)) (gmap Z (Z * list PageTableFlags)) Disk :=
  mkMachine slot_list.boot_cpu None None false None (mkDevices (mkDisk 0 ∅) None None 0) 0.
Definition hand_over : BootInfo :=
  mkBootInfo (Some 0x18000000000) map_example.ram_map (Some (screen.tiny_buf, screen.tiny_info)).

(** No data disk answers. *)
Definition no_drive : M Disk BlockError unit := throw Timeout.


End small_boot.
