(* ===== verification/Runner.v ===== *)
(** * The host-side runner (src/src/main.rs)

    The binary cargo invokes with a kernel or test image: it builds the boot image and the FAT data
    disk, starts QEMU, checks and removes the disks, and turns QEMU's exit status into its own. The
    bootloader's image builder, the [fatfs] crate, the processes it starts and the contents of host
    files are parameters. *)

From Stdlib Require Import Ascii.
From S2P Require Import Prelude.
From S2P Require Import Vfs.
From S2P Require Import Block.
From S2P Require Import Ram.
From S2P Require Import FatName.
From S2P Require Import Interrupts.

Open Scope Z_scope.

Definition QEMU_EXIT_SUCCESS : Z := 33.
Definition QEMU_EXIT_FAILED : Z := 35.
Definition DATA_DISK_BYTES : Z := 64 * 1024 * 1024.

(** ** Paths

    [Path::components] on Unix: an initial [/], then the segments without empty ones and without [.],
    except a leading [.]. *)

Inductive Component : Set :=
| RootDir
| CurDir
| ParentDir
| Normal (n : str).

Definition component (w : str) : Component :=
  if decide (w = s_ "..") then ParentDir else Normal w.

Definition components (p : str) : list Component :=
  let segs := segments p in
  (if starts_with (s_ "/") p then [RootDir]
   else if decide (head segs = Some (s_ ".")) then [CurDir] else []) ++
  map component (filter (fun w => w <> s_ ".") segs).

(** [Path::file_name] and [Path::parent], on the components. *)
Definition file_name (cs : list Component) : option str :=
  match last cs with
  | Some (Normal n) => Some n
  | _ => None
  end.

Definition parent (cs : list Component) : option (list Component) :=
  match last cs with
  | Some (Normal _) | Some CurDir | Some ParentDir => Some (removelast cs)
  | _ => None
  end.

Definition is_fat_write_test (p : str) : bool :=
  match file_name (components p) with
  | Some n => if utf8_decode n is Some _ then starts_with (s_ "fat_write") n else false
  | None => false
  end.

Definition is_test_binary (p : str) : bool :=
  match d ← parent (components p); file_name d with
  | Some n => bool_decide (n = s_ "deps")
  | None => false
  end.

(** ** The host *)

(** [std::io::Error]: whether its kind is [NotFound], and its text. *)
Record IoError : Type := mkIoError { io_not_found : bool; io_text : str }.

(** [ExitStatus]: the exit code, none after a signal, and its text. *)
Record ExitStatus : Type := mkStatus { code : option Z; status_text : str }.
Definition success (s : ExitStatus) : bool := bool_decide (code s = Some 0).

(** File contents [B] are opaque to the runner. *)
Class HostTools (B : Type) : Type := {
  empty_file : B;
  (** [File::set_len]. *)
  set_len : Z -> B -> res str B;
  (** [File::create_new] is refused with this error, if any. *)
  open_refused : str -> option str;
  (** [BiosBoot::new(kernel).create_disk_image(path)]. *)
  create_disk_image : str -> str -> M (gmap str B) str unit;
  (** [Command::new(prog).args(args).status()]. *)
  command_status : str -> list str -> M (gmap str B) IoError ExitStatus;
  (** [Path::display]. *)
  display : str -> str;
}.

(** The [fatfs] crate on a file's contents: a mounted volume, with directories and files by path. *)
Class Fatfs (B V : Type) : Type := {
  ff_format : M B str unit;
  ff_new : B -> res str V;
  ff_create_file : list str -> str -> M V str (list str);
  ff_create_dir : list str -> str -> M V str (list str);
  ff_write_all : list str -> bytes -> M V str unit;
  ff_flush : list str -> M V str unit;
  ff_unmount : M V str unit;
  (** The file's contents once the volume is dropped. *)
  ff_close : V -> B;
}.

(** A program started: its name, its arguments and the files it found. *)
Record Launch (B : Type) : Type := mkLaunch { l_prog : str; l_args : list str; l_files : gmap str B }.
Arguments mkLaunch {B} _ _ _.
Arguments l_prog {B} _.
Arguments l_args {B} _.
Arguments l_files {B} _.

(** Files, the lines printed to the two standard streams, and the programs started. *)
Record Host (B : Type) : Type := mkHost {
  files : gmap str B;
  stderr : list str;
  stdout : list str;
  started : list (Launch B);
}.
Arguments mkHost {B} _ _ _ _.
Arguments files {B} _.
Arguments stderr {B} _.
Arguments stdout {B} _.
Arguments started {B} _.

(** The arguments are valid UTF-8, as [std::env::args] demands. The variables [main] looks up, as [var_os(..).is_some()]. *)
Record Env : Type := mkEnv {
  willo_headless : bool;
  willo_gui : bool;
  willo_keep_disk : bool;
  willo_vbox : bool;
  willo_persist : bool;
}.

(** [Path::join] with a relative file name. *)
Definition path_join (dir name : str) : str :=
  if ends_with "/"%byte dir then dir ++ name else dir ++ s_ "/" ++ name.

Section runner.
Context {B V : Type} `{HT : HostTools B} `{FF : Fatfs B V}.
(** [std::env::temp_dir()] and [std::process::id()]. *)
Context (temp_dir : str) (pid : Z).

(** A computation of the runner: [Err n] is [std::process::exit(n)]. *)
Abbreviation Run := (M (Host B) Z).

Definition eprintln {E} (l : str) : M (Host B) E unit := fun h =>
  (Ok tt, mkHost (files h) (stderr h ++ [l]) (stdout h) (started h)).
Definition println {E} (l : str) : M (Host B) E unit := fun h =>
  (Ok tt, mkHost (files h) (stderr h) (stdout h ++ [l]) (started h)).
Definition on_files {E A} (op : M (gmap str B) E A) : M (Host B) E A := fun h =>
  let '(r, fs) := op (files h) in (r, mkHost fs (stderr h) (stdout h) (started h)).
(** [let _ = std::fs::remove_file(p);]. *)
Definition remove_file {E} (p : str) : M (Host B) E unit := on_files (fun fs => (Ok tt, delete p fs)).
Definition path_exists {E} (p : str) : M (Host B) E bool := fun h =>
  (Ok (if files h !! p is Some _ then true else false), h).
(** [Command::new(prog).args(args).status()]. *)
Definition status (prog : str) (args : list str) : M (Host B) IoError ExitStatus := fun h =>
  on_files (command_status prog args)
    (mkHost (files h) (stderr h) (stdout h) (started h ++ [mkLaunch prog args (files h)])).
(** [p.to_str().expect(..)]. *)
Definition to_str_expect {E} (p : str) : M (Host B) E str :=
  if utf8_decode p is Some _ then ret p else panic.

(** ** The data disk *)

(** The fatfs calls on the formatted file. *)
Definition seed_volume : M V str unit :=
  let* welcome := ff_create_file [] (s_ "welcome.txt") in
  ff_write_all welcome (s_ "Welcome to Willo!" ++ NL ++ s_ "Type `help`." ++ NL) ;;;
  ff_flush welcome ;;;
  let* etc := ff_create_dir [] (s_ "etc") in
  let* version := ff_create_file etc (s_ "version") in
  ff_write_all version (s_ "willo 0.9 (M9)" ++ NL) ;;;
  ff_flush version ;;;
  let* motd := ff_create_file etc (s_ "motd") in
  ff_write_all motd (s_ "the kernel that fits in your head" ++ NL) ;;;
  ff_flush motd ;;;
  let* bin := ff_create_dir [] (s_ "bin") in
  ff_unmount.

(** Size, format and seed the new file. *)
Definition with_volume (m : M V str unit) : M B str unit := fun b =>
  match ff_new b with
  | Ok v => let '(r, v') := m v in (r, ff_close v')
  | Err e => (Err e, b)
  | Panic => (Panic, b)
  | Diverge => (Diverge, b)
  end.

Definition format_and_seed : M B str unit :=
  (fun b => match set_len DATA_DISK_BYTES b with
            | Ok b' => (Ok tt, b')
            | Err e => (Err e, b)
            | Panic => (Panic, b)
            | Diverge => (Diverge, b)
            end) ;;;
  ff_format ;;;
  with_volume seed_volume.

Definition build_data_disk (path : str) : M (Host B) str unit :=
  remove_file path ;;;
  on_files (fun fs =>
    match open_refused path with
    | Some e => (Err e, fs)
    | None => let '(r, b) := format_and_seed empty_file in (r, <[path := b]> fs)
    end).

(** ** VirtualBox mode *)

Definition convert_to_vdi (prog raw vdi : str) : Run unit :=
  let* r := to_str_expect raw in
  let* v := to_str_expect vdi in
  let* s := mcase (status (s_ "VBoxManage") [s_ "convertfromraw"; r; v; s_ "--format"; s_ "VDI"]) ret (fun e =>
    if io_not_found e then
      eprintln (prog ++ s_ ": VBoxManage not found on PATH.") ;;;
      eprintln (s_ "install VirtualBox (e.g. `sudo apt install virtualbox`) and retry.") ;;;
      eprintln (s_ "the raw disk is preserved at: " ++ display raw) ;;;
      throw 1
    else
      eprintln (prog ++ s_ ": failed to spawn VBoxManage: " ++ io_text e) ;;;
      throw 1) in
  if success s then ret tt
  else
    eprintln (prog ++ s_ ": VBoxManage convertfromraw exited " ++ status_text s) ;;;
    throw 1.

Definition vbox_lines (vdi_str data_vdi_str : str) : list str :=
  [[];
   s_ "[willo] boot VDI: " ++ vdi_str;
   s_ "[willo] data VDI: " ++ data_vdi_str;
   s_ "[willo] copy-paste these commands to register and boot in VirtualBox:";
   [];
   s_ "  VBoxManage createvm --name Willo --ostype Other_64 --register";
   s_ "  VBoxManage modifyvm Willo --memory 256 --firmware bios \" ++ NL ++
     s_ "    --boot1 disk --boot2 none --boot3 none --boot4 none";
   s_ "  VBoxManage storagectl Willo --name IDE --add ide \" ++ NL ++ s_ "    --controller PIIX4 --bootable on";
   s_ "  VBoxManage storageattach Willo --storagectl IDE --port 0 --device 0 \" ++ NL ++
     s_ "    --type hdd --medium " ++ vdi_str;
   s_ "  VBoxManage storageattach Willo --storagectl IDE --port 0 --device 1 \" ++ NL ++
     s_ "    --type hdd --medium " ++ data_vdi_str;
   s_ "  VBoxManage startvm Willo";
   [];
   s_ "  # teardown later:";
   s_ "  VBoxManage unregistervm Willo --delete";
   [];
   s_ "note: the kernel uses QEMU's isa-debug-exit (port 0xf4) to exit.";
   s_ "      VirtualBox doesn't wire that port, so on Success/Failed the";
   s_ "      kernel will idle in a nop loop. Power-off the VM to stop."].

Definition run_vbox_mode (prog raw data : str) : Run unit :=
  let vdi := path_join temp_dir (s_ "willo-" ++ dec pid ++ s_ ".vdi") in
  let data_vdi := path_join temp_dir (s_ "willo-" ++ dec pid ++ s_ "-data.vdi") in
  remove_file vdi ;;;
  remove_file data_vdi ;;;
  convert_to_vdi prog raw vdi ;;;
  convert_to_vdi prog data data_vdi ;;;
  for_each (vbox_lines (display vdi) (display data_vdi)) println ;;;
  throw 0.

(** ** [main] *)

Definition disk_path : str := path_join temp_dir (s_ "willo-" ++ dec pid ++ s_ ".img").
Definition data_path (persist : bool) : str :=
  if persist then path_join temp_dir (s_ "willo-persist-data.img")
  else path_join temp_dir (s_ "willo-" ++ dec pid ++ s_ "-data.img").

Definition qemu_args (disk data : str) (headless : bool) : list str :=
  [s_ "-drive"; s_ "file=" ++ display disk ++ s_ ",if=ide,index=0,format=raw";
   s_ "-drive"; s_ "file=" ++ display data ++ s_ ",if=ide,index=1,format=raw";
   s_ "-no-reboot";
   s_ "-device"; s_ "isa-debug-exit,iobase=0xf4,iosize=0x04";
   s_ "-m"; s_ "256M"] ++
  if headless then [s_ "-display"; s_ "none"; s_ "-serial"; s_ "stdio"]
  else [s_ "-serial"; s_ "mon:stdio"].

(** The data disk: reused, or built afresh. *)
Definition prepare_data (prog : str) (persist : bool) (data : str) : Run unit :=
  let* ex := path_exists data in
  if negb persist || negb ex then
    mcase (build_data_disk data) ret (fun e =>
      eprintln (prog ++ s_ ": failed to build FAT data disk: " ++ e) ;;; throw 1) ;;;
    (if persist then eprintln (s_ "[willo] new persistent data disk: " ++ display data) else ret tt)
  else eprintln (s_ "[willo] reusing persistent data disk: " ++ display data).

(** The two clean-up blocks. *)
Definition cleanup (keep_disk persist : bool) (disk data : str) : Run unit :=
  if keep_disk then ret tt
  else remove_file disk ;;; (if persist then ret tt else remove_file data).

(** The informational file-system check after the FAT write test. *)
Definition post_fsck (is_test : bool) (kernel data : str) (st : ExitStatus) : Run unit :=
  let* ex := path_exists data in
  if is_test && bool_decide (code st = Some QEMU_EXIT_SUCCESS) && is_fat_write_test kernel && ex then
    let* d := to_str_expect data in
    mcase (status (s_ "fsck.fat") [s_ "-nv"; d])
      (fun s =>
         if success s then eprintln (s_ "[willo] fsck.fat -nv: clean")
         else eprintln (s_ "[willo] fsck.fat -nv reported errors (exit " ++ status_text s
                        ++ s_ "); see host-builder note in src/main.rs."))
      (fun e =>
         if io_not_found e then eprintln (s_ "[willo] fsck.fat not on PATH; skipping post-test fsck")
         else eprintln (s_ "[willo] failed to spawn fsck.fat: " ++ io_text e))
  else ret tt.

(** The final match on QEMU's exit code. *)
Definition exit_with (c : option Z) : Run unit :=
  match c with
  | Some n =>
      if n =? QEMU_EXIT_SUCCESS then throw 0
      else if n =? QEMU_EXIT_FAILED then
        eprintln (s_ "[willo] kernel reported FAILED via isa-debug-exit") ;;; throw 1
      else if n =? 0 then throw 0
      else throw n
  | None => throw 1
  end.

Definition main (args : list str) (env : Env) : Run unit :=
  let prog := default (s_ "willo") (args !! 0%nat) in
  match args !! 1%nat with
  | None =>
      eprintln (s_ "usage: " ++ prog ++ s_ " <kernel-elf>") ;;;
      eprintln [] ;;;
      eprintln (s_ "typical invocation: cargo run -p kernel --target x86_64-unknown-none") ;;;
      eprintln (s_ "(cargo invokes this runner with the kernel ELF path as argv[1])") ;;;
      throw 2
  | Some kernel =>
      let* ex := path_exists kernel in
      if negb ex then eprintln (prog ++ s_ ": kernel ELF not found: " ++ display kernel) ;;; throw 2
      else
        let is_test := is_test_binary kernel in
        let headless := willo_headless env || (is_test && negb (willo_gui env)) in
        let keep_disk := willo_keep_disk env in
        let persist := willo_persist env in
        let disk := disk_path in
        let data := data_path persist in
        mcase (on_files (create_disk_image kernel disk)) ret (fun e =>
          eprintln (prog ++ s_ ": failed to build disk image: " ++ e) ;;; throw 1) ;;;
        prepare_data prog persist data ;;;
        (if willo_vbox env then run_vbox_mode prog disk data else ret tt) ;;;
        (if negb is_test && negb headless
         then eprintln (s_ "[willo] running " ++ display kernel ++ s_ " in QEMU (Ctrl+A then X to exit)")
         else ret tt) ;;;
        let* st := mcase (status (s_ "qemu-system-x86_64") (qemu_args disk data headless)) ret (fun e =>
          eprintln (prog ++ s_ ": failed to spawn qemu-system-x86_64: " ++ io_text e) ;;;
          cleanup keep_disk persist disk data ;;;
          throw 1) in
        post_fsck is_test kernel data st ;;;
        cleanup keep_disk persist disk data ;;;
        exit_with (code st)
  end.

End runner.

(** ** Where the disks are *)

Lemma pretty_go_digits x s :
  "-"%char ∉ String.list_ascii_of_string s -> "-"%char ∉ String.list_ascii_of_string (pretty_N_go x s).
Proof.
  revert s. induction (N.lt_wf_0 x) as [x _ IH]; intros s Hs.
  destruct (decide (x = 0)%N) as [->|Hx]; [by rewrite pretty_N_go_0|].
  rewrite pretty_N_go_step by lia. apply IH; [apply N.div_lt; lia|].
  cbn. rewrite not_elem_of_cons. split; [|done]. unfold pretty_N_char. by repeat case_match.
Qed.

(** A number is written without dashes. *)
Lemma dec_no_dash n : "-"%byte ∉ dec n.
Proof.
  intros Hin. apply list_elem_of_In, in_map_iff in Hin as (a & Ha & Hin).
  apply (f_equal ascii_of_byte) in Ha. rewrite ascii_of_byte_of_ascii in Ha. subst a.
  apply list_elem_of_In in Hin. revert Hin. unfold pretty, pretty_N. case_decide.
  - rewrite list_elem_of_In. cbn. intros [|[]]. discriminate.
  - apply pretty_go_digits. apply not_elem_of_nil.
Qed.

Lemma path_join_inj dir a b : path_join dir a = path_join dir b -> a = b.
Proof.
  unfold path_join. destruct (ends_with _ _); intros Hj%app_inv_head; [done|]. by apply app_inv_head in Hj.
Qed.

Lemma disk_not_data temp_dir pid persist : disk_path temp_dir pid <> data_path temp_dir pid persist.
Proof.
  assert (forall r, "-"%byte ∈ r -> s_ "willo-" ++ dec pid ++ s_ ".img" <> s_ "willo-" ++ r) as Hne.
  { intros r Hr He%app_inv_head. rewrite <- He, elem_of_app in Hr. destruct Hr as [Hr|Hr].
    - by apply dec_no_dash in Hr.
    - revert Hr. apply (bool_decide_unpack _). reflexivity. }
  unfold disk_path, data_path. destruct persist; intros He%path_join_inj; revert He.
  - apply (Hne (s_ "persist-data.img")). apply (bool_decide_unpack _). reflexivity.
  - apply (Hne (dec pid ++ s_ "-data.img")). rewrite elem_of_app. right. apply (bool_decide_unpack _). reflexivity.
Qed.

(** ** Runs that reach QEMU *)

(** The image builder writes its target only, and running a program yields a status or an error. *)
Class HostToolsSpec (B : Type) `{HostTools B} : Prop := {
  image_frame kernel p fs r fs' :
    create_disk_image kernel p fs = (r, fs') -> forall q, q <> p -> fs' !! q = fs !! q;
  command_returns prog args fs : good (fun _ => True) (fst (command_status prog args fs));
}.

(** QEMU's documentation of [isa-debug-exit]: a value written to the port becomes this exit code. *)
Definition debug_exit_code (value : Z) : Z := Z.lor (Z.shiftl value 1) 1.

(** The runner's own exit code. *)
Definition runner_code (c : option Z) : Z :=
  match c with
  | Some n => if (n =? QEMU_EXIT_SUCCESS) || (n =? 0) then 0 else if n =? QEMU_EXIT_FAILED then 1 else n
  | None => 1
  end.

Section runs.
Context {B V : Type} `{HTS : HostToolsSpec B} `{FF : Fatfs B V}.
Context (temp_dir : str) (pid : Z).
Abbreviation disk := (disk_path temp_dir pid).
Abbreviation data := (data_path temp_dir pid).
Abbreviation main := (main (V:=V) temp_dir pid).

(** The files once both disks are ready, and the contents the data disk then has. *)
Definition prepared (kernel : str) (persist : bool) (fs fs1 : gmap str B) : Prop :=
  exists f1, create_disk_image kernel disk fs = (Ok tt, f1) /\
    if persist && (if f1 !! data persist is Some _ then true else false) then fs1 = f1
    else open_refused (data persist) = None /\
      exists b, format_and_seed (V:=V) empty_file = (Ok tt, b) /\ fs1 = <[data persist := b]> (delete (data persist) f1).

(** QEMU's arguments in a run. *)
Definition launch_args (kernel : str) (env : Env) : list str :=
  qemu_args disk (data (willo_persist env))
    (willo_headless env || (is_test_binary kernel && negb (willo_gui env))).

(** What is left of [main] once QEMU has been started on the files [fs1]. *)
Definition after_launch (prog kernel : str) (env : Env) : M (Host B) Z unit :=
  let d := data (willo_persist env) in
  let* st := mcase (status (s_ "qemu-system-x86_64") (launch_args kernel env)) ret (fun e =>
    eprintln (prog ++ s_ ": failed to spawn qemu-system-x86_64: " ++ io_text e) ;;;
    cleanup (willo_keep_disk env) (willo_persist env) disk d ;;;
    throw 1) in
  post_fsck (is_test_binary kernel) kernel d st ;;;
  cleanup (willo_keep_disk env) (willo_persist env) disk d ;;;
  exit_with (code st).

Lemma prepare_data_ok prog persist f1 fs1 e o l :
  (if persist && (if f1 !! data persist is Some _ then true else false) then fs1 = f1
   else open_refused (data persist) = None /\
     exists b, format_and_seed (V:=V) empty_file = (Ok tt, b) /\ fs1 = <[data persist := b]> (delete (data persist) f1)) ->
  exists e', prepare_data (V:=V) prog persist (data persist) (mkHost f1 e o l) = (Ok tt, mkHost fs1 e' o l).
Proof.
  unfold prepare_data, path_exists, bind at 1. cbn [files].
  destruct (persist && _) eqn:Ep; intros Hp.
  - apply andb_prop in Ep as [-> Hd]. subst fs1. rewrite Hd. by eexists.
  - destruct Hp as (Ho & b & Hb & ->). apply andb_false_iff in Ep.
    replace (negb persist || negb (if f1 !! data persist is Some _ then true else false)) with true
      by (destruct Ep as [->| ->]; [done|by rewrite orb_true_r]).
    assert (build_data_disk (V:=V) (data persist) (mkHost f1 e o l)
      = (Ok tt, mkHost (<[data persist := b]> (delete (data persist) f1)) e o l)) as Hbd.
    { unfold build_data_disk, bind, remove_file, on_files. cbn [files]. by rewrite Ho, Hb. }
    unfold bind at 1, mcase at 1. rewrite Hbd. cbn [ret]. destruct persist; by eexists.
Qed.

Lemma main_launches prog kernel rest env (h : Host B) fs1 :
  is_Some (files h !! kernel) -> willo_vbox env = false -> prepared kernel (willo_persist env) (files h) fs1 ->
  exists e, main (prog :: kernel :: rest) env h =
    after_launch prog kernel env (mkHost fs1 e (stdout h) (started h)).
Proof.
  destruct h as [fs se so l]. cbn [files stdout started]. intros [kb Hk] Hv (f1 & Hi & Hp).
  destruct (prepare_data_ok prog _ _ _ se so l Hp) as [e He].
  unfold main, Runner.main. cbn [lookup list_lookup default]. unfold bind at 1, path_exists. cbn [files].
  rewrite Hk. cbn [negb]. unfold bind at 1, mcase at 1, on_files. cbn [files]. rewrite Hi. cbn [ret].
  rewrite (bind_ok _ _ _ _ _ He), Hv, bind_ret.
  destruct (negb _ && negb _); eexists; reflexivity.
Qed.

(** What [cleanup] leaves. *)
Definition cleaned (keep persist : bool) (fs : gmap str B) : gmap str B :=
  if keep then fs else if persist then delete disk fs else delete (data persist) (delete disk fs).

Lemma cleanup_ok keep persist (h : Host B) :
  cleanup keep persist disk (data persist) h =
    (Ok tt, mkHost (cleaned keep persist (files h)) (stderr h) (stdout h) (started h)).
Proof.
  destruct h. by destruct keep, persist.
Qed.

Lemma exit_with_ok c (h : Host B) :
  exists e, exit_with c h = (Err (runner_code c), mkHost (files h) e (stdout h) (started h)).
Proof.
  destruct h as [fs e o l]. unfold exit_with, runner_code. destruct c as [n|]; [|by eexists].
  destruct (Z.eqb_spec n QEMU_EXIT_SUCCESS); [by eexists|].
  destruct (Z.eqb_spec n QEMU_EXIT_FAILED) as [->|]; [by eexists|].
  destruct (n =? 0); by eexists.
Qed.

(** The files QEMU left, after the check of the data disk if there was one. *)
Definition checked (persist : bool) (fs2 fs3 : gmap str B) : Prop :=
  fs3 = fs2 \/ exists r, command_status (s_ "fsck.fat") [s_ "-nv"; data persist] fs2 = (r, fs3).

Lemma post_fsck_ok is_test kernel persist st (h : Host B) :
  is_Some (utf8_decode (data persist)) ->
  exists e fs l, post_fsck is_test kernel (data persist) st h = (Ok tt, mkHost fs e (stdout h) (started h ++ l)) /\
    checked persist (files h) fs.
Proof.
  destruct h as [fs e o l]. cbn [stdout started]. intros [cs Hu].
  unfold post_fsck, bind at 1, path_exists. destruct (_ && _ && _ && _).
  - unfold to_str_expect. rewrite Hu, bind_ret. unfold mcase, status, on_files. cbn [files].
    pose proof (command_returns (s_ "fsck.fat") [s_ "-nv"; data persist] fs) as Hg.
    assert (checked persist fs (snd (command_status (s_ "fsck.fat") [s_ "-nv"; data persist] fs))) as Hc
      by (right; eexists; apply surjective_pairing).
    destruct (command_status _ _ fs) as [[st'|er| |] fs']; try done.
    + destruct (success st'); eexists _, _, [_]; by split.
    + destruct (io_not_found er); eexists _, _, [_]; by split.
  - eexists _, _, []. rewrite app_nil_r. split; [done|]. by left.
Qed.

(** The rest of a run, once the disks are ready. *)
Lemma after_launch_ok prog kernel env (h : Host B) :
  is_Some (utf8_decode (data (willo_persist env))) ->
  exists r fs2, command_status (s_ "qemu-system-x86_64") (launch_args kernel env) (files h) = (r, fs2) /\
    exists fs3 e l, checked (willo_persist env) fs2 fs3 /\ after_launch prog kernel env h =
      (Err (match r with Ok st => runner_code (code st) | _ => 1 end),
       mkHost (cleaned (willo_keep_disk env) (willo_persist env) fs3) e (stdout h)
              (started h ++ mkLaunch (s_ "qemu-system-x86_64") (launch_args kernel env) (files h) :: l)).
Proof.
  destruct h as [fs e o l]. cbn [files stdout started]. intros Hu.
  pose proof (command_returns (s_ "qemu-system-x86_64") (launch_args kernel env) fs) as Hg.
  destruct (command_status _ _ fs) as [r fs2] eqn:Ec. eexists r, fs2. split; [done|].
  unfold after_launch, bind at 1, mcase, status, on_files. cbn [files]. rewrite Ec.
  destruct r as [st|er| |]; try done; cbn [ret].
  - set (h1 := mkHost _ _ _ _).
    destruct (post_fsck_ok (is_test_binary kernel) kernel (willo_persist env) st h1 Hu) as (e1 & fs3 & l1 & E1 & Hc).
    rewrite (bind_ok _ _ _ _ _ E1), (bind_ok _ _ _ _ _ (cleanup_ok _ _ _)). cbn [files stdout stderr started h1].
    destruct (exit_with_ok (code st) (mkHost (cleaned (willo_keep_disk env) (willo_persist env) fs3) e1 o
      ((l ++ [mkLaunch (s_ "qemu-system-x86_64") (launch_args kernel env) fs]) ++ l1))) as [e2 ->].
    eexists fs3, e2, l1. split; [done|]. by rewrite <- app_assoc.
  - unfold bind at 1, eprintln at 1. rewrite (bind_ok _ _ _ _ _ (cleanup_ok _ _ _)). eexists fs2, _, []. split; [by left|done].
Qed.

(** C19: the runner reports the kernel's verdict. In a run that reaches QEMU, the runner exits with code 0
    when the guest left through the debug-exit port with the success code, with code 1 when it left with
    the failure code or QEMU could not be started or was killed, and passes any other exit code on;
    clean-up and the file-system check never change the verdict. *)
Theorem runner_reports_verdict prog kernel rest env (h : Host B) fs1 :
  is_Some (files h !! kernel) -> willo_vbox env = false -> prepared kernel (willo_persist env) (files h) fs1 ->
  is_Some (utf8_decode (data (willo_persist env))) ->
  let qemu := fst (command_status (s_ "qemu-system-x86_64") (launch_args kernel env) fs1) in
  let verdict := fst (main (prog :: kernel :: rest) env h) in
  (forall c, (code <$> match qemu with Ok st => Some st | _ => None end) = Some (Some (debug_exit_code (qemu_code c))) ->
     verdict = Err (match c with Success => 0 | Failed => 1 end)) /\
  (forall st n, qemu = Ok st -> code st = Some n -> n <> QEMU_EXIT_SUCCESS -> n <> QEMU_EXIT_FAILED -> verdict = Err n) /\
  (forall st, qemu = Ok st -> code st = None -> verdict = Err 1) /\
  (forall e, qemu = Err e -> verdict = Err 1).
Proof.
  intros Hk Hv Hp Hu. destruct (main_launches prog kernel rest env h fs1 Hk Hv Hp) as [e ->].
  destruct (after_launch_ok prog kernel env (mkHost fs1 e (stdout h) (started h)) Hu)
    as (r & fs2 & Ec & fs3 & e' & l & Hch & ->). cbn [files] in Ec. rewrite Ec. cbn [fst].
  split; [|split; [|split]].
  - intros c Hc. destruct r as [st| | |]; try discriminate. injection Hc as ->. by destruct c.
  - intros st n -> Hn H1 H2. unfold runner_code. rewrite Hn.
    rewrite (proj2 (Z.eqb_neq _ _) H1), (proj2 (Z.eqb_neq _ _) H2). by destruct (Z.eqb_spec n 0) as [->|].
  - by intros st -> ->.
  - by intros er ->.
Qed.

(** C18: the life of the disk images, in a run that finds its kernel, could build its disks and is not in
    VirtualBox mode. QEMU is started exactly once before anything else, on a boot image
    and a data disk: the persistent one with the contents it had, when there is one and it was asked
    for, and a freshly seeded one otherwise; no other file was touched until then. Afterwards, whatever
    QEMU answered, the boot image is gone and so is a data disk of this run, unless keeping them was
    asked for; a persistent data disk is never deleted by the clean-up. *)
Theorem runner_disk_lifecycle prog kernel rest env (h : Host B) fs1 :
  is_Some (files h !! kernel) -> willo_vbox env = false -> prepared kernel (willo_persist env) (files h) fs1 ->
  is_Some (utf8_decode (data (willo_persist env))) ->
  (forall b, willo_persist env = true -> files h !! data true = Some b -> fs1 !! data true = Some b) /\
  (willo_persist env = false -> exists b, format_and_seed (V:=V) empty_file = (Ok tt, b) /\ fs1 !! data false = Some b) /\
  (forall q, q <> disk -> q <> data (willo_persist env) -> fs1 !! q = files h !! q) /\
  exists rq fs2 fs3 r h' l,
    command_status (s_ "qemu-system-x86_64") (launch_args kernel env) fs1 = (rq, fs2) /\
    checked (willo_persist env) fs2 fs3 /\
    main (prog :: kernel :: rest) env h = (r, h') /\
    started h' = started h ++ mkLaunch (s_ "qemu-system-x86_64") (launch_args kernel env) fs1 :: l /\
    files h' = cleaned (willo_keep_disk env) (willo_persist env) fs3 /\
    (willo_keep_disk env = false -> files h' !! disk = None /\ (willo_persist env = false -> files h' !! data false = None)) /\
    (willo_persist env = true -> files h' !! data true = fs3 !! data true).
Proof.
  intros Hk Hv Hp Hu. destruct (main_launches prog kernel rest env h fs1 Hk Hv Hp) as [e ->].
  destruct (after_launch_ok prog kernel env (mkHost fs1 e (stdout h) (started h)) Hu)
    as (r & fs2 & Ec & fs3 & e' & l & Hch & ->). destruct Hp as (f1 & Hi & Hp).
  pose proof (image_frame _ _ _ _ _ Hi) as Hfr. pose proof (disk_not_data temp_dir pid) as Hdd.
  split; [|split; [|split]].
  - intros b Hpe Hb. rewrite Hpe in Hp. rewrite (Hfr (data true)), Hb in Hp by (by intros Heq; apply (Hdd true)).
    cbn in Hp. subst fs1. by rewrite Hfr by (by intros Heq; apply (Hdd true)).
  - intros Hpe. rewrite Hpe in Hp. destruct Hp as (_ & b & Hb & ->). exists b. by rewrite lookup_insert_eq.
  - intros q Hq1 Hq2. destruct (willo_persist env && _).
    + subst fs1. by apply Hfr.
    + destruct Hp as (_ & b & _ & ->). rewrite lookup_insert_ne, lookup_delete_ne by done. by apply Hfr.
  - eexists r, fs2, fs3, _, _, l. split; [done|]. split; [done|]. split; [reflexivity|]. cbn [files started]. split; [done|]. split; [done|]. split.
    + intros ->. unfold cleaned. destruct (willo_persist env).
      * by rewrite lookup_delete_eq.
      * rewrite lookup_delete_ne, !lookup_delete_eq by (by intros Heq; apply (Hdd false)). done.
    + intros ->. unfold cleaned. destruct (willo_keep_disk env); [done|]. by rewrite lookup_delete_ne.
Qed.

End runs.

(** ** The seeded volume *)

(** The [fatfs] crate's documentation, for calls that succeed: a formatted volume is empty, creating
    adds an empty file or directory under a name that is free, and writing to a new file sets its
    contents. A directory maps to [None], a file to its bytes. *)
Class FatfsSpec (B V : Type) `{Fatfs B V} : Type := {
  ff_tree : V -> gmap (list str) (option bytes);
  ff_new_empty b b1 v : ff_format b = (Ok tt, b1) -> ff_new b1 = Ok v -> ff_tree v = ∅;
  ff_create_file_ok dir name v f v' :
    ff_create_file dir name v = (Ok f, v') -> ff_tree v !! (dir ++ [name]) = None ->
    f = dir ++ [name] /\ ff_tree v' = <[dir ++ [name] := Some []]> (ff_tree v);
  ff_create_dir_ok dir name v f v' :
    ff_create_dir dir name v = (Ok f, v') -> ff_tree v !! (dir ++ [name]) = None ->
    f = dir ++ [name] /\ ff_tree v' = <[dir ++ [name] := None]> (ff_tree v);
  ff_write_all_ok f data v v' :
    ff_write_all f data v = (Ok tt, v') -> ff_tree v !! f = Some (Some []) ->
    ff_tree v' = <[f := Some data]> (ff_tree v);
  ff_flush_ok f v v' : ff_flush f v = (Ok tt, v') -> ff_tree v' = ff_tree v;
  ff_unmount_ok v v' : ff_unmount v = (Ok tt, v') -> ff_tree v' = ff_tree v;
}.

(** The tree the data disk is meant to hold. *)
Definition data_tree : gmap (list str) (option bytes) := {[
  [s_ "welcome.txt"] := Some welcome_txt;
  [s_ "etc"] := None;
  [s_ "etc"; s_ "version"] := Some version_txt;
  [s_ "etc"; s_ "motd"] := Some motd_txt;
  [s_ "bin"] := None ]}.

Lemma data_tree_lookup p e :
  data_tree !! p = Some e ->
  p = [s_ "welcome.txt"] /\ e = Some welcome_txt \/ p = [s_ "etc"] /\ e = None \/
  p = [s_ "etc"; s_ "version"] /\ e = Some version_txt \/ p = [s_ "etc"; s_ "motd"] /\ e = Some motd_txt \/
  p = [s_ "bin"] /\ e = None.
Proof.
  unfold data_tree. rewrite !lookup_insert_Some, lookup_singleton_Some. clear. naive_solver.
Qed.

Section seeded.
Context {B V : Type} `{HT : HostTools B} `{FFS : FatfsSpec B V}.

(** One file of the seed: created, written, flushed. *)
Lemma seed_file_inv {A} dir name data (k : list str -> M V str A) v a v' :
  ff_tree v !! (dir ++ [name]) = None ->
  (let* f := ff_create_file dir name in ff_write_all f data ;;; ff_flush f ;;; k f) v = (Ok a, v') ->
  exists v1, ff_tree v1 = <[dir ++ [name] := Some data]> (ff_tree v) /\ k (dir ++ [name]) v1 = (Ok a, v').
Proof.
  intros Hn (f & v1 & E1 & (u2 & v2 & E2 & (u3 & v3 & E3 & E4)%bind_inv_ok)%bind_inv_ok)%bind_inv_ok.
  apply ff_create_file_ok in E1 as [-> T1]; [|done]. destruct u2, u3.
  apply ff_write_all_ok in E2; [|by rewrite T1, lookup_insert_eq]. apply ff_flush_ok in E3.
  exists v3. split; [|done]. by rewrite E3, E2, T1, insert_insert_eq.
Qed.

Lemma seed_volume_tree v v' :
  ff_tree v = ∅ -> seed_volume v = (Ok tt, v') -> ff_tree v' = data_tree.
Proof.
  intros T0 E. unfold seed_volume in E.
  apply seed_file_inv in E as (v1 & T1 & E); [|by rewrite T0]. rewrite T0 in T1.
  apply bind_inv_ok in E as (etc & v2 & E2 & E). apply ff_create_dir_ok in E2 as [-> T2]; [|by rewrite T1].
  rewrite T1 in T2. apply seed_file_inv in E as (v3 & T3 & E); [|by rewrite T2]. rewrite T2 in T3.
  apply seed_file_inv in E as (v4 & T4 & E); [|by rewrite T3]. rewrite T3 in T4.
  apply bind_inv_ok in E as (bin & v5 & E5 & E). apply ff_create_dir_ok in E5 as [_ T5]; [|by rewrite T4].
  apply ff_unmount_ok in E. rewrite E, T5, T4. apply (bool_decide_unpack _). vm_compute. reflexivity.
Qed.

(** C30: the data disk holds what the kernel expects. When [build_data_disk] succeeds, the only file
    written is the disk image, and the volume in it holds exactly the three text files and two
    directories of the seed; every name on it fits the kernel's 8.3 reader, and the kernel's built-in
    fallback tree serves the very same contents under the same paths. *)
Theorem data_disk_seeded path (h h' : Host B) :
  build_data_disk (V:=V) path h = (Ok tt, h') ->
  (exists v : V, files h' = <[path := ff_close v]> (files h) /\ ff_tree v = data_tree) /\
  (forall p e, data_tree !! p = Some e -> Forall (fun n => plain_name n /\ fits_83 n) p) /\
  (forall p data D C (w : Devices D C), data_tree !! p = Some (Some data) ->
     fst (ram_read_file (slashed p) (seed, w)) = Ok data).
Proof.
  intros E. split; [|split].
  - unfold build_data_disk, bind, remove_file, on_files in E. cbn [files] in E.
    destruct (open_refused path); [discriminate|]. destruct (format_and_seed empty_file) as [r b] eqn:Ef.
    injection E as -> <-. cbn [files].
    unfold format_and_seed in Ef. apply bind_inv_ok in Ef as ([] & b1 & _ & Ef). apply bind_inv_ok in Ef as ([] & b2 & Ef & Ev).
    unfold with_volume in Ev. destruct (ff_new b2) as [v| | |] eqn:En; try discriminate.
    destruct (seed_volume v) as [r v'] eqn:Es. injection Ev as -> <-. exists v'.
    split; [by rewrite insert_delete_eq|]. eapply seed_volume_tree; [|done]. by eapply ff_new_empty.
  - intros p e [[-> _]|[[-> _]|[[-> _]|[[-> _]|[-> _]]]]]%data_tree_lookup;
      repeat constructor; try discriminate; by repeat apply Forall_cons_2.
  - intros p data D C w [[-> [= ->]]|[[-> ?]|[[-> [= ->]]|[[-> [= ->]]|[-> ?]]]]]%data_tree_lookup; done.
Qed.

End seeded.

(** ** A small host *)

Module small_host.

(** File contents are trees; nothing can be created as a data disk under [/ro]. QEMU and fsck succeed. *)
Abbreviation Tree := (gmap (list str) (option bytes)).

#[local] Instance tools : HostTools Tree := {
  empty_file := ∅;
  set_len _ b := Ok b;
  open_refused p := if starts_with (s_ "/ro") p then Some (s_ "read-only") else None;
  create_disk_image _ p fs := (Ok tt, <[p := ∅]> fs);
  command_status prog _ fs :=
    (Ok (mkStatus (Some (if decide (prog = s_ "qemu-system-x86_64") then debug_exit_code 0x10 else 0)) []), fs);
  display p := p;
}.

#[local] Instance tools_spec : HostToolsSpec Tree.
Proof.
  split; [|done]. intros kernel p fs r fs' [= <- <-] q Hq. by rewrite lookup_insert_ne.
Qed.

Definition add (p : list str) (e : option bytes) (v : Tree) : Tree :=
  if v !! p is Some _ then v else <[p := e]> v.

#[local] Instance tree_fatfs : Fatfs Tree Tree := {
  ff_format _ := (Ok tt, ∅);
  ff_new b := Ok b;
  ff_create_file dir name v := (Ok (dir ++ [name]), add (dir ++ [name]) (Some []) v);
  ff_create_dir dir name v := (Ok (dir ++ [name]), add (dir ++ [name]) None v);
  ff_write_all f data v := (Ok tt, <[f := Some data]> v);
  ff_flush _ v := (Ok tt, v);
  ff_unmount v := (Ok tt, v);
  ff_close v := v;
}.

#[local] Program Instance tree_fatfs_spec : FatfsSpec Tree Tree := { ff_tree v := v }.
Next Obligation.
  by intros b b1 v [= <-] [= <-].
Qed.
Next Obligation.
  intros dir name v f v' [= <- <-] Hn. unfold add. by rewrite Hn.
Qed.
Next Obligation.
  intros dir name v f v' [= <- <-] Hn. unfold add. by rewrite Hn.
Qed.
Next Obligation.
  by intros f data v v' [= <-] _.
Qed.
Next Obligation.
  by intros f v v' [= <-].
Qed.
Next Obligation.
  by intros v v' [= <-].
Qed.

Definition elf : str := s_ "/w/target/x86_64-unknown-none/debug/deps/fat_write-1f".
Definition host : Host Tree := mkHost {[elf := ∅]} [] [] [].
Definition no_env : Env := mkEnv false false false false false.

(** The files QEMU finds. *)
Definition ready : gmap str Tree :=
  {[elf := ∅; disk_path (s_ "/tmp") 7 := ∅; data_path (s_ "/tmp") 7 false := data_tree]}.

Lemma ready_prepared : prepared (V:=Tree) (s_ "/tmp") 7 elf false (files host) ready.
Proof.
  eexists. split; [reflexivity|]. split; [reflexivity|]. eexists. split; [reflexivity|].
  apply (bool_decide_unpack _). vm_compute. reflexivity.
Qed.

Lemma runner_reports_verdict_witness :
  fst (main (V:=Tree) (s_ "/tmp") 7 [s_ "willo"; elf] no_env host) = Err 0.
Proof.
  destruct (runner_reports_verdict (V:=Tree) (s_ "/tmp") 7 (s_ "willo") elf [] no_env host ready) as [Hc _].
  - by eexists.
  - reflexivity.
  - exact ready_prepared.
  - by eexists.
  - exact (Hc Success eq_refl).
Defined.

Lemma runner_disk_lifecycle_witness :
  exists r h', main (V:=Tree) (s_ "/tmp") 7 [s_ "willo"; elf] no_env host = (r, h') /\
    files h' !! disk_path (s_ "/tmp") 7 = None /\ files h' !! data_path (s_ "/tmp") 7 false = None.
Proof.
  destruct (runner_disk_lifecycle (V:=Tree) (s_ "/tmp") 7 (s_ "willo") elf [] no_env host ready)
    as (_ & _ & _ & rq & fs2 & fs3 & r & h' & l & _ & _ & E & _ & _ & K & _).
  - by eexists.
  - reflexivity.
  - exact ready_prepared.
  - by eexists.
  - destruct (K eq_refl) as [K1 K2]. exists r, h'. split; [exact E|]. split; [exact K1|exact (K2 eq_refl)].
Defined.

Lemma data_disk_seeded_witness :
  exists v : Tree, files (snd (build_data_disk (V:=Tree) (s_ "/d.img") host)) = <[s_ "/d.img" := v]> (files host) /\
    v = data_tree.
Proof.
  destruct (data_disk_seeded (V:=Tree) (s_ "/d.img") host (snd (build_data_disk (V:=Tree) (s_ "/d.img") host))) as [Hv _].
  - reflexivity.
  - exact Hv.
Defined.

(** A run that cannot build its data disk ends with code 1 and leaves the boot image behind, although
    keeping the images was not asked for. *)
Lemma failed_build_leaves_image :
  let '(r, h') := main (V:=Tree) (s_ "/ro") 7 [s_ "willo"; elf] no_env host in
  r = Err 1 /\ files h' !! disk_path (s_ "/ro") 7 = Some ∅.
Proof.
  split; reflexivity.
Qed.

(** How binaries are told apart. *)
Lemma test_binaries :
  is_test_binary elf = true /\ is_fat_write_test elf = true /\
  is_test_binary (s_ "target/debug/kernel") = false /\ is_test_binary (s_ "deps/") = false /\
  is_test_binary (s_ "./deps//./shell-2a/") = true /\ is_test_binary (s_ "deps/..") = true.
Proof.
  vm_compute. repeat split.
Qed.

End small_host.
